(** * Logic gate node editor: circuit graph, propagation, persistence,
      clipboard and undo commands.

    Shallow embedding of [Node-Editor/complete_logic_gate_simulator.py]
    (module [Complete]) and of the two earlier variants kept beside it in
    [Small Implement files with errors/] (modules [Small] and [Simple]).

    Python objects with identity and mutable fields live in a store:
    - a node is an index into the node store [list Node] (objects are only
      ever allocated, never freed, so [id(node)] is the index);
    - a socket is owned by one node and sits in one of its two socket lists,
      so it is named by a [SocketRef] (owner, direction, index);
    - a wire never changes its two end points after construction, so it is
      held by value together with its identity [wire_id]; identity tests
      ([self in socket.wires], [list.remove]) compare [wire_id].

    Scene coordinates are Qt reals; the code only copies them and adds
    constant offsets, so they are taken as integers here. *)

From stdpp Require Import base option list strings gmap.
From Stdlib Require Import ZArith Lia.

Open Scope Z_scope.
Open Scope nat_scope.

(** Outcome of a call that may exceed Python's recursion limit. Mutations
    made before the exception was raised stay in the store. *)
Inductive outcome := Done | RecursionError.

#[global] Instance outcome_eq_dec : EqDecision outcome.
Proof. solve_decision. Defined.

(** Python's short-circuit operators on booleans. *)
Definition py_and (a b : bool) : bool := if a then b else a.
Definition py_or (a b : bool) : bool := if a then a else b.
Definition py_ne (a b : bool) : bool := negb (Bool.eqb a b).
Definition py_eq (a b : bool) : bool := Bool.eqb a b.

(** The seven gate types of the truth table. *)
Inductive Gate := And | Or | Not | Nand | Nor | Xor | Xnor.

(** The truth table of the specification (inputs [a], [b]; [Not] ignores
    [b]). *)
Definition truth_table (g : Gate) (a b : bool) : bool :=
  match g with
  | And => a && b
  | Or => a || b
  | Not => negb a
  | Nand => negb (a && b)
  | Nor => negb (a || b)
  | Xor => bool_decide (a ≠ b)
  | Xnor => bool_decide (a = b)
  end.

Module Complete.

(** ** Data model *)

Inductive NodeClass :=
  | InputNode | OutputNode
  | AndGateNode | OrGateNode | NotGateNode | NandGateNode
  | NorGateNode | XorGateNode | XnorGateNode.

#[global] Instance NodeClass_eq_dec : EqDecision NodeClass.
Proof. solve_decision. Defined.

Definition gate_class (g : Gate) : NodeClass :=
  match g with
  | And => AndGateNode | Or => OrGateNode | Not => NotGateNode
  | Nand => NandGateNode | Nor => NorGateNode
  | Xor => XorGateNode | Xnor => XnorGateNode
  end.

(** [item.__class__.__name__] *)
Definition class_name (c : NodeClass) : string :=
  match c with
  | InputNode => "InputNode" | OutputNode => "OutputNode"
  | AndGateNode => "AndGateNode" | OrGateNode => "OrGateNode"
  | NotGateNode => "NotGateNode" | NandGateNode => "NandGateNode"
  | NorGateNode => "NorGateNode" | XorGateNode => "XorGateNode"
  | XnorGateNode => "XnorGateNode"
  end.

Record SocketRef := mkRef {
  parent_node : nat;
  is_output : bool;
  socket_index : nat
}.

#[global] Instance SocketRef_eq_dec : EqDecision SocketRef.
Proof. solve_decision. Defined.

Record Wire := mkWire {
  wire_id : nat;
  source_socket : SocketRef;
  target_socket : SocketRef
}.

#[global] Instance Wire_eq_dec : EqDecision Wire.
Proof. solve_decision. Defined.

Record Socket := mkSocket {
  wires : list Wire;
  value : bool
}.

Record Node := mkNode {
  cls : NodeClass;
  pos : Z * Z;
  node_value : bool;        (* InputNode.value *)
  write_to_file : bool;     (* OutputNode.write_to_file *)
  input_sockets : list Socket;
  output_sockets : list Socket
}.

Definition fresh_socket : Socket := mkSocket [] false.

(** Socket layout built by the constructors. *)
Definition n_inputs (c : NodeClass) : nat :=
  match c with
  | InputNode => 0
  | OutputNode | NotGateNode => 1
  | _ => 2
  end.

Definition n_outputs (c : NodeClass) : nat :=
  match c with
  | OutputNode => 0
  | _ => 1
  end.

(** [C(scene)] for each node class [C]; items start at position (0,0). *)
Definition new_node (c : NodeClass) (wtf : bool) : Node :=
  mkNode c (0%Z, 0%Z) false wtf
         (replicate (n_inputs c) fresh_socket)
         (replicate (n_outputs c) fresh_socket).

Definition sockets_of (nd : Node) (out : bool) : list Socket :=
  if out then output_sockets nd else input_sockets nd.

Definition with_sockets (out : bool) (ss : list Socket) (nd : Node) : Node :=
  if out
  then mkNode (cls nd) (pos nd) (node_value nd) (write_to_file nd)
              (input_sockets nd) ss
  else mkNode (cls nd) (pos nd) (node_value nd) (write_to_file nd)
              ss (output_sockets nd).

Definition get_socket (h : list Node) (r : SocketRef) : option Socket :=
  nd ← h !! parent_node r;
  sockets_of nd (is_output r) !! socket_index r.

Definition alter_socket (f : Socket → Socket) (r : SocketRef)
    (h : list Node) : list Node :=
  alter (λ nd, with_sockets (is_output r)
                 (alter f (socket_index r) (sockets_of nd (is_output r))) nd)
        (parent_node r) h.

Definition set_value (v : bool) (s : Socket) : Socket := mkSocket (wires s) v.

(** ** Propagation: [Socket.updateValue] and the [updateLogic] methods *)

(** [wire.source_socket.value] *)
Definition source_value (h : list Node) (w : Wire) : bool :=
  match get_socket h (source_socket w) with
  | Some s => value s
  | None => false
  end.

(** The guarded read
    [if self.input_sockets and len(self.input_sockets) > k
        and self.input_sockets[k].wires:
       v = self.input_sockets[k].wires[0].source_socket.value]
    with [v = False] otherwise. *)
Definition read_input (h : list Node) (nd : Node) (k : nat) : bool :=
  match input_sockets nd !! k with
  | Some s =>
      match wires s with
      | w :: _ => source_value h w
      | [] => false
      end
  | None => false
  end.

(** [output_value] as each [updateLogic] computes it; [None] for
    [OutputNode], whose [updateLogic] only schedules a repaint. *)
Definition output_value (h : list Node) (nd : Node) : option bool :=
  match cls nd with
  | InputNode => Some (node_value nd)
  | OutputNode => None
  | AndGateNode => Some (py_and (read_input h nd 0) (read_input h nd 1))
  | OrGateNode => Some (py_or (read_input h nd 0) (read_input h nd 1))
  | NotGateNode => Some (negb (read_input h nd 0))
  | NandGateNode => Some (negb (py_and (read_input h nd 0) (read_input h nd 1)))
  | NorGateNode => Some (negb (py_or (read_input h nd 0) (read_input h nd 1)))
  | XorGateNode => Some (py_ne (read_input h nd 0) (read_input h nd 1))
  | XnorGateNode => Some (py_eq (read_input h nd 0) (read_input h nd 1))
  end.

(** [for wire in self.wires: wire.target_socket.parent_node.updateLogic()];
    an exception leaves the loop at once. *)
Fixpoint for_wires (rec : nat → list Node → list Node * outcome)
    (ws : list Wire) (h : list Node) : list Node * outcome :=
  match ws with
  | [] => (h, Done)
  | w :: ws' =>
      match rec (parent_node (target_socket w)) h with
      | (h', Done) => for_wires rec ws' h'
      | (h', RecursionError) => (h', RecursionError)
      end
  end.

(** [Socket.updateValue(value)], with the recursive [updateLogic] passed in. *)
Definition updateValue_with (rec : nat → list Node → list Node * outcome)
    (r : SocketRef) (v : bool) (h : list Node) : list Node * outcome :=
  match get_socket h r with
  | None => (h, Done)
  | Some s =>
      if bool_decide (value s = v) then (h, Done)
      else
        let h1 := alter_socket (set_value v) r h in
        if is_output r then for_wires rec (wires s) h1 else (h1, Done)
  end.

(** [node.updateLogic()]; [fuel] is the number of nested [updateLogic]
    frames the interpreter still allows. *)
Fixpoint updateLogic (fuel : nat) (n : nat) (h : list Node)
    : list Node * outcome :=
  match fuel with
  | 0 => (h, RecursionError)
  | S f =>
      match h !! n with
      | None => (h, Done)
      | Some nd =>
          match output_value h nd with
          | None => (h, Done)
          | Some v =>
              match output_sockets nd with
              | [] => (h, Done)
              | _ :: _ => updateValue_with (updateLogic f) (mkRef n true 0) v h
              end
          end
      end
  end.

Definition updateValue (fuel : nat) := updateValue_with (updateLogic fuel).

(** ** The scene, the undo stack and the clipboard *)

(** Top-level scene items the code distinguishes with [isinstance]. Sockets
    and labels are children of their node and follow it. *)
Inductive Item := INode (n : nat) | IWire (w : Wire).

(** Object identity of items. *)
Definition same_item (a b : Item) : bool :=
  match a, b with
  | INode n, INode m => bool_decide (n = m)
  | IWire w, IWire v => bool_decide (wire_id w = wire_id v)
  | _, _ => false
  end.

Inductive Command :=
  | AddNodeCommand (node : nat)
  | DeleteItemsCommand (stored_items : list (Item * list Wire))
  | PasteNodesCommand (nodes : list nat) (pasted_wires : list Wire).

Record CopiedNode := mkCopiedNode {
  cn_type : string;
  cn_pos : Z * Z;
  cn_id : nat
}.

Record CopiedConnection := mkCopiedConnection {
  start_node_id : nat;
  start_socket_index : nat;
  end_node_id : nat;
  end_socket_index : nat
}.

#[global] Instance CopiedConnection_eq_dec : EqDecision CopiedConnection.
Proof. solve_decision. Defined.

Record State := mkState {
  heap : list Node;                 (* every node object ever constructed *)
  wire_count : nat;                 (* identity of the next wire object *)
  scene_items : list Item;          (* items in the scene, oldest first *)
  undo_cmds : list Command;         (* QUndoStack: commands ... *)
  undo_index : nat;                 (* ... and its index *)
  copied_nodes : list CopiedNode;
  copied_connections : list CopiedConnection;
  copy_offset : Z
}.

Definition init_state : State := mkState [] 0 [] [] 0 [] [] 20.

Definition set_heap (h : list Node) (st : State) : State :=
  mkState h (wire_count st) (scene_items st) (undo_cmds st) (undo_index st)
          (copied_nodes st) (copied_connections st) (copy_offset st).

Definition set_scene (l : list Item) (st : State) : State :=
  mkState (heap st) (wire_count st) l (undo_cmds st) (undo_index st)
          (copied_nodes st) (copied_connections st) (copy_offset st).

Definition set_undo (cs : list Command) (i : nat) (st : State) : State :=
  mkState (heap st) (wire_count st) (scene_items st) cs i
          (copied_nodes st) (copied_connections st) (copy_offset st).

Definition set_clipboard (ns : list CopiedNode) (cs : list CopiedConnection)
    (st : State) : State :=
  mkState (heap st) (wire_count st) (scene_items st) (undo_cmds st)
          (undo_index st) ns cs (copy_offset st).

Definition set_copy_offset (o : Z) (st : State) : State :=
  mkState (heap st) (wire_count st) (scene_items st) (undo_cmds st)
          (undo_index st) (copied_nodes st) (copied_connections st) o.

(** [item.scene() == scene] for an item whose [scene] method is intact. *)
Definition in_scene (it : Item) (st : State) : bool :=
  existsb (same_item it) (scene_items st).

(** [scene.addItem(item)]; Qt ignores an item that is already there. *)
Definition addItem (it : Item) (st : State) : State :=
  if in_scene it st then st else set_scene (scene_items st ++ [it]) st.

(** [scene.removeItem(item)] *)
Definition removeItem (it : Item) (st : State) : State :=
  set_scene (filter (λ x, same_item it x = false) (scene_items st)) st.

(** [scene.clear()] *)
Definition clear (st : State) : State := set_scene [] st.

(** Nodes in [scene.items()], which lists the newest item first. *)
Definition scene_nodes (st : State) : list nat :=
  omap (λ it, match it with INode n => Some n | IWire _ => None end)
       (reverse (scene_items st)).

(** Allocation of a node object. *)
Definition alloc (nd : Node) (st : State) : nat * State :=
  (length (heap st), set_heap (heap st ++ [nd]) st).

(** ** Wires *)

Definition add_wire (w : Wire) (s : Socket) : Socket :=
  mkSocket (wires s ++ [w]) (value s).

(** [Wire(source_socket, target_socket)]: the constructor registers the new
    wire at both sockets; adding it to the scene is left to the caller. *)
Definition Wire_init (src tgt : SocketRef) (st : State) : Wire * State :=
  let w := mkWire (wire_count st) src tgt in
  (w, mkState (alter_socket (add_wire w) tgt
                 (alter_socket (add_wire w) src (heap st)))
              (S (wire_count st)) (scene_items st) (undo_cmds st)
              (undo_index st) (copied_nodes st) (copied_connections st)
              (copy_offset st)).

(** [if self in l: l.remove(self)] *)
Fixpoint remove_first (w : Wire) (l : list Wire) : list Wire :=
  match l with
  | [] => []
  | v :: l' =>
      if bool_decide (wire_id v = wire_id w) then l'
      else v :: remove_first w l'
  end.

Definition drop_wire (w : Wire) (s : Socket) : Socket :=
  mkSocket (remove_first w (wires s)) (value s).

(** [Wire.remove()] *)
Definition Wire_remove (w : Wire) (st : State) : State :=
  let h1 := alter_socket (drop_wire w) (source_socket w) (heap st) in
  let h2 := alter_socket (drop_wire w) (target_socket w) h1 in
  let st' := set_heap h2 st in
  if in_scene (IWire w) st' then removeItem (IWire w) st' else st'.

Definition socket_wires (h : list Node) (r : SocketRef) : list Wire :=
  match get_socket h r with
  | Some s => wires s
  | None => []
  end.

(** [for wire in list(ws): wire.remove()] *)
Definition remove_wires (ws : list Wire) (st : State) : State :=
  foldl (λ s w, Wire_remove w s) st ws.

(** ** Connecting: [Socket.mouseReleaseEvent] *)

(** The direction test of the loop body: which of the two sockets is the
    source and which the target; [None] for output-to-output and
    input-to-input. *)
Definition endpoints (self item : SocketRef) : option (SocketRef * SocketRef) :=
  if is_output self && negb (is_output item) then Some (self, item)
  else if negb (is_output self) && is_output item then Some (item, self)
  else None.

(** The mutation done for an accepted pair, up to the final [updateLogic]:
    evict the wires of the target input, construct the wire, add it to the
    scene. *)
Definition connect (src tgt : SocketRef) (st : State) : Wire * State :=
  let st1 :=
    if negb (is_output tgt) && bool_decide (socket_wires (heap st) tgt ≠ [])
    then remove_wires (socket_wires (heap st) tgt) st
    else st in
  let '(w, st2) := Wire_init src tgt st1 in
  (w, if in_scene (IWire w) st2 then st2 else addItem (IWire w) st2).

(** [Socket.mouseReleaseEvent] of socket [self] after a drag ([temp_line]
    set); [items] are the sockets among [scene.items(end_pos)]. *)
Fixpoint mouseReleaseEvent (fuel : nat) (self : SocketRef)
    (items : list SocketRef) (st : State) : State * outcome :=
  match items with
  | [] => (st, Done)
  | item :: rest =>
      if bool_decide (item = self) then mouseReleaseEvent fuel self rest st
      else
        match endpoints self item with
        | None => mouseReleaseEvent fuel self rest st
        | Some (src, tgt) =>
            if bool_decide (parent_node src = parent_node tgt)
            then mouseReleaseEvent fuel self rest st
            else
              let '(_, st1) := connect src tgt st in
              let '(h, o) := updateLogic fuel (parent_node tgt) (heap st1) in
              (set_heap h st1, o)
        end
  end.

(** ** Undo commands *)

(** [DeleteItemsCommand]/[PasteNodesCommand] guard their scene calls with
    [item.scene()]. [Node.__init__] stores the scene in the attribute
    [self.scene], which hides that method: for a node the call raises
    [TypeError], and the surrounding [try] decides what happens. *)

(** [try: if item.scene() != self.scene: self.scene.addItem(item)
     except: try: self.scene.addItem(item) except: pass] *)
Definition restore_item (it : Item) (st : State) : State :=
  match it with
  | INode _ => addItem it st
  | IWire _ => if in_scene it st then st else addItem it st
  end.

(** [try: if item.scene() == self.scene: self.scene.removeItem(item)
     except: pass] *)
Definition take_out_item (it : Item) (st : State) : State :=
  match it with
  | INode _ => st
  | IWire _ => if in_scene it st then removeItem it st else st
  end.

Definition cmd_undo (c : Command) (st : State) : State :=
  match c with
  | AddNodeCommand n => removeItem (INode n) st
  | DeleteItemsCommand stored =>
      foldl (λ s p, foldl (λ s' w, restore_item (IWire w) s')
                          (restore_item p.1 s) p.2) st stored
  | PasteNodesCommand _ ws =>
      (* nodes: [node.scene()] raises, nothing is removed *)
      foldl (λ s w, if in_scene (IWire w) s then Wire_remove w s else s) st ws
  end.

Definition cmd_redo (c : Command) (st : State) : State :=
  match c with
  | AddNodeCommand n =>
      if in_scene (INode n) st then st else addItem (INode n) st
  | DeleteItemsCommand stored =>
      foldl (λ s p, take_out_item p.1 s) st stored
  | PasteNodesCommand _ _ => st
  end.

(** [QUndoStack.push]: drop the undone commands, append, run [redo]. *)
Definition push (c : Command) (st : State) : State :=
  cmd_redo c (set_undo (take (undo_index st) (undo_cmds st) ++ [c])
                       (S (undo_index st)) st).

(** [QUndoStack.undo] and [QUndoStack.redo] *)
Definition undo (st : State) : State :=
  match undo_index st with
  | 0 => st
  | S i =>
      match undo_cmds st !! i with
      | Some c => cmd_undo c (set_undo (undo_cmds st) i st)
      | None => st
      end
  end.

Definition redo (st : State) : State :=
  match undo_cmds st !! undo_index st with
  | Some c => set_undo (undo_cmds st) (S (undo_index st)) (cmd_redo c st)
  | None => st
  end.

(** ** Creating, toggling and deleting *)

Definition set_pos (p : Z * Z) (nd : Node) : Node :=
  mkNode (cls nd) p (node_value nd) (write_to_file nd)
         (input_sockets nd) (output_sockets nd).

Definition set_node_value (v : bool) (nd : Node) : Node :=
  mkNode (cls nd) (pos nd) v (write_to_file nd)
         (input_sockets nd) (output_sockets nd).

(** The type ids of the node palette. *)
Definition class_of_node_id (node_id : string) : option NodeClass :=
  if String.eqb node_id "INPUT" then Some InputNode
  else if String.eqb node_id "OUTPUT" then Some OutputNode
  else if String.eqb node_id "AND" then Some AndGateNode
  else if String.eqb node_id "OR" then Some OrGateNode
  else if String.eqb node_id "NOT" then Some NotGateNode
  else if String.eqb node_id "NAND" then Some NandGateNode
  else if String.eqb node_id "NOR" then Some NorGateNode
  else if String.eqb node_id "XOR" then Some XorGateNode
  else if String.eqb node_id "XNOR" then Some XnorGateNode
  else None.

(** [NodeEditorView.create_node(node_id, pos)]: the node is centred on the
    drop position (nodes are 150 by 120). *)
Definition create_node (node_id : string) (p : Z * Z) (st : State)
    : option nat * State :=
  match class_of_node_id node_id with
  | None => (None, st)
  | Some c =>
      let '(n, st1) := alloc (new_node c false) st in
      let st2 := addItem (INode n) st1 in
      let st3 := set_heap (alter (set_pos (p.1 - 75, p.2 - 60)%Z) n (heap st2))
                          st2 in
      (Some n, push (AddNodeCommand n) st3)
  end.

(** [InputNode.mouseReleaseEvent] with the click inside the toggle button. *)
Definition toggle (fuel : nat) (n : nat) (st : State) : State * outcome :=
  match heap st !! n with
  | Some nd =>
      match cls nd with
      | InputNode =>
          let v := negb (node_value nd) in
          let h1 := alter (set_node_value v) n (heap st) in
          match output_sockets nd with
          | [] => (set_heap h1 st, Done)
          | _ :: _ =>
              match updateValue fuel (mkRef n true 0) v h1 with
              | (h2, Done) =>
                  let '(h3, o) :=
                    for_wires (updateLogic fuel)
                              (socket_wires h2 (mkRef n true 0)) h2 in
                  (set_heap h3 st, o)
              | (h2, RecursionError) => (set_heap h2 st, RecursionError)
              end
          end
      | _ => (st, Done)
      end
  | None => (st, Done)
  end.

(** The wires reached through [item.input_sockets + item.output_sockets]. *)
Definition node_wires (h : list Node) (n : nat) : list Wire :=
  match h !! n with
  | Some nd => mjoin (wires <$> (input_sockets nd ++ output_sockets nd))
  | None => []
  end.

(** [DeleteItemsCommand.__init__]: what is kept for restoration. *)
Definition stored_items_of (h : list Node) (items : list Item)
    : list (Item * list Wire) :=
  (λ it, match it with
         | INode n => (it, node_wires h n)
         | IWire _ => (it, [])
         end) <$> items.

(** The deletion of one node: for each of its sockets, in order, remove the
    wires the socket holds when the loop reaches it; then take the node out
    of the scene. *)
Definition remove_socket_wires (r : SocketRef) (st : State) : State :=
  remove_wires (socket_wires (heap st) r) st.

Definition node_socket_refs (h : list Node) (n : nat) : list SocketRef :=
  match h !! n with
  | Some nd =>
      (mkRef n false <$> seq 0 (length (input_sockets nd))) ++
      (mkRef n true <$> seq 0 (length (output_sockets nd)))
  | None => []
  end.

Definition delete_item (it : Item) (st : State) : State :=
  match it with
  | INode n =>
      removeItem it
        (foldl (λ s r, remove_socket_wires r s) st
               (node_socket_refs (heap st) n))
  | IWire w => Wire_remove w st
  end.

(** [NodeEditorView.delete_selected_items], on the value of
    [scene.selectedItems()]. *)
Definition delete_selected_items (selected_items : list Item) (st : State)
    : State :=
  match selected_items with
  | [] => st
  | _ :: _ =>
      let st1 :=
        push (DeleteItemsCommand (stored_items_of (heap st) selected_items)) st in
      foldl (λ s it, delete_item it s) st1 selected_items
  end.

(** ** Persistence: [serialize_scene], [deserialize_scene], [load_from_file] *)

(** The in-memory document. Records carry all their keys with values of the
    expected type; a missing top-level list is [None] (the subscription
    [data["nodes"]] then raises [KeyError]); the optional key ["value"] of
    a node record is an option. *)
Record NodeData := mkNodeData {
  nd_id : Z;
  nd_type : string;
  nd_x : Z;
  nd_y : Z;
  nd_value : option bool
}.

Record ConnectionData := mkConnectionData {
  cd_start_node : Z;
  cd_start_socket : Z;
  cd_end_node : Z;
  cd_end_socket : Z
}.

#[global] Instance ConnectionData_eq_dec : EqDecision ConnectionData.
Proof. solve_decision. Defined.

Record SceneData := mkSceneData {
  sd_nodes : option (list NodeData);
  sd_connections : option (list ConnectionData)
}.

(** Whether a call returned or raised; mutations done before the exception
    stay. *)
Inductive status := Returned | Raised.

(** [owner.<list>.index(socket)]: the position of a socket in a socket list
    of node [n]; [None] stands for [ValueError]. *)
Definition index_of (n : nat) (out : bool) (nd : Node) (r : SocketRef)
    : option nat :=
  if bool_decide (parent_node r = n) && bool_decide (is_output r = out)
     && bool_decide (socket_index r < length (sockets_of nd out))
  then Some (socket_index r) else None.

Definition node_record (n : nat) (nd : Node) : NodeData :=
  mkNodeData (Z.of_nat n) (class_name (cls nd)) (pos nd).1 (pos nd).2
             (match cls nd with InputNode => Some (node_value nd) | _ => None end).

Definition connection_record (h : list Node) (n : nat) (nd : Node) (w : Wire)
    : option ConnectionData :=
  i ← index_of n true nd (source_socket w);
  tn ← h !! parent_node (target_socket w);
  j ← index_of (parent_node (target_socket w)) false tn (target_socket w);
  Some (mkConnectionData (Z.of_nat (parent_node (source_socket w))) (Z.of_nat i)
                         (Z.of_nat (parent_node (target_socket w))) (Z.of_nat j)).

Definition serialize_node (h : list Node) (n : nat)
    : option (NodeData * list ConnectionData) :=
  nd ← h !! n;
  cs ← mapM (connection_record h n nd) (mjoin (wires <$> output_sockets nd));
  Some (node_record n nd, cs).

(** [serialize_scene]; [None] when a [list.index] raises. *)
Definition serialize_scene (st : State) : option SceneData :=
  rs ← mapM (serialize_node (heap st)) (scene_nodes st);
  Some (mkSceneData (Some (rs.*1)) (Some (mjoin (rs.*2)))).

(** The [if/elif] chain over the stored class names. *)
Definition class_of_name (s : string) : option NodeClass :=
  if String.eqb s "InputNode" then Some InputNode
  else if String.eqb s "OutputNode" then Some OutputNode
  else if String.eqb s "AndGateNode" then Some AndGateNode
  else if String.eqb s "OrGateNode" then Some OrGateNode
  else if String.eqb s "NotGateNode" then Some NotGateNode
  else if String.eqb s "NandGateNode" then Some NandGateNode
  else if String.eqb s "NorGateNode" then Some NorGateNode
  else if String.eqb s "XorGateNode" then Some XorGateNode
  else if String.eqb s "XnorGateNode" then Some XnorGateNode
  else None.

(** One iteration of the node loop of [deserialize_scene]. The
    [updateLogic] of a freshly built input node meets no wire, so one frame
    is all it uses. *)
Definition load_node (d : NodeData) (acc : State * gmap Z nat)
    : State * gmap Z nat :=
  match class_of_name (nd_type d) with
  | None => acc
  | Some c =>
      let '(n, st1) := alloc (new_node c false) acc.1 in
      let h1 :=
        match c, nd_value d with
        | InputNode, Some v =>
            (updateLogic 1 n (alter (set_node_value v) n (heap st1))).1
        | _, _ => heap st1
        end in
      let h2 := alter (set_pos (nd_x d, nd_y d)) n h1 in
      (addItem (INode n) (set_heap h2 st1), <[nd_id d := n]> acc.2)
  end.

(** One iteration of the connection loop of [deserialize_scene]. *)
Definition load_connection (nodes : gmap Z nat) (c : ConnectionData)
    (st : State) : State :=
  match nodes !! cd_start_node c, nodes !! cd_end_node c with
  | Some sn, Some en =>
      match heap st !! sn, heap st !! en with
      | Some a, Some b =>
          if bool_decide (0 ≤ cd_start_socket c
                          < Z.of_nat (length (output_sockets a)))%Z
             && bool_decide (0 ≤ cd_end_socket c
                             < Z.of_nat (length (input_sockets b)))%Z
          then
            let '(w, st1) :=
              Wire_init (mkRef sn true (Z.to_nat (cd_start_socket c)))
                        (mkRef en false (Z.to_nat (cd_end_socket c))) st in
            addItem (IWire w) st1
          else st
      | _, _ => st
      end
  | _, _ => st
  end.

(** [NodeEditorView.deserialize_scene(data)] *)
Definition deserialize_scene (data : SceneData) (st : State) : State * status :=
  let st0 := clear st in
  match sd_nodes data with
  | None => (st0, Raised)
  | Some nds =>
      let '(st1, nodes) := foldl (λ acc d, load_node d acc) (st0, ∅) nds in
      match sd_connections data with
      | None => (st1, Raised)
      | Some cds => (foldl (λ s c, load_connection nodes c s) st1 cds, Returned)
      end
  end.

(** [NodeEditorTab.load_from_file]; [parsed] is what
    [open(file_path)] and [json.load] deliver, [None] when either raises. *)
Definition load_from_file (parsed : option SceneData) (st : State)
    : State * bool :=
  match parsed with
  | None => (st, false)
  | Some data =>
      match deserialize_scene data (clear st) with
      | (st', Returned) => (st', true)
      | (st', Raised) => (st', false)
      end
  end.

(** ** Tabs and the window: [NodeEditorTab], [LogicGateSimulator.open_file] *)

(** A tab: the path of the file it was loaded from or saved to, and its
    editor view with the scene. *)
Record Tab := mkTab {
  file_path : option string;
  view : State
}.

(** [NodeEditorTab(parent)]: no path, an empty scene, a view with an empty
    undo stack and clipboard. *)
Definition NodeEditorTab_init : Tab := mkTab None init_state.

(** [NodeEditorTab.load_from_file(file_path)]; [read] stands for the file
    system: what [open] and [json.load] deliver for a path, [None] when
    either raises. The path is recorded only when the load went through. *)
Definition Tab_load_from_file (path : string)
    (read : string → option SceneData) (tab : Tab) : Tab * bool :=
  match load_from_file (read path) (view tab) with
  | (st, true) => (mkTab (Some path) st, true)
  | (st, false) => (mkTab (file_path tab) st, false)
  end.

(** The main window: the tabs of [tab_widget] and its current index. *)
Record LogicGateSimulator := mkWindow {
  tabs : list Tab;
  current_index : nat
}.

(** [LogicGateSimulator.open_file]; [path] is the answer of the file
    dialog, the empty string when it was cancelled. A file that is open
    already only gets its tab selected; otherwise a new tab is built, the
    file is loaded into it, and the tab is added to the window only if the
    load returned [True]. *)
Definition open_file (path : string) (read : string → option SceneData)
    (w : LogicGateSimulator) : LogicGateSimulator :=
  if String.eqb path String.EmptyString then w
  else
    match list_find (λ tab, file_path tab = Some path) (tabs w) with
    | Some (i, _) => mkWindow (tabs w) i
    | None =>
        match Tab_load_from_file path read NodeEditorTab_init with
        | (tab, true) => mkWindow (tabs w ++ [tab]) (length (tabs w))
        | (_, false) => w
        end
    end.

(** ** Clipboard: [copy_selected_nodes] and [paste_nodes] *)

Definition selected_nodes_of (h : list Node) (sel : list Item) : list nat :=
  omap (λ it, match it with
              | INode n => if bool_decide (is_Some (h !! n)) then Some n else None
              | IWire _ => None
              end) sel.

Definition copied_node_of (h : list Node) (n : nat) : option CopiedNode :=
  nd ← h !! n; Some (mkCopiedNode (class_name (cls nd)) (pos nd) n).

(** [all_wires]: for each selected node the wires of its output sockets,
    then those of its input sockets. *)
Definition all_wires_of (h : list Node) (ns : list nat) : list Wire :=
  n ← ns;
  match h !! n with
  | Some nd => mjoin (wires <$> output_sockets nd)
               ++ mjoin (wires <$> input_sockets nd)
  | None => []
  end.

Definition copied_connection_of (h : list Node) (w : Wire)
    : option CopiedConnection :=
  a ← h !! parent_node (source_socket w);
  i ← index_of (parent_node (source_socket w)) true a (source_socket w);
  b ← h !! parent_node (target_socket w);
  j ← index_of (parent_node (target_socket w)) false b (target_socket w);
  Some (mkCopiedConnection (parent_node (source_socket w)) i
                           (parent_node (target_socket w)) j).

(** The loop that fills [self.copied_connections]. *)
Fixpoint collect_connections (h : list Node) (ids : gset nat)
    (ws : list Wire) (acc : list CopiedConnection)
    : list CopiedConnection * status :=
  match ws with
  | [] => (acc, Returned)
  | w :: ws' =>
      if bool_decide (parent_node (source_socket w) ∈ ids)
         && bool_decide (parent_node (target_socket w) ∈ ids)
      then
        match copied_connection_of h w with
        | Some c =>
            collect_connections h ids ws'
              (if bool_decide (c ∈ acc) then acc else acc ++ [c])
        | None => (acc, Raised)
        end
      else collect_connections h ids ws' acc
  end.

(** [NodeEditorView.copy_selected_nodes], on the value of
    [scene.selectedItems()]; the result is [None] when it raises. *)
Definition copy_selected_nodes (selected_items : list Item) (st : State)
    : State * option bool :=
  let selected_nodes := selected_nodes_of (heap st) selected_items in
  let selected_node_ids : gset nat := list_to_set selected_nodes in
  let copied := omap (copied_node_of (heap st)) selected_nodes in
  match selected_nodes with
  | [] => (set_clipboard copied [] st, Some false)
  | _ :: _ =>
      match collect_connections (heap st) selected_node_ids
              (all_wires_of (heap st) selected_nodes) [] with
      | (cs, Returned) => (set_clipboard copied cs st, Some true)
      | (cs, Raised) => (set_clipboard copied cs st, None)
      end
  end.

(** One iteration of the node loop of [paste_nodes]. *)
Definition paste_node (off : Z) (cn : CopiedNode)
    (acc : State * list nat * gmap nat nat) : State * list nat * gmap nat nat :=
  match class_of_name (cn_type cn) with
  | None => acc
  | Some c =>
      let '(n, st1) := alloc (new_node c false) acc.1.1 in
      let h1 := alter (set_pos ((cn_pos cn).1 + off, (cn_pos cn).2 + off)%Z) n
                      (heap st1) in
      (addItem (INode n) (set_heap h1 st1), acc.1.2 ++ [n],
       <[cn_id cn := n]> acc.2)
  end.

(** One iteration of the connection loop of [paste_nodes]. *)
Definition paste_connection (id_mapping : gmap nat nat) (c : CopiedConnection)
    (acc : State * list Wire) : State * list Wire :=
  match id_mapping !! start_node_id c, id_mapping !! end_node_id c with
  | Some sn, Some en =>
      match heap acc.1 !! sn, heap acc.1 !! en with
      | Some a, Some b =>
          if bool_decide (start_socket_index c < length (output_sockets a))
             && bool_decide (end_socket_index c < length (input_sockets b))
          then
            let '(w, st1) :=
              Wire_init (mkRef sn true (start_socket_index c))
                        (mkRef en false (end_socket_index c)) acc.1 in
            (addItem (IWire w) st1, acc.2 ++ [w])
          else acc
      | _, _ => acc
      end
  | _, _ => acc
  end.

(** [NodeEditorView.paste_nodes] past its first test: the two loops, the
    offset update and the undo command. *)
Definition paste_copied (st : State) : State * bool :=
  let '(st1, pasted_nodes, id_mapping) :=
    foldl (λ acc cn, paste_node (copy_offset st) cn acc) (st, [], ∅)
          (copied_nodes st) in
  let '(st2, created_wires) :=
    foldl (λ acc c, paste_connection id_mapping c acc) (st1, [])
          (copied_connections st) in
  let off := (copy_offset st2 + 20)%Z in
  let st3 := set_copy_offset (if bool_decide (200 < off)%Z then 20%Z else off)
                             st2 in
  match pasted_nodes with
  | [] => (st3, false)
  | _ :: _ => (push (PasteNodesCommand pasted_nodes created_wires) st3, true)
  end.

(** [NodeEditorView.paste_nodes] *)
Definition paste_nodes (st : State) : State * bool :=
  match copied_nodes st with
  | [] => (st, false)
  | _ :: _ => paste_copied st
  end.

(** ** Example circuits, built with the operations above *)

Module Examples.

(** An input (node 0), an Or gate (node 1) and a Not gate (node 2). *)
Definition three_nodes : State :=
  Eval vm_compute in
    (create_node "NOT" (400, 0)%Z
       (create_node "OR" (200, 0)%Z
          (create_node "INPUT" (0, 0)%Z init_state).2).2).2.

(** Input -> Or (first pin), Or -> Not. *)
Definition chain : State :=
  Eval vm_compute in
    (mouseReleaseEvent 10 (mkRef 1 true 0) [mkRef 2 false 0]
       (mouseReleaseEvent 10 (mkRef 0 true 0) [mkRef 1 false 0]
          three_nodes).1).1.

(** The input is switched on, then the Not output is fed back into the
    second pin of the Or gate. *)
Definition latched : State :=
  Eval vm_compute in
    (mouseReleaseEvent 10 (mkRef 2 true 0) [mkRef 1 false 1]
       (toggle 10 0 chain).1).1.

(** Two inputs (nodes 0 and 1), one output node (node 2), the first input
    wired to the output node. *)
Definition occupied : State :=
  Eval vm_compute in
    (mouseReleaseEvent 10 (mkRef 0 true 0) [mkRef 2 false 0]
       (create_node "OUTPUT" (400, 0)%Z
          (create_node "INPUT" (0, 200)%Z
             (create_node "INPUT" (0, 0)%Z init_state).2).2).2).1.

End Examples.

End Complete.

(** * The earlier variant [logic_gate_simulator.py]

    Sockets and wires are laid out as in the complete simulator (the field
    [wires] is called [connections] there, and the [Wire] constructor leaves
    the registration to its callers). Values are pulled on demand by
    [get_output_value]; the signal [output_value_changed] has no slot. *)
Module Small.

Inductive NodeClass :=
  | InputNode | OutputNode | ReadFromFileNode | MultibitOutputNode
  | AndGateNode | OrGateNode | NotGateNode | NandGateNode
  | NorGateNode | XorGateNode | XnorGateNode.

#[global] Instance NodeClass_eq_dec : EqDecision NodeClass.
Proof. solve_decision. Defined.

(** [item.__class__.__name__] *)
Definition class_name (c : NodeClass) : string :=
  match c with
  | InputNode => "InputNode" | OutputNode => "OutputNode"
  | ReadFromFileNode => "ReadFromFileNode"
  | MultibitOutputNode => "MultibitOutputNode"
  | AndGateNode => "AndGateNode" | OrGateNode => "OrGateNode"
  | NotGateNode => "NotGateNode" | NandGateNode => "NandGateNode"
  | NorGateNode => "NorGateNode" | XorGateNode => "XorGateNode"
  | XnorGateNode => "XnorGateNode"
  end.

Record Node := mkNode {
  cls : NodeClass;
  pos : Z * Z;
  node_value : bool;
  write_to_file : bool;
  input_sockets : list Complete.Socket;
  output_sockets : list Complete.Socket
}.

Record State := mkState {
  heap : list Node;
  wire_count : nat;
  scene_items : list Complete.Item
}.

Definition init_state : State := mkState [] 0 [].

(** [Node.__init__(scene, title, inputs, outputs)] with [init_sockets]. *)
Definition new_node (c : NodeClass) (wtf : bool) (inputs outputs : nat) : Node :=
  mkNode c (0%Z, 0%Z) false wtf
         (replicate inputs Complete.fresh_socket)
         (replicate outputs Complete.fresh_socket).

(** [NodeEditorView.create_node(node_id)] *)
Definition create_node (node_id : string) : option Node :=
  if String.eqb node_id "Input" then Some (new_node InputNode false 0 1)
  else if String.eqb node_id "Output" then Some (new_node OutputNode false 1 0)
  else if String.eqb node_id "Write Output"
       then Some (new_node OutputNode true 1 0)
  else if String.eqb node_id "Read Input"
       then Some (new_node ReadFromFileNode false 0 1)
  else if String.eqb node_id "4-bit Output"
       then Some (new_node MultibitOutputNode false 4 0)
  else if String.eqb node_id "8-bit Output"
       then Some (new_node MultibitOutputNode false 8 0)
  else if String.eqb node_id "AND" then Some (new_node AndGateNode false 2 1)
  else if String.eqb node_id "OR" then Some (new_node OrGateNode false 2 1)
  else if String.eqb node_id "NOT" then Some (new_node NotGateNode false 1 1)
  else if String.eqb node_id "NAND" then Some (new_node NandGateNode false 2 1)
  else if String.eqb node_id "NOR" then Some (new_node NorGateNode false 2 1)
  else if String.eqb node_id "XOR" then Some (new_node XorGateNode false 2 1)
  else if String.eqb node_id "XNOR" then Some (new_node XnorGateNode false 2 1)
  else None.

Definition set_pos (p : Z * Z) (nd : Node) : Node :=
  mkNode (cls nd) p (node_value nd) (write_to_file nd)
         (input_sockets nd) (output_sockets nd).


Definition sockets_of (nd : Node) (out : bool) : list Complete.Socket :=
  if out then output_sockets nd else input_sockets nd.

Definition with_sockets (out : bool) (ss : list Complete.Socket) (nd : Node)
    : Node :=
  if out
  then mkNode (cls nd) (pos nd) (node_value nd) (write_to_file nd)
              (input_sockets nd) ss
  else mkNode (cls nd) (pos nd) (node_value nd) (write_to_file nd)
              ss (output_sockets nd).

Definition get_socket (h : list Node) (r : Complete.SocketRef)
    : option Complete.Socket :=
  nd ← h !! Complete.parent_node r;
  sockets_of nd (Complete.is_output r) !! Complete.socket_index r.

Definition alter_socket (f : Complete.Socket → Complete.Socket)
    (r : Complete.SocketRef) (h : list Node) : list Node :=
  alter (λ nd, with_sockets (Complete.is_output r)
                 (alter f (Complete.socket_index r)
                        (sockets_of nd (Complete.is_output r))) nd)
        (Complete.parent_node r) h.

(** [socket.connections] *)
Definition connections (h : list Node) (r : Complete.SocketRef)
    : list Complete.Wire :=
  match get_socket h r with
  | Some s => Complete.wires s
  | None => []
  end.

(** [Socket.mouseReleaseEvent] of an output socket [self] after a drag;
    [items] are the sockets among [scene.items(end_pos)]. A pin that
    already has a connection is passed over, like any unsuitable item. *)
Fixpoint mouseReleaseEvent (self : Complete.SocketRef)
    (items : list Complete.SocketRef) (st : State) : State :=
  match items with
  | [] => st
  | item :: rest =>
      if negb (Complete.is_output item) && bool_decide (item ≠ self)
         && bool_decide (Complete.parent_node item ≠ Complete.parent_node self)
         && bool_decide (connections (heap st) item = [])
      then
        let w := Complete.mkWire (wire_count st) self item in
        mkState (alter_socket (Complete.add_wire w) item
                   (alter_socket (Complete.add_wire w) self (heap st)))
                (S (wire_count st))
                (scene_items st ++ [Complete.IWire w])
      else mouseReleaseEvent self rest st
  end.

(** The type written by [serialize_scene] for a node. *)
Definition serialized_type (nd : Node) : string := class_name (cls nd).

(** The [if/elif] chain of [deserialize_scene] over the stored type: the
    node it constructs, if any. *)
Definition node_of_type (node_type : string) : option Node :=
  if String.eqb node_type "InputNode" then Some (new_node InputNode false 0 1)
  else if String.eqb node_type "OutputNode"
       then Some (new_node OutputNode false 1 0)
  else if String.eqb node_type "WriteOutputNode"
       then Some (new_node OutputNode true 1 0)
  else if String.eqb node_type "AndGateNode"
       then Some (new_node AndGateNode false 2 1)
  else if String.eqb node_type "OrGateNode"
       then Some (new_node OrGateNode false 2 1)
  else if String.eqb node_type "NotGateNode"
       then Some (new_node NotGateNode false 1 1)
  else if String.eqb node_type "NandGateNode"
       then Some (new_node NandGateNode false 2 1)
  else if String.eqb node_type "NorGateNode"
       then Some (new_node NorGateNode false 2 1)
  else if String.eqb node_type "XorGateNode"
       then Some (new_node XorGateNode false 2 1)
  else if String.eqb node_type "XnorGateNode"
       then Some (new_node XnorGateNode false 2 1)
  else None.

(** ** Pull evaluation: [get_value], [get_output_value], [perform_logic] *)

Definition gate_of (c : NodeClass) : option Gate :=
  match c with
  | AndGateNode => Some And | OrGateNode => Some Or
  | NotGateNode => Some Not | NandGateNode => Some Nand
  | NorGateNode => Some Nor | XorGateNode => Some Xor
  | XnorGateNode => Some Xnor
  | _ => None
  end.

(** [perform_logic(inputs)] of the seven gate classes. *)
Definition perform_logic (g : Gate) (inputs : list bool) : bool :=
  match g, inputs with
  | And, a :: b :: _ => py_and a b
  | And, _ => false
  | Or, a :: b :: _ => py_or a b
  | Or, _ => false
  | Not, a :: _ => negb a
  | Not, [] => true
  | Nand, a :: b :: _ => negb (py_and a b)
  | Nand, _ => true
  | Nor, a :: b :: _ => negb (py_or a b)
  | Nor, _ => true
  | Xor, a :: b :: _ => py_ne a b
  | Xor, _ => false
  | Xnor, a :: b :: _ => py_eq a b
  | Xnor, _ => true
  end.

(** The result of a call that may exceed the recursion limit: [None]
    stands for [RecursionError]. Writes made before it stay. *)
Definition result (A : Type) : Type := list Node * option A.

(** [Socket.get_value()], with the recursive [get_output_value] passed
    in. *)
Definition get_value_with (rec : nat → list Node → result bool)
    (r : Complete.SocketRef) (h : list Node) : result bool :=
  match get_socket h r with
  | Some s =>
      match Complete.is_output r, Complete.wires s with
      | false, w :: _ =>
          rec (Complete.parent_node (Complete.source_socket w)) h
      | _, _ => (h, Some (Complete.value s))
      end
  | None => (h, Some false)
  end.

(** [for socket in self.input_sockets:
       input_values.append(socket.get_value())] *)
Fixpoint get_values (rec : nat → list Node → result bool)
    (rs : list Complete.SocketRef) (h : list Node) : result (list bool) :=
  match rs with
  | [] => (h, Some [])
  | r :: rs' =>
      match get_value_with rec r h with
      | (h1, Some v) =>
          match get_values rec rs' h1 with
          | (h2, Some vs) => (h2, Some (v :: vs))
          | (h2, None) => (h2, None)
          end
      | (h1, None) => (h1, None)
      end
  end.

Definition input_refs (n : nat) (nd : Node) : list Complete.SocketRef :=
  (λ i, Complete.mkRef n false i) <$> seq 0 (length (input_sockets nd)).

(** [node.get_output_value()] of each class; [fuel] bounds the nesting of
    these calls. [OutputNode] catches every exception and answers
    [False]. *)
Fixpoint get_output_value (fuel : nat) (n : nat) (h : list Node)
    : result bool :=
  match fuel with
  | 0 => (h, None)
  | S f =>
      match h !! n with
      | None => (h, Some false)
      | Some nd =>
          match cls nd with
          | InputNode | ReadFromFileNode => (h, Some (node_value nd))
          | MultibitOutputNode => (h, Some false)
          | OutputNode =>
              match connections h (Complete.mkRef n false 0) with
              | _ :: _ =>
                  match get_value_with (get_output_value f)
                          (Complete.mkRef n false 0) h with
                  | (h1, Some v) => (h1, Some v)
                  | (h1, None) => (h1, Some false)
                  end
              | [] => (h, Some false)
              end
          | c =>
              match gate_of c with
              | Some g =>
                  match get_values (get_output_value f) (input_refs n nd) h
                  with
                  | (h1, Some inputs) =>
                      let res := perform_logic g inputs in
                      (alter_socket (Complete.set_value res)
                                    (Complete.mkRef n true 0) h1, Some res)
                  | (h1, None) => (h1, None)
                  end
              | None => (h, Some false)
              end
          end
      end
  end.

(** The decimal value [MultibitOutputNode.paint] shows for [self.values]:
    [for i, bit in enumerate(reversed(self.values)):
       if bit: decimal_value += (1 << i)]. *)
Definition decimal_value (values : list bool) : Z :=
  foldl (λ (acc : Z) (p : nat * bool),
           if p.2 then (acc + Z.shiftl 1 (Z.of_nat p.1))%Z else acc)
        0%Z (imap (λ i bit, (i, bit)) (reverse values)).

(** ** Persistence *)

(** Nodes and wires of [self.scene.items()], newest first. *)
Definition scene_nodes (st : State) : list nat :=
  omap (λ it, match it with
              | Complete.INode n => Some n
              | Complete.IWire _ => None
              end) (reverse (scene_items st)).

Definition scene_wires (st : State) : list Complete.Wire :=
  omap (λ it, match it with
              | Complete.IWire w => Some w
              | Complete.INode _ => None
              end) (reverse (scene_items st)).

(** The node record: [id], [type], [x], [y] and, for an [InputNode],
    [value]. *)
Definition node_record (n : nat) (nd : Node) : Complete.NodeData :=
  Complete.mkNodeData (Z.of_nat n) (class_name (cls nd)) (pos nd).1 (pos nd).2
    (match cls nd with InputNode => Some (node_value nd) | _ => None end).

(** The connection record; its keys are [source_node], [source_socket],
    [target_node], [target_socket], read from [socket.index]. *)
Definition connection_record (w : Complete.Wire) : Complete.ConnectionData :=
  Complete.mkConnectionData
    (Z.of_nat (Complete.parent_node (Complete.source_socket w)))
    (Z.of_nat (Complete.socket_index (Complete.source_socket w)))
    (Z.of_nat (Complete.parent_node (Complete.target_socket w)))
    (Z.of_nat (Complete.socket_index (Complete.target_socket w))).

(** [NodeEditorView.serialize_scene] *)
Definition serialize_scene (st : State) : Complete.SceneData :=
  Complete.mkSceneData
    (Some (omap (λ n, node_record n <$> heap st !! n) (scene_nodes st)))
    (Some (connection_record <$> scene_wires st)).

(** One iteration of the node loop of [deserialize_scene]. A record of
    type ['InputNode'] that has the key ['value'] reaches
    [node.update_value(...)], a method no class defines: the loop ends with
    [AttributeError], after the node object was built and before it is
    placed. *)
Definition load_node (d : Complete.NodeData)
    (acc : State * gmap Z nat) : State * gmap Z nat * Complete.status :=
  match node_of_type (Complete.nd_type d) with
  | None => (acc, Complete.Returned)
  | Some nd =>
      let n := length (heap acc.1) in
      match cls nd, Complete.nd_value d with
      | InputNode, Some v =>
          (mkState (heap acc.1
                    ++ [mkNode (cls nd) (pos nd) v (write_to_file nd)
                               (input_sockets nd) (output_sockets nd)])
                   (wire_count acc.1) (scene_items acc.1), acc.2,
           Complete.Raised)
      | _, _ =>
          (mkState (heap acc.1
                    ++ [set_pos (Complete.nd_x d, Complete.nd_y d) nd])
                   (wire_count acc.1)
                   (scene_items acc.1 ++ [Complete.INode n]),
           <[Complete.nd_id d := n]> acc.2, Complete.Returned)
      end
  end.

Fixpoint load_nodes (ds : list Complete.NodeData) (acc : State * gmap Z nat)
    : State * gmap Z nat * Complete.status :=
  match ds with
  | [] => (acc, Complete.Returned)
  | d :: ds' =>
      match load_node d acc with
      | (acc', Complete.Returned) => load_nodes ds' acc'
      | (acc', Complete.Raised) => (acc', Complete.Raised)
      end
  end.

(** [l[i]] after the test [i < len(l)]: a negative index counts from the
    end, and one below [-len(l)] raises [IndexError]. *)
Definition py_index (len : nat) (i : Z) : option nat :=
  if bool_decide (0 ≤ i)%Z then Some (Z.to_nat i)
  else if bool_decide (- Z.of_nat len ≤ i)%Z
       then Some (Z.to_nat (Z.of_nat len + i))
       else None.

(** One iteration of the connection loop of [deserialize_scene]. *)
Definition load_connection (nodes : gmap Z nat) (c : Complete.ConnectionData)
    (st : State) : State * Complete.status :=
  match nodes !! Complete.cd_start_node c, nodes !! Complete.cd_end_node c with
  | Some sn, Some tn =>
      match heap st !! sn, heap st !! tn with
      | Some a, Some b =>
          if bool_decide (Complete.cd_start_socket c
                          < Z.of_nat (length (output_sockets a)))%Z
             && bool_decide (Complete.cd_end_socket c
                             < Z.of_nat (length (input_sockets b)))%Z
          then
            match py_index (length (output_sockets a))
                           (Complete.cd_start_socket c),
                  py_index (length (input_sockets b))
                           (Complete.cd_end_socket c) with
            | Some i, Some j =>
                let w := Complete.mkWire (wire_count st)
                           (Complete.mkRef sn true i)
                           (Complete.mkRef tn false j) in
                (mkState
                   (alter_socket (Complete.add_wire w)
                      (Complete.mkRef tn false j)
                      (alter_socket (Complete.add_wire w)
                         (Complete.mkRef sn true i) (heap st)))
                   (S (wire_count st))
                   (scene_items st ++ [Complete.IWire w]),
                 Complete.Returned)
            | _, _ => (st, Complete.Raised)
            end
          else (st, Complete.Returned)
      | _, _ => (st, Complete.Returned)
      end
  | _, _ => (st, Complete.Returned)
  end.

Fixpoint load_connections (nodes : gmap Z nat)
    (cs : list Complete.ConnectionData) (st : State)
    : State * Complete.status :=
  match cs with
  | [] => (st, Complete.Returned)
  | c :: cs' =>
      match load_connection nodes c st with
      | (st', Complete.Returned) => load_connections nodes cs' st'
      | (st', Complete.Raised) => (st', Complete.Raised)
      end
  end.

(** [NodeEditorView.deserialize_scene(data)] *)
Definition deserialize_scene (data : Complete.SceneData) (st : State)
    : State * Complete.status :=
  let st0 := mkState (heap st) (wire_count st) [] in
  match Complete.sd_nodes data with
  | None => (st0, Complete.Raised)
  | Some nds =>
      match load_nodes nds (st0, ∅) with
      | (st1, nodes, Complete.Returned) =>
          match Complete.sd_connections data with
          | None => (st1, Complete.Raised)
          | Some cds => load_connections nodes cds st1
          end
      | (st1, _, Complete.Raised) => (st1, Complete.Raised)
      end
  end.

(** [NodeEditorTab.load_from_file]; [parsed] is what [open] and
    [json.load] deliver, [None] when either raises. *)
Definition load_from_file (parsed : option Complete.SceneData) (st : State)
    : State * bool :=
  match parsed with
  | None => (st, false)
  | Some data =>
      match deserialize_scene data st with
      | (st', Complete.Returned) => (st', true)
      | (st', Complete.Raised) => (st', false)
      end
  end.


(** ** The value files of the write-output and read-input nodes *)









End Small.

(** * The first variant [simple_logic_gate_simulator.py]

    It has the five classes [InputNode], [OutputNode], [AndGateNode],
    [OrGateNode] and [NotGateNode], with the store laid out as in the
    complete simulator, whose node records are used here. Propagation is
    [Node.update_outputs]. *)
Module Simple.
Import Complete.

(** [node.get_output_value()] *)
Definition get_output_value (h : list Node) (n : nat) : bool :=
  match h !! n with
  | Some nd =>
      match cls nd with
      | InputNode => node_value nd
      | _ =>
          match output_sockets nd with
          | s :: _ => value s
          | [] => false
          end
      end
  | None => false
  end.

(** [socket.get_value()] of an input socket. *)
Definition get_value (h : list Node) (s : Socket) : bool :=
  match wires s with
  | w :: _ => get_output_value h (parent_node (source_socket w))
  | [] => value s
  end.

(** [perform_logic()] of the five classes; any other class would inherit
    [return False]. *)
Definition perform_logic (h : list Node) (nd : Node) : bool :=
  let input1 :=
    match input_sockets nd with
    | s :: _ => get_value h s
    | [] => false
    end in
  let input2 :=
    match input_sockets nd !! 1 with
    | Some s => get_value h s
    | None => false
    end in
  match cls nd with
  | InputNode => node_value nd
  | AndGateNode => py_and input1 input2
  | OrGateNode => py_or input1 input2
  | NotGateNode => negb input1
  | _ => false
  end.

Definition set_output_values (v : bool) (nd : Node) : Node :=
  mkNode (cls nd) (pos nd) (node_value nd) (write_to_file nd)
         (input_sockets nd) (set_value v <$> output_sockets nd).

(** [Node.update_outputs()]: compute, store on every output socket, then
    call [update_outputs] of the node behind every connection. *)
Fixpoint update_outputs (fuel : nat) (n : nat) (h : list Node)
    : list Node * outcome :=
  match fuel with
  | 0 => (h, RecursionError)
  | S f =>
      match h !! n with
      | None => (h, Done)
      | Some nd =>
          for_wires (update_outputs f) (mjoin (wires <$> output_sockets nd))
                    (alter (set_output_values (perform_logic h nd)) n h)
      end
  end.

(** [Node.remove()]: [wire.remove()] on a copy of the connections of each
    socket of [input_sockets + output_sockets], then the node leaves the
    scene. [Wire.remove] is that of the complete simulator. *)
Definition remove (n : nat) (st : State) : State :=
  removeItem (INode n)
    (foldl (λ s r, remove_wires (socket_wires (heap s) r) s) st
           (node_socket_refs (heap st) n)).

End Simple.

Import Complete.

(** ** Properties of propagation *)

(** The structure of a store: everything except the socket values. *)
Definition strip_socket (s : Socket) : Socket := mkSocket (wires s) false.

Definition strip (nd : Node) : Node :=
  mkNode (cls nd) (pos nd) (node_value nd) (write_to_file nd)
         (strip_socket <$> input_sockets nd)
         (strip_socket <$> output_sockets nd).

Definition shape (h : list Node) : list Node := strip <$> h.

Lemma fmap_alter_absorb {A B} (f : A → B) (g : A → A) (i : nat) (l : list A) :
  (∀ x, f (g x) = f x) → f <$> alter g i l = f <$> l.
Proof.
  intros Hfg. revert i.
  induction l as [|a l IH]; intros [|i]; csimpl; try done.
  - by rewrite Hfg.
  - by rewrite IH.
Qed.

Lemma strip_set_value (r : SocketRef) (v : bool) (nd : Node) :
  strip (with_sockets (is_output r)
           (alter (set_value v) (socket_index r) (sockets_of nd (is_output r)))
           nd) = strip nd.
Proof.
  destruct nd as [c p nv wf ins outs], r as [n [] i]; unfold strip; simpl;
    f_equal; by apply fmap_alter_absorb.
Qed.

Lemma shape_set_value (r : SocketRef) (v : bool) (h : list Node) :
  shape (alter_socket (set_value v) r h) = shape h.
Proof. apply fmap_alter_absorb. intros nd. apply strip_set_value. Qed.

(** An invariant of every intermediate store that holds after each callee
    returns holds when the loop over the wires ends. *)
Lemma for_wires_inv (P : list Node → Prop)
    (rec : nat → list Node → list Node * outcome) (ws : list Wire)
    (h : list Node) :
  P h →
  (∀ w h0, w ∈ ws → P h0 → P (rec (parent_node (target_socket w)) h0).1) →
  P (for_wires rec ws h).1.
Proof.
  revert h. induction ws as [|w ws IH]; intros h Hh Hrec; simpl; [done|].
  pose proof (Hrec w h (list_elem_of_here _ _) Hh) as Hw.
  destruct (rec _ h) as [h' []]; simpl in *; [|done].
  apply IH; [done|]. intros w' h0 Hin. apply Hrec. by right.
Qed.

Lemma for_wires_done (P : list Node → Prop)
    (rec : nat → list Node → list Node * outcome) (ws : list Wire)
    (h : list Node) :
  P h →
  (∀ w h0, w ∈ ws → P h0 →
     P (rec (parent_node (target_socket w)) h0).1
     ∧ (rec (parent_node (target_socket w)) h0).2 = Done) →
  P (for_wires rec ws h).1 ∧ (for_wires rec ws h).2 = Done.
Proof.
  revert h. induction ws as [|w ws IH]; intros h Hh Hrec; simpl; [done|].
  destruct (Hrec w h (list_elem_of_here _ _) Hh) as [Hw Hd].
  destruct (rec _ h) as [h' o]; simpl in *; subst o.
  apply IH; [done|]. intros w' h0 Hin. apply Hrec. by right.
Qed.

(** The only write of a propagation pass is [self.value = value]. *)
Lemma updateLogic_inv (P : list Node → Prop) :
  (∀ r v h, P h → P (alter_socket (set_value v) r h)) →
  ∀ fuel n h, P h → P (updateLogic fuel n h).1.
Proof.
  intros Hset fuel.
  induction fuel as [|f IH]; intros n h Hh; simpl; [done|].
  destruct (h !! n) as [nd|]; [|done].
  destruct (output_value h nd) as [v|]; [|done].
  destruct (output_sockets nd) as [|s0 outs]; [done|].
  unfold updateValue_with.
  destruct (get_socket h _) as [s|]; [|done].
  case_bool_decide; [done|]. simpl.
  apply for_wires_inv; [by apply Hset|].
  intros w h0 _. apply IH.
Qed.

Lemma updateLogic_shape (fuel n : nat) (h : list Node) :
  shape (updateLogic fuel n h).1 = shape h.
Proof.
  apply (updateLogic_inv (λ h', shape h' = shape h)); [|done].
  intros r v h' <-. apply shape_set_value.
Qed.

(** A ranking of the nodes that strictly grows along every wire leaving an
    output socket: the wiring has no cycle. *)
Definition ranked (rk : nat → nat) (h : list Node) : Prop :=
  ∀ p nd, h !! p = Some nd →
    Forall (λ s, Forall (λ w, rk p < rk (parent_node (target_socket w)))
                        (wires s))
           (output_sockets nd).

Lemma strip_output_wires (nd nd' : Node) :
  strip nd = strip nd' →
  wires <$> output_sockets nd = wires <$> output_sockets nd'.
Proof.
  intros H. apply (f_equal output_sockets) in H. simpl in H.
  apply (f_equal (fmap wires)) in H.
  rewrite <-!list_fmap_compose in H. exact H.
Qed.

Lemma ranked_shape (rk : nat → nat) (h h' : list Node) :
  shape h = shape h' → ranked rk h → ranked rk h'.
Proof.
  intros Hs Hr p nd' Hp.
  assert (shape h' !! p = Some (strip nd')) as Hp'
    by (unfold shape; by rewrite list_lookup_fmap, Hp).
  rewrite <-Hs in Hp'. unfold shape in Hp'.
  rewrite list_lookup_fmap in Hp'.
  destruct (h !! p) as [nd|] eqn:Hnd; [|done]. simpl in Hp'.
  assert (strip nd = strip nd') as Hst by congruence.
  specialize (Hr p nd Hnd).
  apply strip_output_wires in Hst.
  rewrite Forall_forall in Hr. rewrite Forall_forall. intros s' Hs'.
  assert (wires s' ∈ wires <$> output_sockets nd) as Hin
    by (rewrite Hst; by apply list_elem_of_fmap_2).
  apply list_elem_of_fmap in Hin as (s & -> & Hin). by apply Hr.
Qed.

(** What [updateLogic] writes for the node itself. *)
Definition own_update (h : list Node) (n : nat) : list Node :=
  match h !! n with
  | Some nd =>
      match output_value h nd, output_sockets nd with
      | Some v, _ :: _ => alter_socket (set_value v) (mkRef n true 0) h
      | _, _ => h
      end
  | None => h
  end.

Lemma alter_socket_other (f : Socket → Socket) (r : SocketRef)
    (h : list Node) (m : nat) :
  m ≠ parent_node r → alter_socket f r h !! m = h !! m.
Proof. intros Hne. unfold alter_socket. by rewrite list_lookup_alter_ne. Qed.

Lemma own_update_other (h : list Node) (n m : nat) :
  m ≠ n → own_update h n !! m = h !! m.
Proof.
  intros Hne. unfold own_update.
  destruct (h !! n) as [nd|]; [|done].
  destruct (output_value h nd); [|done].
  destruct (output_sockets nd); [done|].
  by apply alter_socket_other.
Qed.

Lemma list_alter_same {A} (f : A → A) (i : nat) (l : list A) (x : A) :
  l !! i = Some x → f x = x → alter f i l = l.
Proof.
  revert i. induction l as [|a l IH]; intros [|i] Hl Hf; csimpl in *; try done.
  - simplify_eq. by rewrite Hf.
  - f_equal. by apply IH.
Qed.

Lemma with_sockets_same (out : bool) (nd : Node) :
  with_sockets out (sockets_of nd out) nd = nd.
Proof. by destruct nd, out. Qed.

Lemma alter_socket_same (f : Socket → Socket) (r : SocketRef)
    (h : list Node) (s : Socket) :
  get_socket h r = Some s → f s = s → alter_socket f r h = h.
Proof.
  unfold get_socket, alter_socket. intros Hg Hf.
  destruct (h !! parent_node r) as [nd|] eqn:Hnd; [|done]. simpl in Hg.
  apply (list_alter_same _ _ _ nd); [done|].
  rewrite (list_alter_same f _ _ s); [|done..].
  apply with_sockets_same.
Qed.

Lemma get_output_0 (h : list Node) (n : nat) (nd : Node) (s : Socket)
    (outs : list Socket) :
  h !! n = Some nd → output_sockets nd = s :: outs →
  get_socket h (mkRef n true 0) = Some s.
Proof. intros Hn Ho. unfold get_socket. simpl. rewrite Hn. simpl. by rewrite Ho. Qed.

(** On an acyclic wiring a propagation pass returns, and it leaves every
    node that does not rank above the recomputed one as the node's own
    write left it. *)
Lemma updateLogic_ranked (rk : nat → nat) (R : nat) :
  (∀ m, rk m ≤ R) →
  ∀ fuel n h, ranked rk h → R - rk n < fuel →
    (updateLogic fuel n h).2 = Done
    ∧ ∀ m, rk m ≤ rk n → (updateLogic fuel n h).1 !! m = own_update h n !! m.
Proof.
  intros HR fuel.
  induction fuel as [|f IH]; intros n h Hr Hf; [lia|].
  simpl. unfold own_update.
  destruct (h !! n) as [nd|] eqn:Hn; [|done].
  destruct (output_value h nd) as [v|]; [|done].
  destruct (output_sockets nd) as [|s0 outs] eqn:Ho; [done|].
  unfold updateValue_with. rewrite (get_output_0 h n nd s0 outs Hn Ho).
  case_bool_decide as Hv.
  { split; [done|]. intros m _.
    rewrite (alter_socket_same _ _ _ s0); [done|by eapply get_output_0|].
    destruct s0; simpl in *; by subst. }
  simpl. set (h1 := alter_socket (set_value v) (mkRef n true 0) h).
  pose proof (for_wires_done
    (λ h', ranked rk h' ∧ ∀ m, rk m ≤ rk n → h' !! m = h1 !! m)
    (updateLogic f) (wires s0) h1) as Hloop.
  destruct Hloop as [[_ Hframe] Hdone]; [| |by split].
  - split; [|done]. eapply ranked_shape; [|exact Hr].
    symmetry. apply shape_set_value.
  - intros w h0 Hw [Hr0 Hfr0].
    assert (rk n < rk (parent_node (target_socket w))) as Hlt.
    { specialize (Hr n nd Hn). rewrite Ho in Hr.
      apply Forall_cons in Hr as [Hr _].
      rewrite Forall_forall in Hr. by apply Hr. }
    specialize (HR (parent_node (target_socket w))).
    destruct (IH (parent_node (target_socket w)) h0 Hr0) as [Hd Hfr]; [lia|].
    split; [split|done].
    + eapply ranked_shape; [|exact Hr0]. symmetry. apply updateLogic_shape.
    + intros m Hm. rewrite Hfr by lia.
      rewrite own_update_other by (intros ->; lia). by apply Hfr0.
Qed.

(** The value a socket holds. *)
Definition socket_value (h : list Node) (r : SocketRef) : option bool :=
  value <$> get_socket h r.

Lemma get_socket_alter (f : Socket → Socket) (r : SocketRef) (h : list Node) :
  get_socket (alter_socket f r h) r = f <$> get_socket h r.
Proof.
  unfold get_socket, alter_socket. rewrite list_lookup_alter_eq.
  destruct (h !! parent_node r) as [nd|]; [|done]. simpl.
  destruct nd, r as [n [] i]; simpl; by rewrite list_lookup_alter_eq.
Qed.

Lemma python_logic_is_truth_table (g : Gate) (h : list Node) (nd : Node) :
  cls nd = gate_class g →
  output_value h nd
  = Some (truth_table g (read_input h nd 0) (read_input h nd 1)).
Proof.
  intros Hc. unfold output_value. rewrite Hc.
  destruct g; simpl; f_equal;
    by destruct (read_input h nd 0), (read_input h nd 1).
Qed.

(** The value carried by input pin [k] of a node, read off the store: the
    value held by the socket at the source end of the first wire of the
    pin; [False] for a pin that has no wire or does not exist. *)
Definition pin_value (h : list Node) (nd : Node) (k : nat) (v : bool) : Prop :=
  match input_sockets nd !! k with
  | Some s =>
      match wires s with
      | w :: _ => (value <$> get_socket h (source_socket w)) = Some v
      | [] => v = false
      end
  | None => v = false
  end.

Lemma read_input_pin_value (h : list Node) (nd : Node) (k : nat) (v : bool) :
  pin_value h nd k v → read_input h nd k = v.
Proof.
  unfold pin_value, read_input, source_value.
  destruct (input_sockets nd !! k) as [s|]; [|done].
  destruct (wires s) as [|w l]; [done|].
  destruct (get_socket h (source_socket w)) as [src|]; [|done].
  by intros [= <-].
Qed.

(** C1. For each of the seven gate classes and every pair of values [a],
    [b] carried by its input pins (a pin without incoming wire carries
    [False]), [updateLogic] computes the value of the truth table (And: a∧b,
    Or: a∨b, Not: ¬a, Nand: ¬(a∧b), Nor: ¬(a∨b), Xor: a≠b, Xnor: a=b) and
    puts it on the gate's output socket; it then recomputes the nodes wired
    to that socket, and only if the value changed. With no wire on the
    output the call returns at once with that store; on an acyclic wiring it
    returns and the output socket still holds the value. *)
Theorem gate_output_is_truth_table (g : Gate) (a b : bool) (fuel n : nat)
    (h : list Node) (nd : Node) (s0 : Socket) (outs : list Socket)
    (Hnode : h !! n = Some nd) (Hclass : cls nd = gate_class g)
    (Hout : output_sockets nd = s0 :: outs)
    (Ha : pin_value h nd 0 a) (Hb : pin_value h nd 1 b) :
  socket_value
    (alter_socket (set_value (truth_table g a b)) (mkRef n true 0) h)
    (mkRef n true 0)
  = Some (truth_table g a b)
  ∧ updateLogic (S fuel) n h
    = (if bool_decide (value s0 = truth_table g a b) then (h, Done)
       else for_wires (updateLogic fuel) (wires s0)
              (alter_socket (set_value (truth_table g a b))
                            (mkRef n true 0) h))
  ∧ (wires s0 = [] →
     updateLogic (S fuel) n h
     = (alter_socket (set_value (truth_table g a b)) (mkRef n true 0) h,
        Done))
  ∧ (∀ (rk : nat → nat) (R : nat),
       (∀ m, rk m ≤ R) → ranked rk h → R - rk n ≤ fuel →
       (updateLogic (S fuel) n h).2 = Done
       ∧ socket_value (updateLogic (S fuel) n h).1 (mkRef n true 0)
         = Some (truth_table g a b)).
Proof.
  set (v := truth_table g a b).
  assert (output_value h nd = Some v) as Hv.
  { rewrite (python_logic_is_truth_table g h nd Hclass).
    by rewrite (read_input_pin_value h nd 0 a Ha),
               (read_input_pin_value h nd 1 b Hb). }
  pose proof (get_output_0 h n nd s0 outs Hnode Hout) as Hget.
  assert (socket_value (alter_socket (set_value v) (mkRef n true 0) h)
                       (mkRef n true 0) = Some v) as Hwrite.
  { unfold socket_value. by rewrite get_socket_alter, Hget. }
  assert (updateLogic (S fuel) n h
          = (if bool_decide (value s0 = v) then (h, Done)
             else for_wires (updateLogic fuel) (wires s0)
                    (alter_socket (set_value v) (mkRef n true 0) h)))
    as Hstep.
  { simpl. rewrite Hnode, Hv, Hout. unfold updateValue_with.
    rewrite Hget. by case_bool_decide. }
  split; [exact Hwrite|]. split; [exact Hstep|]. split.
  - intros Hw. rewrite Hstep, Hw. case_bool_decide as Hsame; [|done].
    f_equal. symmetry. apply (alter_socket_same _ _ _ s0); [done|].
    destruct s0; simpl in *; by subst.
  - intros rk R Hbound Hranked Hfuel.
    destruct (updateLogic_ranked rk R Hbound (S fuel) n h Hranked)
      as [Hdone Hframe]; [lia|].
    split; [done|]. specialize (Hframe n (le_n _)).
    unfold own_update in Hframe. rewrite Hnode, Hv, Hout in Hframe.
    revert Hwrite. unfold socket_value, get_socket.
    cbn [parent_node is_output socket_index]. by rewrite Hframe.
Qed.

(** A document of two input nodes that are on, both wired to an And gate:
    after the load the gate still holds [False] (the loader recomputes no
    gate). *)
Definition loaded_and : State :=
  Eval vm_compute in
    (load_from_file
       (Some (mkSceneData
                (Some [mkNodeData 10 "InputNode" 0 0 (Some true);
                       mkNodeData 11 "InputNode" 0 200 (Some true);
                       mkNodeData 12 "AndGateNode" 200 100 None])
                (Some [mkConnectionData 10 0 12 0;
                       mkConnectionData 11 0 12 1])))
       init_state).1.

(** The And gate of [loaded_and], with both pins carrying [True],
    recomputed: its output socket goes from [False] to [True]. *)
Lemma gate_output_is_truth_table_witness :
  socket_value (heap loaded_and) (mkRef 2 true 0) = Some false
  ∧ updateLogic 1 2 (heap loaded_and)
    = (alter_socket (set_value true) (mkRef 2 true 0) (heap loaded_and), Done)
  ∧ socket_value (updateLogic 1 2 (heap loaded_and)).1 (mkRef 2 true 0)
    = Some true.
Proof.
  destruct (gate_output_is_truth_table And true true 0 2 (heap loaded_and)
              _ _ _ eq_refl eq_refl eq_refl eq_refl eq_refl)
    as (H1 & _ & H3 & _).
  split; [reflexivity|]. split; [exact (H3 eq_refl)|].
  rewrite (H3 eq_refl). exact H1.
Defined.

Lemma chain_ranked : ranked (λ m, m `min` 2) (heap Examples.chain).
Proof.
  intros [|[|[|p]]] nd Hp; [| | |done]; injection Hp as <-;
    repeat constructor.
Qed.

(** *** The feedback loop *)

(** More frames never turn a pass that returned into one that does not. *)
Lemma for_wires_mono (rec rec' : nat → list Node → list Node * outcome)
    (ws : list Wire) (h h' : list Node) :
  (∀ n h0 h1, rec n h0 = (h1, Done) → rec' n h0 = (h1, Done)) →
  for_wires rec ws h = (h', Done) → for_wires rec' ws h = (h', Done).
Proof.
  intros Hrec. revert h.
  induction ws as [|w ws IH]; simpl; intros h H; [done|].
  destruct (rec _ h) as [h1 []] eqn:E; [|done].
  rewrite (Hrec _ _ _ E). by apply IH.
Qed.

Lemma updateLogic_mono (f f' n : nat) (h h' : list Node) :
  f ≤ f' → updateLogic f n h = (h', Done) → updateLogic f' n h = (h', Done).
Proof.
  revert f' n h h'.
  induction f as [|f IH]; intros f' n h h' Hle H; [done|].
  destruct f' as [|f']; [lia|]. simpl in *.
  destruct (h !! n) as [nd|]; [|done].
  destruct (output_value h nd); [|done].
  destruct (output_sockets nd); [done|].
  unfold updateValue_with in *.
  destruct (get_socket h _); [|done].
  case_bool_decide; [done|]. simpl in *.
  eapply for_wires_mono; [|done].
  intros m h0 h1 Hm. apply IH; [lia|done].
Qed.

Lemma updateValue_mono (f f' : nat) (r : SocketRef) (v : bool)
    (h h' : list Node) :
  f ≤ f' → updateValue f r v h = (h', Done) → updateValue f' r v h = (h', Done).
Proof.
  intros Hle. unfold updateValue, updateValue_with.
  destruct (get_socket h r); [|done].
  case_bool_decide; [done|]. destruct (is_output r); [|done].
  apply for_wires_mono. intros m h0 h1. by apply updateLogic_mono.
Qed.

Lemma toggle_mono (f f' n : nat) (st st' : State) :
  f ≤ f' → toggle f n st = (st', Done) → toggle f' n st = (st', Done).
Proof.
  intros Hle. unfold toggle.
  destruct (heap st !! n) as [nd|]; [|done].
  destruct (cls nd); try done.
  destruct (output_sockets nd); [done|].
  destruct (updateValue f _ _ _) as [h2 []] eqn:E; [|done].
  rewrite (updateValue_mono f f' _ _ _ h2 Hle E).
  destruct (for_wires (updateLogic f) _ h2) as [h3 o] eqn:E3.
  intros [= <- ->].
  by rewrite (for_wires_mono (updateLogic f) (updateLogic f') _ _ h3
                (λ m h0 h1, updateLogic_mono f f' m h0 h1 Hle) E3).
Qed.

Lemma for_wires_singleton (rec : nat → list Node → list Node * outcome)
    (w : Wire) (h : list Node) :
  for_wires rec [w] h = rec (parent_node (target_socket w)) h.
Proof. simpl. by destruct (rec _ h) as [h' []]. Qed.

(** The wiring of [Examples.latched] (input -> Or, Or -> Not, Not -> Or) with
    the input at [i] and the Or and Not outputs holding [o1] and [o2]. *)
Definition feedback (i o1 o2 : bool) : State :=
  set_heap
    (alter_socket (set_value o2) (mkRef 2 true 0)
       (alter_socket (set_value o1) (mkRef 1 true 0)
          (alter_socket (set_value i) (mkRef 0 true 0)
             (alter (set_node_value i) 0 (heap Examples.latched)))))
    Examples.latched.

Definition wire_or_not : Wire := mkWire 1 (mkRef 1 true 0) (mkRef 2 false 0).
Definition wire_not_or : Wire := mkWire 2 (mkRef 2 true 0) (mkRef 1 false 1).

(** With the input off, the Or gate is an inverter of its own output: each
    recomputation changes a value and calls the next. *)
Lemma inverter_ring (f : nat) :
  (updateLogic f 1 (heap (feedback false true false))).2 = RecursionError
  ∧ (updateLogic f 2 (heap (feedback false false false))).2 = RecursionError
  ∧ (updateLogic f 1 (heap (feedback false false true))).2 = RecursionError
  ∧ (updateLogic f 2 (heap (feedback false true true))).2 = RecursionError.
Proof.
  induction f as [|f (IH1 & IH2 & IH3 & IH4)]; [done|].
  split; [|split; [|split]].
  - rewrite <-IH2.
    rewrite <-(for_wires_singleton (updateLogic f) wire_or_not). reflexivity.
  - rewrite <-IH3.
    rewrite <-(for_wires_singleton (updateLogic f) wire_not_or). reflexivity.
  - rewrite <-IH4.
    rewrite <-(for_wires_singleton (updateLogic f) wire_or_not). reflexivity.
  - rewrite <-IH1.
    rewrite <-(for_wires_singleton (updateLogic f) wire_not_or). reflexivity.
Qed.

Definition wire_in_or : Wire := mkWire 0 (mkRef 0 true 0) (mkRef 1 false 0).

Lemma toggle_latched_off (fuel : nat) :
  (toggle fuel 0 Examples.latched).2
  = (updateLogic fuel 1 (heap (feedback false true false))).2.
Proof.
  rewrite <-(for_wires_singleton (updateLogic fuel) wire_in_or).
  change (toggle fuel 0 Examples.latched) with
    (match for_wires (updateLogic fuel) [wire_in_or]
             (heap (feedback false true false)) with
     | (h2, Done) =>
         let '(h3, o) :=
           for_wires (updateLogic fuel)
                     (socket_wires h2 (mkRef 0 true 0)) h2 in
         (set_heap h3 Examples.latched, o)
     | (h2, RecursionError) => (set_heap h2 Examples.latched, RecursionError)
     end).
  pose proof (proj1 (inverter_ring fuel)) as Hring.
  rewrite <-(for_wires_singleton (updateLogic fuel) wire_in_or) in Hring.
  destruct (for_wires (updateLogic fuel) [wire_in_or] _) as [h2 o].
  simpl in Hring. by subst o.
Qed.

(** Counterexample to C4 as stated: in [Examples.latched] (an Or gate whose
    output returns to its second pin through a Not gate), switching the
    input off starts a pass that no recursion limit contains. *)
Lemma feedback_pass_never_returns :
  ¬ ∃ fuel, (toggle fuel 0 Examples.latched).2 = Done.
Proof.
  intros [fuel H]. rewrite toggle_latched_off in H.
  by rewrite (proj1 (inverter_ring fuel)) in H.
Qed.

(** C4, amended. Propagation is a change-gated recursion with no cap on
    visits. On the wiring with an Or gate fed back through a Not gate, and
    whatever values the two gate outputs were left with, switching the
    input on starts a pass that returns (five nested frames are enough) and
    leaves the Or output true. *)
Theorem feedback_settles_when_input_on (o1 o2 : bool) (fuel : nat)
    (Hfuel : 5 ≤ fuel) :
  (toggle fuel 0 (feedback false o1 o2)).2 = Done
  ∧ socket_value (heap (toggle fuel 0 (feedback false o1 o2)).1)
                 (mkRef 1 true 0) = Some true.
Proof.
  assert (toggle 5 0 (feedback false o1 o2)
          = ((toggle 5 0 (feedback false o1 o2)).1, Done)) as H5
    by (by destruct o1, o2; vm_compute).
  rewrite (toggle_mono 5 fuel 0 _ _ Hfuel H5). split; [done|].
  unfold fst. by destruct o1, o2; vm_compute.
Qed.

Lemma feedback_settles_when_input_on_witness :
  (toggle 5 0 (feedback false false true)).2 = Done
  ∧ socket_value (heap (toggle 5 0 (feedback false false true)).1)
                 (mkRef 1 true 0) = Some true.
Proof. apply (feedback_settles_when_input_on false true 5). lia. Defined.

(** ** The wire registry: which wires each socket holds *)

Lemma get_socket_alter_ne (f : Socket → Socket) (r0 r : SocketRef)
    (h : list Node) :
  r ≠ r0 → get_socket (alter_socket f r0 h) r = get_socket h r.
Proof.
  intros Hne. unfold get_socket, alter_socket.
  destruct (decide (parent_node r0 = parent_node r)) as [Hp|Hp].
  - rewrite <-Hp, list_lookup_alter_eq.
    destruct (h !! parent_node r0) as [nd|]; [|done]. simpl.
    destruct r as [p o i], r0 as [p0 o0 i0]; simpl in *; subst.
    destruct nd, o, o0; simpl; try done;
      rewrite list_lookup_alter_ne; [done|congruence|done|congruence].
  - by rewrite list_lookup_alter_ne.
Qed.

Lemma socket_wires_alter (f : Socket → Socket) (g : list Wire → list Wire)
    (r0 r : SocketRef) (h : list Node) :
  (∀ s, wires (f s) = g (wires s)) →
  socket_wires (alter_socket f r0 h) r
  = if decide (r = r0 ∧ is_Some (get_socket h r0))
    then g (socket_wires h r) else socket_wires h r.
Proof.
  intros Hf. unfold socket_wires. case_decide as Hd.
  - destruct Hd as [-> [s Hs]]. rewrite get_socket_alter, Hs. simpl. apply Hf.
  - destruct (decide (r = r0)) as [->|Hne].
    + rewrite get_socket_alter.
      destruct (get_socket h r0) as [s|] eqn:Hs; [|done].
      exfalso. apply Hd. eauto.
    + by rewrite get_socket_alter_ne.
Qed.

Lemma socket_wires_drop (w : Wire) (r0 r : SocketRef) (h : list Node) :
  socket_wires (alter_socket (drop_wire w) r0 h) r
  = if decide (r = r0) then remove_first w (socket_wires h r)
    else socket_wires h r.
Proof.
  rewrite (socket_wires_alter _ (remove_first w)) by done.
  destruct (decide (r = r0)) as [->|Hne].
  - case_decide as Hd; [done|].
    assert (get_socket h r0 = None) as Hn.
    { destruct (get_socket h r0) eqn:E; [|done]. exfalso. apply Hd. eauto. }
    unfold socket_wires. by rewrite Hn.
  - rewrite decide_False; [done|]. by intros [? _].
Qed.

Lemma socket_wires_add (w : Wire) (r0 r : SocketRef) (h : list Node) :
  socket_wires (alter_socket (add_wire w) r0 h) r
  = if decide (r = r0 ∧ is_Some (get_socket h r0))
    then socket_wires h r ++ [w] else socket_wires h r.
Proof. by apply (socket_wires_alter _ (λ l, l ++ [w])). Qed.

Lemma filter_all {A} (P : A → Prop) `{∀ x, Decision (P x)} (l : list A) :
  (∀ x, x ∈ l → P x) → filter P l = l.
Proof.
  induction l as [|a l IH]; intros Hall; [done|].
  rewrite filter_cons_True by (apply Hall; left).
  f_equal. apply IH. intros x Hx. apply Hall. by right.
Qed.

Lemma filter_none {A} (P : A → Prop) `{∀ x, Decision (P x)} (l : list A) :
  (∀ x, x ∈ l → ¬ P x) → filter P l = [].
Proof.
  induction l as [|a l IH]; intros Hall; [done|].
  rewrite filter_cons_False by (apply Hall; left).
  apply IH. intros x Hx. apply Hall. by right.
Qed.

Lemma remove_first_absent (w : Wire) (l : list Wire) :
  (∀ v, v ∈ l → wire_id v ≠ wire_id w) → remove_first w l = l.
Proof.
  induction l as [|a l IH]; intros Hall; simpl; [done|].
  rewrite bool_decide_eq_false_2 by (apply Hall; left).
  f_equal. apply IH. intros v Hv. apply Hall. by right.
Qed.

Lemma remove_first_filter (w : Wire) (l : list Wire) :
  NoDup (wire_id <$> l) →
  (∀ v, v ∈ l → wire_id v = wire_id w → v = w) →
  remove_first w l = filter (λ v, v ≠ w) l.
Proof.
  induction l as [|a l IH]; intros Hnd Huniq; simpl; [done|].
  rewrite fmap_cons in Hnd. apply NoDup_cons in Hnd as [Ha Hnd].
  case_bool_decide as Hid.
  - assert (a = w) as -> by (apply Huniq; [left|done]).
    rewrite filter_cons_False by (intros Hn; by apply Hn).
    symmetry. apply filter_all. intros v Hv ->.
    apply Ha. by apply list_elem_of_fmap_2.
  - rewrite filter_cons_True by congruence.
    f_equal. apply IH; [done|]. intros v Hv. apply Huniq. by right.
Qed.

(** Every socket lists a wire at most once, and only wires that end at it. *)
Record consistent (h : list Node) : Prop := mkConsistent {
  cons_nodup : ∀ r, NoDup (wire_id <$> socket_wires h r);
  cons_ends : ∀ r v, v ∈ socket_wires h r →
                r = source_socket v ∨ r = target_socket v
}.

(** A wire whose identity is shared by no other registered wire. *)
Definition removable (h : list Node) (w : Wire) : Prop :=
  source_socket w ≠ target_socket w
  ∧ ∀ r v, v ∈ socket_wires h r → wire_id v = wire_id w → v = w.

Lemma heap_Wire_remove (w : Wire) (st : State) :
  heap (Wire_remove w st)
  = alter_socket (drop_wire w) (target_socket w)
      (alter_socket (drop_wire w) (source_socket w) (heap st)).
Proof. unfold Wire_remove. by case_match. Qed.

Lemma Wire_remove_wires (w : Wire) (st : State) (r : SocketRef) :
  consistent (heap st) → removable (heap st) w →
  socket_wires (heap (Wire_remove w st)) r
  = filter (λ v, v ≠ w) (socket_wires (heap st) r).
Proof.
  intros [Hnd Hends] [Hne Huniq].
  rewrite heap_Wire_remove, !socket_wires_drop.
  destruct (decide (r = target_socket w)) as [->|Ht].
  - rewrite decide_False by done.
    apply remove_first_filter; [done|]. intros v. apply Huniq.
  - destruct (decide (r = source_socket w)) as [->|Hs].
    + apply remove_first_filter; [done|]. intros v. apply Huniq.
    + symmetry. apply filter_all. intros v Hv ->.
      destruct (Hends r w Hv); congruence.
Qed.

(** Both properties survive any thinning of the registry. *)
Lemma consistent_sublist (h h1 : list Node) :
  (∀ r, socket_wires h1 r `sublist_of` socket_wires h r) →
  consistent h → consistent h1.
Proof.
  intros Hsub [Hnd Hends]. split.
  - intros r. eapply sublist_NoDup; [apply Hnd|].
    apply fmap_sublist, Hsub.
  - intros r v Hv. apply Hends.
    by eapply elem_of_sublist; [|apply Hsub].
Qed.

Lemma removable_sublist (h h1 : list Node) (w : Wire) :
  (∀ r, socket_wires h1 r `sublist_of` socket_wires h r) →
  removable h w → removable h1 w.
Proof.
  intros Hsub [Hne Huniq]. split; [done|].
  intros r v Hv. apply (Huniq r).
  by eapply elem_of_sublist; [|apply Hsub].
Qed.

Lemma remove_wires_wires (ws : list Wire) (st : State) (r : SocketRef) :
  consistent (heap st) → Forall (removable (heap st)) ws →
  socket_wires (heap (remove_wires ws st)) r
  = filter (λ v, v ∉ ws) (socket_wires (heap st) r).
Proof.
  revert st. induction ws as [|w ws IH]; intros st Hc Hws.
  { symmetry. apply filter_all. intros v _. apply not_elem_of_nil. }
  change (remove_wires (w :: ws) st) with (remove_wires ws (Wire_remove w st)).
  apply Forall_cons in Hws as [Hw Hws].
  assert (∀ r', socket_wires (heap (Wire_remove w st)) r'
                `sublist_of` socket_wires (heap st) r') as Hsub.
  { intros r'. rewrite Wire_remove_wires by done. apply sublist_filter. }
  rewrite IH.
  - rewrite Wire_remove_wires by done. rewrite list_filter_filter.
    apply list_filter_iff. intros v. rewrite not_elem_of_cons. tauto.
  - by eapply consistent_sublist.
  - eapply Forall_impl; [exact Hws|]. intros v. by apply removable_sublist.
Qed.

(** *** Well-formed stores *)

(** Every socket of the store. *)
Definition all_refs (h : list Node) : list SocketRef :=
  n ← seq 0 (length h); node_socket_refs h n.

(** What the [Wire] constructor and [Wire.remove] maintain for a wire [w]
    held by socket [r]: it runs from an output to an input socket, [r] is
    its end of the matching direction, and both ends hold it. *)
Definition wire_ok (h : list Node) (r : SocketRef) (w : Wire) : Prop :=
  is_output (source_socket w) = true
  ∧ is_output (target_socket w) = false
  ∧ (if is_output r then source_socket w else target_socket w) = r
  ∧ w ∈ socket_wires h (source_socket w)
  ∧ w ∈ socket_wires h (target_socket w).

Definition wf_heap (h : list Node) : Prop :=
  Forall (λ r, Forall (wire_ok h r) (socket_wires h r)) (all_refs h)
  ∧ NoDup (wire_id <$>
             (filter (λ r, is_output r = true) (all_refs h) ≫= socket_wires h))
  ∧ NoDup (wire_id <$>
             (filter (λ r, is_output r = false) (all_refs h) ≫= socket_wires h)).

#[global] Instance wire_ok_dec h r w : Decision (wire_ok h r w).
Proof. unfold wire_ok. apply _. Defined.

#[global] Instance wf_heap_dec h : Decision (wf_heap h).
Proof. unfold wf_heap. apply _. Defined.

Lemma elem_of_node_socket_refs (h : list Node) (n : nat) (r : SocketRef) :
  r ∈ node_socket_refs h n ↔ parent_node r = n ∧ is_Some (get_socket h r).
Proof.
  unfold node_socket_refs, get_socket. split.
  - destruct (h !! n) as [nd|] eqn:Hn; [|by intros ?%elem_of_nil].
    rewrite elem_of_app, !list_elem_of_fmap.
    intros [(i & -> & Hi)|(i & -> & Hi)]; apply elem_of_seq in Hi; simpl;
      rewrite Hn; simpl; (split; [done|]); apply lookup_lt_is_Some; lia.
  - intros [<- Hs]. destruct r as [p o i]. simpl in *.
    destruct (h !! p) as [nd|]; [|by destruct Hs]. simpl in Hs.
    apply lookup_lt_is_Some in Hs.
    rewrite elem_of_app, !list_elem_of_fmap.
    destruct o; [right|left]; exists i; (split; [done|]);
      apply elem_of_seq; simpl in *; lia.
Qed.

Lemma elem_of_all_refs (h : list Node) (r : SocketRef) :
  r ∈ all_refs h ↔ is_Some (get_socket h r).
Proof.
  unfold all_refs. rewrite list_elem_of_bind. split.
  - intros (n & Hr & _). by apply elem_of_node_socket_refs in Hr as [_ ?].
  - intros Hs. exists (parent_node r). split.
    + by apply elem_of_node_socket_refs.
    + apply elem_of_seq. split; [lia|]. simpl.
      unfold get_socket in Hs.
      destruct (h !! parent_node r) eqn:E; [|by destruct Hs].
      by apply lookup_lt_Some in E.
Qed.

Lemma socket_wires_ref (h : list Node) (r : SocketRef) (w : Wire) :
  w ∈ socket_wires h r → r ∈ all_refs h.
Proof.
  intros Hw. apply elem_of_all_refs. unfold socket_wires in Hw.
  destruct (get_socket h r); [done|]. by apply elem_of_nil in Hw.
Qed.

Lemma NoDup_fmap_bind_elem {A B C} (f : B → C) (g : A → list B)
    (l : list A) (a : A) :
  NoDup (f <$> (l ≫= g)) → a ∈ l → NoDup (f <$> g a).
Proof.
  induction l as [|x l IH]; intros Hnd Ha; [by apply elem_of_nil in Ha|].
  rewrite bind_cons, fmap_app in Hnd.
  apply NoDup_app in Hnd as (Hx & _ & Hl).
  apply elem_of_cons in Ha as [->|Ha]; [done|by apply IH].
Qed.

Lemma NoDup_fmap_eq {A B} (f : A → B) (l : list A) (x y : A) :
  NoDup (f <$> l) → x ∈ l → y ∈ l → f x = f y → x = y.
Proof.
  induction l as [|a l IH]; intros Hnd Hx Hy Hf; [by apply elem_of_nil in Hx|].
  rewrite fmap_cons in Hnd. apply NoDup_cons in Hnd as [Ha Hnd].
  apply elem_of_cons in Hx as [->|Hx]; apply elem_of_cons in Hy as [->|Hy].
  - done.
  - exfalso. apply Ha. rewrite Hf. by apply list_elem_of_fmap_2.
  - exfalso. apply Ha. rewrite <-Hf. by apply list_elem_of_fmap_2.
  - by apply IH.
Qed.

Section WellFormed.
Context (h : list Node) (Hwf : wf_heap h).

Lemma wf_wire_ok (r : SocketRef) (w : Wire) :
  w ∈ socket_wires h r → wire_ok h r w.
Proof using Hwf.
  intros Hw. destruct Hwf as (Hok & _ & _).
  rewrite Forall_forall in Hok.
  specialize (Hok r (socket_wires_ref h r w Hw)).
  rewrite Forall_forall in Hok. by apply Hok.
Qed.

Lemma wf_nodup (r : SocketRef) : NoDup (wire_id <$> socket_wires h r).
Proof using Hwf.
  destruct (socket_wires h r) as [|w ws] eqn:E; [constructor|].
  assert (r ∈ all_refs h) as Hr
    by (apply (socket_wires_ref h r w); rewrite E; left).
  rewrite <-E. destruct Hwf as (_ & Hout & Hin).
  destruct (is_output r) eqn:Ho.
  - eapply NoDup_fmap_bind_elem; [exact Hout|].
    by apply list_elem_of_filter.
  - eapply NoDup_fmap_bind_elem; [exact Hin|].
    by apply list_elem_of_filter.
Qed.

Lemma wf_unique (r r' : SocketRef) (v w : Wire) :
  v ∈ socket_wires h r → w ∈ socket_wires h r' →
  wire_id v = wire_id w → v = w.
Proof using Hwf.
  intros Hv Hw Hid.
  destruct (wf_wire_ok r v Hv) as (_ & Hvt & _ & _ & Hv').
  destruct (wf_wire_ok r' w Hw) as (_ & Hwt & _ & _ & Hw').
  destruct Hwf as (_ & _ & Hin).
  eapply NoDup_fmap_eq; [exact Hin| | |done].
  - apply list_elem_of_bind. exists (target_socket v). split; [done|].
    apply list_elem_of_filter. split; [done|]. by eapply socket_wires_ref.
  - apply list_elem_of_bind. exists (target_socket w). split; [done|].
    apply list_elem_of_filter. split; [done|]. by eapply socket_wires_ref.
Qed.

Lemma wf_consistent : consistent h.
Proof using Hwf.
  split; [apply wf_nodup|].
  intros r v Hv. destruct (wf_wire_ok r v Hv) as (_ & _ & Hr & _).
  destruct (is_output r); auto.
Qed.

Lemma wf_removable (r : SocketRef) (w : Wire) :
  w ∈ socket_wires h r → removable h w.
Proof using Hwf.
  intros Hw. destruct (wf_wire_ok r w Hw) as (Hs & Ht & _). split.
  - intros Heq. rewrite Heq in Hs. congruence.
  - intros r' v Hv. by apply (wf_unique r' r).
Qed.
End WellFormed.

(** ** Removing a node *)

(** A wire touches node [n] when one of its ends is a pin of [n]. *)
Definition incident (n : nat) (w : Wire) : Prop :=
  parent_node (source_socket w) = n ∨ parent_node (target_socket w) = n.

#[global] Instance incident_dec n w : Decision (incident n w).
Proof. unfold incident. apply _. Defined.

Lemma filter_ext_elem {A} (P Q : A → Prop) `{∀ x, Decision (P x)}
    `{∀ x, Decision (Q x)} (l : list A) :
  (∀ x, x ∈ l → P x ↔ Q x) → filter P l = filter Q l.
Proof.
  induction l as [|a l IH]; intros Hpq; [done|].
  rewrite !filter_cons.
  assert (P a ↔ Q a) as Ha by (apply Hpq; left).
  assert (filter P l = filter Q l) as ->
    by (apply IH; intros x Hx; apply Hpq; by right).
  repeat case_decide; tauto.
Qed.

Section RemoveSockets.
Context (h0 : list Node) (Hwf : wf_heap h0).

(** The registry once the sockets [dn] have been emptied. *)
Definition emptied (dn : list SocketRef) (st : State) : Prop :=
  ∀ r, socket_wires (heap st) r
       = filter (λ w, (source_socket w ∉ dn) ∧ (target_socket w ∉ dn))
                (socket_wires h0 r).

Lemma emptied_sublist (dn : list SocketRef) (st : State) :
  emptied dn st →
  ∀ r, socket_wires (heap st) r `sublist_of` socket_wires h0 r.
Proof. intros Hst r. rewrite Hst. apply sublist_filter. Qed.

Lemma remove_socket_wires_emptied (dn : list SocketRef) (rk : SocketRef)
    (st : State) :
  emptied dn st → emptied (dn ++ [rk]) (remove_socket_wires rk st).
Proof using Hwf.
  intros Hst r. unfold remove_socket_wires.
  pose proof (emptied_sublist dn st Hst) as Hsub.
  rewrite remove_wires_wires.
  - rewrite (Hst r), list_filter_filter. apply filter_ext_elem.
    intros v Hv.
    destruct (wf_wire_ok h0 Hwf r v Hv) as (_ & _ & _ & Hvs & Hvt).
    pose proof (cons_ends h0 (wf_consistent h0 Hwf)) as Hends.
    rewrite !not_elem_of_app, !list_elem_of_singleton.
    rewrite (Hst rk), list_elem_of_filter.
    split.
    + intros (Hnot & Hs & Ht). repeat split; try done.
      * intros Heq. apply Hnot. split; [done|]. by rewrite <-Heq.
      * intros Heq. apply Hnot. split; [done|]. by rewrite <-Heq.
    + intros ((Hs & Hsk) & (Ht & Htk)). split; [|done].
      intros (_ & Hin). destruct (Hends rk v Hin); congruence.
  - eapply consistent_sublist; [exact Hsub|]. by apply wf_consistent.
  - apply Forall_forall. intros w Hw.
    eapply removable_sublist; [exact Hsub|].
    apply (wf_removable h0 Hwf rk). by eapply elem_of_sublist; [|apply Hsub].
Qed.

Lemma remove_sockets_emptied (rs dn : list SocketRef) (st : State) :
  emptied dn st →
  emptied (dn ++ rs) (foldl (λ s r, remove_socket_wires r s) st rs).
Proof using Hwf.
  revert dn st. induction rs as [|rk rs IH]; intros dn st Hst.
  - simpl. by rewrite app_nil_r.
  - simpl. rewrite cons_middle, app_assoc.
    apply IH. by apply remove_socket_wires_emptied.
Qed.
End RemoveSockets.

Lemma delete_node_wires (n : nat) (st : State) (r : SocketRef) :
  wf_heap (heap st) →
  socket_wires (heap (delete_item (INode n) st)) r
  = filter (λ w, ¬ incident n w) (socket_wires (heap st) r).
Proof.
  intros Hwf. unfold delete_item.
  change (heap (removeItem ?it ?s)) with (heap s).
  pose proof (remove_sockets_emptied (heap st) Hwf
                (node_socket_refs (heap st) n) [] st) as Hem.
  rewrite Hem.
  - apply filter_ext_elem. intros v Hv. simpl.
    destruct (wf_wire_ok (heap st) Hwf r v Hv) as (_ & _ & _ & Hvs & Hvt).
    apply socket_wires_ref, elem_of_all_refs in Hvs, Hvt.
    rewrite !elem_of_node_socket_refs. unfold incident. tauto.
  - intros r'. symmetry. apply filter_all. intros v _.
    split; apply not_elem_of_nil.
Qed.

(** Everything in a store except which wires the sockets hold. *)
Definition unwire_socket (s : Socket) : Socket := mkSocket [] (value s).

Definition unwire (nd : Node) : Node :=
  mkNode (cls nd) (pos nd) (node_value nd) (write_to_file nd)
         (unwire_socket <$> input_sockets nd)
         (unwire_socket <$> output_sockets nd).

Lemma unwire_alter_socket (f : Socket → Socket) (r : SocketRef)
    (h : list Node) :
  (∀ s, value (f s) = value s) →
  unwire <$> alter_socket f r h = unwire <$> h.
Proof.
  intros Hf. apply fmap_alter_absorb. intros nd.
  destruct nd as [c p nv wf ins outs], r as [n [] i]; unfold unwire; simpl;
    f_equal; apply fmap_alter_absorb; intros s; unfold unwire_socket;
    by rewrite Hf.
Qed.

Lemma unwire_Wire_remove (w : Wire) (st : State) :
  unwire <$> heap (Wire_remove w st) = unwire <$> heap st.
Proof. rewrite heap_Wire_remove. by rewrite !unwire_alter_socket. Qed.

Lemma node_socket_refs_unwire (h h' : list Node) (n : nat) :
  unwire <$> h' = unwire <$> h →
  node_socket_refs h' n = node_socket_refs h n.
Proof.
  intros Heq. apply (f_equal (λ l, l !! n)) in Heq.
  rewrite !list_lookup_fmap in Heq. unfold node_socket_refs.
  destruct (h' !! n) as [nd'|], (h !! n) as [nd|]; try done.
  simpl in Heq. injection Heq as _ _ _ _ Hi Ho.
  apply (f_equal length) in Hi, Ho. rewrite !length_fmap in Hi, Ho.
  by rewrite Hi, Ho.
Qed.

Lemma all_refs_unwire (h h' : list Node) :
  unwire <$> h' = unwire <$> h → all_refs h' = all_refs h.
Proof.
  intros Heq. unfold all_refs.
  assert (length h' = length h) as ->
    by (apply (f_equal length) in Heq; by rewrite !length_fmap in Heq).
  apply list_bind_ext; [|done]. intros n. by apply node_socket_refs_unwire.
Qed.

(** The wires of the graph, each counted at the output socket it leaves. *)
Definition connections (h : list Node) : list Wire :=
  filter (λ r, is_output r = true) (all_refs h) ≫= socket_wires h.

Lemma filter_bind {A B} (P : B → Prop) `{∀ x, Decision (P x)}
    (g : A → list B) (l : list A) :
  filter P (l ≫= g) = l ≫= (λ a, filter P (g a)).
Proof.
  induction l as [|a l IH]; [done|].
  by rewrite !bind_cons, filter_app, IH.
Qed.

Lemma length_filter_split {A} (P : A → Prop) `{∀ x, Decision (P x)}
    (l : list A) :
  length (filter (λ x, ¬ P x) l) = length l - length (filter P l).
Proof.
  pose proof (filter_app_complement P l) as Hp.
  apply Permutation_length in Hp. rewrite length_app in Hp. lia.
Qed.

(** Scene membership under removal. *)
Lemma same_item_trans (a b c : Item) :
  same_item a c = true → same_item b c = true → same_item b a = true.
Proof.
  destruct a, b, c; simpl; try done; rewrite !bool_decide_eq_true; congruence.
Qed.

Lemma in_scene_removeItem (it it' : Item) (st : State) :
  in_scene it (removeItem it' st)
  = in_scene it st && negb (same_item it' it).
Proof.
  unfold in_scene, removeItem. simpl.
  induction (scene_items st) as [|x l IH]; [done|].
  rewrite filter_cons. simpl. case_decide as Hx; simpl; rewrite IH.
  - destruct (same_item it x) eqn:E; [|done]. simpl.
    destruct (same_item it' it) eqn:E'; [|done]. exfalso.
    assert (same_item it' x = true); [|congruence].
    destruct it, it', x; simpl in *; try done;
      rewrite ?bool_decide_eq_true in *; congruence.
  - destruct (same_item it x) eqn:E; [|done]. simpl.
    assert (same_item it' it = true) as ->.
    { apply (same_item_trans it it' x); [done|].
      by destruct (same_item it' x). }
    simpl. by rewrite andb_false_r.
Qed.

Lemma in_scene_Wire_remove (it : Item) (w : Wire) (st : State) :
  same_item (IWire w) it = false →
  in_scene it (Wire_remove w st) = in_scene it st.
Proof.
  intros Hne. unfold Wire_remove.
  case_match; [|done].
  rewrite in_scene_removeItem, Hne. simpl. by rewrite andb_true_r.
Qed.

Lemma elem_of_node_wires (h : list Node) (n : nat) (w : Wire) :
  w ∈ node_wires h n ↔ ∃ r, parent_node r = n ∧ w ∈ socket_wires h r.
Proof.
  unfold node_wires, socket_wires, get_socket. split.
  - destruct (h !! n) as [nd|] eqn:Hn; [|by intros ?%elem_of_nil].
    rewrite list_elem_of_join. intros (l & Hw & Hl).
    apply list_elem_of_fmap in Hl as (s & -> & Hs).
    apply elem_of_app in Hs as [Hs|Hs];
      apply list_elem_of_lookup in Hs as [i Hi].
    + exists (mkRef n false i). simpl. by rewrite Hn; simpl; rewrite Hi.
    + exists (mkRef n true i). simpl. by rewrite Hn; simpl; rewrite Hi.
  - intros ([p o i] & <- & Hw). simpl in *.
    destruct (h !! p) as [nd|]; [|by apply elem_of_nil in Hw]. simpl in Hw.
    destruct (sockets_of nd o !! i) as [s|] eqn:Hs;
      [|by apply elem_of_nil in Hw].
    apply list_elem_of_join. exists (wires s). split; [done|].
    apply list_elem_of_fmap_2, elem_of_app.
    apply list_elem_of_lookup_2 in Hs. destruct o; auto.
Qed.

(** What a node deletion does besides thinning the registry: the other
    data of the store stays, and only wire items of the node's own wires
    leave the scene along with the node. *)
Lemma remove_wires_frame (P : State → Prop) (ws : list Wire) (st : State) :
  (∀ w s, w ∈ ws → P s → P (Wire_remove w s)) → P st → P (remove_wires ws st).
Proof.
  revert st. induction ws as [|w ws IH]; intros st Hstep Hst; [done|].
  change (remove_wires (w :: ws) st) with (remove_wires ws (Wire_remove w st)).
  apply IH.
  - intros w' s Hw'. apply Hstep. by right.
  - apply Hstep; [left|done].
Qed.

Lemma same_item_refl (it : Item) : same_item it it = true.
Proof. destruct it; simpl; by apply bool_decide_eq_true. Qed.

Lemma in_scene_Wire_remove_self (w : Wire) (st : State) :
  in_scene (IWire w) (Wire_remove w st) = false.
Proof.
  unfold Wire_remove.
  destruct (in_scene (IWire w) (set_heap _ st)) eqn:E; [|done].
  rewrite in_scene_removeItem, same_item_refl. apply andb_false_r.
Qed.

Lemma in_scene_Wire_remove_anti (it : Item) (w : Wire) (st : State) :
  in_scene it (Wire_remove w st) = true → in_scene it st = true.
Proof.
  unfold Wire_remove. case_match; [|done].
  rewrite in_scene_removeItem. by intros [? _]%andb_prop.
Qed.

Lemma in_scene_addItem_other (it it' : Item) (st : State) :
  same_item it it' = false → in_scene it (addItem it' st) = in_scene it st.
Proof.
  intros Hne. unfold addItem. case_match; [done|].
  unfold in_scene. simpl. rewrite existsb_app. simpl.
  by rewrite Hne, !orb_false_r.
Qed.

Lemma in_scene_remove_wires_anti (it : Item) (ws : list Wire) (st : State) :
  in_scene it (remove_wires ws st) = true → in_scene it st = true.
Proof.
  apply (remove_wires_frame
           (λ s, in_scene it s = true → in_scene it st = true)); [|done].
  intros w s _ IH H. by apply IH, (in_scene_Wire_remove_anti it w).
Qed.

(** Every wire of the list has left the scene after the loop. *)
Lemma in_scene_remove_wires_gone (v : Wire) (ws : list Wire) (st : State) :
  v ∈ ws → in_scene (IWire v) (remove_wires ws st) = false.
Proof.
  revert st. induction ws as [|w ws IH]; intros st Hv;
    [by apply elem_of_nil in Hv|].
  change (remove_wires (w :: ws) st) with (remove_wires ws (Wire_remove w st)).
  apply elem_of_cons in Hv as [->|Hv]; [|by apply IH].
  destruct (in_scene (IWire w) (remove_wires ws (Wire_remove w st))) eqn:E;
    [|done].
  apply in_scene_remove_wires_anti in E.
  by rewrite in_scene_Wire_remove_self in E.
Qed.

Lemma delete_node_frame (n : nat) (st : State) :
  wf_heap (heap st) →
  unwire <$> heap (delete_item (INode n) st) = unwire <$> heap st
  ∧ (∀ m, in_scene (INode m) (delete_item (INode n) st)
          = in_scene (INode m) st && bool_decide (m ≠ n))
  ∧ (∀ v, wire_id v ∉ wire_id <$> node_wires (heap st) n →
          in_scene (IWire v) (delete_item (INode n) st)
          = in_scene (IWire v) st).
Proof.
  intros Hwf. unfold delete_item.
  set (P := λ s : State,
    (∀ r, socket_wires (heap s) r `sublist_of` socket_wires (heap st) r)
    ∧ unwire <$> heap s = unwire <$> heap st
    ∧ (∀ m, in_scene (INode m) s = in_scene (INode m) st)
    ∧ (∀ v, wire_id v ∉ wire_id <$> node_wires (heap st) n →
            in_scene (IWire v) s = in_scene (IWire v) st)).
  assert (∀ rs s, (∀ r, r ∈ rs → parent_node r = n) → P s →
            P (foldl (λ s r, remove_socket_wires r s) s rs)) as Hfold.
  { induction rs as [|rk rs IH]; intros s Hrs Hs; [done|]. simpl.
    apply IH; [intros r Hr; apply Hrs; by right|].
    unfold remove_socket_wires.
    assert (∀ w, w ∈ socket_wires (heap s) rk → w ∈ node_wires (heap st) n)
      as Hsub.
    { intros w Hw. apply elem_of_node_wires. exists rk.
      split; [apply Hrs; left|].
      destruct Hs as (Hs & _). by eapply elem_of_sublist; [|apply Hs]. }
    revert Hsub. generalize (socket_wires (heap s) rk). intros ws Hsub.
    apply remove_wires_frame; [|done].
    intros w s' Hw (Hs1 & Hs2 & Hs3 & Hs4). repeat split.
    - intros r. etrans; [|apply Hs1].
      rewrite heap_Wire_remove, !socket_wires_drop.
      assert (∀ l, remove_first w l `sublist_of` l) as Hrf.
      { induction l as [|a l IHl]; simpl; [done|].
        case_bool_decide; [by apply sublist_cons|by apply sublist_skip]. }
      repeat case_decide; try done; try apply Hrf.
      etrans; apply Hrf.
    - by rewrite unwire_Wire_remove.
    - intros m. by rewrite in_scene_Wire_remove.
    - intros v Hv. rewrite in_scene_Wire_remove; [by apply Hs4|].
      simpl. apply bool_decide_eq_false_2. intros Hid. apply Hv.
      rewrite <-Hid. by apply list_elem_of_fmap_2, Hsub. }
  destruct (Hfold (node_socket_refs (heap st) n) st) as (_ & H2 & H3 & H4).
  { intros r Hr. by apply elem_of_node_socket_refs in Hr as [? _]. }
  { by repeat split. }
  split; [exact H2|]. split.
  - intros m. rewrite in_scene_removeItem, H3. f_equal. simpl.
    by rewrite bool_decide_not, (bool_decide_ext (n = m) (m = n)).
  - intros v Hv. rewrite in_scene_removeItem. simpl.
    rewrite andb_true_r. by apply H4.
Qed.

Lemma delete_selected_node (n : nat) (st : State) :
  delete_selected_items [INode n] st
  = delete_item (INode n)
      (set_undo (take (undo_index st) (undo_cmds st)
                 ++ [DeleteItemsCommand [(INode n, node_wires (heap st) n)]])
                (S (undo_index st)) st).
Proof. reflexivity. Qed.

(** C8. Removing node [n] removes from every socket exactly the wires that
    touch a pin of [n], in particular all wires of [n]'s own sockets; the
    number of connections drops by the number of connections incident to
    [n]; every other datum of every node (class, position, stored value,
    socket values) is unchanged, [n] leaves the scene, every other node
    stays where it was, and so does every wire item that is not one of
    [n]'s wires. *)
Theorem remove_node_cascades (n : nat) (st : State)
    (Hwf : wf_heap (heap st)) :
  (∀ r, socket_wires (heap (delete_selected_items [INode n] st)) r
        = filter (λ w, ¬ incident n w) (socket_wires (heap st) r))
  ∧ length (connections (heap (delete_selected_items [INode n] st)))
    = length (connections (heap st))
      - length (filter (incident n) (connections (heap st)))
  ∧ unwire <$> heap (delete_selected_items [INode n] st)
    = unwire <$> heap st
  ∧ (∀ m, in_scene (INode m) (delete_selected_items [INode n] st)
          = in_scene (INode m) st && bool_decide (m ≠ n))
  ∧ (∀ v, wire_id v ∉ wire_id <$> node_wires (heap st) n →
          in_scene (IWire v) (delete_selected_items [INode n] st)
          = in_scene (IWire v) st).
Proof.
  rewrite delete_selected_node.
  set (st1 := set_undo _ _ st).
  assert (heap st1 = heap st) as Hh by done.
  assert (wf_heap (heap st1)) as Hwf1 by by rewrite Hh.
  pose proof (delete_node_wires n st1) as Hw.
  destruct (delete_node_frame n st1 Hwf1) as (Hu & Hn & Hv).
  rewrite Hh in Hw, Hu, Hv.
  split; [intros r; by apply Hw|]. split; [|by repeat split].
  unfold connections. rewrite (all_refs_unwire _ _ Hu).
  rewrite <-length_filter_split, filter_bind.
  f_equal. apply list_bind_ext; [|done]. intros r. by apply Hw.
Qed.

Lemma latched_wf : wf_heap (heap Examples.latched).
Proof. apply (bool_decide_unpack _). by vm_compute. Qed.

(** Deleting the Or gate of [Examples.latched], which holds all three wires
    of that circuit. *)
Lemma remove_node_cascades_witness :
  length (connections (heap Examples.latched)) = 3
  ∧ length (connections
              (heap (delete_selected_items [INode 1] Examples.latched))) = 0
  ∧ in_scene (INode 1) (delete_selected_items [INode 1] Examples.latched)
    = false
  ∧ in_scene (INode 2) (delete_selected_items [INode 1] Examples.latched)
    = true.
Proof.
  destruct (remove_node_cascades 1 Examples.latched latched_wf)
    as (_ & Hlen & _ & Hnodes & _).
  split; [reflexivity|]. split; [rewrite Hlen; reflexivity|].
  split; rewrite Hnodes; reflexivity.
Defined.

(** ** Connecting to an input that already has a wire *)

Lemma get_socket_shape (h : list Node) (r : SocketRef) :
  get_socket (shape h) r = strip_socket <$> get_socket h r.
Proof.
  unfold get_socket, shape. rewrite list_lookup_fmap.
  destruct (h !! parent_node r) as [nd|]; [|done]. simpl.
  destruct nd, (is_output r); simpl; by rewrite list_lookup_fmap.
Qed.

Lemma socket_wires_shape (h h' : list Node) (r : SocketRef) :
  shape h = shape h' → socket_wires h r = socket_wires h' r.
Proof.
  intros Hs.
  assert (∀ h0, socket_wires h0 r = socket_wires (shape h0) r) as Heq.
  { intros h0. unfold socket_wires. rewrite get_socket_shape.
    by destruct (get_socket h0 r). }
  by rewrite (Heq h), (Heq h'), Hs.
Qed.

Lemma is_Some_get_socket_unwire (h h' : list Node) (r : SocketRef) :
  unwire <$> h' = unwire <$> h →
  is_Some (get_socket h r) → is_Some (get_socket h' r).
Proof.
  intros Hu. rewrite <-!elem_of_all_refs. by rewrite (all_refs_unwire _ _ Hu).
Qed.

Lemma remove_wires_keeps (ws : list Wire) (st : State) :
  unwire <$> heap (remove_wires ws st) = unwire <$> heap st
  ∧ wire_count (remove_wires ws st) = wire_count st.
Proof.
  apply (remove_wires_frame
           (λ s, unwire <$> heap s = unwire <$> heap st
                 ∧ wire_count s = wire_count st)); [|done].
  intros w s _ [Hu Hc]. split; [by rewrite unwire_Wire_remove|].
  rewrite <-Hc. unfold Wire_remove. by case_match.
Qed.

Lemma in_scene_addItem (it : Item) (st : State) :
  in_scene it (if in_scene it st then st else addItem it st) = true.
Proof.
  destruct (in_scene it st) eqn:E; [done|].
  unfold addItem. rewrite E. unfold in_scene. simpl.
  rewrite existsb_app. simpl.
  assert (same_item it it = true) as ->
    by (destruct it; simpl; by apply bool_decide_eq_true).
  by rewrite orb_true_r.
Qed.

Lemma heap_addItem_cond (it : Item) (st : State) :
  heap (if in_scene it st then st else addItem it st) = heap st.
Proof.
  destruct (in_scene it st) eqn:E; [done|]. unfold addItem. by rewrite E.
Qed.

(** The registry after the structural part of a connection onto an input
    socket that holds wires. *)
Lemma connect_occupied_wires (st : State) (src tgt : SocketRef) :
  wf_heap (heap st) →
  is_output src = true → is_output tgt = false →
  socket_wires (heap st) tgt ≠ [] →
  is_Some (get_socket (heap st) src) →
  (connect src tgt st).1 = mkWire (wire_count st) src tgt
  ∧ (∀ r, socket_wires (heap (connect src tgt st).2) r
          = filter (λ v, v ∉ socket_wires (heap st) tgt)
                   (socket_wires (heap st) r)
            ++ (if decide (r = src ∨ r = tgt)
                then [mkWire (wire_count st) src tgt] else []))
  ∧ in_scene (IWire (mkWire (wire_count st) src tgt)) (connect src tgt st).2
    = true.
Proof.
  intros Hwf Hsrc Htgt Hocc Hs. unfold connect.
  rewrite Htgt. simpl. rewrite bool_decide_eq_true_2 by done.
  set (old := socket_wires (heap st) tgt).
  destruct (remove_wires_keeps old st) as [Hu Hc].
  assert (∀ r, socket_wires (heap (remove_wires old st)) r
               = filter (λ v, v ∉ old) (socket_wires (heap st) r)) as Hreg.
  { intros r. apply remove_wires_wires; [by apply wf_consistent|].
    apply Forall_forall. intros w Hw. by apply (wf_removable _ Hwf tgt). }
  assert (is_Some (get_socket (heap (remove_wires old st)) src)) as Hs1
    by by eapply is_Some_get_socket_unwire.
  assert (is_Some (get_socket (heap st) tgt)) as Ht.
  { apply elem_of_all_refs. destruct old as [|w ?] eqn:E; [done|].
    apply (socket_wires_ref _ _ w). fold old. rewrite E. left. }
  assert (is_Some (get_socket (heap (remove_wires old st)) tgt)) as Ht1
    by by eapply is_Some_get_socket_unwire.
  assert (src ≠ tgt) as Hne by (intros ->; congruence).
  unfold Wire_init. rewrite Hc. simpl.
  split; [done|]. split; [|apply in_scene_addItem].
  intros r.
  rewrite heap_addItem_cond. simpl.
  rewrite !socket_wires_add, Hreg.
  assert (is_Some (get_socket
            (alter_socket (add_wire (mkWire (wire_count st) src tgt)) src
               (heap (remove_wires old st))) tgt)) as Ht2
    by (rewrite get_socket_alter_ne by done; done).
  destruct (decide (r = tgt)) as [->|Hrt].
  - rewrite decide_True by done.
    rewrite decide_False by (intros [? _]; congruence).
    by rewrite decide_True by auto.
  - rewrite (decide_False (P := r = tgt ∧ _)) by (by intros [? _]).
    destruct (decide (r = src)) as [->|Hrs].
    + rewrite decide_True by done. by rewrite decide_True by auto.
    + rewrite decide_False by (by intros [? _]).
      rewrite decide_False by (by intros [?|?]). by rewrite app_nil_r.
Qed.

Lemma mouseReleaseEvent_connect (fuel : nat) (st : State)
    (src tgt : SocketRef) :
  is_output src = true → is_output tgt = false →
  parent_node src ≠ parent_node tgt →
  mouseReleaseEvent fuel src [tgt] st
  = (set_heap (updateLogic fuel (parent_node tgt)
                 (heap (connect src tgt st).2)).1 (connect src tgt st).2,
     (updateLogic fuel (parent_node tgt) (heap (connect src tgt st).2)).2).
Proof.
  intros Hsrc Htgt Hother.
  assert (tgt ≠ src) as Hne by (intros ->; congruence).
  unfold mouseReleaseEvent.
  rewrite bool_decide_eq_false_2 by done.
  unfold endpoints. rewrite Hsrc, Htgt. cbn [andb negb].
  rewrite bool_decide_eq_false_2 by done.
  destruct (connect src tgt st) as [w st1]. cbn [fst snd].
  by destruct (updateLogic fuel (parent_node tgt) (heap st1)).
Qed.

(** The wires evicted from the target socket are no longer items of the
    scene once the new wire has been added. Wire objects are told apart by
    their allocation number, so the evicted wire must not carry the number
    the new one is about to get. *)
Lemma connect_evicts_from_scene (st : State) (src tgt : SocketRef)
    (v : Wire) :
  is_output tgt = false →
  v ∈ socket_wires (heap st) tgt → wire_id v ≠ wire_count st →
  in_scene (IWire v) (connect src tgt st).2 = false.
Proof.
  intros Htgt Hv Hid. unfold connect. rewrite Htgt. simpl.
  rewrite bool_decide_eq_true_2
    by (intros E; rewrite E in Hv; by apply elem_of_nil in Hv).
  set (old := socket_wires (heap st) tgt) in *.
  destruct (remove_wires_keeps old st) as [_ Hc].
  pose proof (in_scene_remove_wires_gone v old st Hv) as Hgone.
  unfold Wire_init. rewrite Hc. simpl.
  match goal with |- context [addItem ?it ?s] =>
    assert (in_scene (IWire v) s = false) as Hs by exact Hgone;
    destruct (in_scene it s); [exact Hs|];
    rewrite in_scene_addItem_other; [exact Hs|]
  end.
  simpl. by apply bool_decide_eq_false.
Qed.

(** Counterexample to C2 as stated: in [Examples.occupied] the output node's
    pin holds the wire from the first input; dropping a wire from the second
    input on it succeeds, and the old wire is gone from both of its sockets
    and from the scene. *)
Lemma occupied_pin_is_rewired :
  socket_wires (heap Examples.occupied) (mkRef 2 false 0)
  = [mkWire 0 (mkRef 0 true 0) (mkRef 2 false 0)]
  ∧ socket_wires
      (heap (mouseReleaseEvent 10 (mkRef 1 true 0) [mkRef 2 false 0]
               Examples.occupied).1) (mkRef 2 false 0)
    = [mkWire 1 (mkRef 1 true 0) (mkRef 2 false 0)]
  ∧ socket_wires
      (heap (mouseReleaseEvent 10 (mkRef 1 true 0) [mkRef 2 false 0]
               Examples.occupied).1) (mkRef 0 true 0)
    = []
  ∧ in_scene (IWire (mkWire 0 (mkRef 0 true 0) (mkRef 2 false 0)))
      (mouseReleaseEvent 10 (mkRef 1 true 0) [mkRef 2 false 0]
         Examples.occupied).1
    = false.
Proof. by vm_compute. Qed.

Lemma occupied_wf : wf_heap (heap Examples.occupied).
Proof. apply (bool_decide_unpack _). by vm_compute. Qed.

(** C2, amended. Dropping a wire from an output socket [src] on an input
    socket [tgt] of another node that already holds wires replaces them:
    every wire [tgt] held is removed from the sockets at both of its ends,
    a new wire from [src] to [tgt] is constructed, registered at [src] and
    [tgt] and added to the scene, [tgt] ends up holding the new wire alone,
    and the wires [tgt] held are no longer items of the scene (for wires
    whose allocation number is below the counter, as it is for every wire of
    a state the program reaches). This holds whatever the following
    propagation pass does. *)
Theorem connect_to_occupied_input_replaces (fuel : nat) (st : State)
    (src tgt : SocketRef)
    (Hwf : wf_heap (heap st))
    (Hsrc : is_output src = true) (Htgt : is_output tgt = false)
    (Hother : parent_node src ≠ parent_node tgt)
    (Hoccupied : socket_wires (heap st) tgt ≠ [])
    (Hexists : is_Some (get_socket (heap st) src)) :
  (∀ r, socket_wires (heap (mouseReleaseEvent fuel src [tgt] st).1) r
        = filter (λ v, v ∉ socket_wires (heap st) tgt)
                 (socket_wires (heap st) r)
          ++ (if decide (r = src ∨ r = tgt)
              then [mkWire (wire_count st) src tgt] else []))
  ∧ socket_wires (heap (mouseReleaseEvent fuel src [tgt] st).1) tgt
    = [mkWire (wire_count st) src tgt]
  ∧ in_scene (IWire (mkWire (wire_count st) src tgt))
             (mouseReleaseEvent fuel src [tgt] st).1 = true
  ∧ (∀ v, v ∈ socket_wires (heap st) tgt → wire_id v < wire_count st →
          in_scene (IWire v) (mouseReleaseEvent fuel src [tgt] st).1 = false).
Proof.
  destruct (connect_occupied_wires st src tgt Hwf Hsrc Htgt Hoccupied Hexists)
    as (Hw & Hreg & Hscene).
  assert (∀ v, v ∈ socket_wires (heap st) tgt → wire_id v < wire_count st →
               in_scene (IWire v) (connect src tgt st).2 = false) as Hgone.
  { intros v Hv Hid. apply connect_evicts_from_scene; [done|done|lia]. }
  rewrite (mouseReleaseEvent_connect fuel st src tgt Hsrc Htgt Hother).
  destruct (connect src tgt st) as [w st1]. cbn [fst snd] in *.
  pose proof (updateLogic_shape fuel (parent_node tgt) (heap st1)) as Hshape.
  destruct (updateLogic fuel (parent_node tgt) (heap st1)) as [h o].
  cbn [fst snd] in *.
  assert (∀ r, socket_wires h r
               = filter (λ v, v ∉ socket_wires (heap st) tgt)
                        (socket_wires (heap st) r)
                 ++ (if decide (r = src ∨ r = tgt)
                     then [mkWire (wire_count st) src tgt] else [])) as Hall.
  { intros r. rewrite (socket_wires_shape _ _ r Hshape). apply Hreg. }
  split; [done|]. split; [|done].
  rewrite Hall. rewrite decide_True by auto.
  rewrite filter_none; [done|]. intros v Hv. tauto.
Qed.

(** At [Examples.occupied]: the second input is dropped on the pin that
    holds the wire from the first input. *)
Lemma connect_to_occupied_input_replaces_witness :
  socket_wires
    (heap (mouseReleaseEvent 10 (mkRef 1 true 0) [mkRef 2 false 0]
             Examples.occupied).1) (mkRef 2 false 0)
  = [mkWire (wire_count Examples.occupied) (mkRef 1 true 0) (mkRef 2 false 0)]
  ∧ in_scene
      (IWire (mkWire (wire_count Examples.occupied)
                     (mkRef 1 true 0) (mkRef 2 false 0)))
      (mouseReleaseEvent 10 (mkRef 1 true 0) [mkRef 2 false 0]
         Examples.occupied).1 = true
  ∧ in_scene (IWire (mkWire 0 (mkRef 0 true 0) (mkRef 2 false 0)))
             Examples.occupied = true
  ∧ in_scene (IWire (mkWire 0 (mkRef 0 true 0) (mkRef 2 false 0)))
      (mouseReleaseEvent 10 (mkRef 1 true 0) [mkRef 2 false 0]
         Examples.occupied).1 = false.
Proof.
  destruct (connect_to_occupied_input_replaces 10 Examples.occupied
              (mkRef 1 true 0) (mkRef 2 false 0)) as (_ & H2 & H3 & H4).
  - exact occupied_wf.
  - reflexivity.
  - reflexivity.
  - simpl. lia.
  - discriminate.
  - by eexists.
  - split; [exact H2|]. split; [exact H3|]. split; [reflexivity|].
    apply H4; [apply list_elem_of_here|simpl; lia].
Defined.

(** ** Undo of a deletion *)

(** [DeleteItemsCommand.undo] and [redo] only call [scene.addItem] and
    [scene.removeItem]: the store, and with it every socket's wire list, is
    left as the deletion made it. *)
Lemma heap_restore_item (it : Item) (st : State) :
  heap (restore_item it st) = heap st.
Proof.
  unfold restore_item, addItem. destruct it; repeat case_match; done.
Qed.

Lemma heap_undo_delete (stored : list (Item * list Wire)) (st : State) :
  heap (cmd_undo (DeleteItemsCommand stored) st) = heap st.
Proof.
  unfold cmd_undo. revert st.
  induction stored as [|[it ws] stored IH]; intros st; [done|].
  cbn [foldl fst snd]. rewrite IH. clear IH.
  assert (∀ s, heap (foldl (λ s' w, restore_item (IWire w) s') s ws) = heap s)
    as Hws.
  { induction ws as [|w ws IHw]; intros s; [done|].
    cbn [foldl]. by rewrite IHw, heap_restore_item. }
  by rewrite Hws, heap_restore_item.
Qed.

(** C5, at a failing input. In [Examples.occupied] the output node (node 2)
    is wired to the first input. After deleting the output node and undoing,
    the node and the wire item are back in the scene, but the wire is
    registered at neither of its two sockets (both were holding it before
    the deletion), so the document written from this scene has no
    connection. *)
Theorem undo_of_delete_leaves_wire_unregistered :
  let w := mkWire 0 (mkRef 0 true 0) (mkRef 2 false 0) in
  let st := undo (delete_selected_items [INode 2] Examples.occupied) in
  socket_wires (heap Examples.occupied) (mkRef 0 true 0) = [w]
  ∧ socket_wires (heap Examples.occupied) (mkRef 2 false 0) = [w]
  ∧ in_scene (INode 2) st = true
  ∧ in_scene (IWire w) st = true
  ∧ socket_wires (heap st) (mkRef 0 true 0) = []
  ∧ socket_wires (heap st) (mkRef 2 false 0) = []
  ∧ (sd_connections <$> serialize_scene Examples.occupied)
    = Some (Some [mkConnectionData 0 0 2 0])
  ∧ (sd_connections <$> serialize_scene st) = Some (Some []).
Proof. by vm_compute. Qed.

(** ** Loading *)

(** The method on its own, given a populated scene: a document that parses
    but has neither top-level list makes it return [False] after the scene
    has been emptied. [open_file], its only caller, never passes it a
    populated scene (see below). *)
Lemma malformed_document_clears_scene :
  (load_from_file (Some (mkSceneData None None)) Examples.occupied).2 = false
  ∧ scene_items
      (load_from_file (Some (mkSceneData None None)) Examples.occupied).1 = []
  ∧ length (scene_items Examples.occupied) = 4.
Proof. by vm_compute. Qed.

(** What a failing [load_from_file] leaves of the state it was given. A
    file that cannot be read or parsed leaves it as it was. A document that
    parses but lacks the node list fails after the scene has been cleared;
    one that has the node list but lacks the connection list fails after the
    scene has been cleared and the document's nodes have been built into
    it. *)
Lemma load_failure_effects (st : State) :
  load_from_file None st = (st, false)
  ∧ (∀ data, sd_nodes data = None →
       load_from_file (Some data) st = (clear st, false))
  ∧ (∀ data nds, sd_nodes data = Some nds → sd_connections data = None →
       load_from_file (Some data) st
       = ((foldl (λ acc d, load_node d acc) (clear st, ∅) nds).1, false)).
Proof.
  split; [done|]. split.
  - intros data Hn. unfold load_from_file, deserialize_scene. by rewrite Hn.
  - intros data nds Hn Hc. unfold load_from_file, deserialize_scene.
    rewrite Hn, Hc.
    change (clear (clear st)) with (clear st).
    by destruct (foldl _ _ nds).
Qed.

(** The tabs of the window are never touched by [open_file]: at most a tab
    is appended. *)
Lemma open_file_keeps_tabs (path : string) (read : string → option SceneData)
    (w : LogicGateSimulator) :
  tabs w `prefix_of` tabs (open_file path read w).
Proof.
  unfold open_file. destruct (String.eqb _ _); [done|].
  destruct (list_find _ _) as [[i t]|]; [done|].
  destruct (Tab_load_from_file _ _ _) as [tab []]; [|done].
  by apply prefix_app_r.
Qed.

(** C6. Whatever graphs the window holds in its tabs, opening a file that
    cannot be read or parsed, or whose document lacks a top-level list,
    fails and mutates none of them: the load into the newly built tab
    returns [False], the tab is not added, and the tabs of the window (their
    nodes, connections, undo stacks and paths) are exactly what they were;
    unless the file was open already, the window as a whole is unchanged.
    The scene that [load_from_file] clears before it reads the document is
    that of the new tab, which is empty. *)
Theorem failed_load_keeps_open_graphs (w : LogicGateSimulator)
    (path : string) (read : string → option SceneData)
    (Hbad : match read path with
            | None => True
            | Some data => sd_nodes data = None ∨ sd_connections data = None
            end) :
  (Tab_load_from_file path read NodeEditorTab_init).2 = false
  ∧ tabs (open_file path read w) = tabs w
  ∧ (Forall (λ tab, file_path tab ≠ Some path) (tabs w) →
     open_file path read w = w).
Proof.
  assert ((Tab_load_from_file path read NodeEditorTab_init).2 = false)
    as Hfail.
  { unfold Tab_load_from_file, load_from_file, deserialize_scene.
    destruct (read path) as [data|]; [|done].
    destruct (sd_nodes data) as [nds|]; [|done].
    destruct Hbad as [?|Hc]; [done|]. rewrite Hc.
    by destruct (foldl _ _ nds). }
  split; [done|].
  unfold open_file. destruct (String.eqb _ _); [done|].
  destruct (Tab_load_from_file _ _ _) as [tab ok]. simpl in Hfail. subst ok.
  split.
  - by destruct (list_find _ _) as [[i t]|].
  - intros Hnew.
    destruct (list_find _ _) as [[i t]|] eqn:Hfind; [|done].
    apply list_find_Some in Hfind as (Hi & Ht & _).
    rewrite Forall_forall in Hnew.
    destruct (Hnew t); [by eapply list_elem_of_lookup_2|done].
Qed.

(** A window whose one tab holds [Examples.occupied], and a file that
    parses to a document without its lists. *)
Lemma failed_load_keeps_open_graphs_witness :
  (Tab_load_from_file "broken.lgf" (λ _, Some (mkSceneData None None))
     NodeEditorTab_init).2 = false
  ∧ open_file "broken.lgf" (λ _, Some (mkSceneData None None))
      (mkWindow [mkTab None Examples.occupied] 0)
    = mkWindow [mkTab None Examples.occupied] 0.
Proof.
  destruct (failed_load_keeps_open_graphs
              (mkWindow [mkTab None Examples.occupied] 0) "broken.lgf"
              (λ _, Some (mkSceneData None None)))
    as (H1 & _ & H3).
  - simpl. by left.
  - split; [exact H1|]. apply H3. repeat constructor. discriminate.
Defined.

(** ** Self-loops *)

(** A document with one And gate whose output is wired to its own first
    input. *)
Definition self_loop_document : SceneData :=
  mkSceneData
    (Some [mkNodeData 7 "AndGateNode" 0 0 None])
    (Some [mkConnectionData 7 0 7 0]).

(** C9, at a failing input. [deserialize_scene] builds the wire of
    [self_loop_document]: both ends of the resulting connection are pins of
    the same node, which the connect path refuses. *)
Theorem deserialize_builds_self_loop :
  let w := mkWire 0 (mkRef 0 true 0) (mkRef 0 false 0) in
  deserialize_scene self_loop_document init_state
  = ((deserialize_scene self_loop_document init_state).1, Returned)
  ∧ socket_wires (heap (deserialize_scene self_loop_document init_state).1)
                 (mkRef 0 false 0) = [w]
  ∧ socket_wires (heap (deserialize_scene self_loop_document init_state).1)
                 (mkRef 0 true 0) = [w]
  ∧ parent_node (source_socket w) = parent_node (target_socket w)
  ∧ (mouseReleaseEvent 10 (mkRef 0 true 0) [mkRef 0 false 0]
       (create_node "AND" (0, 0)%Z init_state).2).1
    = (create_node "AND" (0, 0)%Z init_state).2.
Proof. by vm_compute. Qed.

(** No wire registered at a socket has both ends on one node. *)
Definition loop_free (h : list Node) : Prop :=
  ∀ r w, w ∈ socket_wires h r →
    parent_node (source_socket w) ≠ parent_node (target_socket w).

Lemma elem_of_remove_first (w v : Wire) (l : list Wire) :
  v ∈ remove_first w l → v ∈ l.
Proof.
  induction l as [|a l IH]; simpl; [done|].
  case_bool_decide; [by right|].
  intros [->|Hv]%elem_of_cons; [left|right; by apply IH].
Qed.

Lemma loop_free_shape (h h' : list Node) :
  shape h = shape h' → loop_free h → loop_free h'.
Proof.
  intros Hsh Hlf r w Hw. apply (Hlf r).
  by rewrite (socket_wires_shape h h' r Hsh).
Qed.

Lemma loop_free_drop (w : Wire) (r0 : SocketRef) (h : list Node) :
  loop_free h → loop_free (alter_socket (drop_wire w) r0 h).
Proof.
  intros Hlf r v. rewrite socket_wires_drop.
  destruct (decide (r = r0)); [|by apply Hlf].
  intros Hv%elem_of_remove_first. by apply (Hlf r).
Qed.

Lemma loop_free_add (w : Wire) (r0 : SocketRef) (h : list Node) :
  parent_node (source_socket w) ≠ parent_node (target_socket w) →
  loop_free h → loop_free (alter_socket (add_wire w) r0 h).
Proof.
  intros Hw Hlf r v. rewrite socket_wires_add.
  destruct (decide _); [|by apply Hlf].
  intros [Hv| ->%list_elem_of_singleton]%elem_of_app; [by apply (Hlf r)|done].
Qed.

Lemma loop_free_remove_wires (ws : list Wire) (st : State) :
  loop_free (heap st) → loop_free (heap (remove_wires ws st)).
Proof.
  revert st. induction ws as [|w ws IH]; intros st Hlf; [done|].
  apply IH. rewrite heap_Wire_remove. by do 2 apply loop_free_drop.
Qed.

Lemma loop_free_connect (src tgt : SocketRef) (st : State) :
  parent_node src ≠ parent_node tgt →
  loop_free (heap st) → loop_free (heap (connect src tgt st).2).
Proof.
  intros Hne Hlf. unfold connect, Wire_init. cbn [fst snd].
  rewrite heap_addItem_cond. cbn [heap].
  do 2 (apply loop_free_add; [done|]).
  destruct (_ && _); [by apply loop_free_remove_wires|done].
Qed.

(** X5. The connect path keeps the store free of self-loops: whatever
    sockets lie under the release point, the test
    [source_socket.parent_node == target_socket.parent_node] skips every
    pair on one node, and the eviction and the propagation pass add no
    wire. *)
Lemma mouseReleaseEvent_loop_free (fuel : nat) (self : SocketRef)
    (items : list SocketRef) (st : State) :
  loop_free (heap st) →
  loop_free (heap (mouseReleaseEvent fuel self items st).1).
Proof.
  intros Hlf. induction items as [|item rest IH]; [done|].
  cbn [mouseReleaseEvent].
  case_bool_decide; [done|].
  destruct (endpoints self item) as [[src tgt]|]; [|done].
  case_bool_decide as Hne; [done|].
  pose proof (loop_free_connect src tgt st Hne Hlf) as Hc.
  destruct (connect src tgt st) as [w st1]. cbn [snd] in Hc.
  pose proof (updateLogic_shape fuel (parent_node tgt) (heap st1)) as Hsh.
  destruct (updateLogic _ _ _) as [h o]. cbn [fst] in *.
  simpl. by apply (loop_free_shape (heap st1)); [symmetry|].
Qed.

(** ** Round trip through the document *)



(** ** Copying a selection *)

Lemma get_socket_Some (h : list Node) (r : SocketRef) (s : Socket) :
  get_socket h r = Some s →
  ∃ nd, h !! parent_node r = Some nd
        ∧ sockets_of nd (is_output r) !! socket_index r = Some s.
Proof.
  unfold get_socket. destruct (h !! parent_node r) as [nd|]; [|done].
  intros Hs. by exists nd.
Qed.

Lemma socket_wires_Some (h : list Node) (r : SocketRef) (w : Wire) :
  w ∈ socket_wires h r →
  ∃ nd, h !! parent_node r = Some nd
        ∧ socket_index r < length (sockets_of nd (is_output r)).
Proof.
  unfold socket_wires. intros Hw.
  destruct (get_socket h r) as [s|] eqn:Hs; [|by apply elem_of_nil in Hw].
  apply get_socket_Some in Hs as (nd & Hnd & Hi).
  exists nd. split; [done|]. by apply lookup_lt_Some in Hi.
Qed.

Lemma index_of_own (h : list Node) (r : SocketRef) (w : Wire) (nd : Node) :
  w ∈ socket_wires h r → h !! parent_node r = Some nd →
  index_of (parent_node r) (is_output r) nd r = Some (socket_index r).
Proof.
  intros Hw Hnd. apply socket_wires_Some in Hw as (nd' & Hnd' & Hi).
  assert (nd' = nd) as -> by congruence.
  unfold index_of. by rewrite !bool_decide_eq_true_2.
Qed.

(** For a registered wire of a well-formed store both [list.index] calls
    find the socket. *)
Lemma copied_connection_of_wf (h : list Node) (r : SocketRef) (w : Wire) :
  wf_heap h → w ∈ socket_wires h r →
  ∃ a b, h !! parent_node (source_socket w) = Some a
       ∧ h !! parent_node (target_socket w) = Some b
       ∧ socket_index (source_socket w) < length (output_sockets a)
       ∧ socket_index (target_socket w) < length (input_sockets b)
       ∧ copied_connection_of h w
         = Some (mkCopiedConnection
                   (parent_node (source_socket w)) (socket_index (source_socket w))
                   (parent_node (target_socket w)) (socket_index (target_socket w))).
Proof.
  intros Hwf Hw.
  destruct (wf_wire_ok h Hwf r w Hw) as (Hso & Hto & _ & Hs & Ht).
  destruct (socket_wires_Some _ _ _ Hs) as (a & Ha & Hia).
  destruct (socket_wires_Some _ _ _ Ht) as (b & Hb & Hib).
  rewrite Hso in Hia. rewrite Hto in Hib.
  exists a, b. repeat split; try done.
  unfold copied_connection_of. rewrite Ha. simpl.
  pose proof (index_of_own h _ w a Hs Ha) as Hi. rewrite Hso in Hi.
  rewrite Hi. simpl. rewrite Hb. simpl.
  pose proof (index_of_own h _ w b Ht Hb) as Hj. rewrite Hto in Hj.
  by rewrite Hj.
Qed.

Lemma collect_connections_nodup (h : list Node) (ids : gset nat)
    (ws : list Wire) (acc : list CopiedConnection) :
  NoDup acc → NoDup (collect_connections h ids ws acc).1.
Proof.
  revert acc. induction ws as [|w ws IH]; intros acc Hacc; simpl; [done|].
  destruct (_ && _); [|by apply IH].
  destruct (copied_connection_of h w) as [c|]; [|done].
  apply IH. case_bool_decide; [done|].
  apply NoDup_app. split; [done|]. split; [|apply NoDup_singleton].
  intros x Hx Hx'. apply list_elem_of_singleton in Hx' as ->. done.
Qed.

Lemma collect_connections_spec (h : list Node) (ids : gset nat)
    (ws : list Wire) (acc : list CopiedConnection) :
  (∀ w, w ∈ ws → is_Some (copied_connection_of h w)) →
  (collect_connections h ids ws acc).2 = Returned
  ∧ ∀ c, c ∈ (collect_connections h ids ws acc).1
         ↔ c ∈ acc
           ∨ ∃ w, w ∈ ws
                  ∧ parent_node (source_socket w) ∈ ids
                  ∧ parent_node (target_socket w) ∈ ids
                  ∧ copied_connection_of h w = Some c.
Proof.
  revert acc. induction ws as [|w ws IH]; intros acc Hok; simpl.
  { split; [done|]. intros c. split; [auto|].
    intros [?|(w & Hw & _)]; [done|by apply elem_of_nil in Hw]. }
  assert (∀ w', w' ∈ ws → is_Some (copied_connection_of h w')) as Hok'
    by (intros w' Hw'; apply Hok; by right).
  destruct (bool_decide (parent_node (source_socket w) ∈ ids)
            && bool_decide (parent_node (target_socket w) ∈ ids)) eqn:Hsel.
  - apply andb_true_iff in Hsel as [Hs%bool_decide_eq_true Ht%bool_decide_eq_true].
    destruct (Hok w) as [c Hc]; [left|]. rewrite Hc.
    destruct (IH (if bool_decide (c ∈ acc) then acc else acc ++ [c]) Hok')
      as [Hr Hiff].
    split; [done|]. intros c'. rewrite Hiff. split.
    + intros [Hc'|(w' & Hw' & H')].
      * case_bool_decide; [by left|].
        apply elem_of_app in Hc' as [?|Hc']; [by left|].
        apply list_elem_of_singleton in Hc' as ->.
        right. exists w. split; [left|done].
      * right. exists w'. split; [by right|done].
    + intros [Hc'|(w' & Hw' & Hs' & Ht' & Hc')].
      * left. case_bool_decide; [done|]. apply elem_of_app. by left.
      * apply elem_of_cons in Hw' as [->|Hw'].
        -- left. assert (c' = c) as -> by congruence.
           case_bool_decide; [done|]. apply elem_of_app. right. left.
        -- right. by exists w'.
  - destruct (IH acc Hok') as [Hr Hiff]. split; [done|].
    intros c. rewrite Hiff. split.
    + intros [?|(w' & Hw' & H')]; [by left|].
      right. exists w'. split; [by right|done].
    + intros [?|(w' & Hw' & Hs' & Ht' & Hc')]; [by left|].
      apply elem_of_cons in Hw' as [->|Hw']; [|right; by exists w'].
      exfalso. apply andb_false_iff in Hsel.
      destruct Hsel as [H%bool_decide_eq_false|H%bool_decide_eq_false]; done.
Qed.

Lemma elem_of_all_wires_of (h : list Node) (ns : list nat) (w : Wire) :
  w ∈ all_wires_of h ns
  ↔ ∃ r, parent_node r ∈ ns ∧ w ∈ socket_wires h r.
Proof.
  unfold all_wires_of. rewrite list_elem_of_bind. split.
  - intros (n & Hw & Hn).
    assert (w ∈ node_wires h n) as Hnw.
    { unfold node_wires. destruct (h !! n) as [nd|]; [|done].
      rewrite fmap_app, join_app. rewrite !elem_of_app in *. tauto. }
    apply elem_of_node_wires in Hnw as (r & <- & Hr). by exists r.
  - intros (r & Hr & Hw). exists (parent_node r). split; [|done].
    assert (w ∈ node_wires h (parent_node r)) as Hnw
      by (apply elem_of_node_wires; by exists r).
    unfold node_wires in Hnw. destruct (h !! parent_node r) as [nd|]; [|done].
    rewrite fmap_app, join_app in Hnw. rewrite !elem_of_app in *. tauto.
Qed.

Lemma elem_of_connections (h : list Node) (w : Wire) :
  w ∈ connections h ↔ ∃ r, is_output r = true ∧ w ∈ socket_wires h r.
Proof.
  unfold connections. rewrite list_elem_of_bind. split.
  - intros (r & Hw & Hr). apply list_elem_of_filter in Hr as [Ho _].
    by exists r.
  - intros (r & Ho & Hw). exists r. split; [done|].
    apply list_elem_of_filter. split; [done|]. by eapply socket_wires_ref.
Qed.

(** Where a captured connection comes from. *)
Lemma copied_connections_origin (sel : list Item) (st : State) :
  wf_heap (heap st) →
  ∀ c, c ∈ copied_connections (copy_selected_nodes sel st).1 →
    ∃ r w, w ∈ socket_wires (heap st) r
           ∧ parent_node (source_socket w) ∈ selected_nodes_of (heap st) sel
           ∧ parent_node (target_socket w) ∈ selected_nodes_of (heap st) sel
           ∧ copied_connection_of (heap st) w = Some c.
Proof.
  intros Hwf c. unfold copy_selected_nodes.
  set (ns := selected_nodes_of (heap st) sel).
  destruct ns as [|n0 ns'] eqn:Hns; [by intros ?%elem_of_nil|].
  rewrite <-Hns.
  destruct (collect_connections_spec (heap st) (list_to_set ns)
              (all_wires_of (heap st) ns) []) as [Hret Hiff].
  { intros w Hw. apply elem_of_all_wires_of in Hw as (r & _ & Hw).
    destruct (copied_connection_of_wf _ r w Hwf Hw) as (a & b & _ & _ & _ & _ & ->).
    by eexists. }
  destruct (collect_connections _ _ _ _) as [cs s]. simpl in *. subst s.
  simpl. rewrite Hiff.
  intros [?%elem_of_nil|(w & Hw & Hs & Ht & Hc)]; [done|].
  apply elem_of_list_to_set in Hs, Ht.
  apply elem_of_all_wires_of in Hw as (r & _ & Hw).
  by exists r, w.
Qed.

(** C10. The connection list captured by a copy has no duplicates, and its
    entries are exactly the records of the graph's connections whose two end
    nodes are both selected: each such connection is recorded once, although
    its wire is met twice (at the output socket of one selected node and at
    the input socket of the other). On a well-formed store the copy returns,
    with [True] exactly when a node was selected. *)
Theorem copy_records_internal_connections_once (sel : list Item)
    (st : State) (Hwf : wf_heap (heap st)) :
  (copy_selected_nodes sel st).2
  = Some (bool_decide (selected_nodes_of (heap st) sel ≠ []))
  ∧ NoDup (copied_connections (copy_selected_nodes sel st).1)
  ∧ ∀ c, c ∈ copied_connections (copy_selected_nodes sel st).1
         ↔ ∃ w, w ∈ connections (heap st)
                ∧ parent_node (source_socket w)
                  ∈ selected_nodes_of (heap st) sel
                ∧ parent_node (target_socket w)
                  ∈ selected_nodes_of (heap st) sel
                ∧ copied_connection_of (heap st) w = Some c.
Proof.
  unfold copy_selected_nodes.
  set (ns := selected_nodes_of (heap st) sel).
  destruct ns as [|n0 ns'] eqn:Hns.
  { simpl. split; [done|]. split; [constructor|].
    intros c. split; [by intros ?%elem_of_nil|].
    intros (w & _ & Hs & _). by apply elem_of_nil in Hs. }
  rewrite <-Hns.
  pose proof (collect_connections_nodup (heap st) (list_to_set ns)
                (all_wires_of (heap st) ns) [] (NoDup_nil_2)) as Hnd.
  destruct (collect_connections_spec (heap st) (list_to_set ns)
              (all_wires_of (heap st) ns) []) as [Hret Hiff].
  { intros w Hw. apply elem_of_all_wires_of in Hw as (r & _ & Hw).
    destruct (copied_connection_of_wf _ r w Hwf Hw) as (a & b & _ & _ & _ & _ & ->).
    by eexists. }
  destruct (collect_connections _ _ _ _) as [cs s]. simpl in *. subst s.
  simpl. split; [by rewrite Hns|]. split; [done|].
  intros c. rewrite Hiff. split.
  - intros [?%elem_of_nil|(w & Hw & Hs & Ht & Hc)]; [done|].
    apply elem_of_list_to_set in Hs, Ht.
    exists w. repeat split; try done.
    apply elem_of_all_wires_of in Hw as (r & _ & Hw).
    destruct (wf_wire_ok _ Hwf r w Hw) as (Hso & _ & _ & Hws & _).
    apply elem_of_connections. by exists (source_socket w).
  - intros (w & Hw & Hs & Ht & Hc). right. exists w.
    rewrite !elem_of_list_to_set. repeat split; try done.
    apply elem_of_connections in Hw as (r & Ho & Hw).
    destruct (wf_wire_ok _ Hwf r w Hw) as (_ & _ & Hr & _).
    rewrite Ho in Hr. subst r.
    apply elem_of_all_wires_of. by exists (source_socket w).
Qed.

(** Copying the two gates of [Examples.latched]: four wire occurrences are
    gathered for the two wires between them, and two records are kept. *)
Lemma copy_records_internal_connections_once_witness :
  length (filter (λ w, incident 1 w ∧ incident 2 w)
                 (all_wires_of (heap Examples.latched) [1; 2])) = 4
  ∧ (copy_selected_nodes [INode 1; INode 2] Examples.latched).2 = Some true
  ∧ NoDup (copied_connections
             (copy_selected_nodes [INode 1; INode 2] Examples.latched).1)
  ∧ copied_connections
      (copy_selected_nodes [INode 1; INode 2] Examples.latched).1
    = [mkCopiedConnection 1 0 2 0; mkCopiedConnection 2 0 1 1].
Proof.
  destruct (copy_records_internal_connections_once [INode 1; INode 2]
              Examples.latched latched_wf) as (Hr & Hnd & _).
  split; [reflexivity|]. split; [exact Hr|]. split; [exact Hnd|].
  reflexivity.
Defined.

(** ** Pasting *)

Lemma class_of_class_name (c : NodeClass) :
  class_of_name (class_name c) = Some c.
Proof. by destruct c. Qed.

(** The node [paste_nodes] builds from a template. *)
Definition pasted_node (off : Z) (cn : CopiedNode) (c : NodeClass) : Node :=
  set_pos ((cn_pos cn).1 + off, (cn_pos cn).2 + off)%Z (new_node c false).

Lemma alter_last {A} (f : A → A) (l : list A) (x : A) :
  alter f (length l) (l ++ [x]) = l ++ [f x].
Proof. induction l as [|a l IH]; csimpl; [done|]. by rewrite IH. Qed.

(** Items only ever join the scene while pasting. *)
Definition scene_grows (st st' : State) : Prop :=
  ∀ it, in_scene it st = true → in_scene it st' = true.

Lemma in_scene_addItem_mono (it it' : Item) (st : State) :
  in_scene it st = true → in_scene it (addItem it' st) = true.
Proof.
  intros H. unfold addItem. case_match; [done|].
  unfold in_scene in *. simpl. rewrite existsb_app, H. done.
Qed.

Lemma in_scene_addItem_new (it : Item) (st : State) :
  in_scene it (addItem it st) = true.
Proof.
  pose proof (in_scene_addItem it st) as H.
  unfold addItem in *. by destruct (in_scene it st) eqn:E.
Qed.

Definition insert_pairs (m : gmap nat nat) (ps : list (nat * nat))
    : gmap nat nat :=
  foldl (λ m p, <[p.1 := p.2]> m) m ps.

Lemma paste_node_step (off : Z) (cn : CopiedNode) (c : NodeClass)
    (st : State) (pasted : list nat) (m : gmap nat nat) :
  class_of_name (cn_type cn) = Some c →
  paste_node off cn (st, pasted, m)
  = (addItem (INode (length (heap st)))
       (set_heap (heap st ++ [pasted_node off cn c]) st),
     pasted ++ [length (heap st)], <[cn_id cn := length (heap st)]> m).
Proof.
  intros Hc. unfold paste_node. rewrite Hc. cbn [alloc fst snd heap set_heap].
  by rewrite alter_last.
Qed.

Lemma paste_node_loop (off : Z) (cns : list CopiedNode) (cs : list NodeClass) :
  Forall2 (λ cn c, class_of_name (cn_type cn) = Some c) cns cs →
  ∀ (st : State) (pasted : list nat) (m : gmap nat nat),
  ∃ st',
    foldl (λ acc cn, paste_node off cn acc) (st, pasted, m) cns
    = (st', pasted ++ seq (length (heap st)) (length cns),
       insert_pairs m (zip (cn_id <$> cns)
                           (seq (length (heap st)) (length cns))))
    ∧ heap st' = heap st ++ zip_with (pasted_node off) cns cs
    ∧ wire_count st' = wire_count st
    ∧ copied_connections st' = copied_connections st
    ∧ copy_offset st' = copy_offset st
    ∧ undo_cmds st' = undo_cmds st
    ∧ undo_index st' = undo_index st
    ∧ scene_grows st st'
    ∧ ∀ k, k < length cns →
           in_scene (INode (length (heap st) + k)) st' = true.
Proof.
  induction 1 as [|cn c cns cs Hc Hall IH]; intros st pasted m.
  { exists st. simpl. rewrite !app_nil_r.
    repeat split; try done; [by intros it Hit|intros k Hk; lia]. }
  cbn [foldl]. rewrite (paste_node_step off cn c st pasted m Hc).
  set (n := length (heap st)).
  set (st1 := addItem (INode n) (set_heap (heap st ++ [pasted_node off cn c]) st)).
  destruct (IH st1 (pasted ++ [n]) (<[cn_id cn := n]> m))
    as (st' & Hfold & Hh & Hw & Hcc & Hco & Hu & Hi & Hg & Hin).
  assert (heap st1 = heap st ++ [pasted_node off cn c]) as Hh1.
  { unfold st1, addItem. by case_match. }
  assert (length (heap st1) = S n) as Hlen
    by (rewrite Hh1, length_app; simpl; lia).
  exists st'. rewrite Hfold, Hlen. split.
  { simpl. by rewrite <-app_assoc. }
  rewrite Hh, Hh1, <-app_assoc. simpl.
  assert (scene_grows st st1) as Hg1.
  { intros it Hit. unfold st1. by apply in_scene_addItem_mono. }
  unfold st1, addItem in Hw, Hcc, Hco, Hu, Hi.
  repeat split; try done.
  - rewrite Hw. by case_match.
  - rewrite Hcc. by case_match.
  - rewrite Hco. by case_match.
  - rewrite Hu. by case_match.
  - rewrite Hi. by case_match.
  - intros it Hit. by apply Hg, Hg1.
  - intros [|k] Hk.
    + rewrite Nat.add_0_r. apply Hg. unfold st1. apply in_scene_addItem_new.
    + replace (n + S k) with (length (heap st1) + k) by lia.
      apply Hin. lia.
Qed.

Lemma insert_pairs_notin (ids ks : list nat) (m : gmap nat nat) (n : nat) :
  n ∉ ids → insert_pairs m (zip ids ks) !! n = m !! n.
Proof.
  revert ks m. induction ids as [|i ids IH]; intros ks m Hn; [done|].
  destruct ks as [|k ks]; [done|].
  apply not_elem_of_cons in Hn as [Hne Hn].
  unfold insert_pairs. simpl. fold (insert_pairs (<[i:=k]> m) (zip ids ks)).
  rewrite IH by done. by rewrite lookup_insert_ne.
Qed.

Lemma insert_pairs_lookup (ids : list nat) (a : nat) (m : gmap nat nat)
    (k n : nat) :
  NoDup ids → ids !! k = Some n →
  insert_pairs m (zip ids (seq a (length ids))) !! n = Some (a + k).
Proof.
  revert a m k. induction ids as [|i ids IH]; intros a m k Hnd Hk; [done|].
  apply NoDup_cons in Hnd as [Hi Hnd].
  unfold insert_pairs. simpl.
  fold (insert_pairs (<[i:=a]> m) (zip ids (seq (S a) (length ids)))).
  destruct k as [|k]; simpl in Hk.
  - injection Hk as ->. rewrite insert_pairs_notin by done.
    rewrite lookup_insert_eq. f_equal. lia.
  - rewrite (IH (S a) _ k) by done. f_equal. lia.
Qed.

Lemma insert_pairs_Some (ids ks : list nat) (n x : nat) :
  insert_pairs ∅ (zip ids ks) !! n = Some x → n ∈ ids.
Proof.
  intros H. destruct (decide (n ∈ ids)) as [|Hn]; [done|].
  by rewrite insert_pairs_notin in H.
Qed.

(** The store after the [Wire] constructor has run for each wire of [ws]. *)
Definition register (w : Wire) (h : list Node) : list Node :=
  alter_socket (add_wire w) (target_socket w)
    (alter_socket (add_wire w) (source_socket w) h).

Definition add_wires (ws : list Wire) (h : list Node) : list Node :=
  foldl (λ h w, register w h) h ws.

Lemma unwire_register (w : Wire) (h : list Node) :
  unwire <$> register w h = unwire <$> h.
Proof. unfold register. by rewrite !unwire_alter_socket. Qed.

Lemma socket_wires_register (w : Wire) (h : list Node) (r : SocketRef) :
  source_socket w ≠ target_socket w →
  is_Some (get_socket h (source_socket w)) →
  is_Some (get_socket h (target_socket w)) →
  socket_wires (register w h) r
  = socket_wires h r
    ++ (if decide (source_socket w = r ∨ target_socket w = r) then [w] else []).
Proof.
  intros Hne Hs Ht. unfold register. rewrite !socket_wires_add.
  assert (is_Some (get_socket (alter_socket (add_wire w) (source_socket w) h)
                              (target_socket w))) as Ht'
    by by rewrite get_socket_alter_ne.
  destruct (decide (r = target_socket w)) as [->|Hrt].
  - rewrite decide_True by done.
    rewrite decide_False by (intros [? _]; congruence).
    by rewrite decide_True by auto.
  - rewrite (decide_False (P := r = target_socket w ∧ _)) by (by intros [? _]).
    destruct (decide (r = source_socket w)) as [->|Hrs].
    + rewrite decide_True by done. by rewrite decide_True by auto.
    + rewrite decide_False by (by intros [? _]).
      rewrite decide_False by (intros [?|?]; congruence).
      by rewrite app_nil_r.
Qed.

Lemma socket_wires_add_wires (ws : list Wire) (h : list Node)
    (r : SocketRef) :
  Forall (λ w, source_socket w ≠ target_socket w
               ∧ is_Some (get_socket h (source_socket w))
               ∧ is_Some (get_socket h (target_socket w))) ws →
  socket_wires (add_wires ws h) r
  = socket_wires h r
    ++ filter (λ w, source_socket w = r ∨ target_socket w = r) ws.
Proof.
  revert h. induction ws as [|w ws IH]; intros h Hws.
  { simpl. by rewrite app_nil_r. }
  apply Forall_cons in Hws as [(Hne & Hs & Ht) Hws].
  change (add_wires (w :: ws) h) with (add_wires ws (register w h)).
  rewrite IH.
  - rewrite socket_wires_register by done. rewrite <-app_assoc. f_equal.
    rewrite filter_cons. by case_decide.
  - eapply Forall_impl; [exact Hws|]. intros v (Hv & Hvs & Hvt).
    split; [done|].
    split; (apply (is_Some_get_socket_unwire h); [apply unwire_register|done]).
Qed.

(** A copied connection whose two ends resolve through the id mapping to
    sockets that exist. *)
Definition pastable (m : gmap nat nat) (h : list Node)
    (c : CopiedConnection) : Prop :=
  ∃ sn en a b,
    m !! start_node_id c = Some sn ∧ m !! end_node_id c = Some en
    ∧ h !! sn = Some a ∧ h !! en = Some b
    ∧ start_socket_index c < length (output_sockets a)
    ∧ end_socket_index c < length (input_sockets b).

(** The wire built for a copied connection. *)
Definition mapped_wire (m : gmap nat nat) (k : nat) (c : CopiedConnection)
    : Wire :=
  mkWire k (mkRef (default 0 (m !! start_node_id c)) true (start_socket_index c))
           (mkRef (default 0 (m !! end_node_id c)) false (end_socket_index c)).

Lemma pastable_unwire (m : gmap nat nat) (h h' : list Node)
    (c : CopiedConnection) :
  unwire <$> h' = unwire <$> h → pastable m h c → pastable m h' c.
Proof.
  intros Hu (sn & en & a & b & Hs & He & Ha & Hb & Hi & Hj).
  assert (∀ n nd, h !! n = Some nd →
            ∃ nd', h' !! n = Some nd'
                   ∧ length (output_sockets nd') = length (output_sockets nd)
                   ∧ length (input_sockets nd') = length (input_sockets nd))
    as Hlen.
  { intros n nd Hn. apply (f_equal (λ l, l !! n)) in Hu.
    rewrite !list_lookup_fmap, Hn in Hu.
    destruct (h' !! n) as [nd'|]; [|done]. exists nd'. split; [done|].
    simpl in Hu. injection Hu as _ _ _ _ Hi' Ho'.
    apply (f_equal length) in Hi', Ho'. rewrite !length_fmap in Hi', Ho'.
    done. }
  destruct (Hlen sn a Ha) as (a' & Ha' & Hao & _).
  destruct (Hlen en b Hb) as (b' & Hb' & _ & Hbi).
  exists sn, en, a', b'. repeat split; try done; lia.
Qed.

Lemma paste_connection_step (m : gmap nat nat) (c : CopiedConnection)
    (st : State) (created : list Wire) :
  pastable m (heap st) c →
  paste_connection m c (st, created)
  = (addItem (IWire (mapped_wire m (wire_count st) c))
       (Wire_init (source_socket (mapped_wire m (wire_count st) c))
                  (target_socket (mapped_wire m (wire_count st) c)) st).2,
     created ++ [mapped_wire m (wire_count st) c]).
Proof.
  intros (sn & en & a & b & Hs & He & Ha & Hb & Hi & Hj).
  unfold paste_connection, mapped_wire. cbn [fst snd].
  rewrite Hs, He, Ha, Hb. rewrite !bool_decide_eq_true_2 by done. done.
Qed.

Lemma paste_connection_loop (m : gmap nat nat) (cs : list CopiedConnection) :
  ∀ (st : State) (created : list Wire),
  Forall (pastable m (heap st)) cs →
  ∃ st',
    foldl (λ acc c, paste_connection m c acc) (st, created) cs
    = (st', created ++ imap (λ k c, mapped_wire m (wire_count st + k) c) cs)
    ∧ heap st'
      = add_wires (imap (λ k c, mapped_wire m (wire_count st + k) c) cs)
                  (heap st)
    ∧ copy_offset st' = copy_offset st
    ∧ scene_grows st st'.
Proof.
  induction cs as [|c cs IH]; intros st created Hcs.
  { exists st. cbn [foldl imap]. rewrite app_nil_r.
    repeat split; try done. by intros it Hit. }
  apply Forall_cons in Hcs as [Hc Hcs].
  cbn [foldl]. rewrite paste_connection_step by done.
  set (w := mapped_wire m (wire_count st) c).
  set (st1 := addItem (IWire w)
                (Wire_init (source_socket w) (target_socket w) st).2).
  assert (heap st1 = register w (heap st)) as Hh1.
  { unfold st1, addItem. by case_match. }
  assert (wire_count st1 = S (wire_count st)) as Hw1.
  { unfold st1, addItem. by case_match. }
  assert (copy_offset st1 = copy_offset st) as Ho1.
  { unfold st1, addItem. by case_match. }
  destruct (IH st1 (created ++ [w])) as (st' & Hfold & Hh & Ho & Hg).
  { eapply Forall_impl; [exact Hcs|]. intros c'.
    apply pastable_unwire. rewrite Hh1. apply unwire_register. }
  exists st'. rewrite Hfold, Hh, Hh1, Hw1, Ho, Ho1.
  assert (imap (λ k c0, mapped_wire m (wire_count st + k) c0) (c :: cs)
          = w :: imap (λ k c0, mapped_wire m (S (wire_count st) + k) c0) cs)
    as ->.
  { rewrite imap_cons. unfold w. rewrite Nat.add_0_r. f_equal.
    apply imap_ext. intros k c' _. simpl. f_equal. lia. }
  rewrite <-app_assoc. repeat split; try done.
  intros it Hit. apply Hg. unfold st1. by apply in_scene_addItem_mono.
Qed.

(** Every node has the socket layout its constructor built. *)
Definition layout_ok (h : list Node) : Prop :=
  Forall (λ nd, length (input_sockets nd) = n_inputs (cls nd)
                ∧ length (output_sockets nd) = n_outputs (cls nd)) h.

#[global] Instance layout_ok_dec h : Decision (layout_ok h).
Proof. unfold layout_ok. apply _. Defined.

Definition node_at (h : list Node) (n : nat) : Node :=
  default (new_node InputNode false) (h !! n).

(** The template [copy_selected_nodes] stores for node [n], and the node
    [paste_nodes] builds from it. *)
Definition template (h : list Node) (n : nat) : CopiedNode :=
  mkCopiedNode (class_name (cls (node_at h n))) (pos (node_at h n)) n.

Definition duplicate (off : Z) (h : list Node) (n : nat) : Node :=
  pasted_node off (template h n) (cls (node_at h n)).

Lemma selected_nodes_valid (h : list Node) (sel : list Item) (n : nat) :
  n ∈ selected_nodes_of h sel → is_Some (h !! n).
Proof.
  unfold selected_nodes_of. rewrite list_elem_of_omap.
  intros ([m|w] & _ & Hx); [|done].
  case_bool_decide; [|done]. by injection Hx as ->.
Qed.

Lemma copied_nodes_templates (h : list Node) (ns : list nat) :
  (∀ n, n ∈ ns → is_Some (h !! n)) →
  omap (copied_node_of h) ns = template h <$> ns.
Proof.
  induction ns as [|n ns IH]; intros Hv; [done|].
  destruct (Hv n) as [nd Hnd]; [left|].
  cbn [omap list_omap fmap list_fmap]. unfold copied_node_of at 1.
  rewrite Hnd. cbn. unfold template at 1, node_at. rewrite Hnd. cbn.
  f_equal. apply IH. intros m Hm. apply Hv. by right.
Qed.

Lemma zip_with_fmap_same {A B C D} (f : B → C → D) (g : A → B) (g' : A → C)
    (l : list A) :
  zip_with f (g <$> l) (g' <$> l) = (λ x, f (g x) (g' x)) <$> l.
Proof. induction l as [|a l IH]; [done|]. csimpl. by rewrite IH. Qed.

Lemma add_wires_lookup_other (ws : list Wire) (h : list Node) (n : nat) :
  Forall (λ w, parent_node (source_socket w) ≠ n
               ∧ parent_node (target_socket w) ≠ n) ws →
  add_wires ws h !! n = h !! n.
Proof.
  revert h. induction ws as [|w ws IH]; intros h Hws; [done|].
  apply Forall_cons in Hws as [[Hs Ht] Hws].
  change (add_wires (w :: ws) h) with (add_wires ws (register w h)).
  rewrite IH by done. unfold register.
  by rewrite !alter_socket_other.
Qed.

Lemma unwire_add_wires (ws : list Wire) (h : list Node) :
  unwire <$> add_wires ws h = unwire <$> h.
Proof.
  revert h. induction ws as [|w ws IH]; intros h; [done|].
  change (add_wires (w :: ws) h) with (add_wires ws (register w h)).
  by rewrite IH, unwire_register.
Qed.

Lemma socket_wires_app_old (h news : list Node) (r : SocketRef) :
  parent_node r < length h →
  socket_wires (h ++ news) r = socket_wires h r.
Proof.
  intros Hlt. unfold socket_wires, get_socket. by rewrite lookup_app_l.
Qed.

Lemma socket_wires_duplicates (off : Z) (h : list Node) (ns : list nat)
    (r : SocketRef) :
  length h ≤ parent_node r →
  socket_wires (h ++ (duplicate off h <$> ns)) r = [].
Proof.
  intros Hge. unfold socket_wires, get_socket.
  rewrite lookup_app_r by done. rewrite list_lookup_fmap.
  destruct (ns !! _) as [n|]; [|done]. simpl.
  destruct (sockets_of _ _ !! _) as [s|] eqn:Hs; [|done].
  apply list_elem_of_lookup_2 in Hs.
  unfold duplicate, pasted_node, set_pos, new_node, sockets_of in Hs.
  simpl in Hs.
  by destruct (is_output r); apply elem_of_replicate in Hs as [-> _].
Qed.

Lemma cmd_redo_paste (st : State) (ns : list nat) (ws : list Wire) :
  push (PasteNodesCommand ns ws) st
  = set_undo (take (undo_index st) (undo_cmds st) ++ [PasteNodesCommand ns ws])
             (S (undo_index st)) st.
Proof. reflexivity. Qed.

Lemma copy_state (sel : list Item) (st : State) :
  selected_nodes_of (heap st) sel ≠ [] →
  heap (copy_selected_nodes sel st).1 = heap st
  ∧ wire_count (copy_selected_nodes sel st).1 = wire_count st
  ∧ copy_offset (copy_selected_nodes sel st).1 = copy_offset st
  ∧ scene_items (copy_selected_nodes sel st).1 = scene_items st
  ∧ copied_nodes (copy_selected_nodes sel st).1
    = template (heap st) <$> selected_nodes_of (heap st) sel.
Proof.
  intros Hsel. unfold copy_selected_nodes.
  rewrite copied_nodes_templates by apply selected_nodes_valid.
  destruct (selected_nodes_of (heap st) sel) as [|n ns] eqn:E; [done|].
  rewrite <-E. by destruct (collect_connections _ _ _ _) as [cs []].
Qed.

(** C7. Copying a selection and pasting it builds one new node per
    selected node, of the same class, at the original position plus the
    paste offset, and in the scene; it builds one wire per captured
    connection (by C10: per connection internal to the selection), running
    between the copies of the two end nodes at the same pin indices; these
    wires are registered at the sockets of the copies only. No node that
    existed before is changed, so no wire joins a copy to a node outside
    the selection, whatever wiring the originals had. *)
Theorem paste_duplicates_selection (sel : list Item) (st : State)
    (Hwf : wf_heap (heap st)) (Hlayout : layout_ok (heap st))
    (Hnodup : NoDup (selected_nodes_of (heap st) sel))
    (Hsel : selected_nodes_of (heap st) sel ≠ []) :
  (paste_nodes (copy_selected_nodes sel st).1).2 = true
  ∧ length (heap (paste_nodes (copy_selected_nodes sel st).1).1)
    = length (heap st) + length (selected_nodes_of (heap st) sel)
  ∧ (∀ n, n < length (heap st) →
       heap (paste_nodes (copy_selected_nodes sel st).1).1 !! n
       = heap st !! n)
  ∧ (∀ k n nd,
       selected_nodes_of (heap st) sel !! k = Some n →
       heap st !! n = Some nd →
       ∃ nd',
         heap (paste_nodes (copy_selected_nodes sel st).1).1
           !! (length (heap st) + k) = Some nd'
         ∧ cls nd' = cls nd
         ∧ pos nd' = ((pos nd).1 + copy_offset st,
                      (pos nd).2 + copy_offset st)%Z
         ∧ in_scene (INode (length (heap st) + k))
                    (paste_nodes (copy_selected_nodes sel st).1).1 = true)
  ∧ ∃ ws,
      length ws = length (copied_connections (copy_selected_nodes sel st).1)
      ∧ (∀ k c,
           copied_connections (copy_selected_nodes sel st).1 !! k = Some c →
           ∃ ka kb,
             selected_nodes_of (heap st) sel !! ka = Some (start_node_id c)
             ∧ selected_nodes_of (heap st) sel !! kb = Some (end_node_id c)
             ∧ ws !! k
               = Some (mkWire (wire_count st + k)
                         (mkRef (length (heap st) + ka) true
                                (start_socket_index c))
                         (mkRef (length (heap st) + kb) false
                                (end_socket_index c))))
      ∧ (∀ r,
           socket_wires (heap (paste_nodes (copy_selected_nodes sel st).1).1) r
           = (if decide (parent_node r < length (heap st))
              then socket_wires (heap st) r else [])
             ++ filter (λ w, source_socket w = r ∨ target_socket w = r) ws).
Proof.
  set (ns := selected_nodes_of (heap st) sel) in *.
  set (st1 := (copy_selected_nodes sel st).1).
  set (h := heap st).
  destruct (copy_state sel st Hsel) as (Hh1 & Hw1 & Ho1 & Hsc1 & Hcn1).
  fold st1 ns h in Hh1, Hw1, Ho1, Hsc1, Hcn1.
  pose proof (copied_connections_origin sel st Hwf) as Hcs.
  fold st1 ns h in Hcs.
  assert (Forall2 (λ cn c, class_of_name (cn_type cn) = Some c)
            (template h <$> ns) ((λ n, cls (node_at h n)) <$> ns)) as HF2.
  { apply Forall2_fmap, Forall_Forall2_diag, Forall_forall.
    intros n _. apply class_of_class_name. }
  destruct (paste_node_loop (copy_offset st1) _ _ HF2 st1 [] ∅)
    as (sa & Hfa & Hha & Hwa & Hcca & Hcoa & Hua & Hia & Hga & Hina).
  rewrite zip_with_fmap_same in Hha. fold (duplicate (copy_offset st1) h) in Hha.
  rewrite <-list_fmap_compose in Hfa.
  rewrite (list_fmap_ext (cn_id ∘ template h) id ns) in Hfa by done.
  rewrite list_fmap_id, length_fmap, Hh1 in Hfa. rewrite length_fmap in Hina.
  rewrite Hh1 in Hha, Hina.
  set (len0 := length h) in *.
  set (off := copy_offset st1) in *.
  set (m := insert_pairs ∅ (zip ns (seq len0 (length ns)))) in *.
  assert (∀ c, c ∈ copied_connections st1 →
            ∃ ka kb, ns !! ka = Some (start_node_id c)
                     ∧ ns !! kb = Some (end_node_id c)
                     ∧ start_socket_index c
                       < n_outputs (cls (node_at h (start_node_id c)))
                     ∧ end_socket_index c
                       < n_inputs (cls (node_at h (end_node_id c)))) as Hres.
  { intros c Hc. apply Hcs in Hc as (r & w & Hw & Hs & Ht & Hc).
    destruct (copied_connection_of_wf h r w Hwf Hw)
      as (a & b & Ha & Hb & Hi & Hj & Hc').
    rewrite Hc' in Hc. injection Hc as <-. simpl.
    apply list_elem_of_lookup in Hs as [ka Hka], Ht as [kb Hkb].
    exists ka, kb. repeat split; try done.
    - unfold node_at. fold h. rewrite Ha. simpl.
      pose proof (Forall_lookup_1 _ _ _ _ Hlayout Ha) as [_ <-]. done.
    - unfold node_at. fold h. rewrite Hb. simpl.
      pose proof (Forall_lookup_1 _ _ _ _ Hlayout Hb) as [<- _]. done. }
  assert (∀ k n, ns !! k = Some n →
            heap sa !! (len0 + k) = Some (duplicate off h n)) as Hnew.
  { intros k n Hk. rewrite Hha, lookup_app_r by (unfold len0; lia).
    replace (len0 + k - length h) with k by (unfold len0; lia).
    by rewrite list_lookup_fmap, Hk. }
  assert (Forall (pastable m (heap sa)) (copied_connections st1)) as Hp.
  { apply Forall_forall. intros c Hc.
    destruct (Hres c Hc) as (ka & kb & Hka & Hkb & Hi & Hj).
    exists (len0 + ka), (len0 + kb), (duplicate off h (start_node_id c)),
           (duplicate off h (end_node_id c)).
    repeat split.
    - by apply insert_pairs_lookup.
    - by apply insert_pairs_lookup.
    - by apply Hnew.
    - by apply Hnew.
    - simpl. by rewrite length_replicate.
    - simpl. by rewrite length_replicate. }
  destruct (paste_connection_loop m _ sa [] Hp) as (sb & Hfb & Hhb & Hcob & Hgb).
  rewrite Hwa, Hw1 in Hfb, Hhb. simpl in Hfb.
  set (ws := imap (λ k c, mapped_wire m (wire_count st + k) c)
                  (copied_connections st1)) in *.
  assert (0 < length ns) as Hpos by (destruct ns; [done|simpl; lia]).
  assert (∃ st2, paste_nodes st1 = (st2, true) ∧ heap st2 = heap sb
                 ∧ scene_items st2 = scene_items sb) as (st2 & Hpaste & Hh2 & Hsc2).
  { assert (paste_nodes st1 = paste_copied st1) as ->.
    { unfold paste_nodes. rewrite Hcn1. by destruct ns. }
    unfold paste_copied. rewrite Hcn1. fold off. rewrite Hfa. cbn [app].
    rewrite Hfb.
    destruct (seq len0 (length ns)) as [|p ps] eqn:Es.
    { apply (f_equal length) in Es. rewrite length_seq in Es. simpl in Es. lia. }
    eexists. split; [reflexivity|]. by rewrite cmd_redo_paste. }
  rewrite Hpaste. cbn [fst snd]. rewrite Hh2, Hhb, Hha.
  assert (∀ k c, copied_connections st1 !! k = Some c →
            ∃ ka kb, ns !! ka = Some (start_node_id c)
                     ∧ ns !! kb = Some (end_node_id c)
                     ∧ ws !! k
                       = Some (mkWire (wire_count st + k)
                                 (mkRef (len0 + ka) true (start_socket_index c))
                                 (mkRef (len0 + kb) false (end_socket_index c))))
    as Hws.
  { intros k c Hk.
    destruct (Hres c (list_elem_of_lookup_2 _ _ _ Hk))
      as (ka & kb & Hka & Hkb & _).
    exists ka, kb. split; [done|]. split; [done|].
    unfold ws. rewrite list_lookup_imap, Hk. simpl. unfold mapped_wire.
    unfold m. by rewrite !(insert_pairs_lookup ns len0 ∅ _ _ Hnodup) by done. }
  assert (Forall (λ w, len0 ≤ parent_node (source_socket w)
                       ∧ len0 ≤ parent_node (target_socket w)
                       ∧ source_socket w ≠ target_socket w
                       ∧ is_Some (get_socket (h ++ (duplicate off h <$> ns))
                                             (source_socket w))
                       ∧ is_Some (get_socket (h ++ (duplicate off h <$> ns))
                                             (target_socket w))) ws) as Hwsok.
  { apply Forall_lookup. intros k w Hk.
    assert (is_Some (copied_connections st1 !! k)) as [c Hc].
    { apply lookup_lt_is_Some. apply lookup_lt_Some in Hk.
      unfold ws in Hk. by rewrite length_imap in Hk. }
    destruct (Hws k c Hc) as (ka & kb & Hka & Hkb & Hw).
    assert (w = mkWire (wire_count st + k)
                  (mkRef (len0 + ka) true (start_socket_index c))
                  (mkRef (len0 + kb) false (end_socket_index c))) as ->
      by congruence.
    destruct (Hres c (list_elem_of_lookup_2 _ _ _ Hc))
      as (ka' & kb' & _ & _ & Hi & Hj).
    simpl. split; [lia|]. split; [lia|]. split; [done|].
    rewrite <-Hha. unfold get_socket. simpl.
    rewrite (Hnew ka _ Hka), (Hnew kb _ Hkb). simpl.
    split; apply lookup_lt_is_Some; by rewrite length_replicate. }
  split; [done|]. split.
  { apply (f_equal length) in Hha.
    rewrite <-(length_fmap unwire), unwire_add_wires, length_fmap.
    rewrite length_app, length_fmap. done. }
  split.
  { intros n Hn. rewrite add_wires_lookup_other.
    - by apply lookup_app_l.
    - eapply Forall_impl; [exact Hwsok|]. intros w (Hs & Ht & _).
      unfold len0 in *. lia. }
  split.
  { intros k n nd Hk Hnd.
    pose proof (unwire_add_wires ws (h ++ (duplicate off h <$> ns))) as Hu.
    apply (f_equal (λ l, l !! (len0 + k))) in Hu.
    rewrite !list_lookup_fmap in Hu. rewrite <-Hha, (Hnew k n Hk) in Hu.
    rewrite Hha in Hu.
    destruct (add_wires ws _ !! (len0 + k)) as [nd'|]; [|done].
    exists nd'. split; [done|]. simpl in Hu. injection Hu as Hc Hpo _ _ _ _.
    unfold node_at in Hc, Hpo. fold h in Hnd. rewrite Hnd in Hc, Hpo.
    simpl in Hc, Hpo. rewrite Hc, Hpo, <-Ho1. split; [done|]. split; [done|].
    unfold in_scene. rewrite Hsc2. apply Hgb, Hina.
    by apply lookup_lt_Some in Hk. }
  exists ws. split; [unfold ws; by rewrite length_imap|]. split; [exact Hws|].
  intros r. rewrite socket_wires_add_wires.
  - f_equal. case_decide.
    + by apply socket_wires_app_old.
    + apply socket_wires_duplicates. unfold len0 in *. lia.
  - eapply Forall_impl; [exact Hwsok|]. by intros w (_ & _ & ? & ? & ?).
Qed.

Lemma chain_wf : wf_heap (heap Examples.chain).
Proof. apply (bool_decide_unpack _). by vm_compute. Qed.

Lemma chain_layout : layout_ok (heap Examples.chain).
Proof. apply (bool_decide_unpack _). by vm_compute. Qed.

(** The two gates of [Examples.chain] (Or -> Not, with the input wired to
    the Or gate from outside the selection), copied and pasted. *)
Lemma paste_duplicates_selection_witness :
  (paste_nodes
     (copy_selected_nodes [INode 1; INode 2] Examples.chain).1).2 = true
  ∧ length (heap (paste_nodes
                    (copy_selected_nodes [INode 1; INode 2]
                                         Examples.chain).1).1) = 3 + 2
  ∧ (∀ n, n < 3 →
       heap (paste_nodes
               (copy_selected_nodes [INode 1; INode 2] Examples.chain).1).1
         !! n = heap Examples.chain !! n)
  ∧ connections
      (heap (paste_nodes
               (copy_selected_nodes [INode 1; INode 2] Examples.chain).1).1)
    = connections (heap Examples.chain)
      ++ [mkWire 2 (mkRef 3 true 0) (mkRef 4 false 0)].
Proof.
  destruct (paste_duplicates_selection [INode 1; INode 2] Examples.chain)
    as (H1 & H2 & H3 & _).
  - exact chain_wf.
  - exact chain_layout.
  - apply (bool_decide_unpack _). by vm_compute.
  - discriminate.
  - split; [exact H1|]. split; [exact H2|]. split; [exact H3|]. reflexivity.
Defined.

(** ** Well-formedness is kept by every operation *)

(** [wf_heap] read off the registry [socket_wires h] alone. *)
Definition wf_registry (R : SocketRef → list Wire) : Prop :=
  (∀ r w, w ∈ R r →
     is_output (source_socket w) = true
     ∧ is_output (target_socket w) = false
     ∧ (if is_output r then source_socket w else target_socket w) = r
     ∧ w ∈ R (source_socket w) ∧ w ∈ R (target_socket w))
  ∧ (∀ r, NoDup (wire_id <$> R r))
  ∧ (∀ r r' v w, v ∈ R r → w ∈ R r' → wire_id v = wire_id w → v = w).

Lemma wf_heap_registry (h : list Node) :
  wf_heap h → wf_registry (socket_wires h).
Proof.
  intros Hwf. split; [|split].
  - intros r w Hw. apply (wf_wire_ok h Hwf r w Hw).
  - apply (wf_nodup h Hwf).
  - apply (wf_unique h Hwf).
Qed.

Lemma NoDup_node_socket_refs (h : list Node) (n : nat) :
  NoDup (node_socket_refs h n).
Proof.
  unfold node_socket_refs. destruct (h !! n) as [nd|]; [|constructor].
  apply NoDup_app. split; [|split].
  - apply NoDup_fmap_2; [by intros ?? [=]|apply NoDup_seq].
  - intros r (i & -> & _)%list_elem_of_fmap (j & [=] & _)%list_elem_of_fmap.
  - apply NoDup_fmap_2; [by intros ?? [=]|apply NoDup_seq].
Qed.

Lemma NoDup_all_refs (h : list Node) : NoDup (all_refs h).
Proof.
  unfold all_refs. apply NoDup_bind; [|intros; apply NoDup_node_socket_refs
                                      |apply NoDup_seq].
  intros n m r _ _ [Hn _]%elem_of_node_socket_refs
    [Hm _]%elem_of_node_socket_refs. congruence.
Qed.

Lemma fmap_bind_list {A B C} (f : B → C) (g : A → list B) (l : list A) :
  f <$> (l ≫= g) = l ≫= (λ x, f <$> g x).
Proof.
  induction l as [|a l IH]; [done|].
  by rewrite !bind_cons, fmap_app, IH.
Qed.

Lemma registry_wf_heap (h : list Node) :
  wf_registry (socket_wires h) → wf_heap h.
Proof.
  intros (Hok & Hnd & Huniq).
  assert (∀ b, NoDup (wire_id <$>
            (filter (λ r, is_output r = b) (all_refs h) ≫= socket_wires h)))
    as Hall.
  { intros b. rewrite fmap_bind_list.
    apply NoDup_bind; [|intros; apply Hnd
                       |apply NoDup_filter, NoDup_all_refs].
    intros r r' k [Hr _]%list_elem_of_filter [Hr' _]%list_elem_of_filter
      (v & -> & Hv)%list_elem_of_fmap (w & Hid & Hw)%list_elem_of_fmap.
    assert (v = w) as -> by by apply (Huniq r r').
    destruct (Hok r w Hv) as (_ & _ & He & _).
    destruct (Hok r' w Hw) as (_ & _ & He' & _).
    rewrite Hr in He. rewrite Hr' in He'. congruence. }
  split; [|split; apply Hall].
  apply Forall_forall. intros r _. apply Forall_forall. intros w Hw.
  apply (Hok r w Hw).
Qed.

Lemma wf_registry_ext (R R' : SocketRef → list Wire) :
  (∀ r, R' r = R r) → wf_registry R → wf_registry R'.
Proof.
  intros He (Hok & Hnd & Hu). split; [|split].
  - intros r w. rewrite !He. apply Hok.
  - intros r. rewrite He. apply Hnd.
  - intros r r' v w. rewrite !He. apply Hu.
Qed.

Lemma wf_registry_filter (P : Wire → Prop) `{∀ w, Decision (P w)}
    (R : SocketRef → list Wire) :
  wf_registry R → wf_registry (λ r, filter P (R r)).
Proof.
  intros (Hok & Hnd & Hu). split; [|split].
  - intros r w [Hp Hw]%list_elem_of_filter.
    destruct (Hok r w Hw) as (? & ? & ? & ? & ?).
    repeat split; try done; by apply list_elem_of_filter.
  - intros r. eapply sublist_NoDup; [apply Hnd|].
    apply fmap_sublist, sublist_filter.
  - intros r r' v w [_ Hv]%list_elem_of_filter [_ Hw]%list_elem_of_filter.
    by apply (Hu r r').
Qed.

Lemma wf_registry_add (k : nat) (src tgt : SocketRef)
    (R : SocketRef → list Wire) :
  is_output src = true → is_output tgt = false →
  (∀ r v, v ∈ R r → wire_id v ≠ k) →
  wf_registry R →
  wf_registry (λ r, R r ++ if decide (src = r ∨ tgt = r)
                           then [mkWire k src tgt] else []).
Proof.
  intros Hs Ht Hfresh (Hok & Hnd & Hu).
  assert (∀ r v, v ∈ R r ++ (if decide (src = r ∨ tgt = r)
                             then [mkWire k src tgt] else []) →
            v ∈ R r ∨ (v = mkWire k src tgt ∧ (src = r ∨ tgt = r))) as Hin.
  { intros r v [Hv|Hv]%elem_of_app; [by left|].
    destruct (decide _); [|by apply elem_of_nil in Hv].
    apply list_elem_of_singleton in Hv. by right. }
  split; [|split].
  - intros r w [Hw|[-> Hr]]%Hin.
    + destruct (Hok r w Hw) as (? & ? & ? & ? & ?).
      repeat split; try done; apply elem_of_app; by left.
    + simpl. split; [done|]. split; [done|]. split.
      * destruct Hr as [<-|<-]; [by rewrite Hs|by rewrite Ht].
      * split; apply elem_of_app; right;
          (rewrite decide_True by auto); apply list_elem_of_here.
  - intros r. rewrite fmap_app. apply NoDup_app. split; [apply Hnd|]. split.
    + intros i (v & -> & Hv)%list_elem_of_fmap Hi.
      destruct (decide _); [|by apply elem_of_nil in Hi].
      apply list_elem_of_singleton in Hi. by apply (Hfresh r v).
    + destruct (decide _); [apply NoDup_singleton|constructor].
  - intros r r' v w [Hv|[-> _]]%Hin [Hw|[-> _]]%Hin Hid.
    + by apply (Hu r r').
    + by apply Hfresh in Hv.
    + symmetry in Hid. by apply Hfresh in Hw.
    + done.
Qed.

Lemma wf_heap_same_wires (h h' : list Node) :
  (∀ r, socket_wires h' r = socket_wires h r) → wf_heap h → wf_heap h'.
Proof.
  intros He Hwf. apply registry_wf_heap.
  by apply (wf_registry_ext (socket_wires h)), wf_heap_registry.
Qed.

(** The wire value [w] is the one registered under its identity, if any
    is. *)
Definition genuine (h : list Node) (w : Wire) : Prop :=
  ∀ r v, v ∈ socket_wires h r → wire_id v = wire_id w → v = w.

Lemma wf_genuine (h : list Node) (r : SocketRef) (w : Wire) :
  wf_heap h → w ∈ socket_wires h r → genuine h w.
Proof. intros Hwf Hw r' v Hv. by apply (wf_unique h Hwf r' r). Qed.

Lemma socket_wires_drop_absent (w : Wire) (r0 r : SocketRef) (h : list Node) :
  (∀ v, v ∈ socket_wires h r → wire_id v ≠ wire_id w) →
  socket_wires (alter_socket (drop_wire w) r0 h) r = socket_wires h r.
Proof.
  intros Hid. rewrite socket_wires_drop. destruct (decide _); [|done].
  by apply remove_first_absent.
Qed.

(** What [Wire.remove] does to the registry: nothing for a wire that is
    registered nowhere. *)
Lemma Wire_remove_registry (w : Wire) (st : State) :
  wf_heap (heap st) → genuine (heap st) w →
  (∀ r, socket_wires (heap (Wire_remove w st)) r
        = filter (λ v, v ≠ w) (socket_wires (heap st) r)).
Proof.
  intros Hwf Hg r.
  destruct (decide (w ∈ socket_wires (heap st) (source_socket w)
                    ∨ w ∈ socket_wires (heap st) (target_socket w)))
    as [Hreg|Hno].
  - apply Wire_remove_wires; [by apply wf_consistent|].
    destruct Hreg as [Hw|Hw]; by apply (wf_removable _ Hwf _ _ Hw).
  - assert (∀ r' v, v ∈ socket_wires (heap st) r' → v ≠ w) as Habs.
    { intros r' v Hv ->. apply Hno. left.
      by destruct (wf_wire_ok _ Hwf _ _ Hv) as (_ & _ & _ & ? & _). }
    assert (∀ r' v, v ∈ socket_wires (heap st) r' → wire_id v ≠ wire_id w)
      as Hid.
    { intros r' v Hv Hid. apply (Habs r' v Hv). by apply (Hg r'). }
    rewrite (filter_all _ _ (Habs r)).
    rewrite heap_Wire_remove, !socket_wires_drop_absent; [done|apply Hid|].
    intros v. rewrite socket_wires_drop_absent by apply Hid. apply Hid.
Qed.

Lemma layout_ok_unwire (h : list Node) :
  layout_ok (unwire <$> h) ↔ layout_ok h.
Proof.
  unfold layout_ok. rewrite Forall_fmap. apply Forall_iff. intros nd.
  unfold compose, unwire. simpl. by rewrite !length_fmap.
Qed.

Lemma layout_ok_shape (h : list Node) : layout_ok (shape h) ↔ layout_ok h.
Proof.
  unfold layout_ok, shape. rewrite Forall_fmap. apply Forall_iff. intros nd.
  unfold compose, strip. simpl. by rewrite !length_fmap.
Qed.

(** The wire values the scene and the undo stack hold. *)
Definition item_wire (it : Item) : list Wire :=
  match it with
  | IWire w => [w]
  | INode _ => []
  end.

Definition cmd_wires (c : Command) : list Wire :=
  match c with
  | AddNodeCommand _ => []
  | DeleteItemsCommand stored => stored ≫= (λ p, item_wire p.1 ++ p.2)
  | PasteNodesCommand _ ws => ws
  end.

Definition known_wires (st : State) : list Wire :=
  (scene_items st ≫= item_wire) ++ (undo_cmds st ≫= cmd_wires).

Definition registered (h : list Node) (w : Wire) : Prop :=
  ∃ r, w ∈ socket_wires h r.

(** The invariant of the editor state: the store is well formed and laid
    out as the constructors built it, wire identities are below the
    allocation counter, and every wire value kept in the scene or in an undo
    command is the one its identity was allocated for. *)
Definition invariant (st : State) : Prop :=
  wf_heap (heap st) ∧ layout_ok (heap st)
  ∧ (∀ w, registered (heap st) w → wire_id w < wire_count st)
  ∧ (∀ w, w ∈ known_wires st →
       wire_id w < wire_count st ∧ genuine (heap st) w).

Lemma invariant_frame (st st' : State) :
  heap st' = heap st → wire_count st' = wire_count st →
  (∀ w, w ∈ known_wires st' →
     w ∈ known_wires st ∨ registered (heap st) w) →
  invariant st → invariant st'.
Proof.
  intros Hh Hc Hk (Hwf & Hl & Hf & Hg). unfold invariant.
  rewrite Hh, Hc. split; [done|]. split; [done|]. split; [done|].
  intros w [Hw|[r Hw]]%Hk; [by apply Hg|].
  split; [apply Hf; by exists r|by apply (wf_genuine _ r)].
Qed.

Lemma invariant_same_wires (h' : list Node) (st : State) :
  (∀ r, socket_wires h' r = socket_wires (heap st) r) → layout_ok h' →
  invariant st → invariant (set_heap h' st).
Proof.
  intros He Hl' (Hwf & Hl & Hf & Hg).
  split; [by apply (wf_heap_same_wires (heap st))|]. split; [done|]. split.
  - intros w [r Hw]. apply Hf. exists r. by rewrite <-He.
  - intros w Hw. destruct (Hg w Hw) as [Hlt Hgen]. split; [done|].
    intros r v. simpl. rewrite He. apply Hgen.
Qed.

Lemma known_wires_removeItem (it : Item) (st : State) (w : Wire) :
  w ∈ known_wires (removeItem it st) → w ∈ known_wires st.
Proof.
  unfold known_wires, removeItem. simpl.
  rewrite !elem_of_app, !list_elem_of_bind.
  intros [(x & Hw & [_ Hx]%list_elem_of_filter)|H]; [left|by right].
  by exists x.
Qed.

Lemma known_wires_Wire_remove (v : Wire) (st : State) (w : Wire) :
  w ∈ known_wires (Wire_remove v st) → w ∈ known_wires st.
Proof.
  unfold Wire_remove. case_match; [|done].
  by intros ?%known_wires_removeItem.
Qed.

Lemma tracked_genuine (w : Wire) (st : State) :
  invariant st → w ∈ known_wires st ∨ registered (heap st) w →
  genuine (heap st) w.
Proof.
  intros (Hwf & _ & _ & Hg) [Hw|[r Hw]];
    [by apply Hg|by apply (wf_genuine _ r)].
Qed.

Lemma genuine_mono (h h' : list Node) (w : Wire) :
  (∀ v, registered h' v → registered h v) → genuine h w → genuine h' w.
Proof.
  intros Hsub Hg r v Hv.
  destruct (Hsub v (ex_intro _ r Hv)) as [r' Hv']. by apply (Hg r').
Qed.

Lemma Wire_remove_registered (w v : Wire) (st : State) :
  wf_heap (heap st) → genuine (heap st) w →
  registered (heap (Wire_remove w st)) v → registered (heap st) v.
Proof.
  intros Hwf Hgen [r Hv]. rewrite Wire_remove_registry in Hv by done.
  apply list_elem_of_filter in Hv as [_ Hv]. by exists r.
Qed.

Lemma invariant_Wire_remove (w : Wire) (st : State) :
  genuine (heap st) w → invariant st → invariant (Wire_remove w st).
Proof.
  intros Hgen (Hwf & Hl & Hf & Hg).
  pose proof (Wire_remove_registry w st Hwf Hgen) as Hreg.
  assert (wire_count (Wire_remove w st) = wire_count st) as Hcount
    by (unfold Wire_remove; by case_match).
  split; [|split; [|split]].
  - apply registry_wf_heap.
    apply (wf_registry_ext (λ r, filter (λ v, v ≠ w)
                                   (socket_wires (heap st) r))); [done|].
    by apply wf_registry_filter, wf_heap_registry.
  - apply layout_ok_unwire. rewrite unwire_Wire_remove.
    by apply layout_ok_unwire.
  - intros v Hv%Wire_remove_registered; [|done|done].
    rewrite Hcount. by apply Hf.
  - intros v Hv%known_wires_Wire_remove. rewrite Hcount.
    destruct (Hg v Hv) as [Hlt Hgv]. split; [done|].
    revert Hgv. apply genuine_mono. intros u. by apply Wire_remove_registered.
Qed.

Lemma invariant_Wire_init (src tgt : SocketRef) (st : State) :
  is_output src = true → is_output tgt = false →
  is_Some (get_socket (heap st) src) → is_Some (get_socket (heap st) tgt) →
  invariant st →
  invariant (Wire_init src tgt st).2
  ∧ registered (heap (Wire_init src tgt st).2) (Wire_init src tgt st).1
  ∧ (∀ v, registered (heap st) v
          → registered (heap (Wire_init src tgt st).2) v).
Proof.
  intros Hs Ht Hsrc Htgt (Hwf & Hl & Hf & Hg).
  set (w := mkWire (wire_count st) src tgt).
  assert (src ≠ tgt) as Hne by (intros ->; congruence).
  assert (∀ r, socket_wires (heap (Wire_init src tgt st).2) r
               = socket_wires (heap st) r
                 ++ (if decide (src = r ∨ tgt = r) then [w] else []))
    as Hreg by (intros r; by apply (socket_wires_register w)).
  assert (∀ v, registered (heap (Wire_init src tgt st).2) v →
               registered (heap st) v ∨ v = w) as Hcase.
  { intros v [r Hv]. rewrite Hreg in Hv.
    apply elem_of_app in Hv as [Hv|Hv]; [left; by exists r|].
    destruct (decide _); [|by apply elem_of_nil in Hv].
    apply list_elem_of_singleton in Hv. by right. }
  split.
  - split; [|split; [|split]].
    + apply registry_wf_heap.
      apply (wf_registry_ext _ _ Hreg).
      apply wf_registry_add; [done|done| |by apply wf_heap_registry].
      intros r v Hv Hid.
      assert (wire_id v < wire_count st) by (apply Hf; by exists r). lia.
    + apply layout_ok_unwire. simpl.
      rewrite !unwire_alter_socket by done. by apply layout_ok_unwire.
    + intros v [Hv| ->]%Hcase; simpl; [|lia].
      apply Hf in Hv. lia.
    + intros v Hv. change (known_wires (Wire_init src tgt st).2)
        with (known_wires st) in Hv.
      destruct (Hg v Hv) as [Hlt Hgen]. split; [simpl; lia|].
      intros r u Hu Hid.
      destruct (Hcase u (ex_intro _ r Hu)) as [[r' Hu']| ->].
      * by apply (Hgen r').
      * simpl in Hid. lia.
  - split.
    + exists src. rewrite Hreg. apply elem_of_app. right.
      rewrite decide_True by auto. apply list_elem_of_here.
    + intros v [r Hv]. exists r. rewrite Hreg. apply elem_of_app. by left.
Qed.

Lemma known_wires_addItem (it : Item) (st : State) (w : Wire) :
  w ∈ known_wires (addItem it st) → w ∈ known_wires st ∨ w ∈ item_wire it.
Proof.
  unfold addItem. case_match; [by left|].
  unfold known_wires. simpl. rewrite bind_app, !elem_of_app. simpl.
  rewrite app_nil_r. tauto.
Qed.

Lemma invariant_addItem (it : Item) (st : State) :
  (∀ w, w ∈ item_wire it → w ∈ known_wires st ∨ registered (heap st) w) →
  invariant st → invariant (addItem it st).
Proof.
  intros Hit. apply invariant_frame.
  - unfold addItem. by case_match.
  - unfold addItem. by case_match.
  - intros w [Hw|Hw]%known_wires_addItem; [by left|by apply Hit].
Qed.

Lemma invariant_removeItem (it : Item) (st : State) :
  invariant st → invariant (removeItem it st).
Proof.
  apply invariant_frame; [done|done|].
  intros w Hw%known_wires_removeItem. by left.
Qed.

Lemma invariant_clear (st : State) : invariant st → invariant (clear st).
Proof.
  apply invariant_frame; [done|done|].
  intros w Hw. left. unfold known_wires in *. simpl in Hw.
  apply elem_of_app. by right.
Qed.

Lemma invariant_shape (h' : list Node) (st : State) :
  shape h' = shape (heap st) → invariant st → invariant (set_heap h' st).
Proof.
  intros Hsh Hinv. apply invariant_same_wires; [|  |done].
  - intros r. by apply socket_wires_shape.
  - apply layout_ok_shape. rewrite Hsh. apply layout_ok_shape.
    by destruct Hinv as (_ & ? & _).
Qed.

Lemma socket_wires_alter_node (f : Node → Node) (n : nat) (h : list Node)
    (r : SocketRef) :
  (∀ nd, input_sockets (f nd) = input_sockets nd
         ∧ output_sockets (f nd) = output_sockets nd) →
  socket_wires (alter f n h) r = socket_wires h r.
Proof.
  intros Hf. unfold socket_wires, get_socket.
  destruct (decide (parent_node r = n)) as [<-|Hne].
  - rewrite list_lookup_alter_eq.
    destruct (h !! parent_node r) as [nd|]; simpl; [|done].
    destruct (Hf nd) as [Hi Ho]. unfold sockets_of.
    by destruct (is_output r); rewrite ?Hi, ?Ho.
  - by rewrite list_lookup_alter_ne.
Qed.

Lemma layout_ok_alter_node (f : Node → Node) (n : nat) (h : list Node) :
  (∀ nd, cls (f nd) = cls nd ∧ input_sockets (f nd) = input_sockets nd
         ∧ output_sockets (f nd) = output_sockets nd) →
  layout_ok h → layout_ok (alter f n h).
Proof.
  intros Hf Hl. apply Forall_alter; [done|].
  intros nd _. by destruct (Hf nd) as (-> & -> & ->).
Qed.

Lemma invariant_alter_node (f : Node → Node) (n : nat) (st : State) :
  (∀ nd, cls (f nd) = cls nd ∧ input_sockets (f nd) = input_sockets nd
         ∧ output_sockets (f nd) = output_sockets nd) →
  invariant st → invariant (set_heap (alter f n (heap st)) st).
Proof.
  intros Hf Hinv. apply invariant_same_wires; [| |done].
  - intros r. apply socket_wires_alter_node. intros nd.
    by destruct (Hf nd) as (_ & ? & ?).
  - apply layout_ok_alter_node; [done|]. by destruct Hinv as (_ & ? & _).
Qed.

Lemma socket_wires_alloc (c : NodeClass) (wtf : bool) (h : list Node)
    (r : SocketRef) :
  socket_wires (h ++ [new_node c wtf]) r = socket_wires h r.
Proof.
  unfold socket_wires, get_socket.
  destruct (decide (parent_node r < length h)) as [Hlt|Hge].
  - by rewrite lookup_app_l.
  - rewrite (lookup_ge_None_2 h) by lia. simpl.
    rewrite lookup_app_r by lia.
    destruct (parent_node r - length h) as [|k]; [|done]. simpl.
    unfold sockets_of, new_node. simpl.
    destruct (is_output r);
      (destruct (replicate _ fresh_socket !! socket_index r) as [s|] eqn:E;
       [|done]);
      by apply lookup_replicate in E as [-> _].
Qed.

Lemma invariant_alloc (c : NodeClass) (wtf : bool) (st : State) :
  invariant st → invariant (alloc (new_node c wtf) st).2.
Proof.
  intros Hinv. apply invariant_same_wires; [| |done].
  - apply socket_wires_alloc.
  - apply Forall_app. split; [by destruct Hinv as (_ & ? & _)|].
    apply Forall_singleton. simpl. by rewrite !length_replicate.
Qed.

Lemma invariant_set_undo (cs : list Command) (i : nat) (st : State) :
  (∀ w, w ∈ cs ≫= cmd_wires →
     w ∈ known_wires st ∨ registered (heap st) w) →
  invariant st → invariant (set_undo cs i st).
Proof.
  intros Hcs. apply invariant_frame; [done|done|].
  intros w. unfold known_wires at 1. simpl.
  intros [Hw|Hw]%elem_of_app; [|by apply Hcs].
  left. apply elem_of_app. by left.
Qed.

Lemma invariant_set_index (i : nat) (st : State) :
  invariant st → invariant (set_undo (undo_cmds st) i st).
Proof.
  apply invariant_set_undo. intros w Hw. left. apply elem_of_app. by right.
Qed.

Lemma invariant_take_out_item (it : Item) (st : State) :
  invariant st → invariant (take_out_item it st).
Proof.
  intros Hinv. destruct it as [n|w]; simpl; [done|].
  case_match; [by apply invariant_removeItem|done].
Qed.

Lemma invariant_cmd_redo (c : Command) (st : State) :
  invariant st → invariant (cmd_redo c st).
Proof.
  intros Hinv. destruct c as [n|stored|ns ws]; simpl; [| |done].
  - case_match; [done|]. apply invariant_addItem; [|done].
    by intros w ?%elem_of_nil.
  - revert st Hinv. induction stored as [|p stored IH]; intros st Hinv;
      [done|].
    simpl. by apply IH, invariant_take_out_item.
Qed.

Lemma invariant_push (c : Command) (st : State) :
  (∀ w, w ∈ cmd_wires c → w ∈ known_wires st ∨ registered (heap st) w) →
  invariant st → invariant (push c st).
Proof.
  intros Hc Hinv. apply invariant_cmd_redo, invariant_set_undo; [|done].
  intros w. rewrite bind_app, elem_of_app. simpl. rewrite app_nil_r.
  intros [(c' & Hw & Hc')%list_elem_of_bind|Hw]; [|by apply Hc].
  left. apply elem_of_app. right. apply list_elem_of_bind. exists c'.
  split; [done|]. eapply elem_of_sublist; [done|apply sublist_take].
Qed.

Lemma invariant_create_node (node_id : string) (p : Z * Z) (st : State) :
  invariant st → invariant (create_node node_id p st).2.
Proof.
  intros Hinv. unfold create_node.
  destruct (class_of_node_id node_id) as [c|]; [|done].
  unfold alloc. cbn [snd].
  apply invariant_push; [by intros w ?%elem_of_nil|].
  apply invariant_alter_node; [done|].
  apply invariant_addItem; [by intros w ?%elem_of_nil|].
  by apply (invariant_alloc c false).
Qed.

Lemma updateValue_shape (fuel : nat) (r : SocketRef) (v : bool)
    (h : list Node) :
  shape (updateValue fuel r v h).1 = shape h.
Proof.
  unfold updateValue, updateValue_with.
  destruct (get_socket h r) as [s|]; [|done].
  case_bool_decide; [done|].
  destruct (is_output r); [|apply shape_set_value].
  transitivity (shape (alter_socket (set_value v) r h));
    [|apply shape_set_value].
  apply (for_wires_inv (λ h', shape h' = shape _)); [done|].
  intros w h0 _ <-. apply updateLogic_shape.
Qed.

Lemma invariant_toggle (fuel n : nat) (st : State) :
  invariant st → invariant (toggle fuel n st).1.
Proof.
  intros Hinv. unfold toggle.
  destruct (heap st !! n) as [nd|]; [|done].
  destruct (cls nd); try done.
  set (h1 := alter _ n (heap st)).
  assert (invariant (set_heap h1 st)) as H1
    by by apply invariant_alter_node.
  destruct (output_sockets nd); [done|].
  pose proof (updateValue_shape fuel (mkRef n true 0)
                (negb (node_value nd)) h1) as Hsh2.
  destruct (updateValue _ _ _ h1) as [h2 o2]. cbn [fst] in Hsh2.
  assert (invariant (set_heap h2 st)) as H2
    by by apply (invariant_shape h2 (set_heap h1 st)).
  destruct o2; [|done].
  assert (shape (for_wires (updateLogic fuel)
                   (socket_wires h2 (mkRef n true 0)) h2).1 = shape h2)
    as Hsh3.
  { apply (for_wires_inv (λ h', shape h' = shape h2)); [done|].
    intros w h0 _ <-. apply updateLogic_shape. }
  destruct (for_wires _ _ h2) as [h3 o3]. cbn [fst] in *.
  by apply (invariant_shape h3 (set_heap h2 st)).
Qed.

Lemma invariant_copy (sel : list Item) (st : State) :
  invariant st → invariant (copy_selected_nodes sel st).1.
Proof.
  intros Hinv. unfold copy_selected_nodes.
  assert (∀ ns cs, invariant (set_clipboard ns cs st)) as Hc.
  { intros ns cs. revert Hinv. apply invariant_frame; try done. by left. }
  destruct (selected_nodes_of _ _); [apply Hc|].
  destruct (collect_connections _ _ _ _) as [cs []]; apply Hc.
Qed.

Lemma invariant_restore_item (it : Item) (st : State) :
  (∀ w, w ∈ item_wire it → w ∈ known_wires st ∨ registered (heap st) w) →
  invariant st → invariant (restore_item it st).
Proof.
  intros Hit Hinv. destruct it as [n|w]; simpl.
  - apply invariant_addItem; [by intros w ?%elem_of_nil|done].
  - case_match; [done|]. by apply invariant_addItem.
Qed.

Lemma undo_cmds_restore_item (it : Item) (st : State) :
  undo_cmds (restore_item it st) = undo_cmds st.
Proof.
  destruct it; simpl; unfold addItem; repeat case_match; done.
Qed.

Lemma undo_cmds_Wire_remove (w : Wire) (st : State) :
  undo_cmds (Wire_remove w st) = undo_cmds st.
Proof. unfold Wire_remove. by case_match. Qed.

Lemma known_cmd_wire (c : Command) (w : Wire) (st : State) :
  c ∈ undo_cmds st → w ∈ cmd_wires c → w ∈ known_wires st.
Proof.
  intros Hc Hw. apply elem_of_app. right. apply list_elem_of_bind. by exists c.
Qed.

Lemma foldl_inv {A B} (Q : A → Prop) (f : A → B → A) (l : list B) (a : A) :
  (∀ a b, b ∈ l → Q a → Q (f a b)) → Q a → Q (foldl f a l).
Proof.
  revert a. induction l as [|b l IH]; intros a Hf Ha; [done|].
  simpl. apply IH; [|apply Hf; [left|done]].
  intros a' b' Hb'. apply Hf. by right.
Qed.

Lemma invariant_cmd_undo (c : Command) (st : State) :
  c ∈ undo_cmds st → invariant st → invariant (cmd_undo c st).
Proof.
  intros Hc Hinv.
  cut (c ∈ undo_cmds (cmd_undo c st) ∧ invariant (cmd_undo c st));
    [by intros [_ ?]|].
  destruct c as [n|stored|ns ws]; unfold cmd_undo.
  - split; [done|by apply invariant_removeItem].
  - apply (foldl_inv (λ s, DeleteItemsCommand stored ∈ undo_cmds s
                           ∧ invariant s)); [|done].
    intros s p Hp [Hcs Hs].
    apply (foldl_inv (λ s, DeleteItemsCommand stored ∈ undo_cmds s
                           ∧ invariant s)).
    + intros s' w Hw [Hcs' Hs']. cbv beta.
      split; [by rewrite undo_cmds_restore_item|].
      apply invariant_restore_item; [|done].
      intros w' ->%list_elem_of_singleton. left.
      apply (known_cmd_wire _ _ _ Hcs'). simpl.
      apply list_elem_of_bind. exists p. split; [|done].
      apply elem_of_app. by right.
    + split; [by rewrite undo_cmds_restore_item|].
      apply invariant_restore_item; [|done].
      intros w' Hw'. left. apply (known_cmd_wire _ _ _ Hcs). simpl.
      apply list_elem_of_bind. exists p. split; [|done].
      apply elem_of_app. by left.
  - apply (foldl_inv (λ s, PasteNodesCommand ns ws ∈ undo_cmds s
                           ∧ invariant s)); [|done].
    intros s w Hw [Hcs Hs]. cbv beta. case_match; [|done].
    split; [by rewrite undo_cmds_Wire_remove|].
    apply invariant_Wire_remove; [|done].
    apply tracked_genuine; [done|]. left. by apply (known_cmd_wire _ _ _ Hcs).
Qed.

Lemma invariant_undo (st : State) : invariant st → invariant (undo st).
Proof.
  intros Hinv. unfold undo. destruct (undo_index st) as [|i]; [done|].
  destruct (undo_cmds st !! i) as [c|] eqn:Hc; [|done].
  apply invariant_cmd_undo; [by eapply list_elem_of_lookup_2|].
  by apply invariant_set_index.
Qed.

Lemma invariant_redo (st : State) : invariant st → invariant (redo st).
Proof.
  intros Hinv. unfold redo.
  destruct (undo_cmds st !! undo_index st) as [c|]; [|done].
  apply invariant_set_undo; [|by apply invariant_cmd_redo].
  intros w Hw. left. apply elem_of_app. right.
  revert Hw. apply elem_of_proper; [done|].
  f_equiv. clear. destruct c as [n|stored|ns ws]; simpl; [| |done].
  - unfold addItem. by repeat case_match.
  - induction stored as [|p stored IH] using rev_ind; [done|].
    rewrite foldl_app. simpl. rewrite <-IH.
    destruct p as [[m|w] l]; simpl; [done|]. by case_match.
Qed.

Lemma invariant_remove_wires (ws : list Wire) (st : State) :
  Forall (genuine (heap st)) ws → invariant st →
  invariant (remove_wires ws st)
  ∧ (∀ v, registered (heap (remove_wires ws st)) v → registered (heap st) v).
Proof.
  intros Hws Hinv. rewrite Forall_forall in Hws.
  apply (foldl_inv (λ s, invariant s
                         ∧ (∀ v, registered (heap s) v
                                 → registered (heap st) v))); [|done].
  intros s w Hw [Hs Hsub]. cbv beta.
  assert (genuine (heap s) w) as Hgen
    by (apply (genuine_mono (heap st)); [done|by apply Hws]).
  split; [by apply invariant_Wire_remove|].
  intros v Hv. apply Hsub. revert Hv.
  apply Wire_remove_registered; [by destruct Hs|done].
Qed.

Lemma invariant_remove_socket_wires (r : SocketRef) (st : State) :
  invariant st →
  invariant (remove_socket_wires r st)
  ∧ (∀ v, registered (heap (remove_socket_wires r st)) v
          → registered (heap st) v).
Proof.
  intros Hinv. apply invariant_remove_wires; [|done].
  apply Forall_forall. intros w Hw.
  apply (wf_genuine _ r); [by destruct Hinv|done].
Qed.

Lemma invariant_connect (src tgt : SocketRef) (st : State) :
  is_output src = true → is_output tgt = false →
  is_Some (get_socket (heap st) src) → is_Some (get_socket (heap st) tgt) →
  invariant st → invariant (connect src tgt st).2.
Proof.
  intros Hs Ht Hsrc Htgt Hinv. unfold connect.
  set (st1 := if _ && _ then _ else st).
  assert (invariant st1 ∧ unwire <$> heap st1 = unwire <$> heap st)
    as [H1 Hu].
  { unfold st1. destruct (_ && _); [|done]. split.
    - by apply (invariant_remove_socket_wires tgt).
    - apply remove_wires_keeps. }
  destruct (invariant_Wire_init src tgt st1) as (H2 & Hreg & _); try done.
  { by apply (is_Some_get_socket_unwire (heap st)). }
  { by apply (is_Some_get_socket_unwire (heap st)). }
  destruct (Wire_init src tgt st1) as [w st2]. cbn [fst snd] in *.
  case_match; [done|].
  apply invariant_addItem; [|done].
  intros w' ->%list_elem_of_singleton. by right.
Qed.

Lemma endpoints_Some (self item src tgt : SocketRef) :
  endpoints self item = Some (src, tgt) →
  is_output src = true ∧ is_output tgt = false
  ∧ (src = self ∧ tgt = item ∨ src = item ∧ tgt = self).
Proof.
  unfold endpoints.
  destruct (is_output self) eqn:Hs, (is_output item) eqn:Hi; simpl;
    intros [= <- <-]; auto.
Qed.

(** The sockets handed to [mouseReleaseEvent] are scene items, hence
    sockets of the store. *)
Lemma invariant_mouseReleaseEvent (fuel : nat) (self : SocketRef)
    (items : list SocketRef) (st : State) :
  is_Some (get_socket (heap st) self) →
  Forall (λ r, is_Some (get_socket (heap st) r)) items →
  invariant st → invariant (mouseReleaseEvent fuel self items st).1.
Proof.
  intros Hself Hitems Hinv.
  induction Hitems as [|item rest Hitem _ IH]; [done|].
  cbn [mouseReleaseEvent].
  case_bool_decide; [done|].
  destruct (endpoints self item) as [[src tgt]|] eqn:He; [|done].
  case_bool_decide; [done|].
  apply endpoints_Some in He as (Hs & Ht & Hends).
  assert (invariant (connect src tgt st).2) as Hc.
  { apply invariant_connect; try done;
      by destruct Hends as [[-> ->]|[-> ->]]. }
  destruct (connect src tgt st) as [w st1]. cbn [snd] in Hc.
  pose proof (updateLogic_shape fuel (parent_node tgt) (heap st1)) as Hsh.
  destruct (updateLogic _ _ _) as [h o]. cbn [fst] in *.
  by apply invariant_shape.
Qed.

Lemma elem_of_node_wires_registered (h : list Node) (n : nat) (w : Wire) :
  w ∈ node_wires h n → registered h w.
Proof.
  intros Hw. apply elem_of_node_wires in Hw as (r & _ & Hw). by exists r.
Qed.

Lemma invariant_delete_item (it : Item) (st st0 : State) :
  (∀ w, it = IWire w → genuine (heap st0) w) →
  (∀ v, registered (heap st) v → registered (heap st0) v) →
  invariant st →
  invariant (delete_item it st)
  ∧ (∀ v, registered (heap (delete_item it st)) v → registered (heap st0) v).
Proof.
  intros Hit Hsub Hinv. destruct it as [n|w]; simpl.
  - cut (invariant (foldl (λ s r, remove_socket_wires r s) st
                          (node_socket_refs (heap st) n))
         ∧ (∀ v, registered
                   (heap (foldl (λ s r, remove_socket_wires r s) st
                                (node_socket_refs (heap st) n))) v
                 → registered (heap st0) v)).
    { intros [H1 H2]. split; [by apply invariant_removeItem|done]. }
    apply (foldl_inv (λ s, invariant s
                           ∧ (∀ v, registered (heap s) v
                                   → registered (heap st0) v))); [|done].
    intros s r _ [Hs Hs0]. cbv beta.
    destruct (invariant_remove_socket_wires r s Hs) as [H1 H2].
    split; [done|]. intros v Hv. by apply Hs0, H2.
  - assert (genuine (heap st) w) as Hgen
      by (apply (genuine_mono (heap st0)); [done|by apply Hit]).
    split; [by apply invariant_Wire_remove|].
    intros v Hv. apply Hsub. revert Hv.
    apply Wire_remove_registered; [by destruct Hinv|done].
Qed.

Lemma heap_cmd_redo (c : Command) (st : State) :
  heap (cmd_redo c st) = heap st.
Proof.
  destruct c as [n|stored|ns ws]; simpl; [| |done].
  - unfold addItem. by repeat case_match.
  - apply (foldl_inv (λ s, heap s = heap st)); [|done].
    intros s [[m|w] l] _ <-; simpl; [done|]. by case_match.
Qed.

(** The selection is a part of the scene. *)
Lemma invariant_delete_selected_items (sel : list Item) (st : State) :
  sel ⊆ scene_items st →
  invariant st → invariant (delete_selected_items sel st).
Proof.
  intros Hsel Hinv. unfold delete_selected_items.
  destruct sel as [|it0 sel0] eqn:Esel; [done|]. rewrite <-Esel in *.
  clear Esel it0 sel0.
  set (c := DeleteItemsCommand _).
  assert (∀ w, IWire w ∈ sel → w ∈ known_wires st) as Hknown.
  { intros w Hw. apply elem_of_app. left. apply list_elem_of_bind.
    exists (IWire w). split; [apply list_elem_of_here|by apply Hsel]. }
  assert (invariant (push c st)) as Hp.
  { apply invariant_push; [|done]. unfold c, stored_items_of. simpl.
    intros w (p & Hw & (it & -> & Hit)%list_elem_of_fmap)%list_elem_of_bind.
    apply elem_of_app in Hw as [Hw|Hw]; destruct it as [n|v]; simpl in Hw.
    - by apply elem_of_nil in Hw.
    - apply list_elem_of_singleton in Hw as ->. left. by apply Hknown.
    - right. by apply (elem_of_node_wires_registered _ n).
    - by apply elem_of_nil in Hw. }
  assert (heap (push c st) = heap st) as Hh.
  { unfold push. by rewrite heap_cmd_redo. }
  cut (invariant (foldl (λ s it, delete_item it s) (push c st) sel)
       ∧ (∀ v, registered (heap (foldl (λ s it, delete_item it s)
                                       (push c st) sel)) v
               → registered (heap st) v)); [by intros [? _]|].
  apply (foldl_inv (λ s, invariant s
                         ∧ (∀ v, registered (heap s) v
                                 → registered (heap st) v))).
  - intros s it Hit [Hs Hsub]. cbv beta.
    apply invariant_delete_item; [|done|done].
    intros w ->. apply tracked_genuine; [done|]. left. by apply Hknown.
  - split; [done|]. by rewrite Hh.
Qed.

Lemma get_socket_is_Some (h : list Node) (n : nat) (b : bool) (i : nat)
    (nd : Node) :
  h !! n = Some nd → i < length (sockets_of nd b) →
  is_Some (get_socket h (mkRef n b i)).
Proof.
  intros Hn Hi. unfold get_socket. simpl. rewrite Hn. simpl.
  by apply lookup_lt_is_Some.
Qed.

(** [Wire(...)] followed by [scene.addItem(wire)], between two existing
    sockets of the right directions. *)
Lemma invariant_new_wire (sn en i j : nat) (a b : Node) (st : State) :
  heap st !! sn = Some a → heap st !! en = Some b →
  i < length (output_sockets a) → j < length (input_sockets b) →
  invariant st →
  invariant (addItem (IWire (Wire_init (mkRef sn true i) (mkRef en false j)
                                       st).1)
                     (Wire_init (mkRef sn true i) (mkRef en false j) st).2)
  ∧ registered
      (heap (addItem (IWire (Wire_init (mkRef sn true i) (mkRef en false j)
                                       st).1)
                     (Wire_init (mkRef sn true i) (mkRef en false j) st).2))
      (Wire_init (mkRef sn true i) (mkRef en false j) st).1
  ∧ (∀ v, registered (heap st) v →
       registered
         (heap (addItem (IWire (Wire_init (mkRef sn true i)
                                          (mkRef en false j) st).1)
                        (Wire_init (mkRef sn true i) (mkRef en false j)
                                   st).2)) v).
Proof.
  intros Ha Hb Hi Hj Hinv.
  destruct (invariant_Wire_init (mkRef sn true i) (mkRef en false j) st)
    as (H1 & H2 & H3); try done.
  { by apply (get_socket_is_Some _ _ _ _ a). }
  { by apply (get_socket_is_Some _ _ _ _ b). }
  assert (∀ it s, heap (addItem it s) = heap s) as Hh
    by (intros it s; unfold addItem; by case_match).
  rewrite Hh. split; [|done].
  apply invariant_addItem; [|done].
  intros w ->%list_elem_of_singleton. by right.
Qed.

Lemma invariant_load_node (d : NodeData) (acc : State * gmap Z nat) :
  invariant acc.1 → invariant (load_node d acc).1.
Proof.
  intros Hinv. unfold load_node.
  destruct (class_of_name (nd_type d)) as [c|]; [|done].
  pose proof (invariant_alloc c false _ Hinv) as H1.
  unfold alloc in *. cbn [fst snd] in *.
  set (st1 := set_heap (heap acc.1 ++ [new_node c false]) acc.1) in *.
  set (n := length (heap acc.1)).
  set (h1 := match c with InputNode => _ | _ => _ end).
  assert (invariant (set_heap h1 st1)) as Hh1.
  { assert (invariant (set_heap (heap st1) st1)) as H0 by by destruct st1.
    destruct c; try exact H0.
    unfold h1. destruct (nd_value d) as [v|]; [|exact H0].
    apply (invariant_shape _ (set_heap (alter (set_node_value v) n
                                          (heap st1)) st1)).
    - apply updateLogic_shape.
    - by apply invariant_alter_node. }
  apply invariant_addItem; [by intros w ?%elem_of_nil|].
  by apply (invariant_alter_node _ n (set_heap h1 st1)).
Qed.

Lemma invariant_load_connection (nodes : gmap Z nat) (c : ConnectionData)
    (st : State) :
  invariant st → invariant (load_connection nodes c st).
Proof.
  intros Hinv. unfold load_connection.
  destruct (nodes !! cd_start_node c) as [sn|]; [|done].
  destruct (nodes !! cd_end_node c) as [en|]; [|done].
  destruct (heap st !! sn) as [a|] eqn:Ha; [|done].
  destruct (heap st !! en) as [b|] eqn:Hb; [|done].
  destruct (_ && _) eqn:Hrange; [|done].
  apply andb_prop in Hrange as [Hi Hj].
  apply bool_decide_eq_true in Hi. apply bool_decide_eq_true in Hj.
  destruct (invariant_new_wire sn en (Z.to_nat (cd_start_socket c))
              (Z.to_nat (cd_end_socket c)) a b st) as [H _];
    try done; lia.
Qed.

Lemma invariant_deserialize_scene (data : SceneData) (st : State) :
  invariant st → invariant (deserialize_scene data st).1.
Proof.
  intros Hinv. unfold deserialize_scene.
  pose proof (invariant_clear st Hinv) as H0.
  destruct (sd_nodes data) as [nds|]; [|done].
  assert (invariant (foldl (λ acc d, load_node d acc) (clear st, ∅) nds).1)
    as H1.
  { apply (foldl_inv (λ acc : State * gmap Z nat, invariant acc.1)); [|done].
    intros acc d _. apply invariant_load_node. }
  destruct (foldl _ _ nds) as [st1 nodes]. cbn [fst] in H1.
  destruct (sd_connections data) as [cds|]; [|done]. cbn [fst].
  apply (foldl_inv invariant); [|done].
  intros s c _. apply invariant_load_connection.
Qed.

Lemma invariant_load_from_file (parsed : option SceneData) (st : State) :
  invariant st → invariant (load_from_file parsed st).1.
Proof.
  intros Hinv. unfold load_from_file. destruct parsed as [data|]; [|done].
  pose proof (invariant_deserialize_scene data (clear st)
                (invariant_clear st Hinv)) as H.
  by destruct (deserialize_scene data (clear st)) as [st' []].
Qed.

Lemma invariant_paste_node (off : Z) (cn : CopiedNode)
    (acc : State * list nat * gmap nat nat) :
  invariant acc.1.1 → invariant (paste_node off cn acc).1.1.
Proof.
  intros Hinv. unfold paste_node.
  destruct (class_of_name (cn_type cn)) as [c|]; [|done].
  pose proof (invariant_alloc c false _ Hinv) as H1.
  unfold alloc in *. cbn [fst snd] in *.
  apply invariant_addItem; [by intros w ?%elem_of_nil|].
  by apply (invariant_alter_node _ _
              (set_heap (heap acc.1.1 ++ [new_node c false]) acc.1.1)).
Qed.

Lemma invariant_paste_connection (id_mapping : gmap nat nat)
    (c : CopiedConnection) (acc : State * list Wire) :
  invariant acc.1 ∧ (∀ w, w ∈ acc.2 → registered (heap acc.1) w) →
  invariant (paste_connection id_mapping c acc).1
  ∧ (∀ w, w ∈ (paste_connection id_mapping c acc).2 →
       registered (heap (paste_connection id_mapping c acc).1) w).
Proof.
  intros [Hinv Hws]. unfold paste_connection.
  destruct (id_mapping !! start_node_id c) as [sn|]; [|done].
  destruct (id_mapping !! end_node_id c) as [en|]; [|done].
  destruct (heap acc.1 !! sn) as [a|] eqn:Ha; [|done].
  destruct (heap acc.1 !! en) as [b|] eqn:Hb; [|done].
  destruct (_ && _) eqn:Hrange; [|done].
  apply andb_prop in Hrange as [Hi Hj].
  apply bool_decide_eq_true in Hi. apply bool_decide_eq_true in Hj.
  destruct (invariant_new_wire sn en (start_socket_index c)
              (end_socket_index c) a b acc.1) as (H1 & H2 & H3); try done.
  destruct (Wire_init _ _ acc.1) as [w st1]. cbn [fst snd] in *.
  split; [done|].
  intros v [Hv| ->%list_elem_of_singleton]%elem_of_app; [|done].
  by apply H3, Hws.
Qed.

Lemma invariant_paste_nodes (st : State) :
  invariant st → invariant (paste_nodes st).1.
Proof.
  intros Hinv. unfold paste_nodes.
  cut (invariant (paste_copied st).1); [by destruct (copied_nodes st)|].
  unfold paste_copied.
  assert (invariant (foldl (λ acc cn, paste_node (copy_offset st) cn acc)
                           (st, [], ∅) (copied_nodes st)).1.1) as H1.
  { apply (foldl_inv (λ acc : State * list nat * gmap nat nat,
                        invariant acc.1.1)); [|done].
    intros acc cn _. apply invariant_paste_node. }
  destruct (foldl _ _ (copied_nodes st)) as [[st1 pasted] id_mapping].
  cbn [fst] in H1.
  assert (invariant (foldl (λ acc c, paste_connection id_mapping c acc)
                           (st1, []) (copied_connections st)).1
          ∧ ∀ w, w ∈ (foldl (λ acc c, paste_connection id_mapping c acc)
                            (st1, []) (copied_connections st)).2 →
              registered
                (heap (foldl (λ acc c, paste_connection id_mapping c acc)
                             (st1, []) (copied_connections st)).1) w)
    as [H2 Hws].
  { apply (foldl_inv (λ acc : State * list Wire,
                        invariant acc.1
                        ∧ ∀ w, w ∈ acc.2 → registered (heap acc.1) w)).
    - intros acc c _. apply invariant_paste_connection.
    - split; [done|]. by intros w ?%elem_of_nil. }
  destruct (foldl _ _ (copied_connections st)) as [st2 created].
  cbn [fst snd] in *.
  set (st3 := set_copy_offset _ st2).
  assert (invariant st3) as H3.
  { revert H2. apply invariant_frame; try done. by left. }
  destruct pasted; [done|]. cbn [fst].
  apply invariant_push; [|done].
  intros w Hw. right. by apply Hws.
Qed.

(** The states the editor reaches from the empty scene. The sockets of a
    drag and the items of a selection are taken from the scene. *)
Inductive reachable : State → Prop :=
  | reach_init : reachable init_state
  | reach_create_node node_id p st :
      reachable st → reachable (create_node node_id p st).2
  | reach_connect fuel self items st :
      reachable st →
      is_Some (get_socket (heap st) self) →
      Forall (λ r, is_Some (get_socket (heap st) r)) items →
      reachable (mouseReleaseEvent fuel self items st).1
  | reach_toggle fuel n st :
      reachable st → reachable (toggle fuel n st).1
  | reach_delete sel st :
      reachable st → sel ⊆ scene_items st →
      reachable (delete_selected_items sel st)
  | reach_undo st : reachable st → reachable (undo st)
  | reach_redo st : reachable st → reachable (redo st)
  | reach_load parsed st :
      reachable st → reachable (load_from_file parsed st).1
  | reach_copy sel st :
      reachable st → reachable (copy_selected_nodes sel st).1
  | reach_paste st : reachable st → reachable (paste_nodes st).1.

Lemma invariant_init : invariant init_state.
Proof.
  split; [|split; [|split]].
  - apply (bool_decide_unpack _). by vm_compute.
  - constructor.
  - by intros w [r ?%elem_of_nil].
  - by intros w ?%elem_of_nil.
Qed.

(** Every reachable state satisfies the invariant; in particular its store
    is well formed and laid out as built. *)
Lemma reachable_invariant (st : State) : reachable st → invariant st.
Proof.
  induction 1.
  - apply invariant_init.
  - by apply invariant_create_node.
  - by apply invariant_mouseReleaseEvent.
  - by apply invariant_toggle.
  - by apply invariant_delete_selected_items.
  - by apply invariant_undo.
  - by apply invariant_redo.
  - by apply invariant_load_from_file.
  - by apply invariant_copy.
  - by apply invariant_paste_nodes.
Qed.

Lemma reachable_wf (st : State) :
  reachable st → wf_heap (heap st) ∧ layout_ok (heap st).
Proof. intros (? & ? & _)%reachable_invariant. done. Qed.

(** ** The earlier variants *)

(** [simple_logic_gate_simulator.py]: [Node.remove] takes from every socket
    exactly the wires with an end on the removed node. *)
Lemma simple_remove_cascades (n : nat) (st : State) (r : SocketRef) :
  wf_heap (heap st) →
  socket_wires (heap (Simple.remove n st)) r
  = filter (λ w, ¬ incident n w) (socket_wires (heap st) r).
Proof. apply (delete_node_wires n st r). Qed.


(** [logic_gate_simulator.py]: no node is written with the type that the
    loader's write-to-file branch tests for. *)
Lemma small_write_type_never_written (nd : Small.Node) :
  Small.serialized_type nd ≠ "WriteOutputNode".
Proof. by destruct nd as [[] ? ? ? ? ?]. Qed.

Lemma small_write_output_reloads_plain (nd : Small.Node) :
  Small.create_node "Write Output" = Some nd →
  Small.write_to_file nd = true
  ∧ Small.node_of_type (Small.serialized_type nd)
    = Some (Small.new_node Small.OutputNode false 1 0).
Proof. intros [= <-]. done. Qed.

Lemma strip_set_output_values (v : bool) (nd : Node) :
  strip (Simple.set_output_values v nd) = strip nd.
Proof.
  destruct nd as [c p nv wf ins outs]. unfold strip. simpl. f_equal.
  rewrite <-list_fmap_compose. by apply list_fmap_ext.
Qed.

Lemma simple_update_outputs_shape (fuel n : nat) (h : list Node) :
  shape (Simple.update_outputs fuel n h).1 = shape h.
Proof.
  revert n h. induction fuel as [|f IH]; intros n h; simpl; [done|].
  destruct (h !! n) as [nd|]; [|done].
  set (h1 := alter _ n h).
  transitivity (shape h1).
  - apply (for_wires_inv (λ h', shape h' = shape h1)); [done|].
    intros w h0 _ <-. apply IH.
  - apply fmap_alter_absorb. intros x. apply strip_set_output_values.
Qed.

Lemma for_wires_raises (I : list Node → Prop)
    (rec : nat → list Node → list Node * outcome)
    (ws : list Wire) (w : Wire) (h : list Node) :
  w ∈ ws → I h →
  (∀ n h0, I h0 → I (rec n h0).1) →
  (∀ h0, I h0 →
     (rec (parent_node (target_socket w)) h0).2 = RecursionError) →
  (for_wires rec ws h).2 = RecursionError.
Proof.
  intros Hin Hh Hinv Hw. revert h Hh.
  induction ws as [|w' ws IH]; intros h Hh; [by apply elem_of_nil in Hin|].
  simpl. apply elem_of_cons in Hin as [<-|Hin].
  - specialize (Hw h Hh). by destruct (rec _ h) as [h' []].
  - specialize (Hinv (parent_node (target_socket w')) h Hh).
    destruct (rec _ h) as [h' []]; [by apply IH|done].
Qed.

(** [simple_logic_gate_simulator.py]: [update_outputs] has no change test.
    From a node of a set [P] in which every node has a wire back into [P]
    (every node on a loop of wires, say), the call returns at no depth,
    whatever values the sockets hold. *)
Lemma simple_loop_never_returns (P : nat → Prop) (sh : list Node) :
  (∀ n, P n → ∃ nd w,
     sh !! n = Some nd
     ∧ w ∈ mjoin (wires <$> output_sockets nd)
     ∧ P (parent_node (target_socket w))) →
  ∀ fuel n h, shape h = sh → P n →
    (Simple.update_outputs fuel n h).2 = RecursionError.
Proof.
  intros Hloop. induction fuel as [|f IH]; intros n h Hsh Hn; [done|].
  destruct (Hloop n Hn) as (nd0 & w & Hnd0 & Hw & Hnext).
  rewrite <-Hsh in Hnd0. unfold shape in Hnd0.
  rewrite list_lookup_fmap in Hnd0.
  simpl. destruct (h !! n) as [nd|]; [|done].
  injection Hnd0 as <-.
  assert (wires <$> output_sockets (strip nd) = wires <$> output_sockets nd)
    as Hws by (destruct nd; unfold strip; simpl;
               by rewrite <-list_fmap_compose).
  rewrite Hws in Hw.
  apply (for_wires_raises (λ h', shape h' = sh) _ _ w); [done| | |].
  - rewrite <-Hsh. apply fmap_alter_absorb.
    intros x. apply strip_set_output_values.
  - intros m h0 <-. apply simple_update_outputs_shape.
  - intros h0 Hh0. by apply IH.
Qed.

(** The loop of [Examples.latched] (Or -> Not -> Or), in the first variant:
    the pass started at the Or gate returns at no depth, for every value of
    the input and of the two gate outputs. *)
Lemma simple_feedback_never_returns (i o1 o2 : bool) (fuel : nat) :
  (Simple.update_outputs fuel 1 (heap (feedback i o1 o2))).2 = RecursionError.
Proof.
  apply (simple_loop_never_returns (λ n, n = 1 ∨ n = 2)
           (shape (heap (feedback i o1 o2)))); [|done|by left].
  intros n [->| ->].
  - eexists _, wire_or_not. split; [by destruct i|].
    split; [|by right]. by destruct o1; vm_compute; left.
  - eexists _, wire_not_or. split; [by destruct i|].
    split; [|by left]. by destruct o2; vm_compute; left.
Qed.

(** * Further properties of the complete simulator *)

(** ** Settled circuits *)

(** Node [n] is stable when its output socket holds the value its
    [updateLogic] would compute now. *)
Definition stable (h : list Node) (n : nat) : Prop :=
  match h !! n with
  | Some nd =>
      match output_value h nd, output_sockets nd with
      | Some v, s :: _ => value s = v
      | _, _ => True
      end
  | None => True
  end.

#[global] Instance stable_dec h n : Decision (stable h n).
Proof. unfold stable. repeat case_match; apply _. Defined.

(** Every wire a socket holds is registered at both of its ends, which are
    an output and an input socket. *)
Definition linked (h : list Node) : Prop :=
  ∀ r w, w ∈ socket_wires h r → wire_ok h r w.

Lemma wf_linked (h : list Node) : wf_heap h → linked h.
Proof. intros Hwf r w. by apply wf_wire_ok. Qed.

Lemma linked_same_wires (h h' : list Node) :
  (∀ r, socket_wires h' r = socket_wires h r) → linked h → linked h'.
Proof.
  intros He Hl r w. unfold wire_ok. rewrite !He. apply Hl.
Qed.

Lemma linked_shape (h h' : list Node) :
  shape h' = shape h → linked h → linked h'.
Proof.
  intros Hsh. apply linked_same_wires. intros r.
  by apply socket_wires_shape.
Qed.

Lemma source_value_set_value (h : list Node) (r : SocketRef) (v : bool)
    (w : Wire) :
  source_socket w ≠ r →
  source_value (alter_socket (set_value v) r h) w = source_value h w.
Proof. intros Hne. unfold source_value. by rewrite get_socket_alter_ne. Qed.

(** The wires an input pin of node [m] reads are registered at their
    source, so a node that reads socket [r] is a target of [r]'s wires. *)
Lemma read_input_set_value (h : list Node) (r : SocketRef) (v : bool)
    (m k : nat) (nd : Node) :
  linked h → h !! m = Some nd →
  (∀ w, w ∈ socket_wires h r → parent_node (target_socket w) ≠ m) →
  read_input (alter_socket (set_value v) r h) nd k = read_input h nd k.
Proof.
  intros Hwf Hm Hr. unfold read_input.
  destruct (input_sockets nd !! k) as [s|] eqn:Hs; [|done].
  destruct (wires s) as [|w l] eqn:Hw; [done|].
  apply source_value_set_value. intros Hsrc.
  assert (w ∈ socket_wires h (mkRef m false k)) as Hin.
  { unfold socket_wires, get_socket. simpl. rewrite Hm. simpl.
    rewrite Hs, Hw. left. }
  destruct (Hwf _ _ Hin) as (_ & _ & Ht & Hsw & _).
  simpl in Ht. apply (Hr w); [by rewrite <-Hsrc|]. by rewrite Ht.
Qed.

Lemma output_value_set_value (h : list Node) (r : SocketRef) (v : bool)
    (m : nat) (nd nd' : Node) :
  linked h → h !! m = Some nd →
  (∀ w, w ∈ socket_wires h r → parent_node (target_socket w) ≠ m) →
  cls nd' = cls nd → node_value nd' = node_value nd →
  input_sockets nd' = input_sockets nd →
  output_value (alter_socket (set_value v) r h) nd' = output_value h nd.
Proof.
  intros Hwf Hm Hr Hc Hv Hi.
  assert (∀ k, read_input (alter_socket (set_value v) r h) nd' k
               = read_input h nd k) as Hread.
  { intros k. rewrite <-(read_input_set_value h r v m k nd) by done.
    unfold read_input. by rewrite Hi. }
  unfold output_value. rewrite Hc, Hv, !Hread. done.
Qed.

Lemma stable_set_value_other (h : list Node) (n m : nat) (v : bool) :
  linked h → m ≠ n →
  (∀ w, w ∈ socket_wires h (mkRef n true 0) →
        parent_node (target_socket w) ≠ m) →
  stable h m → stable (alter_socket (set_value v) (mkRef n true 0) h) m.
Proof.
  intros Hwf Hne Hr. unfold stable.
  assert (alter_socket (set_value v) (mkRef n true 0) h !! m = h !! m) as ->
    by (unfold alter_socket; simpl; by rewrite list_lookup_alter_ne).
  destruct (h !! m) as [nd|] eqn:Hm; [|done].
  by rewrite (output_value_set_value h (mkRef n true 0) v m nd nd).
Qed.

Lemma stable_set_value_own (h : list Node) (n : nat) (nd : Node) (v : bool) :
  linked h → h !! n = Some nd → output_value h nd = Some v →
  (∀ w, w ∈ socket_wires h (mkRef n true 0) →
        parent_node (target_socket w) ≠ n) →
  stable (alter_socket (set_value v) (mkRef n true 0) h) n.
Proof.
  intros Hwf Hn Hv Hr. unfold stable.
  assert (alter_socket (set_value v) (mkRef n true 0) h !! n
          = Some (with_sockets true
                    (alter (set_value v) 0 (output_sockets nd)) nd)) as Hn'.
  { unfold alter_socket. simpl. by rewrite list_lookup_alter_eq, Hn. }
  rewrite Hn'.
  rewrite (output_value_set_value h (mkRef n true 0) v n nd) by done.
  rewrite Hv. simpl. by destruct (output_sockets nd).
Qed.

Lemma for_wires_stable
    (rec : nat → list Node → list Node * outcome) :
  (∀ n h, shape (rec n h).1 = shape h) →
  (∀ n h (U : nat → Prop), linked h →
     (∀ m, ¬ U m → m ≠ n → stable h m) → (rec n h).2 = Done →
     ∀ m, ¬ U m → stable (rec n h).1 m) →
  ∀ ws h (U : nat → Prop), linked h →
    (∀ m, ¬ U m → (∀ w, w ∈ ws → parent_node (target_socket w) ≠ m) →
          stable h m) →
    (for_wires rec ws h).2 = Done →
    ∀ m, ¬ U m → stable (for_wires rec ws h).1 m.
Proof.
  intros Hshape Hrec.
  induction ws as [|w ws IH]; intros h U Hwf Hst Hdone m Hm; simpl in *.
  { apply Hst; [done|]. by intros w ?%elem_of_nil. }
  pose proof (Hshape (parent_node (target_socket w)) h) as Hsh.
  pose proof (Hrec (parent_node (target_socket w)) h
                (λ x, U x ∨ ∃ w', w' ∈ ws ∧ parent_node (target_socket w') = x)
                Hwf) as Hcall.
  destruct (rec (parent_node (target_socket w)) h) as [h' []];
    simpl in *; [|done].
  apply (IH h' U); [by apply (linked_shape h)| |done|done].
  intros x Hx Hnot. apply Hcall; [|done|].
  - intros y Hy Hne. apply Hst; [tauto|].
    intros w' [->|Hw']%elem_of_cons; [done|].
    intros Heq. apply Hy. right. by exists w'.
  - intros [HU|(w' & Hw' & Heq)]; [done|]. by apply (Hnot w').
Qed.

(** When a propagation pass returns, the recomputed node is stable, and so
    is every node that was stable before the pass. *)
Lemma updateLogic_stable (fuel : nat) :
  ∀ n h (U : nat → Prop), linked h →
    (∀ m, ¬ U m → m ≠ n → stable h m) →
    (updateLogic fuel n h).2 = Done →
    ∀ m, ¬ U m → stable (updateLogic fuel n h).1 m.
Proof.
  induction fuel as [|f IH]; intros n h U Hwf Hst Hdone m Hm; [done|].
  simpl in *.
  assert (stable h n → stable h m) as Hsame.
  { intros Hn. destruct (decide (m = n)) as [->|]; [done|by apply Hst]. }
  destruct (h !! n) as [nd|] eqn:Hn;
    [|apply Hsame; unfold stable; by rewrite Hn].
  destruct (output_value h nd) as [v|] eqn:Hv;
    [|apply Hsame; unfold stable; by rewrite Hn, Hv].
  destruct (output_sockets nd) as [|s0 outs] eqn:Ho;
    [apply Hsame; unfold stable; by rewrite Hn, Hv, Ho|].
  unfold updateValue_with in *.
  rewrite (get_output_0 h n nd s0 outs Hn Ho) in *.
  case_bool_decide as Hval;
    [apply Hsame; unfold stable; by rewrite Hn, Hv, Ho|].
  cbn [is_output] in *.
  assert (socket_wires h (mkRef n true 0) = wires s0) as Hws.
  { unfold socket_wires. by rewrite (get_output_0 h n nd s0 outs Hn Ho). }
  apply (for_wires_stable (updateLogic f) (updateLogic_shape f) IH
           (wires s0) _ U); [| |done|done].
  { apply (linked_shape h); [apply shape_set_value|done]. }
  intros x Hx Hnot. rewrite <-Hws in Hnot.
  destruct (decide (x = n)) as [->|Hne].
  - by apply (stable_set_value_own h n nd v).
  - apply stable_set_value_other; try done. by apply Hst.
Qed.

Lemma get_socket_alter_node (f : Node → Node) (n : nat) (h : list Node)
    (r : SocketRef) :
  (∀ nd, input_sockets (f nd) = input_sockets nd
         ∧ output_sockets (f nd) = output_sockets nd) →
  get_socket (alter f n h) r = get_socket h r.
Proof.
  intros Hf. unfold get_socket.
  destruct (decide (parent_node r = n)) as [<-|Hne].
  - rewrite list_lookup_alter_eq.
    destruct (h !! parent_node r) as [nd|]; simpl; [|done].
    destruct (Hf nd) as [Hi Ho]. unfold sockets_of.
    by destruct (is_output r); rewrite ?Hi, ?Ho.
  - by rewrite list_lookup_alter_ne.
Qed.

Lemma output_value_ext (h h' : list Node) (nd : Node) :
  (∀ r, get_socket h' r = get_socket h r) →
  output_value h' nd = output_value h nd.
Proof.
  intros He.
  assert (∀ k, read_input h' nd k = read_input h nd k) as Hr.
  { intros k. unfold read_input, source_value.
    destruct (input_sockets nd !! k) as [s|]; [|done].
    destruct (wires s) as [|w l]; [done|]. by rewrite He. }
  unfold output_value. by rewrite !Hr.
Qed.

(** X1. When the pass started by toggling an input node returns, the
    toggled node is stable and every node that was stable before the click
    is stable after it: the circuit is left settled wherever it was
    settled. *)
Theorem toggle_leaves_stable_nodes_stable (fuel n : nat) (st : State)
    (Hwf : wf_heap (heap st))
    (Hdone : (toggle fuel n st).2 = Done) :
  (∀ m, stable (heap st) m → stable (heap (toggle fuel n st).1) m)
  ∧ (∀ nd, heap st !! n = Some nd → cls nd = InputNode →
       stable (heap (toggle fuel n st).1) n).
Proof.
  unfold toggle in *.
  destruct (heap st !! n) as [nd|] eqn:Hn; [|by split].
  destruct (cls nd) eqn:Hc;
    try (split; [done|intros ? [= <-] ?; congruence]).
  set (v := negb (node_value nd)) in *.
  set (h1 := alter (set_node_value v) n (heap st)) in *.
  assert (∀ r, get_socket h1 r = get_socket (heap st) r) as Hget
    by (intros r; by apply get_socket_alter_node).
  assert (linked h1) as Hwf1.
  { apply (linked_same_wires (heap st)); [|by apply wf_linked].
    intros r. unfold socket_wires. by rewrite Hget. }
  assert (h1 !! n = Some (set_node_value v nd)) as Hn1
    by (unfold h1; by rewrite list_lookup_alter_eq, Hn).
  assert (∀ m, m ≠ n → stable (heap st) m → stable h1 m) as H01.
  { intros m Hne. unfold stable.
    assert (h1 !! m = heap st !! m) as ->
      by (unfold h1; by rewrite list_lookup_alter_ne).
    destruct (heap st !! m) as [ndm|]; [|done].
    by rewrite (output_value_ext (heap st) _ ndm Hget). }
  cut (∀ m, m = n ∨ stable h1 m →
            stable
              (heap
                 (match output_sockets nd with
                  | [] => (set_heap h1 st, Done)
                  | _ :: _ =>
                      match updateValue fuel (mkRef n true 0) v h1 with
                      | (h2, Done) =>
                          let '(h3, o) :=
                            for_wires (updateLogic fuel)
                              (socket_wires h2 (mkRef n true 0)) h2 in
                          (set_heap h3 st, o)
                      | (h2, RecursionError) =>
                          (set_heap h2 st, RecursionError)
                      end
                  end).1) m).
  { intros Hcut. split.
    - intros m Hm. apply Hcut.
      destruct (decide (m = n)); [by left|right; by apply H01].
    - intros _ _ _. apply Hcut. by left. }
  intros m Hm.
  destruct (output_sockets nd) as [|s0 outs] eqn:Ho.
  { simpl. destruct Hm as [->|Hm]; [|done].
    unfold stable. rewrite Hn1. simpl. by rewrite Ho; destruct (output_value _ _). }
  assert (updateValue fuel (mkRef n true 0) v h1 = updateLogic (S fuel) n h1)
    as Hupd.
  { simpl. rewrite Hn1. unfold output_value. simpl. rewrite Hc, Ho. done. }
  rewrite Hupd in *.
  pose proof (updateLogic_stable (S fuel) n h1
                (λ x, ¬ stable h1 x ∧ x ≠ n) Hwf1) as H12.
  pose proof (updateLogic_shape (S fuel) n h1) as Hsh2.
  destruct (updateLogic (S fuel) n h1) as [h2 o2]. cbn [fst snd] in *.
  destruct o2; [|done].
  assert (stable h2 m) as Hm2.
  { apply H12; [|done|].
    - intros x Hx Hne. destruct (decide (stable h1 x)); [done|].
      exfalso. by apply Hx.
    - intros [Hns Hne]. by destruct Hm. }
  pose proof (for_wires_stable (updateLogic fuel) (updateLogic_shape fuel)
                (updateLogic_stable fuel)
                (socket_wires h2 (mkRef n true 0)) h2
                (λ x, ¬ stable h2 x)) as H23.
  destruct (for_wires (updateLogic fuel) _ h2) as [h3 o3].
  cbn [fst snd] in *. apply H23; [by apply (linked_shape h1)| |done|].
  - intros x Hx _. destruct (decide (stable h2 x)); [done|]. by destruct Hx.
  - intros Hx. by apply Hx.
Qed.

(** What a connect does to the registry, whether or not the target pin was
    occupied. *)
Lemma connect_wires (st : State) (src tgt : SocketRef) :
  wf_heap (heap st) →
  is_output src = true → is_output tgt = false →
  is_Some (get_socket (heap st) src) → is_Some (get_socket (heap st) tgt) →
  ∀ r, socket_wires (heap (connect src tgt st).2) r
       = filter (λ v, v ∉ socket_wires (heap st) tgt)
                (socket_wires (heap st) r)
         ++ (if decide (r = src ∨ r = tgt)
             then [mkWire (wire_count st) src tgt] else []).
Proof.
  intros Hwf Hsrc Htgt Hs Ht r.
  destruct (decide (socket_wires (heap st) tgt = [])) as [Hemp|Hocc].
  - rewrite Hemp.
    rewrite filter_all by (intros v _; apply not_elem_of_nil).
    assert (heap (connect src tgt st).2
            = register (mkWire (wire_count st) src tgt) (heap st)) as ->.
    { unfold connect. rewrite Htgt. cbn [negb andb].
      rewrite bool_decide_eq_false_2 by (intros Hn; by apply Hn).
      unfold Wire_init. cbn [snd]. by rewrite heap_addItem_cond. }
    rewrite socket_wires_register; simpl; try done.
    + f_equal. destruct (decide (src = r ∨ tgt = r)) as [H|H];
        [rewrite decide_True by (destruct H; auto)
        |rewrite decide_False by (intros [?|?]; apply H; auto)]; done.
    + intros ->. congruence.
  - by apply connect_occupied_wires.
Qed.

Lemma unwire_connect (st : State) (src tgt : SocketRef) :
  unwire <$> heap (connect src tgt st).2 = unwire <$> heap st.
Proof.
  unfold connect.
  set (st1 := if _ && _ then _ else st).
  assert (unwire <$> heap st1 = unwire <$> heap st) as <-.
  { unfold st1. destruct (_ && _); [|done]. apply remove_wires_keeps. }
  unfold Wire_init. cbn [snd]. rewrite heap_addItem_cond.
  apply (unwire_register (mkWire (wire_count st1) src tgt)).
Qed.

Lemma unwire_lookup (h h' : list Node) (m : nat) :
  unwire <$> h' = unwire <$> h → unwire <$> h' !! m = unwire <$> h !! m.
Proof. intros Hu. by rewrite <-!list_lookup_fmap, Hu. Qed.

Lemma unwire_socket_value (h h' : list Node) (r : SocketRef) :
  unwire <$> h' = unwire <$> h →
  value <$> get_socket h' r = value <$> get_socket h r.
Proof.
  intros Hu. pose proof (unwire_lookup h h' (parent_node r) Hu) as Hn.
  unfold get_socket.
  destruct (h' !! parent_node r) as [nd'|], (h !! parent_node r) as [nd|];
    simpl in *; try done.
  injection Hn as Hc Hp Hv Hw Hi Ho.
  assert (∀ (l l' : list Socket) i,
            unwire_socket <$> l' = unwire_socket <$> l →
            value <$> l' !! i = value <$> l !! i) as Hval.
  { intros l l' i Hl.
    apply (f_equal (λ x, value <$> x !! i)) in Hl.
    rewrite !list_lookup_fmap in Hl.
    by destruct (l' !! i), (l !! i). }
  unfold sockets_of. destruct (is_output r); by apply Hval.
Qed.

Lemma read_input_registry (h : list Node) (m k : nat) (nd : Node) :
  h !! m = Some nd →
  read_input h nd k
  = match socket_wires h (mkRef m false k) with
    | w :: _ => source_value h w
    | [] => false
    end.
Proof.
  intros Hm. unfold read_input, socket_wires, get_socket. simpl.
  rewrite Hm. simpl. by destruct (input_sockets nd !! k).
Qed.

(** Stability of a node depends on the values the sockets hold and on the
    wires at the node's own input pins. *)
Lemma stable_rewire (h h' : list Node) (m : nat) :
  unwire <$> h' = unwire <$> h →
  (∀ k, socket_wires h' (mkRef m false k) = socket_wires h (mkRef m false k)) →
  stable h m → stable h' m.
Proof.
  intros Hu Hin. unfold stable.
  pose proof (unwire_lookup h h' m Hu) as Hm.
  destruct (h' !! m) as [nd'|] eqn:Hm', (h !! m) as [nd|] eqn:Hm0;
    simpl in Hm; try done.
  assert (∀ w, source_value h' w = source_value h w) as Hsv.
  { intros w. unfold source_value.
    pose proof (unwire_socket_value h h' (source_socket w) Hu) as Hv.
    by destruct (get_socket h' _), (get_socket h _); simpl in Hv;
      simplify_eq. }
  assert (∀ k, read_input h' nd' k = read_input h nd k) as Hread.
  { intros k. rewrite (read_input_registry h' m k nd' Hm'),
      (read_input_registry h m k nd Hm0), Hin.
    by destruct (socket_wires h _). }
  injection Hm as Hc Hp Hv Hw Hi Ho.
  assert (output_value h' nd' = output_value h nd) as ->
    by (unfold output_value; by rewrite Hc, Hv, !Hread).
  destruct (output_value h nd) as [v|]; [|done].
  destruct (output_sockets nd') as [|s' l'], (output_sockets nd) as [|s l];
    simpl in Ho; try done.
  injection Ho as Hs _. by rewrite Hs.
Qed.

Lemma linked_connect (st : State) (src tgt : SocketRef) :
  wf_heap (heap st) →
  is_output src = true → is_output tgt = false →
  is_Some (get_socket (heap st) src) → is_Some (get_socket (heap st) tgt) →
  linked (heap (connect src tgt st).2).
Proof.
  intros Hwf Hs Ht Hsrc Htgt.
  pose proof (connect_wires st src tgt Hwf Hs Ht Hsrc Htgt) as Hreg.
  set (w := mkWire (wire_count st) src tgt) in *.
  assert (∀ r v, v ∈ socket_wires (heap (connect src tgt st).2) r →
            ((v ∉ socket_wires (heap st) tgt)
             ∧ v ∈ socket_wires (heap st) r)
            ∨ (v = w ∧ (r = src ∨ r = tgt))) as Hin.
  { intros r v. rewrite Hreg.
    intros [Hv%list_elem_of_filter|Hv]%elem_of_app; [by left|].
    destruct (decide _); [|by apply elem_of_nil in Hv].
    apply list_elem_of_singleton in Hv. by right. }
  assert (∀ r v, (v ∉ socket_wires (heap st) tgt) →
            v ∈ socket_wires (heap st) r →
            v ∈ socket_wires (heap (connect src tgt st).2) r) as Hold.
  { intros r v Hn Hv. rewrite Hreg. apply elem_of_app. left.
    by apply list_elem_of_filter. }
  intros r v [[Hn Hv]|[-> Hr]]%Hin.
  - destruct (wf_wire_ok _ Hwf r v Hv) as (? & ? & ? & ? & ?).
    repeat split; try done; by apply Hold.
  - split; [done|]. split; [done|]. split.
    { destruct Hr as [->| ->]; simpl; [by rewrite Hs|by rewrite Ht]. }
    split; rewrite Hreg; apply elem_of_app; right; simpl;
      (rewrite decide_True by auto); apply list_elem_of_here.
Qed.

(** X2. When the pass started by a connect returns, the node that owns the
    target pin is stable, and every node that was stable before the
    connect is stable after it. *)
Theorem connect_leaves_stable_nodes_stable (fuel : nat) (src tgt : SocketRef)
    (st : State)
    (Hwf : wf_heap (heap st))
    (Hsrc : is_output src = true) (Htgt : is_output tgt = false)
    (Hne : parent_node src ≠ parent_node tgt)
    (Hs : is_Some (get_socket (heap st) src))
    (Ht : is_Some (get_socket (heap st) tgt))
    (Hdone : (mouseReleaseEvent fuel src [tgt] st).2 = Done) :
  stable (heap (mouseReleaseEvent fuel src [tgt] st).1) (parent_node tgt)
  ∧ ∀ m, stable (heap st) m →
         stable (heap (mouseReleaseEvent fuel src [tgt] st).1) m.
Proof.
  rewrite mouseReleaseEvent_connect in * by done. cbn [fst snd] in *.
  set (hc := heap (connect src tgt st).2) in *.
  assert (linked hc) as Hl by by apply linked_connect.
  assert (∀ m, m ≠ parent_node tgt → stable (heap st) m → stable hc m)
    as Hkeep.
  { intros m Hm. apply stable_rewire; [apply unwire_connect|].
    intros k. unfold hc. rewrite connect_wires by done.
    rewrite decide_False.
    - rewrite app_nil_r. apply filter_all. intros v Hv Hv'.
      destruct (wf_wire_ok _ Hwf _ _ Hv) as (_ & _ & Hr & _).
      destruct (wf_wire_ok _ Hwf _ _ Hv') as (_ & _ & Hr' & _).
      rewrite Htgt in Hr'. simpl in Hr. apply Hm.
      by rewrite <-Hr', Hr.
    - intros [E|E]; [by rewrite <-E in Hsrc|by rewrite <-E in Hm]. }
  pose proof (updateLogic_stable fuel (parent_node tgt) hc
                (λ x, ¬ stable hc x ∧ x ≠ parent_node tgt) Hl) as Hpass.
  assert (∀ m, m = parent_node tgt ∨ stable hc m →
            stable (updateLogic fuel (parent_node tgt) hc).1 m) as Hall.
  { intros m Hm. apply Hpass; [|done|].
    - intros x Hx Hxne. destruct (decide (stable hc x)); [done|].
      exfalso. by apply Hx.
    - intros [Hns Hmne]. by destruct Hm. }
  split; [apply Hall; by left|].
  intros m Hm. apply Hall.
  destruct (decide (m = parent_node tgt)); [by left|right; by apply Hkeep].
Qed.

Lemma ranked_alter_node (rk : nat → nat) (f : Node → Node) (n : nat)
    (h : list Node) :
  (∀ nd, output_sockets (f nd) = output_sockets nd) →
  ranked rk h → ranked rk (alter f n h).
Proof.
  intros Hf Hr p nd' Hp.
  destruct (decide (p = n)) as [->|Hne].
  - rewrite list_lookup_alter_eq in Hp.
    destruct (h !! n) as [nd|] eqn:Hn; [|done].
    injection Hp as <-. rewrite Hf. by apply (Hr n).
  - rewrite list_lookup_alter_ne in Hp by done. by apply (Hr p).
Qed.

(** X3. On an acyclic wiring the pass started by toggling an input node
    returns: a recursion depth above the height of the ranking is enough,
    whatever values the sockets hold. *)
Theorem toggle_returns_on_acyclic_wiring (rk : nat → nat) (R fuel n : nat)
    (st : State)
    (Hbound : ∀ m, rk m ≤ R) (Hranked : ranked rk (heap st))
    (Hfuel : R < fuel) :
  (toggle fuel n st).2 = Done.
Proof.
  unfold toggle.
  destruct (heap st !! n) as [nd|] eqn:Hn; [|done].
  destruct (cls nd) eqn:Hc; try done.
  set (v := negb (node_value nd)).
  set (h1 := alter (set_node_value v) n (heap st)).
  assert (ranked rk h1) as Hr1 by by apply ranked_alter_node.
  destruct (output_sockets nd) as [|s0 outs] eqn:Ho; [done|].
  assert (updateValue fuel (mkRef n true 0) v h1 = updateLogic (S fuel) n h1)
    as ->.
  { simpl. unfold h1. rewrite list_lookup_alter_eq, Hn. simpl.
    unfold output_value. simpl. by rewrite Hc, Ho. }
  destruct (updateLogic_ranked rk R Hbound (S fuel) n h1 Hr1) as [Hd _];
    [lia|].
  pose proof (updateLogic_shape (S fuel) n h1) as Hsh.
  destruct (updateLogic (S fuel) n h1) as [h2 o2]. cbn [fst snd] in *.
  subst o2.
  assert (ranked rk h2) as Hr2 by by apply (ranked_shape rk h1).
  destruct (for_wires_done (ranked rk) (updateLogic fuel)
              (socket_wires h2 (mkRef n true 0)) h2 Hr2) as [_ Hd3].
  { intros w h0 _ Hr0.
    destruct (updateLogic_ranked rk R Hbound fuel
                (parent_node (target_socket w)) h0 Hr0) as [Hd0 _]; [lia|].
    split; [|done].
    apply (ranked_shape rk h0); [|done].
    symmetry. apply updateLogic_shape. }
  by destruct (for_wires _ _ h2) as [h3 o3].
Qed.

Lemma toggle_leaves_stable_nodes_stable_witness :
  (∀ m, stable (heap Examples.chain) m →
        stable (heap (toggle 10 0 Examples.chain).1) m)
  ∧ (∀ nd, heap Examples.chain !! 0 = Some nd → cls nd = InputNode →
       stable (heap (toggle 10 0 Examples.chain).1) 0).
Proof.
  apply toggle_leaves_stable_nodes_stable; [exact chain_wf|reflexivity].
Defined.

Lemma three_nodes_wf : wf_heap (heap Examples.three_nodes).
Proof. apply (bool_decide_unpack _). by vm_compute. Qed.

(** The input of [Examples.three_nodes] wired to the Or gate. *)
Lemma connect_leaves_stable_nodes_stable_witness :
  stable (heap (mouseReleaseEvent 10 (mkRef 0 true 0) [mkRef 1 false 0]
                  Examples.three_nodes).1) 1
  ∧ ∀ m, stable (heap Examples.three_nodes) m →
         stable (heap (mouseReleaseEvent 10 (mkRef 0 true 0) [mkRef 1 false 0]
                         Examples.three_nodes).1) m.
Proof.
  apply (connect_leaves_stable_nodes_stable 10 (mkRef 0 true 0)
           (mkRef 1 false 0) Examples.three_nodes);
    [exact three_nodes_wf|done|done|by simpl|by eexists|by eexists|reflexivity].
Defined.

Lemma toggle_returns_on_acyclic_wiring_witness :
  (toggle 3 0 Examples.chain).2 = Done.
Proof.
  apply (toggle_returns_on_acyclic_wiring (λ m, m `min` 2) 2 3 0
           Examples.chain); [intros m; lia|exact chain_ranked|lia].
Defined.

(** ** Reachable states *)

Lemma three_nodes_reachable : reachable Examples.three_nodes.
Proof.
  exact (reach_create_node "NOT" (400, 0)%Z _
           (reach_create_node "OR" (200, 0)%Z _
              (reach_create_node "INPUT" (0, 0)%Z _ reach_init))).
Qed.

Lemma chain_reachable : reachable Examples.chain.
Proof.
  assert (reachable (mouseReleaseEvent 10 (mkRef 0 true 0) [mkRef 1 false 0]
                       Examples.three_nodes).1) as H1.
  { apply reach_connect; [exact three_nodes_reachable|by eexists|].
    repeat constructor; by eexists. }
  exact (reach_connect 10 (mkRef 1 true 0) [mkRef 2 false 0] _ H1
           (ltac:(by eexists)) (ltac:(repeat constructor; by eexists))).
Qed.

Lemma latched_reachable : reachable Examples.latched.
Proof.
  exact (reach_connect 10 (mkRef 2 true 0) [mkRef 1 false 1] _
           (reach_toggle 10 0 _ chain_reachable)
           (ltac:(by eexists)) (ltac:(repeat constructor; by eexists))).
Qed.

(** X4. In every state the editor reaches from the empty scene (by
    creating nodes, connecting, toggling, deleting, undo, redo, loading,
    copying and pasting): every wire a socket holds runs from an output
    socket to an input socket and is held by both of them, no two wires
    held by sockets share an identity, every wire identity is below the
    allocation counter, and every node has the sockets its constructor
    built. *)
Theorem reachable_states_are_well_formed (st : State) (H : reachable st) :
  (∀ r w, w ∈ socket_wires (heap st) r →
     is_output (source_socket w) = true
     ∧ is_output (target_socket w) = false
     ∧ (if is_output r then source_socket w else target_socket w) = r
     ∧ w ∈ socket_wires (heap st) (source_socket w)
     ∧ w ∈ socket_wires (heap st) (target_socket w)
     ∧ wire_id w < wire_count st)
  ∧ (∀ r r' v w, v ∈ socket_wires (heap st) r →
       w ∈ socket_wires (heap st) r' → wire_id v = wire_id w → v = w)
  ∧ (∀ r, NoDup (wire_id <$> socket_wires (heap st) r))
  ∧ (∀ n nd, heap st !! n = Some nd →
       length (input_sockets nd) = n_inputs (cls nd)
       ∧ length (output_sockets nd) = n_outputs (cls nd)).
Proof.
  assert (invariant st) as (Hwf & Hl & Hf & _).
  { induction H.
    - apply invariant_init.
    - by apply invariant_create_node.
    - by apply invariant_mouseReleaseEvent.
    - by apply invariant_toggle.
    - by apply invariant_delete_selected_items.
    - by apply invariant_undo.
    - by apply invariant_redo.
    - by apply invariant_load_from_file.
    - by apply invariant_copy.
    - by apply invariant_paste_nodes. }
  destruct (wf_heap_registry _ Hwf) as (Hok & Hnd & Hu).
  split; [|split; [done|split; [done|]]].
  - intros r w Hw. destruct (Hok r w Hw) as (? & ? & ? & ? & ?).
    repeat split; try done. apply Hf. by exists r.
  - intros n nd Hn. unfold layout_ok in Hl. rewrite Forall_forall in Hl.
    apply Hl. by eapply list_elem_of_lookup_2.
Qed.

Lemma reachable_states_are_well_formed_witness :
  (∀ r w, w ∈ socket_wires (heap Examples.latched) r →
     is_output (source_socket w) = true
     ∧ is_output (target_socket w) = false
     ∧ (if is_output r then source_socket w else target_socket w) = r
     ∧ w ∈ socket_wires (heap Examples.latched) (source_socket w)
     ∧ w ∈ socket_wires (heap Examples.latched) (target_socket w)
     ∧ wire_id w < wire_count Examples.latched)
  ∧ (∀ r r' v w, v ∈ socket_wires (heap Examples.latched) r →
       w ∈ socket_wires (heap Examples.latched) r' →
       wire_id v = wire_id w → v = w)
  ∧ (∀ r, NoDup (wire_id <$> socket_wires (heap Examples.latched) r))
  ∧ (∀ n nd, heap Examples.latched !! n = Some nd →
       length (input_sockets nd) = n_inputs (cls nd)
       ∧ length (output_sockets nd) = n_outputs (cls nd)).
Proof.
  exact (reachable_states_are_well_formed Examples.latched latched_reachable).
Defined.

(** A store without self-loops, checked socket by socket. *)
Lemma loop_free_check (h : list Node) :
  Forall (λ r, Forall (λ w, parent_node (source_socket w)
                            ≠ parent_node (target_socket w))
                      (socket_wires h r)) (all_refs h) →
  loop_free h.
Proof.
  intros Hall r w Hw. rewrite Forall_forall in Hall.
  specialize (Hall r (socket_wires_ref h r w Hw)).
  rewrite Forall_forall in Hall. by apply Hall.
Qed.

Lemma chain_loop_free : loop_free (heap Examples.chain).
Proof. apply loop_free_check, (bool_decide_unpack _). by vm_compute. Qed.

(** The Not output of [Examples.chain] released over the second pin of the
    Or gate and over the Not gate's own pin. *)
Lemma mouseReleaseEvent_loop_free_witness :
  loop_free (heap (mouseReleaseEvent 10 (mkRef 2 true 0)
                     [mkRef 2 false 0; mkRef 1 false 1] Examples.chain).1).
Proof. apply mouseReleaseEvent_loop_free, chain_loop_free. Defined.

(** ** Undo and redo *)

Lemma filter_not_in_scene (it : Item) (st : State) :
  in_scene it st = false →
  filter (λ x, same_item it x = false) (scene_items st) = scene_items st.
Proof.
  unfold in_scene. intros Hn. apply filter_all. intros x Hx.
  destruct (same_item it x) eqn:E; [|done].
  assert (existsb (same_item it) (scene_items st) = true) as Ht; [|congruence].
  apply existsb_exists. exists x. split; [by apply list_elem_of_In|done].
Qed.

Lemma lookup_take_snoc {A} (l : list A) (i : nat) (x : A) :
  i ≤ length l → (take i l ++ [x]) !! i = Some x.
Proof.
  intros Hi. rewrite lookup_app_r by (rewrite length_take; lia).
  rewrite length_take. by replace (i - i `min` length l) with 0 by lia.
Qed.

(** X6. Undo right after a node was created takes the node out of the
    scene again, leaving the scene as it was before the drop, while the
    node object stays in the store; redo then gives back exactly the state
    after the creation. The new node's identity is fresh, and the undo index
    lies within the stack. *)
Theorem undo_redo_create_node (node_id : string) (p : Z * Z) (st : State)
    (c : NodeClass)
    (Hid : class_of_node_id node_id = Some c)
    (Hidx : undo_index st ≤ length (undo_cmds st))
    (Hfresh : in_scene (INode (length (heap st))) st = false) :
  (create_node node_id p st).1 = Some (length (heap st))
  ∧ scene_items (create_node node_id p st).2
    = scene_items st ++ [INode (length (heap st))]
  ∧ scene_items (undo (create_node node_id p st).2) = scene_items st
  ∧ heap (undo (create_node node_id p st).2)
    = heap (create_node node_id p st).2
  ∧ redo (undo (create_node node_id p st).2) = (create_node node_id p st).2.
Proof.
  unfold create_node. rewrite Hid. unfold alloc. cbn [fst snd].
  set (n := length (heap st)) in *.
  set (cs := take (undo_index st) (undo_cmds st) ++ [AddNodeCommand n]).
  set (h := alter _ n _).
  assert (addItem (INode n) (set_heap (heap st ++ [new_node c false]) st)
          = set_scene (scene_items st ++ [INode n])
              (set_heap (heap st ++ [new_node c false]) st)) as Hadd.
  { unfold addItem.
    by change (in_scene (INode n) (set_heap _ st))
      with (in_scene (INode n) st); rewrite Hfresh. }
  rewrite Hadd in *. clear Hadd.
  set (st3 := set_heap h _).
  assert (in_scene (INode n) st3 = true) as Hin.
  { unfold in_scene, st3. simpl. rewrite existsb_app. simpl.
    rewrite bool_decide_eq_true_2 by done. by rewrite orb_true_r. }
  assert (push (AddNodeCommand n) st3 = set_undo cs (S (undo_index st)) st3)
    as Hpush.
  { unfold push. simpl.
    change (in_scene (INode n) (set_undo _ _ st3))
      with (in_scene (INode n) st3). by rewrite Hin. }
  rewrite Hpush. clear Hpush.
  assert (cs !! undo_index st = Some (AddNodeCommand n)) as Hlook
    by by apply lookup_take_snoc.
  assert (undo (set_undo cs (S (undo_index st)) st3)
          = set_undo cs (undo_index st) (set_scene (scene_items st) st3))
    as Hundo.
  { unfold undo. cbn [undo_index undo_cmds set_undo]. rewrite Hlook.
    unfold cmd_undo, removeItem. cbn [scene_items set_undo st3 set_heap
                                      set_scene].
    rewrite filter_app, (filter_not_in_scene _ _ Hfresh).
    rewrite filter_cons_False, filter_nil, app_nil_r; [done|].
    by rewrite same_item_refl. }
  rewrite Hundo.
  split; [done|]. split; [done|]. split; [done|]. split; [done|].
  unfold redo. cbn [undo_index undo_cmds set_undo]. rewrite Hlook.
  unfold cmd_redo.
  change (in_scene (INode n) (set_undo cs (undo_index st) _))
    with (in_scene (INode n) st). rewrite Hfresh.
  unfold addItem.
  change (in_scene (INode n) (set_undo cs (undo_index st) _))
    with (in_scene (INode n) st). rewrite Hfresh. done.
Qed.

Lemma undo_redo_create_node_witness :
  (create_node "AND" (10, 10)%Z Examples.chain).1 = Some 3
  ∧ scene_items (create_node "AND" (10, 10)%Z Examples.chain).2
    = scene_items Examples.chain ++ [INode 3]
  ∧ scene_items (undo (create_node "AND" (10, 10)%Z Examples.chain).2)
    = scene_items Examples.chain
  ∧ heap (undo (create_node "AND" (10, 10)%Z Examples.chain).2)
    = heap (create_node "AND" (10, 10)%Z Examples.chain).2
  ∧ redo (undo (create_node "AND" (10, 10)%Z Examples.chain).2)
    = (create_node "AND" (10, 10)%Z Examples.chain).2.
Proof.
  apply (undo_redo_create_node "AND" (10, 10)%Z Examples.chain AndGateNode);
    [reflexivity|simpl; lia|reflexivity].
Defined.

Definition is_node (it : Item) : Prop :=
  match it with
  | INode _ => True
  | IWire _ => False
  end.

(** The undo stack as a pair. *)
Definition stack (st : State) : list Command * nat :=
  (undo_cmds st, undo_index st).

Lemma stack_removeItem (it : Item) (st : State) :
  stack (removeItem it st) = stack st.
Proof. done. Qed.

Lemma stack_addItem (it : Item) (st : State) :
  stack (addItem it st) = stack st.
Proof. unfold addItem. by case_match. Qed.

Lemma stack_Wire_remove (w : Wire) (st : State) :
  stack (Wire_remove w st) = stack st.
Proof. unfold Wire_remove. by case_match. Qed.

Lemma stack_restore_item (it : Item) (st : State) :
  stack (restore_item it st) = stack st.
Proof.
  destruct it; simpl; [apply stack_addItem|].
  case_match; [done|apply stack_addItem].
Qed.

Lemma stack_remove_wires (ws : list Wire) (st : State) :
  stack (remove_wires ws st) = stack st.
Proof.
  apply (foldl_inv (λ s, stack s = stack st)); [|done].
  intros s w _ <-. apply stack_Wire_remove.
Qed.

Lemma stack_delete_item (it : Item) (st : State) :
  stack (delete_item it st) = stack st.
Proof.
  destruct it as [n|w]; simpl; [|apply stack_Wire_remove].
  rewrite stack_removeItem.
  apply (foldl_inv (λ s, stack s = stack st)); [|done].
  intros s r _ <-. apply stack_remove_wires.
Qed.

Lemma stack_cmd_undo_delete (stored : list (Item * list Wire)) (st : State) :
  stack (cmd_undo (DeleteItemsCommand stored) st) = stack st.
Proof.
  unfold cmd_undo.
  apply (foldl_inv (λ s, stack s = stack st)); [|done].
  intros s p _ <-.
  apply (foldl_inv (λ s', stack s' = stack s));
    [|apply stack_restore_item].
  intros s' w _ <-. apply stack_restore_item.
Qed.

Lemma in_scene_restore_item_mono (it it' : Item) (st : State) :
  in_scene it st = true → in_scene it (restore_item it' st) = true.
Proof.
  intros H. destruct it'; simpl; [by apply in_scene_addItem_mono|].
  case_match; [done|by apply in_scene_addItem_mono].
Qed.

Lemma in_scene_restore_item_new (it : Item) (st : State) :
  in_scene it (restore_item it st) = true.
Proof.
  destruct it; simpl; [apply in_scene_addItem_new|].
  case_match; [done|apply in_scene_addItem_new].
Qed.

Lemma in_scene_cmd_undo_delete (stored : list (Item * list Wire))
    (st : State) (p : Item * list Wire) :
  p ∈ stored →
  in_scene p.1 (cmd_undo (DeleteItemsCommand stored) st) = true.
Proof.
  unfold cmd_undo. revert st.
  induction stored as [|q stored IH]; intros st Hp;
    [by apply elem_of_nil in Hp|].
  cbn [foldl]. apply elem_of_cons in Hp as [->|Hp]; [|by apply IH].
  apply (foldl_inv (λ s, in_scene q.1 s = true)).
  - intros s x _ Hs.
    apply (foldl_inv (λ s', in_scene q.1 s' = true));
      [|by apply in_scene_restore_item_mono].
    intros s' w _ Hs'. by apply in_scene_restore_item_mono.
  - apply (foldl_inv (λ s', in_scene q.1 s' = true));
      [|apply in_scene_restore_item_new].
    intros s' w _ Hs'. by apply in_scene_restore_item_mono.
Qed.

Lemma cmd_redo_delete_nodes (sel : list Item) (h : list Node) (st : State) :
  Forall is_node sel →
  cmd_redo (DeleteItemsCommand (stored_items_of h sel)) st = st.
Proof.
  intros Hsel. unfold cmd_redo, stored_items_of.
  induction Hsel as [|it sel Hit _ IH]; [done|].
  rewrite fmap_cons. simpl. by destruct it.
Qed.

Lemma delete_selected_nodes (sel : list Item) (st : State) :
  sel ≠ [] → Forall is_node sel →
  delete_selected_items sel st
  = foldl (λ s it, delete_item it s)
      (set_undo (take (undo_index st) (undo_cmds st)
                 ++ [DeleteItemsCommand (stored_items_of (heap st) sel)])
                (S (undo_index st)) st) sel.
Proof.
  intros Hne Hsel. unfold delete_selected_items, push.
  rewrite (cmd_redo_delete_nodes _ _ _ Hsel). by destruct sel.
Qed.

(** X7. After a deletion of selected nodes has been undone, redo does not
    delete them again: [DeleteItemsCommand.redo] can take no node out of
    the scene (the call [item.scene()] raises for a node), so redo only
    advances the index of the undo stack, and the nodes stay in the
    scene. *)
Theorem redo_of_node_deletion_removes_nothing (sel : list Item) (st : State)
    (Hsel : Forall is_node sel) (Hne : sel ≠ [])
    (Hidx : undo_index st ≤ length (undo_cmds st)) :
  (∀ it, it ∈ sel →
     in_scene it (undo (delete_selected_items sel st)) = true)
  ∧ redo (undo (delete_selected_items sel st))
    = set_undo (undo_cmds (delete_selected_items sel st))
               (undo_index (delete_selected_items sel st))
               (undo (delete_selected_items sel st))
  ∧ (∀ it, it ∈ sel →
       in_scene it (redo (undo (delete_selected_items sel st))) = true).
Proof.
  set (c := DeleteItemsCommand (stored_items_of (heap st) sel)).
  set (cs := take (undo_index st) (undo_cmds st) ++ [c]).
  assert (stack (delete_selected_items sel st) = (cs, S (undo_index st)))
    as Hstack.
  { rewrite delete_selected_nodes by done.
    apply (foldl_inv (λ s, stack s = (cs, S (undo_index st)))); [|done].
    intros s it _ <-. apply stack_delete_item. }
  injection Hstack as Hcmds Hindex.
  assert (cs !! undo_index st = Some c) as Hlook by by apply lookup_take_snoc.
  set (Y := delete_selected_items sel st) in *.
  assert (undo Y = cmd_undo c (set_undo cs (undo_index st) Y)) as Hundo.
  { unfold undo. by rewrite Hindex, Hcmds, Hlook. }
  assert (stack (undo Y) = (cs, undo_index st)) as Hstack'.
  { rewrite Hundo. unfold c. by rewrite stack_cmd_undo_delete. }
  injection Hstack' as Hcmds' Hindex'.
  assert (∀ it, it ∈ sel → in_scene it (undo Y) = true) as Hin.
  { intros it Hit. rewrite Hundo.
    assert (it = (it, match it with
                      | INode n => node_wires (heap st) n
                      | IWire _ => []
                      end).1) as -> by done.
    apply in_scene_cmd_undo_delete. unfold stored_items_of.
    apply list_elem_of_fmap. exists it. split; [by destruct it|done]. }
  assert (redo (undo Y) = set_undo cs (S (undo_index st)) (undo Y)) as Hredo.
  { unfold redo. rewrite Hindex', Hcmds', Hlook.
    unfold c. by rewrite (cmd_redo_delete_nodes _ _ _ Hsel). }
  split; [done|]. rewrite Hredo, Hcmds, Hindex. split; [done|].
  intros it Hit. by apply Hin.
Qed.

(** The Or gate of [Examples.latched] deleted, the deletion undone and
    redone. *)
Lemma redo_of_node_deletion_removes_nothing_witness :
  in_scene (INode 1)
    (redo (undo (delete_selected_items [INode 1] Examples.latched))) = true.
Proof.
  destruct (redo_of_node_deletion_removes_nothing [INode 1] Examples.latched)
    as (_ & _ & H); [by repeat constructor|done|simpl; lia|].
  apply H. left.
Defined.

(** ** Undo of a paste *)

Lemma wf_Wire_remove (w : Wire) (st : State) :
  wf_heap (heap st) → genuine (heap st) w → wf_heap (heap (Wire_remove w st)).
Proof.
  intros Hwf Hgen. apply registry_wf_heap.
  apply (wf_registry_ext (λ r, filter (λ v, v ≠ w)
                                 (socket_wires (heap st) r))).
  - by apply Wire_remove_registry.
  - by apply wf_registry_filter, wf_heap_registry.
Qed.

(** A wire ends at socket [r]. *)
Definition ends_at (r : SocketRef) (w : Wire) : Prop :=
  source_socket w = r ∨ target_socket w = r.

#[global] Instance ends_at_dec r w : Decision (ends_at r w).
Proof. unfold ends_at. apply _. Defined.

(** The loop of [PasteNodesCommand.undo] over the wires. *)
Definition remove_pasted (ws : list Wire) (st : State) : State :=
  foldl (λ s w, if in_scene (IWire w) s then Wire_remove w s else s) st ws.

Lemma remove_pasted_registry (ws : list Wire) :
  ∀ (st : State) (R0 : SocketRef → list Wire),
  wf_heap (heap st) →
  NoDup (wire_id <$> ws) →
  (∀ r v, v ∈ R0 r → wire_id v ∉ wire_id <$> ws) →
  (∀ w, w ∈ ws → in_scene (IWire w) st = true ∧ genuine (heap st) w) →
  (∀ r, socket_wires (heap st) r = R0 r ++ filter (ends_at r) ws) →
  (∀ r, socket_wires (heap (remove_pasted ws st)) r = R0 r)
  ∧ (∀ w, w ∈ ws → in_scene (IWire w) (remove_pasted ws st) = false)
  ∧ (∀ n, in_scene (INode n) (remove_pasted ws st) = in_scene (INode n) st).
Proof.
  induction ws as [|w ws IH]; intros st R0 Hwf Hnd Hdis Hws Hreg.
  { split; [|split; [by intros w ?%elem_of_nil|done]].
    intros r. rewrite Hreg. simpl. by rewrite app_nil_r. }
  rewrite fmap_cons in Hnd. apply NoDup_cons in Hnd as [Hw Hnd].
  destruct (Hws w) as [Hin Hgen]; [left|].
  unfold remove_pasted. cbn [foldl]. rewrite Hin.
  fold (remove_pasted ws (Wire_remove w st)).
  assert (∀ v, v ∈ ws → v ≠ w) as Hne.
  { intros v Hv ->. apply Hw. by apply list_elem_of_fmap_2. }
  destruct (IH (Wire_remove w st) R0) as (H1 & H2 & H3).
  - by apply wf_Wire_remove.
  - done.
  - intros r v Hv Hid. apply (Hdis r v Hv). by right.
  - intros v Hv. destruct (Hws v) as [Hvin Hvgen]; [by right|]. split.
    + rewrite in_scene_Wire_remove; [done|]. simpl.
      apply bool_decide_eq_false. intros Hid. apply Hw. rewrite Hid.
      by apply list_elem_of_fmap_2.
    + revert Hvgen. apply genuine_mono. intros u.
      by apply Wire_remove_registered.
  - intros r. rewrite Wire_remove_registry, Hreg by done.
    rewrite filter_app. f_equal.
    + apply filter_all. intros v Hv ->. apply (Hdis r w Hv). left.
    + rewrite filter_cons. destruct (decide (ends_at r w)).
      * rewrite filter_cons_False by (intros Hn; by apply Hn).
        apply filter_all. intros v [_ Hv]%list_elem_of_filter. by apply Hne.
      * apply filter_all. intros v [_ Hv]%list_elem_of_filter. by apply Hne.
  - split; [done|]. split.
    + intros v [->|Hv]%elem_of_cons; [|by apply H2].
      destruct (in_scene (IWire w) (remove_pasted ws (Wire_remove w st)))
        eqn:E; [|done].
      assert (in_scene (IWire w) (Wire_remove w st) = true) as Hc.
      { revert E. clear. generalize (Wire_remove w st). 
        induction ws as [|u ws IH]; intros s; [done|].
        unfold remove_pasted. cbn [foldl].
        fold (remove_pasted ws (if in_scene (IWire u) s
                                then Wire_remove u s else s)).
        intros E%IH. destruct (in_scene (IWire u) s); [|done].
        by apply in_scene_Wire_remove_anti in E. }
      by rewrite in_scene_Wire_remove_self in Hc.
    + intros n. rewrite H3. by apply in_scene_Wire_remove.
Qed.

Lemma stack_paste_node (off : Z) (cn : CopiedNode)
    (acc : State * list nat * gmap nat nat) :
  stack (paste_node off cn acc).1.1 = stack acc.1.1.
Proof.
  unfold paste_node. destruct (class_of_name _); [|done].
  unfold alloc. cbn [fst snd]. by rewrite stack_addItem.
Qed.

(** What the node loop of [paste_nodes] keeps and builds. *)
Lemma paste_node_loop_frame (off : Z) (cns : list CopiedNode) (st : State) :
  invariant st →
  let acc := foldl (λ acc cn, paste_node off cn acc) (st, [], ∅) cns in
  invariant acc.1.1
  ∧ (∀ r, socket_wires (heap acc.1.1) r = socket_wires (heap st) r)
  ∧ wire_count acc.1.1 = wire_count st
  ∧ stack acc.1.1 = stack st
  ∧ copied_connections acc.1.1 = copied_connections st
  ∧ (∀ n, n ∈ acc.1.2 → in_scene (INode n) acc.1.1 = true)
  ∧ (∀ it, in_scene it st = true → in_scene it acc.1.1 = true).
Proof.
  intros Hinv acc. unfold acc.
  apply (foldl_inv (λ acc : State * list nat * gmap nat nat,
    invariant acc.1.1
    ∧ (∀ r, socket_wires (heap acc.1.1) r = socket_wires (heap st) r)
    ∧ wire_count acc.1.1 = wire_count st
    ∧ stack acc.1.1 = stack st
    ∧ copied_connections acc.1.1 = copied_connections st
    ∧ (∀ n, n ∈ acc.1.2 → in_scene (INode n) acc.1.1 = true)
    ∧ (∀ it, in_scene it st = true → in_scene it acc.1.1 = true))).
  - intros [[s ns] m] cn _ (H1 & H2 & H3 & H4 & H5 & H6 & H7).
    split; [by apply invariant_paste_node|].
    rewrite stack_paste_node.
    unfold paste_node. destruct (class_of_name _) as [c|]; [|done].
    unfold alloc. cbn [fst snd] in *.
    set (s1 := set_heap _ (set_heap _ s)).
    assert (∀ it s', heap (addItem it s') = heap s'
                     ∧ wire_count (addItem it s') = wire_count s'
                     ∧ copied_connections (addItem it s')
                       = copied_connections s') as Hadd
      by (intros it s'; unfold addItem; by case_match).
    destruct (Hadd (INode (length (heap s))) s1) as (-> & -> & ->).
    split; [|split; [done|split; [done|split; [done|split]]]].
    + intros r. unfold s1. cbn [heap set_heap].
      rewrite socket_wires_alter_node by done.
      by rewrite socket_wires_alloc.
    + intros n [Hn| ->%list_elem_of_singleton]%elem_of_app.
      * apply in_scene_addItem_mono. by apply H6.
      * apply in_scene_addItem_new.
    + intros it Hit. apply in_scene_addItem_mono. by apply H7.
  - cbn [fst snd]. do 5 (split; [done|]).
    split; [by intros n ?%elem_of_nil|done].
Qed.

Lemma paste_connection_cases (m : gmap nat nat) (c : CopiedConnection)
    (acc : State * list Wire) :
  paste_connection m c acc = acc
  ∨ ∃ sn en i j a b,
      heap acc.1 !! sn = Some a ∧ heap acc.1 !! en = Some b
      ∧ i < length (output_sockets a) ∧ j < length (input_sockets b)
      ∧ paste_connection m c acc
        = (addItem (IWire (mkWire (wire_count acc.1) (mkRef sn true i)
                                  (mkRef en false j)))
             (Wire_init (mkRef sn true i) (mkRef en false j) acc.1).2,
           acc.2 ++ [mkWire (wire_count acc.1) (mkRef sn true i)
                            (mkRef en false j)]).
Proof.
  unfold paste_connection.
  destruct (m !! start_node_id c) as [sn|]; [|by left].
  destruct (m !! end_node_id c) as [en|]; [|by left].
  destruct (heap acc.1 !! sn) as [a|] eqn:Ha; [|by left].
  destruct (heap acc.1 !! en) as [b|] eqn:Hb; [|by left].
  destruct (_ && _) eqn:Hrange; [|by left].
  apply andb_prop in Hrange as [Hi Hj].
  apply bool_decide_eq_true in Hi. apply bool_decide_eq_true in Hj.
  right. by exists sn, en, (start_socket_index c), (end_socket_index c), a, b.
Qed.

(** What the connection loop of [paste_nodes] builds. *)
Lemma paste_connection_loop_frame (m : gmap nat nat)
    (cs : list CopiedConnection) (st : State) :
  invariant st →
  let acc := foldl (λ acc c, paste_connection m c acc) (st, []) cs in
  invariant acc.1
  ∧ (∀ r, socket_wires (heap acc.1) r
          = socket_wires (heap st) r ++ filter (ends_at r) acc.2)
  ∧ (∀ w, w ∈ acc.2 →
       wire_count st ≤ wire_id w < wire_count acc.1
       ∧ in_scene (IWire w) acc.1 = true)
  ∧ NoDup (wire_id <$> acc.2)
  ∧ wire_count st ≤ wire_count acc.1
  ∧ stack acc.1 = stack st
  ∧ (∀ n, in_scene (INode n) acc.1 = in_scene (INode n) st).
Proof.
  intros Hinv acc. unfold acc.
  apply (foldl_inv (λ acc : State * list Wire,
    invariant acc.1
    ∧ (∀ r, socket_wires (heap acc.1) r
            = socket_wires (heap st) r ++ filter (ends_at r) acc.2)
    ∧ (∀ w, w ∈ acc.2 →
         wire_count st ≤ wire_id w < wire_count acc.1
         ∧ in_scene (IWire w) acc.1 = true)
    ∧ NoDup (wire_id <$> acc.2)
    ∧ wire_count st ≤ wire_count acc.1
    ∧ stack acc.1 = stack st
    ∧ (∀ n, in_scene (INode n) acc.1 = in_scene (INode n) st))).
  - intros [s ws] c _ (H1 & H2 & H3 & H4 & H5 & H6 & H7).
    destruct (paste_connection_cases m c (s, ws))
      as [->|(sn & en & i & j & a & b & Ha & Hb & Hi & Hj & ->)]; [done|].
    cbn [fst snd] in *.
    set (w := mkWire (wire_count s) (mkRef sn true i) (mkRef en false j)).
    destruct (invariant_new_wire sn en i j a b s Ha Hb Hi Hj H1)
      as (Hn1 & _ & _).
    assert (∀ it s', heap (addItem it s') = heap s'
                     ∧ wire_count (addItem it s') = wire_count s') as Hadd
      by (intros it s'; unfold addItem; by case_match).
    destruct (Hadd (IWire w) (Wire_init (mkRef sn true i) (mkRef en false j)
                                        s).2) as [Hh Hc].
    split; [exact Hn1|]. rewrite Hh, Hc, stack_addItem.
    split; [|split; [|split; [|split; [simpl; lia|split; [done|]]]]].
    + intros r.
      change (heap (Wire_init (mkRef sn true i) (mkRef en false j) s).2)
        with (register w (heap s)).
      rewrite socket_wires_register;
        [|done|by apply (get_socket_is_Some _ _ _ _ a)
         |by apply (get_socket_is_Some _ _ _ _ b)].
      by rewrite H2, filter_app, <-app_assoc.
    + intros v [Hv| ->%list_elem_of_singleton]%elem_of_app.
      * destruct (H3 v Hv) as [Hr Hs]. simpl. split; [lia|].
        by apply in_scene_addItem_mono.
      * simpl. split; [lia|]. apply in_scene_addItem_new.
    + rewrite fmap_app. apply NoDup_app. split; [done|]. split.
      * intros k (v & -> & Hv)%list_elem_of_fmap Hk.
        apply list_elem_of_singleton in Hk. simpl in Hk.
        destruct (H3 v Hv) as [Hr _]. lia.
      * apply NoDup_singleton.
    + intros n. rewrite in_scene_addItem_other by done. apply H7.
  - cbn [fst snd]. split; [done|]. split.
    { intros r. by rewrite app_nil_r. }
    split; [by intros w ?%elem_of_nil|]. split; [constructor|done].
Qed.

Lemma stack_cmd_redo (c : Command) (st : State) :
  stack (cmd_redo c st) = stack st.
Proof.
  destruct c as [n|stored|ns ws]; simpl; [| |done].
  - case_match; [done|apply stack_addItem].
  - apply (foldl_inv (λ s, stack s = stack st)); [|done].
    intros s [[m|w] l] _ <-; simpl; [done|]. by case_match.
Qed.

Lemma stack_push (c : Command) (st : State) :
  stack (push c st)
  = (take (undo_index st) (undo_cmds st) ++ [c], S (undo_index st)).
Proof. unfold push. by rewrite stack_cmd_redo. Qed.

Lemma stack_cmd_undo (c : Command) (st : State) :
  stack (cmd_undo c st) = stack st.
Proof.
  destruct c as [n|stored|ns ws]; [done|apply stack_cmd_undo_delete|].
  unfold cmd_undo.
  apply (foldl_inv (λ s, stack s = stack st)); [|done].
  intros s w _ <-. case_match; [apply stack_Wire_remove|done].
Qed.

Lemma stack_connect (src tgt : SocketRef) (st : State) :
  stack (connect src tgt st).2 = stack st.
Proof.
  unfold connect. set (st1 := if _ && _ then _ else st).
  assert (stack st1 = stack st) as <-
    by (unfold st1; destruct (_ && _); [apply stack_remove_wires|done]).
  unfold Wire_init. cbn [snd]. case_match; [done|by rewrite stack_addItem].
Qed.

Lemma stack_mouseReleaseEvent (fuel : nat) (self : SocketRef)
    (items : list SocketRef) (st : State) :
  stack (mouseReleaseEvent fuel self items st).1 = stack st.
Proof.
  induction items as [|item rest IH]; [done|]. cbn [mouseReleaseEvent].
  case_bool_decide; [done|].
  destruct (endpoints self item) as [[src tgt]|]; [|done].
  case_bool_decide; [done|].
  pose proof (stack_connect src tgt st) as Hc.
  destruct (connect src tgt st) as [w st1].
  by destruct (updateLogic _ _ _).
Qed.

Lemma stack_toggle (fuel n : nat) (st : State) :
  stack (toggle fuel n st).1 = stack st.
Proof.
  unfold toggle. destruct (heap st !! n) as [nd|]; [|done].
  destruct (cls nd); try done. destruct (output_sockets nd); [done|].
  destruct (updateValue _ _ _ _) as [h2 []]; [|done].
  by destruct (for_wires _ _ _).
Qed.

Lemma stack_delete_selected_items (sel : list Item) (st : State) :
  sel ≠ [] →
  stack (delete_selected_items sel st)
  = (take (undo_index st) (undo_cmds st)
     ++ [DeleteItemsCommand (stored_items_of (heap st) sel)],
     S (undo_index st)).
Proof.
  intros Hne. unfold delete_selected_items.
  destruct sel as [|it sel]; [done|].
  rewrite <-stack_push.
  apply (foldl_inv (λ s, stack s = stack (push _ st))); [|done].
  intros s x _ <-. apply stack_delete_item.
Qed.

Lemma stack_load_from_file (parsed : option SceneData) (st : State) :
  stack (load_from_file parsed st).1 = stack st.
Proof.
  unfold load_from_file. destruct parsed as [data|]; [|done].
  cut (stack (deserialize_scene data (clear st)).1 = stack st);
    [by destruct (deserialize_scene data (clear st)) as [s []]|].
  unfold deserialize_scene. destruct (sd_nodes data) as [nds|]; [|done].
  assert (stack (foldl (λ acc d, load_node d acc)
                       (clear (clear st), ∅) nds).1 = stack st) as H1.
  { apply (foldl_inv (λ acc : State * gmap Z nat, stack acc.1 = stack st));
      [|done].
    intros acc d _ <-. unfold load_node.
    destruct (class_of_name _); [|done]. unfold alloc. cbn [fst snd].
    by rewrite stack_addItem. }
  destruct (foldl _ _ nds) as [st1 nodes]. cbn [fst] in *.
  destruct (sd_connections data) as [cds|]; [|done]. cbn [fst].
  apply (foldl_inv (λ s, stack s = stack st)); [|done].
  intros s c _ <-. unfold load_connection.
  destruct (nodes !! cd_start_node c); [|done].
  destruct (nodes !! cd_end_node c); [|done].
  destruct (heap s !! _); [|done]. destruct (heap s !! _); [|done].
  destruct (_ && _); [|done].
  unfold Wire_init. by rewrite stack_addItem.
Qed.

Lemma stack_copy (sel : list Item) (st : State) :
  stack (copy_selected_nodes sel st).1 = stack st.
Proof.
  unfold copy_selected_nodes. destruct (selected_nodes_of _ _); [done|].
  by destruct (collect_connections _ _ _ _) as [cs []].
Qed.

(** The state after the two loops of [paste_nodes]. *)
Lemma paste_copied_shape (st : State) :
  invariant st →
  ∃ st2 ns ws,
    paste_copied st
    = match ns with
      | [] => (st2, false)
      | _ :: _ => (push (PasteNodesCommand ns ws) st2, true)
      end
    ∧ invariant st2
    ∧ stack st2 = stack st
    ∧ (∀ r, socket_wires (heap st2) r
            = socket_wires (heap st) r ++ filter (ends_at r) ws)
    ∧ (∀ w, w ∈ ws → wire_count st ≤ wire_id w
                     ∧ in_scene (IWire w) st2 = true)
    ∧ NoDup (wire_id <$> ws)
    ∧ (∀ n, n ∈ ns → in_scene (INode n) st2 = true).
Proof.
  intros Hinv. unfold paste_copied.
  destruct (paste_node_loop_frame (copy_offset st) (copied_nodes st) st Hinv)
    as (I1 & R1 & C1 & S1 & _ & N1 & _).
  destruct (foldl _ _ (copied_nodes st)) as [[st1 ns] m]. cbn [fst snd] in *.
  destruct (paste_connection_loop_frame m (copied_connections st) st1 I1)
    as (I2 & R2 & W2 & D2 & C2 & S2 & N2).
  destruct (foldl _ _ (copied_connections st)) as [st2 ws].
  cbn [fst snd] in *.
  set (st3 := set_copy_offset _ st2).
  exists st3, ns, ws. split; [by destruct ns|].
  split; [|split; [by rewrite <-S1, <-S2|split; [|split; [|split; [done|]]]]].
  - revert I2. apply invariant_frame; try done. by left.
  - intros r. change (heap st3) with (heap st2). by rewrite R2, R1.
  - intros w Hw. destruct (W2 w Hw) as [Hr Hs]. split; [lia|done].
  - intros n Hn. change (in_scene (INode n) st3)
      with (in_scene (INode n) st2). rewrite N2. by apply N1.
Qed.

Lemma stack_paste_nodes (st : State) :
  invariant st →
  stack (paste_nodes st).1 = stack st
  ∨ ∃ c, stack (paste_nodes st).1
         = (take (undo_index st) (undo_cmds st) ++ [c], S (undo_index st)).
Proof.
  intros Hinv. unfold paste_nodes.
  destruct (copied_nodes st) eqn:Hcn; [by left|].
  destruct (paste_copied_shape st Hinv) as (st2 & ns & ws & -> & _ & S2 & _).
  destruct ns; [by left|]. right.
  exists (PasteNodesCommand (n :: ns) ws). cbn [fst].
  rewrite stack_push.
  assert (undo_cmds st2 = undo_cmds st) as -> by exact (f_equal fst S2).
  by assert (undo_index st2 = undo_index st) as -> by exact (f_equal snd S2).
Qed.

Lemma stack_index_step (st st' : State) :
  undo_index st ≤ length (undo_cmds st) →
  stack st' = stack st
  ∨ (∃ c, stack st'
          = (take (undo_index st) (undo_cmds st) ++ [c], S (undo_index st))) →
  undo_index st' ≤ length (undo_cmds st').
Proof.
  intros Hi [Hs|[c Hs]].
  - assert (undo_cmds st' = undo_cmds st) as -> by exact (f_equal fst Hs).
    by assert (undo_index st' = undo_index st) as -> by exact (f_equal snd Hs).
  - assert (undo_cmds st' = take (undo_index st) (undo_cmds st) ++ [c]) as ->
      by exact (f_equal fst Hs).
    assert (undo_index st' = S (undo_index st)) as ->
      by exact (f_equal snd Hs).
    rewrite length_app, length_take. simpl. lia.
Qed.

(** The index of the undo stack never passes its end. *)
Lemma reachable_stack_index (st : State) :
  reachable st → undo_index st ≤ length (undo_cmds st).
Proof.
  induction 1 as [|node_id p st H IH|fuel self items st H IH ? ?
                  |fuel n st H IH|sel st H IH ?|st H IH|st H IH
                  |parsed st H IH|sel st H IH|st H IH].
  - simpl. lia.
  - apply (stack_index_step st); [done|].
    unfold create_node. destruct (class_of_node_id node_id); [|by left].
    unfold alloc. cbn [snd]. right. exists (AddNodeCommand (length (heap st))).
    rewrite stack_push. unfold addItem. by case_match.
  - apply (stack_index_step st); [done|]. left.
    apply stack_mouseReleaseEvent.
  - apply (stack_index_step st); [done|]. left. apply stack_toggle.
  - apply (stack_index_step st); [done|].
    destruct sel as [|it sel]; [by left|]. right. eexists.
    by apply stack_delete_selected_items.
  - unfold undo. destruct (undo_index st) as [|i] eqn:Hi; [by rewrite Hi|].
    destruct (undo_cmds st !! i) as [c|]; [|by rewrite Hi].
    pose proof (stack_cmd_undo c (set_undo (undo_cmds st) i st)) as Hs.
    assert (undo_cmds (cmd_undo c (set_undo (undo_cmds st) i st))
            = undo_cmds st) as -> by exact (f_equal fst Hs).
    assert (undo_index (cmd_undo c (set_undo (undo_cmds st) i st)) = i) as ->
      by exact (f_equal snd Hs).
    lia.
  - unfold redo.
    destruct (undo_cmds st !! undo_index st) as [c|] eqn:Hc; [|done].
    simpl. apply lookup_lt_Some in Hc. lia.
  - apply (stack_index_step st); [done|]. left. apply stack_load_from_file.
  - apply (stack_index_step st); [done|]. left. apply stack_copy.
  - apply (stack_index_step st); [done|].
    by apply stack_paste_nodes, reachable_invariant.
Qed.

(** X8. Undo after a paste unregisters every pasted wire, so that every
    socket holds again exactly the wires it held before the paste, and
    takes the wire items out of the scene; but it removes no node: the
    pasted nodes stay in the scene, since [node.scene()] raises inside
    [PasteNodesCommand.undo] and the exception is swallowed. *)
Theorem undo_of_paste_keeps_pasted_nodes (st : State)
    (Hreach : reachable st) (Hret : (paste_nodes st).2 = true) :
  ∃ ns ws,
    undo_cmds (paste_nodes st).1 !! undo_index st
    = Some (PasteNodesCommand ns ws)
    ∧ ns ≠ []
    ∧ (∀ n, n ∈ ns →
         in_scene (INode n) (paste_nodes st).1 = true
         ∧ in_scene (INode n) (undo (paste_nodes st).1) = true)
    ∧ (∀ w, w ∈ ws →
         in_scene (IWire w) (paste_nodes st).1 = true
         ∧ in_scene (IWire w) (undo (paste_nodes st).1) = false)
    ∧ (∀ n, in_scene (INode n) (undo (paste_nodes st).1)
            = in_scene (INode n) (paste_nodes st).1)
    ∧ (∀ r, socket_wires (heap (undo (paste_nodes st).1)) r
            = socket_wires (heap st) r).
Proof.
  pose proof (reachable_invariant st Hreach) as Hinv.
  pose proof (reachable_stack_index st Hreach) as Hidx.
  unfold paste_nodes in *.
  destruct (copied_nodes st) as [|cn0 cns0] eqn:Hcn; [done|]. clear Hcn.
  destruct (paste_copied_shape st Hinv)
    as (st2 & ns & ws & Hp & I2 & S2 & R2 & W2 & D2 & N2).
  rewrite Hp in *. destruct ns as [|n0 ns0] eqn:Ens; [done|].
  rewrite <-Ens in *. clear Hp Hret.
  cbn [fst]. rewrite (cmd_redo_paste st2 ns ws).
  set (c := PasteNodesCommand ns ws).
  assert (undo_cmds st2 = undo_cmds st) as -> by exact (f_equal fst S2).
  assert (undo_index st2 = undo_index st) as -> by exact (f_equal snd S2).
  set (cs := take (undo_index st) (undo_cmds st) ++ [c]).
  assert (cs !! undo_index st = Some c) as Hlook by by apply lookup_take_snoc.
  assert (undo (set_undo cs (S (undo_index st)) st2)
          = remove_pasted ws (set_undo cs (undo_index st) st2)) as Hundo.
  { unfold undo. cbn [undo_index undo_cmds set_undo]. by rewrite Hlook. }
  rewrite Hundo.
  destruct I2 as (Hwf2 & _ & Hf2 & _).
  destruct Hinv as (Hwf & _ & Hf & _).
  destruct (remove_pasted_registry ws (set_undo cs (undo_index st) st2)
              (socket_wires (heap st))) as (H1 & H2 & H3); try done.
  - intros r v Hv (w & Hid & Hw)%list_elem_of_fmap.
    destruct (W2 w Hw) as [Hge _].
    assert (wire_id v < wire_count st) by (apply Hf; by exists r). lia.
  - intros w Hw. destruct (W2 w Hw) as [_ Hin]. split; [done|].
    assert (source_socket w = source_socket w ∨ target_socket w
            = source_socket w) as He by by left.
    apply (wf_genuine _ (source_socket w)); [done|].
    change (heap (set_undo cs (undo_index st) st2)) with (heap st2).
    rewrite R2. apply elem_of_app. right. by apply list_elem_of_filter.
  - exists ns, ws. split; [done|]. split; [by rewrite Ens|].
    split; [|split; [|split; [done|done]]].
    + intros n Hn. split; [by apply N2|]. rewrite H3. by apply N2.
    + intros w Hw. split; [by apply W2|by apply H2].
Qed.

(** The two gates of [Examples.chain] copied, pasted, and the paste
    undone. *)
Lemma undo_of_paste_keeps_pasted_nodes_witness :
  ∃ ns ws,
    undo_cmds (paste_nodes (copy_selected_nodes [INode 1; INode 2]
                              Examples.chain).1).1
      !! undo_index (copy_selected_nodes [INode 1; INode 2] Examples.chain).1
    = Some (PasteNodesCommand ns ws)
    ∧ ns ≠ []
    ∧ (∀ n, n ∈ ns →
         in_scene (INode n)
           (paste_nodes (copy_selected_nodes [INode 1; INode 2]
                           Examples.chain).1).1 = true
         ∧ in_scene (INode n)
             (undo (paste_nodes (copy_selected_nodes [INode 1; INode 2]
                                   Examples.chain).1).1) = true)
    ∧ (∀ w, w ∈ ws →
         in_scene (IWire w)
           (paste_nodes (copy_selected_nodes [INode 1; INode 2]
                           Examples.chain).1).1 = true
         ∧ in_scene (IWire w)
             (undo (paste_nodes (copy_selected_nodes [INode 1; INode 2]
                                   Examples.chain).1).1) = false)
    ∧ (∀ n, in_scene (INode n)
              (undo (paste_nodes (copy_selected_nodes [INode 1; INode 2]
                                    Examples.chain).1).1)
            = in_scene (INode n)
                (paste_nodes (copy_selected_nodes [INode 1; INode 2]
                                Examples.chain).1).1)
    ∧ (∀ r, socket_wires
              (heap (undo (paste_nodes
                             (copy_selected_nodes [INode 1; INode 2]
                                                  Examples.chain).1).1)) r
            = socket_wires
                (heap (copy_selected_nodes [INode 1; INode 2]
                                           Examples.chain).1) r).
Proof.
  apply undo_of_paste_keeps_pasted_nodes; [|reflexivity].
  apply reach_copy, chain_reachable.
Defined.

(** ** Deleting a wire *)

Lemma length_filter_eq_NoDup {A B} `{EqDecision A} (f : A → B) (l : list A)
    (x : A) :
  NoDup (f <$> l) → x ∈ l → length (filter (λ y, y = x) l) = 1.
Proof.
  induction l as [|a l IH]; intros Hnd Hx; [by apply elem_of_nil in Hx|].
  rewrite fmap_cons in Hnd. apply NoDup_cons in Hnd as [Ha Hnd].
  rewrite filter_cons. destruct (decide (a = x)) as [->|Hne].
  - simpl. f_equal. rewrite filter_none; [done|].
    intros y Hy ->. apply Ha. by apply list_elem_of_fmap_2.
  - apply IH; [done|]. by apply elem_of_cons in Hx as [->|Hx].
Qed.

Lemma delete_selected_wire (w : Wire) (st : State) :
  delete_selected_items [IWire w] st
  = Wire_remove w
      (take_out_item (IWire w)
         (set_undo (take (undo_index st) (undo_cmds st)
                    ++ [DeleteItemsCommand [(IWire w, [])]])
                   (S (undo_index st)) st)).
Proof. reflexivity. Qed.

(** X9. Deleting a selected wire that is registered at its source socket
    removes exactly that wire: every socket keeps its other wires in order,
    the number of connections drops by one, the wire item leaves the scene,
    and every node, socket value and other scene item stays as it was. *)
Theorem delete_wire_removes_exactly_it (w : Wire) (st : State)
    (Hwf : wf_heap (heap st))
    (Hreg : w ∈ socket_wires (heap st) (source_socket w)) :
  (∀ r, socket_wires (heap (delete_selected_items [IWire w] st)) r
        = filter (λ v, v ≠ w) (socket_wires (heap st) r))
  ∧ length (connections (heap (delete_selected_items [IWire w] st))) + 1
    = length (connections (heap st))
  ∧ unwire <$> heap (delete_selected_items [IWire w] st)
    = unwire <$> heap st
  ∧ in_scene (IWire w) (delete_selected_items [IWire w] st) = false
  ∧ (∀ it, same_item (IWire w) it = false →
       in_scene it (delete_selected_items [IWire w] st) = in_scene it st).
Proof.
  rewrite delete_selected_wire.
  set (st1 := take_out_item _ _).
  assert (heap st1 = heap st) as Hh
    by (unfold st1, take_out_item; destruct (in_scene _ _); reflexivity).
  assert (genuine (heap st1) w) as Hgen
    by (rewrite Hh; by apply (wf_genuine _ (source_socket w))).
  assert (∀ r, socket_wires (heap (Wire_remove w st1)) r
               = filter (λ v, v ≠ w) (socket_wires (heap st) r)) as Hr.
  { assert (wf_heap (heap st1)) as Hwf1 by by rewrite Hh.
    intros r. rewrite Wire_remove_registry by done. by rewrite Hh. }
  assert (unwire <$> heap (Wire_remove w st1) = unwire <$> heap st) as Hu
    by by rewrite unwire_Wire_remove, Hh.
  split; [done|]. split; [|split; [done|split]].
  - unfold connections. rewrite (all_refs_unwire _ _ Hu).
    assert (filter (λ r, is_output r = true) (all_refs (heap st))
              ≫= socket_wires (heap (Wire_remove w st1))
            = filter (λ v, ¬ v = w) (connections (heap st))) as ->.
    { unfold connections. rewrite filter_bind.
      apply list_bind_ext; [|done]. intros r. apply Hr. }
    rewrite length_filter_split.
    rewrite (length_filter_eq_NoDup wire_id).
    + fold (connections (heap st)).
      assert (0 < length (connections (heap st))); [|lia].
      assert (w ∈ connections (heap st)) as Hin.
      { apply elem_of_connections. exists (source_socket w). split; [|done].
        by destruct (wf_wire_ok _ Hwf _ _ Hreg). }
      destruct (connections (heap st)); [by apply elem_of_nil in Hin|].
      simpl. lia.
    + by destruct Hwf as (_ & ? & _).
    + apply elem_of_connections. exists (source_socket w). split; [|done].
      by destruct (wf_wire_ok _ Hwf _ _ Hreg).
  - apply in_scene_Wire_remove_self.
  - intros it Hit. rewrite in_scene_Wire_remove by done.
    unfold st1. simpl.
    destruct (in_scene (IWire w) _) eqn:E; [|done].
    rewrite in_scene_removeItem, Hit. simpl. by rewrite andb_true_r.
Qed.

(** The wire from the Or gate to the Not gate of [Examples.latched]. *)
Lemma delete_wire_removes_exactly_it_witness :
  length (connections
            (heap (delete_selected_items [IWire wire_or_not]
                                         Examples.latched))) + 1
  = length (connections (heap Examples.latched)).
Proof.
  destruct (delete_wire_removes_exactly_it wire_or_not Examples.latched)
    as (_ & H & _); [exact latched_wf| |exact H].
  apply (bool_decide_unpack _). by vm_compute.
Defined.

Lemma list_alter_none {A} (f : A → A) (i : nat) (l : list A) :
  l !! i = None → alter f i l = l.
Proof.
  revert i. induction l as [|a l IH]; intros [|i] Hi; csimpl; try done.
  by rewrite IH.
Qed.

(** X10. [Wire.remove] is idempotent: on a well-formed store, removing a
    wire a second time changes nothing, whether or not the wire was still
    registered the first time. *)
Theorem Wire_remove_idempotent (w : Wire) (st : State)
    (Hwf : wf_heap (heap st)) (Hgen : genuine (heap st) w) :
  Wire_remove w (Wire_remove w st) = Wire_remove w st.
Proof.
  set (st1 := Wire_remove w st).
  assert (∀ r v, v ∈ socket_wires (heap st1) r → wire_id v ≠ wire_id w)
    as Habs.
  { intros r v Hv Hid. unfold st1 in Hv.
    rewrite Wire_remove_registry in Hv by done.
    apply list_elem_of_filter in Hv as [Hne Hv]. apply Hne.
    by apply (Hgen r). }
  assert (∀ r h, (∀ v, v ∈ socket_wires h r → wire_id v ≠ wire_id w) →
            alter_socket (drop_wire w) r h = h) as Hdrop.
  { intros r h Hh. unfold socket_wires in Hh.
    destruct (get_socket h r) as [s|] eqn:Hs.
    - apply (alter_socket_same _ _ _ s Hs). unfold drop_wire.
      rewrite remove_first_absent by done. by destruct s.
    - unfold alter_socket, get_socket in *.
      destruct (h !! parent_node r) as [nd|] eqn:Hn; simpl in Hs.
      + apply (list_alter_same _ _ _ nd Hn).
        rewrite list_alter_none by done. apply with_sockets_same.
      + by apply list_alter_none. }
  unfold Wire_remove at 1.
  rewrite (Hdrop (source_socket w) (heap st1)) by apply Habs.
  rewrite Hdrop by apply Habs.
  assert (set_heap (heap st1) st1 = st1) as -> by by destruct st1.
  by assert (in_scene (IWire w) st1 = false) as ->
    by apply in_scene_Wire_remove_self.
Qed.

Lemma Wire_remove_idempotent_witness :
  Wire_remove wire_or_not (Wire_remove wire_or_not Examples.latched)
  = Wire_remove wire_or_not Examples.latched.
Proof.
  apply Wire_remove_idempotent; [exact latched_wf|].
  apply (wf_genuine _ (mkRef 1 true 0)); [exact latched_wf|].
  apply (bool_decide_unpack _). by vm_compute.
Defined.

(** * Properties of [logic_gate_simulator.py] *)








(** X16. The decimal value a multi-bit output node shows is the binary number
    whose most significant bit is the first input pin: it is 0 for no bits,
    a first bit [b] adds [2 ^ (number of remaining bits)] when set, and the
    value is below [2 ^ (number of bits)]. *)
Theorem small_decimal_value_is_big_endian :
  Small.decimal_value [] = 0%Z
  ∧ (∀ b l, Small.decimal_value (b :: l)
            = ((if b then 2 ^ Z.of_nat (length l) else 0)
               + Small.decimal_value l)%Z)
  ∧ (∀ l, (0 ≤ Small.decimal_value l < 2 ^ Z.of_nat (length l))%Z).
Proof.
  assert (∀ b l, Small.decimal_value (b :: l)
            = ((if b then 2 ^ Z.of_nat (length l) else 0)
               + Small.decimal_value l)%Z) as Hcons.
  { intros b l. unfold Small.decimal_value.
    rewrite reverse_cons, imap_app, foldl_app. simpl.
    rewrite length_reverse, Nat.add_0_r, Z.shiftl_1_l.
    destruct b; lia. }
  split; [done|]. split; [done|].
  induction l as [|b l IH]; [done|].
  rewrite Hcons.
  assert (2 ^ Z.of_nat (length (b :: l)) = 2 * 2 ^ Z.of_nat (length l))%Z
    as ->.
  { simpl length. rewrite Nat2Z.inj_succ, Z.pow_succ_r by lia. done. }
  destruct b; lia.
Qed.

Lemma small_perform_logic_table (g : Gate) (a b : bool) :
  Small.perform_logic g (match g with Not => [a] | _ => [a; b] end)
  = truth_table g a b.
Proof. destruct g, a, b; reflexivity. Qed.




Section SmallEvaluation.
Context (I : list Small.Node → Prop).
Context (Hset : ∀ r v h, I h → I (Small.alter_socket (set_value v) r h)).



End SmallEvaluation.

(** Evaluation on a loop *)












(** * What loading and pasting leave unevaluated *)

(** A node as its constructor left it, up to wires, position and, for an
    input node, the value shown on its output socket. *)
Definition unevaluated (nd : Node) : Prop :=
  Forall (λ s, value s = false) (input_sockets nd)
  ∧ Forall (λ s, value s = match cls nd with
                           | InputNode => node_value nd
                           | _ => false
                           end) (output_sockets nd).

(** [P] holds of every node object with identity [b] or above: the
    objects built since the store had [b] of them. *)
Definition built_from (P : Node → Prop) (b : nat) (h : list Node) : Prop :=
  ∀ n nd, b ≤ n → h !! n = Some nd → P nd.

Lemma unevaluated_new_node (c : NodeClass) (wtf : bool) :
  unevaluated (new_node c wtf).
Proof.
  split; simpl.
  - by apply Forall_replicate.
  - apply Forall_replicate. by destruct c.
Qed.

Lemma built_from_alter (P : Node → Prop) (b n : nat) (f : Node → Node)
    (h : list Node) :
  (∀ nd, h !! n = Some nd → P nd → P (f nd)) →
  built_from P b h → built_from P b (alter f n h).
Proof.
  intros Hf Hu m nd Hm. destruct (decide (n = m)) as [<-|Hne].
  - rewrite list_lookup_alter_eq.
    destruct (h !! n) as [nd0|] eqn:Hn; [|done]. intros [= <-].
    apply Hf; [done|]. by apply (Hu n).
  - rewrite list_lookup_alter_ne by done. by apply Hu.
Qed.

Lemma built_from_app (P : Node → Prop) (b : nat) (h : list Node) (nd : Node) :
  P nd → built_from P b h → built_from P b (h ++ [nd]).
Proof.
  intros Hnd Hu m nd' Hm Hl.
  apply lookup_app_Some in Hl as [Hl|[_ Hl]]; [by apply (Hu m)|].
  apply list_lookup_singleton_Some in Hl as [_ <-]. done.
Qed.

Lemma built_from_length (P : Node → Prop) (h : list Node) :
  built_from P (length h) h.
Proof. intros n nd Hn Hl. apply lookup_lt_Some in Hl. lia. Qed.

Lemma unevaluated_set_pos (p : Z * Z) (nd : Node) :
  unevaluated nd → unevaluated (set_pos p nd).
Proof. done. Qed.

Lemma unevaluated_add_wire (w : Wire) (out : bool) (i : nat) (nd : Node) :
  unevaluated nd →
  unevaluated (with_sockets out (alter (add_wire w) i (sockets_of nd out)) nd).
Proof.
  intros [Hi Ho]. destruct out; split; simpl; try done.
  - apply Forall_alter; [done|]. intros s _ Hs. exact Hs.
  - apply Forall_alter; [done|]. intros s _ Hs. exact Hs.
Qed.

Lemma unevaluated_Wire_init (b : nat) (src tgt : SocketRef) (st : State) :
  built_from unevaluated b (heap st) →
  built_from unevaluated b (heap (Wire_init src tgt st).2).
Proof.
  intros Hu. simpl. unfold alter_socket.
  apply built_from_alter; [intros nd _; apply unevaluated_add_wire|].
  apply built_from_alter; [intros nd _; apply unevaluated_add_wire|].
  done.
Qed.

Lemma heap_addItem (it : Item) (st : State) : heap (addItem it st) = heap st.
Proof. unfold addItem. by destruct (in_scene it st). Qed.

(** The [updateLogic] of an input node without wires writes its value on
    its output socket and nothing else. *)
Lemma updateLogic_lone_input (f n : nat) (h : list Node) (nd : Node) :
  h !! n = Some nd → cls nd = InputNode →
  Forall (λ s, wires s = []) (output_sockets nd) →
  (updateLogic (S f) n h).1
  = alter_socket (set_value (node_value nd)) (mkRef n true 0) h.
Proof.
  intros Hn Hc Hw. simpl. rewrite Hn. unfold output_value. rewrite Hc.
  destruct (output_sockets nd) as [|s0 outs] eqn:Ho.
  - unfold alter_socket. simpl. symmetry.
    apply (list_alter_same _ _ _ nd); [done|]. simpl. rewrite Ho.
    destruct nd; simpl in *; by subst.
  - unfold updateValue_with.
    rewrite (get_output_0 h n nd s0 outs Hn Ho).
    apply Forall_cons in Hw as [Hw _].
    case_bool_decide as Hv.
    + symmetry. apply (alter_socket_same _ _ _ s0);
        [by eapply get_output_0|]. destruct s0; simpl in *; by subst.
    + simpl. by rewrite Hw.
Qed.

Lemma unevaluated_load_node (b : nat) (d : NodeData)
    (acc : State * gmap Z nat) :
  built_from unevaluated b (heap acc.1) →
  built_from unevaluated b (heap (load_node d acc).1).
Proof.
  intros Hu. unfold load_node.
  destruct (class_of_name (nd_type d)) as [c|]; [|done].
  unfold alloc. cbn [fst snd]. rewrite heap_addItem. cbn [heap set_heap].
  set (n := length (heap acc.1)).
  assert (built_from unevaluated b (heap acc.1 ++ [new_node c false])) as H0
    by (apply built_from_app; [apply unevaluated_new_node|done]).
  apply built_from_alter; [intros nd _; apply unevaluated_set_pos|].
  destruct (decide (c = InputNode)) as [->|Hc];
    [|by destruct c; try done; destruct (nd_value d)].
  destruct (nd_value d) as [v|]; [|done].
  assert ((alter (set_node_value v) n (heap acc.1 ++ [new_node InputNode false]))
          !! n = Some (set_node_value v (new_node InputNode false))) as Hn.
  { rewrite list_lookup_alter_eq. unfold n.
    by rewrite lookup_app_r, Nat.sub_diag by lia. }
  rewrite (updateLogic_lone_input 0 n _ _ Hn); [|done|by repeat constructor].
  unfold alter_socket. cbn [parent_node is_output socket_index].
  rewrite list_alter_alter_eq.
  apply built_from_alter; [|done].
  intros nd Hnd _.
  assert (nd = new_node InputNode false) as ->.
  { unfold n in Hnd. rewrite lookup_app_r, Nat.sub_diag in Hnd by lia.
    by injection Hnd. }
  split; simpl; by repeat constructor.
Qed.

Lemma unevaluated_load_connection (b : nat) (nodes : gmap Z nat)
    (c : ConnectionData) (st : State) :
  built_from unevaluated b (heap st) →
  built_from unevaluated b (heap (load_connection nodes c st)).
Proof.
  intros Hu. unfold load_connection.
  destruct (nodes !! cd_start_node c) as [sn|]; [|done].
  destruct (nodes !! cd_end_node c) as [en|]; [|done].
  destruct (heap st !! sn) as [a0|]; [|done].
  destruct (heap st !! en) as [b0|]; [|done].
  destruct (_ && _); [|done].
  match goal with
  | |- context [Wire_init ?x ?y ?s] =>
      change (built_from unevaluated b
                (heap (addItem (IWire (Wire_init x y s).1)
                               (Wire_init x y s).2)))
  end.
  rewrite heap_addItem. by apply unevaluated_Wire_init.
Qed.

(** X17. Loading evaluates no gate. Every node object [deserialize_scene]
    builds, whatever the document wires it to, keeps the value [False] on
    each of its pins; only an input node shows on its output pin the value
    the document stores for it ([False] when the key is absent). *)
Theorem load_evaluates_no_gate (data : SceneData) (st : State)
    (n : nat) (nd : Node)
    (Hnew : length (heap st) ≤ n)
    (Hnode : heap (deserialize_scene data st).1 !! n = Some nd) :
  Forall (λ s, value s = false) (input_sockets nd)
  ∧ Forall (λ s, value s = match cls nd with
                           | InputNode => node_value nd
                           | _ => false
                           end) (output_sockets nd).
Proof.
  revert n nd Hnew Hnode.
  change (built_from unevaluated (length (heap st))
            (heap (deserialize_scene data st).1)).
  pose proof (built_from_length unevaluated (heap st)) as H0.
  change (heap st) with (heap (clear st)) in H0 at 2.
  unfold deserialize_scene.
  destruct (sd_nodes data) as [nds|]; [|done].
  pose proof (foldl_inv
    (λ acc : State * gmap Z nat,
       built_from unevaluated (length (heap st)) (heap acc.1))
    (λ acc d, load_node d acc) nds (clear st, ∅)) as H1.
  destruct (foldl _ (clear st, ∅) nds) as [st1 nodes].
  assert (built_from unevaluated (length (heap st)) (heap st1)) as Hst1.
  { apply H1; [|done]. intros acc d _. apply unevaluated_load_node. }
  destruct (sd_connections data) as [cds|]; [|done].
  cbn [fst]. apply (foldl_inv (λ s, built_from unevaluated _ (heap s))); [|done].
  intros s c _. apply unevaluated_load_connection.
Qed.

(** A document of an input node that is off, wired to a Not gate, wired to
    an output node. *)
Definition saved_inverter : SceneData :=
  mkSceneData
    (Some [mkNodeData 10 "InputNode" 0 0 (Some false);
           mkNodeData 11 "NotGateNode" 200 0 None;
           mkNodeData 12 "OutputNode" 400 0 None])
    (Some [mkConnectionData 10 0 11 0; mkConnectionData 11 0 12 0]).

Lemma load_evaluates_no_gate_witness :
  ∃ nd,
    heap (deserialize_scene saved_inverter init_state).1 !! 1 = Some nd
    ∧ cls nd = NotGateNode
    ∧ Forall (λ s, value s = false) (input_sockets nd)
    ∧ Forall (λ s, value s = false) (output_sockets nd).
Proof.
  eexists. split; [by vm_compute|]. split; [done|].
  apply (load_evaluates_no_gate saved_inverter init_state 1);
    [simpl; lia|by vm_compute].
Defined.

(** ** Pasting *)

(** A node as its constructor left it, up to wires and position. *)
Definition as_constructed (nd : Node) : Prop :=
  node_value nd = false
  ∧ Forall (λ s, value s = false) (input_sockets nd)
  ∧ Forall (λ s, value s = false) (output_sockets nd).

Lemma as_constructed_new_node (c : NodeClass) (wtf : bool) :
  as_constructed (new_node c wtf).
Proof. split; [done|]. split; simpl; by apply Forall_replicate. Qed.

Lemma as_constructed_add_wire (w : Wire) (out : bool) (i : nat) (nd : Node) :
  as_constructed nd →
  as_constructed
    (with_sockets out (alter (add_wire w) i (sockets_of nd out)) nd).
Proof.
  intros (Hv & Hi & Ho). destruct out; (split; [done|]); split; simpl;
    try done; (apply Forall_alter; [done|]); intros s _ Hs; exact Hs.
Qed.

Lemma as_constructed_paste_node (b : nat) (off : Z) (cn : CopiedNode)
    (acc : State * list nat * gmap nat nat) :
  built_from as_constructed b (heap acc.1.1) →
  built_from as_constructed b (heap (paste_node off cn acc).1.1).
Proof.
  intros Hu. unfold paste_node.
  destruct (class_of_name (cn_type cn)) as [c|]; [|done].
  unfold alloc. cbn [fst snd]. rewrite heap_addItem. cbn [heap set_heap].
  apply built_from_alter; [by intros nd _|].
  apply built_from_app; [apply as_constructed_new_node|done].
Qed.

Lemma as_constructed_paste_connection (b : nat) (m : gmap nat nat)
    (c : CopiedConnection) (acc : State * list Wire) :
  built_from as_constructed b (heap acc.1) →
  built_from as_constructed b (heap (paste_connection m c acc).1).
Proof.
  intros Hu. unfold paste_connection.
  destruct (m !! start_node_id c) as [sn|]; [|done].
  destruct (m !! end_node_id c) as [en|]; [|done].
  destruct (heap acc.1 !! sn) as [a0|]; [|done].
  destruct (heap acc.1 !! en) as [b0|]; [|done].
  destruct (_ && _); [|done].
  match goal with
  | |- context [Wire_init ?x ?y ?s] =>
      change (built_from as_constructed b
                (heap (addItem (IWire (Wire_init x y s).1)
                               (Wire_init x y s).2)))
  end.
  rewrite heap_addItem. simpl. unfold alter_socket.
  apply built_from_alter; [intros nd _; apply as_constructed_add_wire|].
  apply built_from_alter; [intros nd _; apply as_constructed_add_wire|].
  done.
Qed.

(** X18. Pasting copies no value. Every node object [paste_nodes] builds is
    as its constructor left it: all of its pins hold [False], and the copy
    of an input node is switched off even when the original is on. *)
Theorem paste_copies_no_values (st : State) (n : nat) (nd : Node)
    (Hnew : length (heap st) ≤ n)
    (Hnode : heap (paste_nodes st).1 !! n = Some nd) :
  node_value nd = false
  ∧ Forall (λ s, value s = false) (input_sockets nd)
  ∧ Forall (λ s, value s = false) (output_sockets nd).
Proof.
  revert n nd Hnew Hnode.
  change (built_from as_constructed (length (heap st))
            (heap (paste_nodes st).1)).
  pose proof (built_from_length as_constructed (heap st)) as H0.
  unfold paste_nodes. destruct (copied_nodes st) as [|cn0 cns0] eqn:E; [done|].
  clear E cn0 cns0. unfold paste_copied.
  pose proof (foldl_inv
    (λ acc : State * list nat * gmap nat nat,
       built_from as_constructed (length (heap st)) (heap acc.1.1))
    (λ acc cn, paste_node (copy_offset st) cn acc) (copied_nodes st)
    (st, [], ∅)) as H1.
  destruct (foldl _ (st, [], ∅) (copied_nodes st)) as [[st1 ns] m].
  assert (built_from as_constructed (length (heap st)) (heap st1)) as Hst1.
  { apply H1; [|done]. intros acc cn _. apply as_constructed_paste_node. }
  pose proof (foldl_inv
    (λ acc : State * list Wire,
       built_from as_constructed (length (heap st)) (heap acc.1))
    (λ acc c, paste_connection m c acc) (copied_connections st)
    (st1, [])) as H2.
  destruct (foldl _ (st1, []) (copied_connections st)) as [st2 ws].
  assert (built_from as_constructed (length (heap st)) (heap st2)) as Hst2.
  { apply H2; [|done]. intros acc c _. apply as_constructed_paste_connection. }
  destruct ns; [done|]. cbn [fst]. unfold push. by rewrite heap_cmd_redo.
Qed.

(** An input node, switched on, copied and pasted. *)
Definition switched_on_input : State :=
  Eval vm_compute in
    (toggle 10 0 (create_node "INPUT" (100, 100)%Z init_state).2).1.

Lemma paste_copies_no_values_witness :
  (node_value <$> heap switched_on_input !! 0) = Some true
  ∧ ∃ nd,
      heap (paste_nodes (copy_selected_nodes [INode 0] switched_on_input).1).1
        !! 1 = Some nd
      ∧ cls nd = InputNode
      ∧ node_value nd = false
      ∧ Forall (λ s, value s = false) (input_sockets nd)
      ∧ Forall (λ s, value s = false) (output_sockets nd).
Proof.
  split; [done|]. eexists. split; [by vm_compute|]. split; [done|].
  apply (paste_copies_no_values
           (copy_selected_nodes [INode 0] switched_on_input).1 1);
    [simpl; lia|by vm_compute].
Defined.

(** * The paste offset *)

Lemma copy_offset_addItem (it : Item) (st : State) :
  copy_offset (addItem it st) = copy_offset st.
Proof. unfold addItem. by case_match. Qed.

Lemma copy_offset_Wire_remove (w : Wire) (st : State) :
  copy_offset (Wire_remove w st) = copy_offset st.
Proof. unfold Wire_remove. by case_match. Qed.

Lemma copy_offset_restore_item (it : Item) (st : State) :
  copy_offset (restore_item it st) = copy_offset st.
Proof.
  destruct it; simpl; [apply copy_offset_addItem|].
  case_match; [done|apply copy_offset_addItem].
Qed.

Lemma copy_offset_remove_wires (ws : list Wire) (st : State) :
  copy_offset (remove_wires ws st) = copy_offset st.
Proof.
  apply (foldl_inv (λ s, copy_offset s = copy_offset st)); [|done].
  intros s w _ <-. apply copy_offset_Wire_remove.
Qed.

Lemma copy_offset_delete_item (it : Item) (st : State) :
  copy_offset (delete_item it st) = copy_offset st.
Proof.
  destruct it as [n|w]; simpl; [|apply copy_offset_Wire_remove].
  apply (foldl_inv (λ s, copy_offset s = copy_offset st)); [|done].
  intros s r _ <-. apply copy_offset_remove_wires.
Qed.

Lemma copy_offset_cmd_redo (c : Command) (st : State) :
  copy_offset (cmd_redo c st) = copy_offset st.
Proof.
  destruct c as [n|stored|ns ws]; simpl; [| |done].
  - case_match; [done|apply copy_offset_addItem].
  - apply (foldl_inv (λ s, copy_offset s = copy_offset st)); [|done].
    intros s [[m|w] l] _ <-; simpl; [done|]. by case_match.
Qed.

Lemma copy_offset_push (c : Command) (st : State) :
  copy_offset (push c st) = copy_offset st.
Proof. unfold push. by rewrite copy_offset_cmd_redo. Qed.

Lemma copy_offset_cmd_undo (c : Command) (st : State) :
  copy_offset (cmd_undo c st) = copy_offset st.
Proof.
  destruct c as [n|stored|ns ws]; [done| |]; unfold cmd_undo.
  - apply (foldl_inv (λ s, copy_offset s = copy_offset st)); [|done].
    intros s p _ <-.
    apply (foldl_inv (λ s', copy_offset s' = copy_offset s));
      [|apply copy_offset_restore_item].
    intros s' w _ <-. apply copy_offset_restore_item.
  - apply (foldl_inv (λ s, copy_offset s = copy_offset st)); [|done].
    intros s w _ <-. case_match; [apply copy_offset_Wire_remove|done].
Qed.

Lemma copy_offset_create_node (node_id : string) (p : Z * Z) (st : State) :
  copy_offset (create_node node_id p st).2 = copy_offset st.
Proof.
  unfold create_node. destruct (class_of_node_id node_id); [|done].
  unfold alloc. cbn [snd]. rewrite copy_offset_push. cbn [copy_offset set_heap].
  by rewrite copy_offset_addItem.
Qed.

Lemma copy_offset_connect (src tgt : SocketRef) (st : State) :
  copy_offset (connect src tgt st).2 = copy_offset st.
Proof.
  unfold connect. set (st1 := if _ && _ then _ else st).
  assert (copy_offset st1 = copy_offset st) as <-
    by (unfold st1; destruct (_ && _); [apply copy_offset_remove_wires|done]).
  unfold Wire_init. cbn [snd].
  case_match; [done|by rewrite copy_offset_addItem].
Qed.

Lemma copy_offset_mouseReleaseEvent (fuel : nat) (self : SocketRef)
    (items : list SocketRef) (st : State) :
  copy_offset (mouseReleaseEvent fuel self items st).1 = copy_offset st.
Proof.
  induction items as [|item rest IH]; [done|]. cbn [mouseReleaseEvent].
  case_bool_decide; [done|].
  destruct (endpoints self item) as [[src tgt]|]; [|done].
  case_bool_decide; [done|].
  pose proof (copy_offset_connect src tgt st) as Hc.
  destruct (connect src tgt st) as [w st1].
  by destruct (updateLogic _ _ _).
Qed.

Lemma copy_offset_toggle (fuel n : nat) (st : State) :
  copy_offset (toggle fuel n st).1 = copy_offset st.
Proof.
  unfold toggle. destruct (heap st !! n) as [nd|]; [|done].
  destruct (cls nd); try done. destruct (output_sockets nd); [done|].
  destruct (updateValue _ _ _ _) as [h2 []]; [|done].
  by destruct (for_wires _ _ _).
Qed.

Lemma copy_offset_delete_selected_items (sel : list Item) (st : State) :
  copy_offset (delete_selected_items sel st) = copy_offset st.
Proof.
  unfold delete_selected_items. destruct sel as [|it sel]; [done|].
  rewrite <-(copy_offset_push
               (DeleteItemsCommand (stored_items_of (heap st) (it :: sel))) st).
  apply (foldl_inv (λ s, copy_offset s = copy_offset (push _ st))); [|done].
  intros s x _ <-. apply copy_offset_delete_item.
Qed.

Lemma copy_offset_undo (st : State) : copy_offset (undo st) = copy_offset st.
Proof.
  unfold undo. destruct (undo_index st) as [|i]; [done|].
  destruct (undo_cmds st !! i) as [c|]; [|done].
  by rewrite copy_offset_cmd_undo.
Qed.

Lemma copy_offset_redo (st : State) : copy_offset (redo st) = copy_offset st.
Proof.
  unfold redo. destruct (undo_cmds st !! undo_index st) as [c|]; [|done].
  cbn [copy_offset set_undo]. apply copy_offset_cmd_redo.
Qed.

Lemma copy_offset_load_from_file (parsed : option SceneData) (st : State) :
  copy_offset (load_from_file parsed st).1 = copy_offset st.
Proof.
  unfold load_from_file. destruct parsed as [data|]; [|done].
  cut (copy_offset (deserialize_scene data (clear st)).1 = copy_offset st);
    [by destruct (deserialize_scene data (clear st)) as [s []]|].
  unfold deserialize_scene. destruct (sd_nodes data) as [nds|]; [|done].
  assert (copy_offset (foldl (λ acc d, load_node d acc)
                         (clear (clear st), ∅) nds).1 = copy_offset st) as H1.
  { apply (foldl_inv (λ acc : State * gmap Z nat,
                        copy_offset acc.1 = copy_offset st)); [|done].
    intros acc d _ <-. unfold load_node.
    destruct (class_of_name _); [|done]. unfold alloc. cbn [fst snd].
    by rewrite copy_offset_addItem. }
  destruct (foldl _ _ nds) as [st1 nodes]. cbn [fst] in *.
  destruct (sd_connections data) as [cds|]; [|done]. cbn [fst].
  apply (foldl_inv (λ s, copy_offset s = copy_offset st)); [|done].
  intros s c _ <-. unfold load_connection.
  destruct (nodes !! cd_start_node c); [|done].
  destruct (nodes !! cd_end_node c); [|done].
  destruct (heap s !! _); [|done]. destruct (heap s !! _); [|done].
  destruct (_ && _); [|done].
  unfold Wire_init. by rewrite copy_offset_addItem.
Qed.

Lemma copy_offset_copy (sel : list Item) (st : State) :
  copy_offset (copy_selected_nodes sel st).1 = copy_offset st.
Proof.
  unfold copy_selected_nodes. destruct (selected_nodes_of _ _); [done|].
  by destruct (collect_connections _ _ _ _) as [cs []].
Qed.

(** The offset after a paste that found something on the clipboard. *)
Lemma copy_offset_paste_copied (st : State) :
  copy_offset (paste_copied st).1
  = (if bool_decide (200 < copy_offset st + 20) then 20
     else copy_offset st + 20)%Z.
Proof.
  unfold paste_copied.
  pose proof (foldl_inv
    (λ acc : State * list nat * gmap nat nat,
       copy_offset acc.1.1 = copy_offset st)
    (λ acc cn, paste_node (copy_offset st) cn acc) (copied_nodes st)
    (st, [], ∅)) as H1.
  destruct (foldl _ (st, [], ∅) (copied_nodes st)) as [[st1 ns] m].
  assert (copy_offset st1 = copy_offset st) as Hst1.
  { apply H1; [|done]. intros acc cn _ <-. unfold paste_node.
    destruct (class_of_name _); [|done]. unfold alloc. cbn [fst snd].
    by rewrite copy_offset_addItem. }
  pose proof (foldl_inv
    (λ acc : State * list Wire, copy_offset acc.1 = copy_offset st)
    (λ acc c, paste_connection m c acc) (copied_connections st)
    (st1, [])) as H2.
  destruct (foldl _ (st1, []) (copied_connections st)) as [st2 ws].
  assert (copy_offset st2 = copy_offset st) as Hst2.
  { apply H2; [|done]. intros acc c _ <-. unfold paste_connection.
    destruct (m !! start_node_id c); [|done].
    destruct (m !! end_node_id c); [|done].
    destruct (heap acc.1 !! _); [|done]. destruct (heap acc.1 !! _); [|done].
    destruct (_ && _); [|done].
    unfold Wire_init. cbn [fst]. by rewrite copy_offset_addItem. }
  destruct ns; cbn [fst]; rewrite ?copy_offset_push; simpl; by rewrite Hst2.
Qed.

(** The offsets a paste can use: 20, 40, ..., 200. *)
Definition offset_ok (o : Z) : Prop :=
  ∃ k : Z, (1 ≤ k ≤ 10)%Z ∧ o = (20 * k)%Z.

Lemma offset_ok_next (o : Z) :
  offset_ok o →
  offset_ok (if bool_decide (200 < o + 20)%Z then 20%Z else (o + 20)%Z)
  ∧ (if bool_decide (200 < o + 20)%Z then 20%Z else (o + 20)%Z)
    = (if bool_decide (o = 200%Z) then 20%Z else (o + 20)%Z).
Proof.
  intros (k & Hk & ->).
  repeat case_bool_decide; try lia; (split; [|done]).
  - exists 1%Z. lia.
  - exists (k + 1)%Z. lia.
Qed.

(** X19. The displacement of pasted copies cycles through 20, 40, ..., 200:
    in every state the editor reaches the paste offset is one of these ten
    values, a paste that finds nodes on the clipboard moves it to the next
    one, from 200 back to 20, and a paste with an empty clipboard leaves
    it. *)
Theorem paste_offset_cycles (st : State) (Hreach : reachable st) :
  offset_ok (copy_offset st)
  ∧ (copied_nodes st ≠ [] →
     copy_offset (paste_nodes st).1
     = if bool_decide (copy_offset st = 200%Z) then 20%Z
       else (copy_offset st + 20)%Z)
  ∧ (copied_nodes st = [] →
     copy_offset (paste_nodes st).1 = copy_offset st).
Proof.
  assert (offset_ok (copy_offset st)) as Hok.
  { induction Hreach.
    - exists 1%Z. simpl. lia.
    - by rewrite copy_offset_create_node.
    - by rewrite copy_offset_mouseReleaseEvent.
    - by rewrite copy_offset_toggle.
    - by rewrite copy_offset_delete_selected_items.
    - by rewrite copy_offset_undo.
    - by rewrite copy_offset_redo.
    - by rewrite copy_offset_load_from_file.
    - by rewrite copy_offset_copy.
    - unfold paste_nodes. destruct (copied_nodes st); [done|].
      rewrite copy_offset_paste_copied.
      by apply offset_ok_next. }
  split; [done|]. unfold paste_nodes. split.
  - intros Hne. destruct (copied_nodes st); [done|].
    rewrite copy_offset_paste_copied. by apply offset_ok_next.
  - by intros ->.
Qed.

Lemma paste_offset_cycles_witness :
  copy_offset (paste_nodes (copy_selected_nodes [INode 0] Examples.chain).1).1
  = 40%Z.
Proof.
  destruct (paste_offset_cycles (copy_selected_nodes [INode 0] Examples.chain).1
              (reach_copy _ _ chain_reachable)) as (_ & H & _).
  by rewrite H.
Defined.

(** * Saving and loading *)

(** The wires of the output sockets of node [n]. *)
Definition output_wires (h : list Node) (n : nat) : list Wire :=
  match h !! n with
  | Some nd => mjoin (wires <$> output_sockets nd)
  | None => []
  end.

(** The wires [serialize_scene] meets: for each node of the scene, in the
    order of [scene.items()], the wires of its output sockets. *)
Definition saved_wires (st : State) : list Wire :=
  scene_nodes st ≫= output_wires (heap st).

(** The record written for a registered wire. *)
Definition saved_connection (w : Wire) : ConnectionData :=
  mkConnectionData (Z.of_nat (parent_node (source_socket w)))
                   (Z.of_nat (socket_index (source_socket w)))
                   (Z.of_nat (parent_node (target_socket w)))
                   (Z.of_nat (socket_index (target_socket w))).

Lemma output_wire_registered (h : list Node) (n : nat) (nd : Node) (w : Wire) :
  h !! n = Some nd → w ∈ mjoin (wires <$> output_sockets nd) →
  ∃ i, w ∈ socket_wires h (mkRef n true i).
Proof.
  intros Hn Hw. apply list_elem_of_join in Hw as (l & Hw & Hl).
  apply list_elem_of_fmap in Hl as (s & -> & Hs).
  apply list_elem_of_lookup in Hs as [i Hi]. exists i.
  unfold socket_wires, get_socket. simpl. rewrite Hn. simpl. by rewrite Hi.
Qed.

(** In a well-formed store both [list.index] calls of [serialize_scene]
    find the socket. *)
Lemma connection_record_wf (h : list Node) (n : nat) (nd : Node) (w : Wire) :
  wf_heap h → h !! n = Some nd → w ∈ mjoin (wires <$> output_sockets nd) →
  connection_record h n nd w = Some (saved_connection w)
  ∧ parent_node (source_socket w) = n
  ∧ socket_index (source_socket w) < length (output_sockets nd)
  ∧ ∃ b, h !! parent_node (target_socket w) = Some b
         ∧ socket_index (target_socket w) < length (input_sockets b).
Proof.
  intros Hwf Hn Hw.
  destruct (output_wire_registered h n nd w Hn Hw) as [i Hi].
  destruct (wf_wire_ok h Hwf _ w Hi) as (Hso & Hto & Hr & Hs & Ht).
  simpl in Hr.
  destruct (socket_wires_Some _ _ _ Ht) as (b & Hb & Hib).
  rewrite Hto in Hib.
  pose proof (index_of_own h _ w b Ht Hb) as Hj. rewrite Hto in Hj.
  assert (h !! parent_node (source_socket w) = Some nd) as Hn'
    by (by rewrite Hr).
  pose proof (index_of_own h _ w nd Hs Hn') as Hi'.
  destruct (socket_wires_Some _ _ _ Hs) as (a & Ha & Hia).
  assert (a = nd) as -> by congruence.
  rewrite Hso in Hi', Hia.
  assert (parent_node (source_socket w) = n) as Hp by (by rewrite Hr).
  split; [|split; [done|split; [done|by exists b]]].
  unfold connection_record. rewrite Hp in Hi'. rewrite Hi'. simpl.
  rewrite Hb. simpl. rewrite Hj. simpl. unfold saved_connection.
  by rewrite Hp.
Qed.

Lemma serialize_node_wf (h : list Node) (n : nat) :
  wf_heap h → is_Some (h !! n) →
  serialize_node h n
  = Some (node_record n (node_at h n), saved_connection <$> output_wires h n).
Proof.
  intros Hwf [nd Hn]. unfold serialize_node, output_wires, node_at.
  rewrite Hn. simpl.
  assert (mapM (connection_record h n nd)
               (mjoin (wires <$> output_sockets nd))
          = Some (saved_connection <$> mjoin (wires <$> output_sockets nd)))
    as ->; [|done].
  apply mapM_Some_2, Forall2_fmap_r, Forall_Forall2_diag, Forall_forall.
  intros w Hw. by destruct (connection_record_wf _ n nd w Hwf Hn Hw).
Qed.

Lemma join_saved_connections (h : list Node) (ns : list nat) :
  mjoin ((λ n, saved_connection <$> output_wires h n) <$> ns)
  = saved_connection <$> (ns ≫= output_wires h).
Proof.
  induction ns as [|n ns IH]; [done|]. csimpl. by rewrite fmap_app, IH.
Qed.

(** The document written for a well-formed scene. *)
Lemma serialize_scene_wf (st : State) :
  wf_heap (heap st) →
  Forall (λ n, is_Some (heap st !! n)) (scene_nodes st) →
  serialize_scene st
  = Some (mkSceneData
            (Some ((λ n, node_record n (node_at (heap st) n))
                   <$> scene_nodes st))
            (Some (saved_connection <$> saved_wires st))).
Proof.
  intros Hwf Hscene. unfold serialize_scene.
  assert (mapM (serialize_node (heap st)) (scene_nodes st)
          = Some ((λ n, (node_record n (node_at (heap st) n),
                         saved_connection <$> output_wires (heap st) n))
                  <$> scene_nodes st)) as ->.
  { apply mapM_Some_2, Forall2_fmap_r, Forall_Forall2_diag.
    eapply Forall_impl; [exact Hscene|]. intros n Hn.
    by apply serialize_node_wf. }
  simpl. rewrite <-!list_fmap_compose.
  change (snd ∘ _) with (λ n, saved_connection <$> output_wires (heap st) n).
  by rewrite join_saved_connections.
Qed.

(** ** The node loop *)

(** The node [deserialize_scene] builds from a record of class [c]. *)
Definition loaded_node (d : NodeData) (c : NodeClass) : Node :=
  set_pos (nd_x d, nd_y d)
    match c, nd_value d with
    | InputNode, Some v => mkNode InputNode (0, 0)%Z v false [] [mkSocket [] v]
    | _, _ => new_node c false
    end.

Lemma load_node_step (d : NodeData) (c : NodeClass) (st : State)
    (m : gmap Z nat) :
  class_of_name (nd_type d) = Some c →
  load_node d (st, m)
  = (addItem (INode (length (heap st)))
       (set_heap (heap st ++ [loaded_node d c]) st),
     <[nd_id d := length (heap st)]> m).
Proof.
  intros Hc. unfold load_node. rewrite Hc.
  cbn [alloc fst snd heap set_heap].
  assert (∀ nd0, alter (set_pos (nd_x d, nd_y d)) (length (heap st))
                   (heap st ++ [nd0])
                 = heap st ++ [set_pos (nd_x d, nd_y d) nd0]) as Hpos
    by (intros nd0; apply alter_last).
  unfold loaded_node.
  destruct (decide (c = InputNode)) as [->|Hne].
  - destruct (nd_value d) as [v|]; [|by rewrite Hpos].
    rewrite alter_last.
    rewrite (updateLogic_lone_input 0 _ _
               (set_node_value v (new_node InputNode false)));
      [|by rewrite lookup_app_r, Nat.sub_diag by lia|done
       |by repeat constructor].
    unfold alter_socket. cbn [parent_node is_output socket_index].
    rewrite alter_last, Hpos. simpl. by destruct v.
  - destruct c; try done; by rewrite Hpos.
Qed.

Definition insert_ids (m : gmap Z nat) (ps : list (Z * nat)) : gmap Z nat :=
  foldl (λ m p, <[p.1 := p.2]> m) m ps.

Lemma insert_ids_notin (ids : list Z) (ks : list nat) (m : gmap Z nat)
    (z : Z) :
  z ∉ ids → insert_ids m (zip ids ks) !! z = m !! z.
Proof.
  revert ks m. induction ids as [|i ids IH]; intros ks m Hn; [done|].
  destruct ks as [|k ks]; [done|].
  apply not_elem_of_cons in Hn as [Hne Hn].
  unfold insert_ids. simpl. fold (insert_ids (<[i:=k]> m) (zip ids ks)).
  rewrite IH by done. by rewrite lookup_insert_ne.
Qed.

Lemma insert_ids_lookup (ids : list Z) (a : nat) (m : gmap Z nat)
    (k : nat) (z : Z) :
  NoDup ids → ids !! k = Some z →
  insert_ids m (zip ids (seq a (length ids))) !! z = Some (a + k).
Proof.
  revert a m k. induction ids as [|i ids IH]; intros a m k Hnd Hk; [done|].
  apply NoDup_cons in Hnd as [Hi Hnd].
  unfold insert_ids. simpl.
  fold (insert_ids (<[i:=a]> m) (zip ids (seq (S a) (length ids)))).
  destruct k as [|k]; simpl in Hk.
  - injection Hk as ->. rewrite insert_ids_notin by done.
    rewrite lookup_insert_eq. f_equal. lia.
  - rewrite (IH (S a) _ k) by done. f_equal. lia.
Qed.

Lemma load_node_loop (ds : list NodeData) (cs : list NodeClass) :
  Forall2 (λ d c, class_of_name (nd_type d) = Some c) ds cs →
  ∀ (st : State) (m : gmap Z nat),
  ∃ st',
    foldl (λ acc d, load_node d acc) (st, m) ds
    = (st', insert_ids m (zip (nd_id <$> ds)
                              (seq (length (heap st)) (length ds))))
    ∧ heap st' = heap st ++ zip_with loaded_node ds cs
    ∧ wire_count st' = wire_count st
    ∧ scene_grows st st'
    ∧ ∀ k, k < length ds →
           in_scene (INode (length (heap st) + k)) st' = true.
Proof.
  induction 1 as [|d c ds cs Hc Hall IH]; intros st m.
  { exists st. simpl. rewrite app_nil_r.
    repeat split; try done; [by intros it Hit|intros k Hk; lia]. }
  cbn [foldl]. rewrite (load_node_step d c st m Hc).
  set (n := length (heap st)).
  set (st1 := addItem (INode n) (set_heap (heap st ++ [loaded_node d c]) st)).
  destruct (IH st1 (<[nd_id d := n]> m)) as (st' & Hfold & Hh & Hw & Hg & Hin).
  assert (heap st1 = heap st ++ [loaded_node d c]) as Hh1.
  { unfold st1, addItem. by case_match. }
  assert (length (heap st1) = S n) as Hlen
    by (rewrite Hh1, length_app; simpl; lia).
  exists st'. rewrite Hfold, Hlen. split; [done|].
  rewrite Hh, Hh1, <-app_assoc. simpl.
  assert (scene_grows st st1) as Hg1.
  { intros it Hit. unfold st1. by apply in_scene_addItem_mono. }
  unfold st1, addItem in Hw.
  repeat split; try done.
  - rewrite Hw. by case_match.
  - intros it Hit. by apply Hg, Hg1.
  - intros [|k] Hk.
    + rewrite Nat.add_0_r. apply Hg. unfold st1. apply in_scene_addItem_new.
    + replace (n + S k) with (length (heap st1) + k) by lia.
      apply Hin. lia.
Qed.

(** ** The connection loop *)

(** A record whose two ends resolve through the id map to sockets that
    exist. *)
Definition loadable (m : gmap Z nat) (h : list Node) (c : ConnectionData)
    : Prop :=
  ∃ sn en a b,
    m !! cd_start_node c = Some sn ∧ m !! cd_end_node c = Some en
    ∧ h !! sn = Some a ∧ h !! en = Some b
    ∧ (0 ≤ cd_start_socket c < Z.of_nat (length (output_sockets a)))%Z
    ∧ (0 ≤ cd_end_socket c < Z.of_nat (length (input_sockets b)))%Z.

(** The wire built for a record. *)
Definition loaded_wire (m : gmap Z nat) (k : nat) (c : ConnectionData)
    : Wire :=
  mkWire k (mkRef (default 0 (m !! cd_start_node c)) true
                  (Z.to_nat (cd_start_socket c)))
           (mkRef (default 0 (m !! cd_end_node c)) false
                  (Z.to_nat (cd_end_socket c))).

Lemma loadable_unwire (m : gmap Z nat) (h h' : list Node)
    (c : ConnectionData) :
  unwire <$> h' = unwire <$> h → loadable m h c → loadable m h' c.
Proof.
  intros Hu (sn & en & a & b & Hs & He & Ha & Hb & Hi & Hj).
  assert (∀ n nd, h !! n = Some nd →
            ∃ nd', h' !! n = Some nd'
                   ∧ length (output_sockets nd') = length (output_sockets nd)
                   ∧ length (input_sockets nd') = length (input_sockets nd))
    as Hlen.
  { intros n nd Hn. apply (f_equal (λ l, l !! n)) in Hu.
    rewrite !list_lookup_fmap, Hn in Hu.
    destruct (h' !! n) as [nd'|]; [|done]. exists nd'. split; [done|].
    simpl in Hu. injection Hu as _ _ _ _ Hi' Ho'.
    apply (f_equal length) in Hi', Ho'. rewrite !length_fmap in Hi', Ho'.
    done. }
  destruct (Hlen sn a Ha) as (a' & Ha' & Hao & _).
  destruct (Hlen en b Hb) as (b' & Hb' & _ & Hbi).
  exists sn, en, a', b'. repeat split; try done; lia.
Qed.

Lemma load_connection_step (m : gmap Z nat) (c : ConnectionData)
    (st : State) :
  loadable m (heap st) c →
  load_connection m c st
  = addItem (IWire (loaded_wire m (wire_count st) c))
      (Wire_init (source_socket (loaded_wire m (wire_count st) c))
                 (target_socket (loaded_wire m (wire_count st) c)) st).2.
Proof.
  intros (sn & en & a & b & Hs & He & Ha & Hb & Hi & Hj).
  unfold load_connection, loaded_wire.
  rewrite Hs, He, Ha, Hb. rewrite !bool_decide_eq_true_2 by done. done.
Qed.

Lemma load_connection_loop (m : gmap Z nat) (cs : list ConnectionData) :
  ∀ (st : State),
  Forall (loadable m (heap st)) cs →
  heap (foldl (λ s c, load_connection m c s) st cs)
  = add_wires (imap (λ k c, loaded_wire m (wire_count st + k) c) cs)
              (heap st)
  ∧ scene_grows st (foldl (λ s c, load_connection m c s) st cs).
Proof.
  induction cs as [|c cs IH]; intros st Hcs.
  { split; [done|]. by intros it Hit. }
  apply Forall_cons in Hcs as [Hc Hcs].
  cbn [foldl]. rewrite load_connection_step by done.
  set (w := loaded_wire m (wire_count st) c).
  set (st1 := addItem (IWire w)
                (Wire_init (source_socket w) (target_socket w) st).2).
  assert (heap st1 = register w (heap st)) as Hh1.
  { unfold st1, addItem. by case_match. }
  assert (wire_count st1 = S (wire_count st)) as Hw1.
  { unfold st1, addItem. by case_match. }
  destruct (IH st1) as (Hh & Hg).
  { eapply Forall_impl; [exact Hcs|]. intros c'.
    apply loadable_unwire. rewrite Hh1. apply unwire_register. }
  rewrite Hh, Hh1, Hw1.
  assert (imap (λ k c0, loaded_wire m (wire_count st + k) c0) (c :: cs)
          = w :: imap (λ k c0, loaded_wire m (S (wire_count st) + k) c0) cs)
    as ->.
  { rewrite imap_cons. unfold w. rewrite Nat.add_0_r. f_equal.
    apply imap_ext. intros k c' _. simpl. f_equal. lia. }
  split; [done|].
  intros it Hit. apply Hg. unfold st1. by apply in_scene_addItem_mono.
Qed.

(** ** The round trip *)

(** The node rebuilt for node [n] of the saved scene. *)
Definition reloaded (h : list Node) (n : nat) : Node :=
  loaded_node (node_record n (node_at h n)) (cls (node_at h n)).

Lemma loaded_node_layout (d : NodeData) (c : NodeClass) :
  length (input_sockets (loaded_node d c)) = n_inputs c
  ∧ length (output_sockets (loaded_node d c)) = n_outputs c.
Proof.
  unfold loaded_node.
  destruct c, (nd_value d); simpl; by rewrite ?length_replicate.
Qed.

Lemma reloaded_layout (h : list Node) (n : nat) :
  length (input_sockets (reloaded h n)) = n_inputs (cls (node_at h n))
  ∧ length (output_sockets (reloaded h n)) = n_outputs (cls (node_at h n)).
Proof. apply loaded_node_layout. Qed.

Lemma loaded_node_no_wires (d : NodeData) (c : NodeClass) (out : bool)
    (s : Socket) :
  s ∈ sockets_of (loaded_node d c) out → wires s = [].
Proof.
  revert s. apply Forall_forall. unfold loaded_node.
  destruct c, (nd_value d), out; simpl; by repeat constructor.
Qed.

Lemma socket_wires_reloaded (h0 h : list Node) (ns : list nat)
    (r : SocketRef) :
  length h0 ≤ parent_node r →
  socket_wires (h0 ++ (reloaded h <$> ns)) r = [].
Proof.
  intros Hge. unfold socket_wires, get_socket.
  rewrite lookup_app_r by done. rewrite list_lookup_fmap.
  destruct (ns !! _) as [n|]; [|done]. simpl.
  destruct (sockets_of _ _ !! _) as [s|] eqn:Hs; [|done].
  apply list_elem_of_lookup_2 in Hs. by apply loaded_node_no_wires in Hs.
Qed.

(** X20. Save and load. For a well-formed scene whose wires stay inside
    it, [serialize_scene] returns a document, and loading that document
    (into any tab) succeeds and builds one new node per node of the scene,
    in the order of the document, of the same class, at the same position
    and, for an input node, with the same value, and one new wire per saved
    wire, between the rebuilt ends at the same pin indices; the pins of the
    new nodes hold exactly these wires. *)
Theorem save_load_round_trip (st st' : State)
    (Hwf : wf_heap (heap st)) (Hlayout : layout_ok (heap st))
    (Hnodup : NoDup (scene_nodes st))
    (Hscene : Forall (λ n, is_Some (heap st !! n)) (scene_nodes st))
    (Hclosed : Forall (λ w, parent_node (target_socket w) ∈ scene_nodes st)
                      (saved_wires st)) :
  ∃ data st2,
    serialize_scene st = Some data
    ∧ load_from_file (Some data) st' = (st2, true)
    ∧ length (heap st2) = length (heap st') + length (scene_nodes st)
    ∧ (∀ k n nd,
         scene_nodes st !! k = Some n → heap st !! n = Some nd →
         ∃ nd',
           heap st2 !! (length (heap st') + k) = Some nd'
           ∧ cls nd' = cls nd
           ∧ pos nd' = pos nd
           ∧ node_value nd' = match cls nd with
                              | InputNode => node_value nd
                              | _ => false
                              end
           ∧ in_scene (INode (length (heap st') + k)) st2 = true)
    ∧ ∃ ws,
        length ws = length (saved_wires st)
        ∧ (∀ k w,
             saved_wires st !! k = Some w →
             ∃ ka kb,
               scene_nodes st !! ka = Some (parent_node (source_socket w))
               ∧ scene_nodes st !! kb = Some (parent_node (target_socket w))
               ∧ ws !! k
                 = Some (mkWire (wire_count st' + k)
                           (mkRef (length (heap st') + ka) true
                                  (socket_index (source_socket w)))
                           (mkRef (length (heap st') + kb) false
                                  (socket_index (target_socket w)))))
        ∧ (∀ r, length (heap st') ≤ parent_node r →
             socket_wires (heap st2) r
             = filter (λ w, source_socket w = r ∨ target_socket w = r) ws).
Proof.
  set (h := heap st) in *. set (ns := scene_nodes st) in *.
  set (len0 := length (heap st')).
  set (ids := Z.of_nat <$> ns).
  set (ds := (λ n, node_record n (node_at h n)) <$> ns).
  set (cds := saved_connection <$> saved_wires st).
  exists (mkSceneData (Some ds) (Some cds)).
  assert (Forall2 (λ d c, class_of_name (nd_type d) = Some c)
            ds ((λ n, cls (node_at h n)) <$> ns)) as HF2.
  { apply Forall2_fmap, Forall_Forall2_diag, Forall_forall.
    intros n _. apply class_of_class_name. }
  destruct (load_node_loop _ _ HF2 (clear (clear st')) ∅)
    as (sa & Hfa & Hha & Hwa & Hga & Hina).
  assert (nd_id <$> ds = ids) as Hids.
  { unfold ds, ids. rewrite <-list_fmap_compose. by apply list_fmap_ext. }
  assert (length ds = length ids) as Hlen
    by (unfold ds, ids; by rewrite !length_fmap).
  rewrite Hids, Hlen in Hfa. rewrite Hlen in Hina.
  unfold ds in Hha. rewrite zip_with_fmap_same in Hha. fold (reloaded h) in Hha.
  change (heap (clear (clear st'))) with (heap st') in Hfa, Hha, Hina.
  change (wire_count (clear (clear st'))) with (wire_count st') in Hwa.
  fold len0 in Hfa, Hina.
  set (m := insert_ids ∅ (zip ids (seq len0 (length ids)))) in *.
  assert (NoDup ids) as Hnids by (by apply (NoDup_fmap_2 _)).
  assert (length ids = length ns) as Hlids by (unfold ids; by rewrite length_fmap).
  assert (∀ k n, ns !! k = Some n → m !! Z.of_nat n = Some (len0 + k)) as Hm.
  { intros k n Hk. apply insert_ids_lookup; [done|].
    unfold ids. by rewrite list_lookup_fmap, Hk. }
  assert (∀ w, w ∈ saved_wires st →
            ∃ ka kb, ns !! ka = Some (parent_node (source_socket w))
                     ∧ ns !! kb = Some (parent_node (target_socket w))
                     ∧ socket_index (source_socket w)
                       < n_outputs (cls (node_at h (parent_node (source_socket w))))
                     ∧ socket_index (target_socket w)
                       < n_inputs (cls (node_at h (parent_node (target_socket w)))))
    as Hres.
  { intros w Hw.
    pose proof (proj1 (Forall_forall _ _) Hclosed w Hw) as Ht.
    apply list_elem_of_bind in Hw as (n & Hw & Hn).
    unfold output_wires in Hw. fold h in Hw.
    destruct (h !! n) as [nd|] eqn:Hnd; [|by apply elem_of_nil in Hw].
    destruct (connection_record_wf h n nd w Hwf Hnd Hw)
      as (_ & Hp & Hi & b & Hb & Hj).
    apply list_elem_of_lookup in Hn as [ka Hka], Ht as [kb Hkb].
    exists ka, kb. rewrite Hp. repeat split; try done.
    - unfold node_at. rewrite Hnd. simpl.
      pose proof (Forall_lookup_1 _ _ _ _ Hlayout Hnd) as [_ <-]. done.
    - unfold node_at. rewrite Hb. simpl.
      pose proof (Forall_lookup_1 _ _ _ _ Hlayout Hb) as [<- _]. done. }
  assert (∀ k n, ns !! k = Some n →
            heap sa !! (len0 + k) = Some (reloaded h n)) as Hnew.
  { intros k n Hk. rewrite Hha, lookup_app_r by (unfold len0; lia).
    replace (len0 + k - length (heap st')) with k by (unfold len0; lia).
    by rewrite list_lookup_fmap, Hk. }
  assert (Forall (loadable m (heap sa)) cds) as Hp.
  { apply Forall_fmap, Forall_forall. intros w Hw.
    destruct (Hres w Hw) as (ka & kb & Hka & Hkb & Hi & Hj).
    exists (len0 + ka), (len0 + kb),
           (reloaded h (parent_node (source_socket w))),
           (reloaded h (parent_node (target_socket w))).
    unfold saved_connection.
    cbn [cd_start_node cd_end_node cd_start_socket cd_end_socket].
    split; [by apply Hm|]. split; [by apply Hm|].
    split; [by apply Hnew|]. split; [by apply Hnew|].
    destruct (reloaded_layout h (parent_node (source_socket w))) as [_ ->].
    destruct (reloaded_layout h (parent_node (target_socket w))) as [-> _].
    lia. }
  destruct (load_connection_loop m cds sa Hp) as (Hhb & Hgb).
  rewrite Hwa in Hhb.
  set (st2 := foldl (λ s c, load_connection m c s) sa cds) in *.
  set (ws := imap (λ k c, loaded_wire m (wire_count st' + k) c) cds) in *.
  exists st2.
  split; [by apply serialize_scene_wf|].
  split.
  { unfold load_from_file, deserialize_scene. cbn [sd_nodes sd_connections].
    by rewrite Hfa. }
  assert (∀ k w, saved_wires st !! k = Some w →
            ∃ ka kb, ns !! ka = Some (parent_node (source_socket w))
                     ∧ ns !! kb = Some (parent_node (target_socket w))
                     ∧ ws !! k
                       = Some (mkWire (wire_count st' + k)
                                 (mkRef (len0 + ka) true
                                        (socket_index (source_socket w)))
                                 (mkRef (len0 + kb) false
                                        (socket_index (target_socket w)))))
    as Hws.
  { intros k w Hk.
    destruct (Hres w (list_elem_of_lookup_2 _ _ _ Hk))
      as (ka & kb & Hka & Hkb & _).
    exists ka, kb. split; [done|]. split; [done|].
    unfold ws, cds. rewrite list_lookup_imap, list_lookup_fmap, Hk. simpl.
    unfold loaded_wire. simpl.
    by rewrite (Hm ka _ Hka), (Hm kb _ Hkb), !Nat2Z.id. }
  assert (Forall (λ w, source_socket w ≠ target_socket w
                       ∧ is_Some (get_socket (heap sa) (source_socket w))
                       ∧ is_Some (get_socket (heap sa) (target_socket w))) ws)
    as Hwsok.
  { apply Forall_lookup. intros k w' Hk.
    assert (is_Some (saved_wires st !! k)) as [w Hw].
    { apply lookup_lt_is_Some. apply lookup_lt_Some in Hk.
      unfold ws, cds in Hk. by rewrite length_imap, length_fmap in Hk. }
    destruct (Hws k w Hw) as (ka & kb & Hka & Hkb & Hw').
    assert (w' = mkWire (wire_count st' + k)
                   (mkRef (len0 + ka) true (socket_index (source_socket w)))
                   (mkRef (len0 + kb) false (socket_index (target_socket w))))
      as -> by congruence.
    destruct (Hres w (list_elem_of_lookup_2 _ _ _ Hw))
      as (ka' & kb' & _ & _ & Hi & Hj).
    simpl. split; [done|]. unfold get_socket. simpl.
    rewrite (Hnew ka _ Hka), (Hnew kb _ Hkb).
    cbn [mbind option_bind sockets_of].
    split; apply lookup_lt_is_Some.
    - by rewrite (proj2 (reloaded_layout _ _)).
    - by rewrite (proj1 (reloaded_layout _ _)). }
  split.
  { rewrite Hhb. apply (f_equal length) in Hha.
    rewrite <-(length_fmap unwire), unwire_add_wires, length_fmap.
    rewrite Hha, length_app, length_fmap. done. }
  split.
  { intros k n nd Hk Hnd.
    pose proof (unwire_add_wires ws (heap sa)) as Hu.
    apply (f_equal (λ l, l !! (len0 + k))) in Hu.
    rewrite !list_lookup_fmap in Hu. rewrite (Hnew k n Hk) in Hu.
    rewrite <-Hhb in Hu.
    destruct (heap st2 !! (len0 + k)) as [nd'|]; [|done].
    exists nd'. split; [done|]. simpl in Hu. injection Hu as Hc Hpo Hv _ _ _.
    unfold node_at in Hc, Hpo, Hv. rewrite Hnd in Hc, Hpo, Hv.
    simpl in Hc, Hpo, Hv.
    split; [by destruct (cls nd)|]. split; [by destruct (pos nd)|].
    split; [by destruct (cls nd)|].
    apply Hgb, Hina. rewrite Hlids. by apply lookup_lt_Some in Hk. }
  exists ws. split; [unfold ws, cds; by rewrite length_imap, length_fmap|].
  split; [exact Hws|].
  intros r Hr. rewrite Hhb, socket_wires_add_wires by done.
  rewrite Hha, socket_wires_reloaded by done. done.
Qed.

(** [Examples.chain], saved and loaded into an empty tab. *)
Lemma save_load_round_trip_witness :
  ∃ data st2,
    serialize_scene Examples.chain = Some data
    ∧ load_from_file (Some data) init_state = (st2, true)
    ∧ length (heap st2) = 3
    ∧ length (saved_wires Examples.chain) = 2
    ∧ socket_wires (heap st2) (mkRef 1 false 0)
      = [mkWire 1 (mkRef 2 true 0) (mkRef 1 false 0)].
Proof.
  destruct (save_load_round_trip Examples.chain init_state chain_wf
              chain_layout)
    as (data & st2 & H1 & H2 & H3 & _ & ws & H4 & H5 & H6);
    [apply (bool_decide_unpack _); by vm_compute..|].
  exists data, st2. split; [done|]. split; [done|]. split; [done|].
  split; [done|]. rewrite H6 by (simpl; lia).
  destruct ws as [|w0 [|w1 [|w2 ws]]]; try done.
  destruct (H5 0 _ eq_refl) as (ka0 & kb0 & Ha0 & Hb0 & Hw0).
  destruct (H5 1 _ eq_refl) as (ka1 & kb1 & Ha1 & Hb1 & Hw1).
  injection Hw0 as ->. injection Hw1 as ->.
  by destruct ka0 as [|[|[|?]]], kb0 as [|[|[|?]]], ka1 as [|[|[|?]]],
     kb1 as [|[|[|?]]].
Defined.

(** * Properties of [simple_logic_gate_simulator.py] *)

(** What [update_outputs] writes for the node itself. *)
Definition simple_own_update (h : list Node) (n : nat) : list Node :=
  match h !! n with
  | Some nd => alter (Simple.set_output_values (Simple.perform_logic h nd)) n h
  | None => h
  end.

Lemma shape_set_output_values (v : bool) (n : nat) (h : list Node) :
  shape (alter (Simple.set_output_values v) n h) = shape h.
Proof. apply fmap_alter_absorb. intros x. apply strip_set_output_values. Qed.

Lemma simple_update_outputs_ranked (rk : nat → nat) (R : nat) :
  (∀ m, rk m ≤ R) →
  ∀ fuel n h, ranked rk h → R - rk n < fuel →
    (Simple.update_outputs fuel n h).2 = Done
    ∧ ∀ m, rk m ≤ rk n →
           (Simple.update_outputs fuel n h).1 !! m = simple_own_update h n !! m.
Proof.
  intros HR fuel.
  induction fuel as [|f IH]; intros n h Hr Hf; [lia|].
  simpl. unfold simple_own_update.
  destruct (h !! n) as [nd|] eqn:Hn; [|done].
  set (h1 := alter _ n h).
  pose proof (for_wires_done
    (λ h', ranked rk h' ∧ ∀ m, rk m ≤ rk n → h' !! m = h1 !! m)
    (Simple.update_outputs f) (mjoin (wires <$> output_sockets nd)) h1)
    as Hloop.
  destruct Hloop as [[_ Hframe] Hdone]; [| |by split].
  - split; [|done]. eapply ranked_shape; [|exact Hr].
    symmetry. apply shape_set_output_values.
  - intros w h0 Hw [Hr0 Hfr0].
    assert (rk n < rk (parent_node (target_socket w))) as Hlt.
    { specialize (Hr n nd Hn). rewrite Forall_forall in Hr.
      apply list_elem_of_join in Hw as (l & Hw & Hl).
      apply list_elem_of_fmap in Hl as (s & -> & Hs).
      specialize (Hr s Hs). rewrite Forall_forall in Hr. by apply Hr. }
    specialize (HR (parent_node (target_socket w))).
    destruct (IH (parent_node (target_socket w)) h0 Hr0) as [Hd Hfr]; [lia|].
    split; [split|done].
    + eapply ranked_shape; [|exact Hr0]. symmetry.
      apply simple_update_outputs_shape.
    + intros m Hm. rewrite Hfr by lia. unfold simple_own_update.
      destruct (h0 !! parent_node (target_socket w)); [|by apply Hfr0].
      rewrite list_lookup_alter_ne by (intros <-; lia). by apply Hfr0.
Qed.

(** X21. In the first variant, on an acyclic wiring [update_outputs]
    returns, with a nesting depth above the height of the ranking; it leaves
    the value of [perform_logic] on every output socket of the node, and
    every other node that does not rank above it as it was. *)
Theorem simple_update_outputs_acyclic (rk : nat → nat) (R fuel n : nat)
    (h : list Node) (nd : Node)
    (Hbound : ∀ m, rk m ≤ R) (Hranked : ranked rk h)
    (Hfuel : R - rk n < fuel) (Hnode : h !! n = Some nd) :
  (Simple.update_outputs fuel n h).2 = Done
  ∧ (∃ nd', (Simple.update_outputs fuel n h).1 !! n = Some nd'
            ∧ Forall (λ s, value s = Simple.perform_logic h nd)
                     (output_sockets nd')
            ∧ length (output_sockets nd') = length (output_sockets nd))
  ∧ ∀ m, rk m ≤ rk n → m ≠ n →
         (Simple.update_outputs fuel n h).1 !! m = h !! m.
Proof.
  destruct (simple_update_outputs_ranked rk R Hbound fuel n h Hranked Hfuel)
    as [Hdone Hframe].
  split; [done|]. unfold simple_own_update in Hframe. rewrite Hnode in Hframe.
  split.
  - eexists. rewrite Hframe, list_lookup_alter_eq, Hnode by lia.
    split; [done|]. simpl. split; [|by rewrite length_fmap].
    apply Forall_fmap, Forall_forall. by intros s _.
  - intros m Hm Hne. rewrite Hframe by done.
    by rewrite list_lookup_alter_ne.
Qed.

Lemma simple_update_outputs_acyclic_witness :
  (Simple.update_outputs 3 0 (heap Examples.chain)).2 = Done
  ∧ ∃ nd', (Simple.update_outputs 3 0 (heap Examples.chain)).1 !! 0 = Some nd'
           ∧ Forall (λ s, value s = false) (output_sockets nd')
           ∧ length (output_sockets nd') = 1.
Proof.
  destruct (simple_update_outputs_acyclic (λ m, m `min` 2) 2 3 0
              (heap Examples.chain) _ (λ m, Nat.le_min_r m 2) chain_ranked
              ltac:(simpl; lia) eq_refl) as (H1 & H2 & _).
  split; [exact H1|exact H2].
Defined.

(** * Cut *)

(** [keyPressEvent] on the Cut shortcut, and the Cut action of the window:
    copy, then delete the selection if the copy returned [True]. *)
Definition cut (selected_items : list Item) (st : State) : State * status :=
  match copy_selected_nodes selected_items st with
  | (st1, Some true) => (delete_selected_items selected_items st1, Returned)
  | (st1, Some false) => (st1, Returned)
  | (st1, None) => (st1, Raised)
  end.

(** X22. Cut with no node selected, for instance with only wires selected,
    deletes nothing: the scene and the store stay as they are, but the
    clipboard is emptied, so that the next paste creates nothing and
    returns [False]. *)
Theorem cut_without_nodes_clears_clipboard (sel : list Item) (st : State)
    (Hsel : selected_nodes_of (heap st) sel = []) :
  cut sel st = (set_clipboard [] [] st, Returned)
  ∧ paste_nodes (cut sel st).1 = (set_clipboard [] [] st, false).
Proof.
  assert (cut sel st = (set_clipboard [] [] st, Returned)) as Hcut.
  { unfold cut, copy_selected_nodes. by rewrite Hsel. }
  by rewrite Hcut.
Qed.

(** The wire from the input node to the Or gate of [Examples.chain],
    selected alone. *)
Lemma cut_without_nodes_clears_clipboard_witness :
  (cut [IWire (mkWire 0 (mkRef 0 true 0) (mkRef 1 false 0))]
       (copy_selected_nodes [INode 1] Examples.chain).1).1
  = set_clipboard [] [] Examples.chain.
Proof.
  by rewrite (proj1 (cut_without_nodes_clears_clipboard
                       [IWire (mkWire 0 (mkRef 0 true 0) (mkRef 1 false 0))]
                       (copy_selected_nodes [INode 1] Examples.chain).1
                       eq_refl)).
Defined.

Lemma copy_returns_true (sel : list Item) (st : State) :
  wf_heap (heap st) → selected_nodes_of (heap st) sel ≠ [] →
  (copy_selected_nodes sel st).2 = Some true.
Proof.
  intros Hwf Hsel. unfold copy_selected_nodes.
  destruct (selected_nodes_of (heap st) sel) as [|n ns] eqn:E; [done|].
  rewrite <-E.
  destruct (collect_connections_spec (heap st)
              (list_to_set (selected_nodes_of (heap st) sel))
              (all_wires_of (heap st) (selected_nodes_of (heap st) sel)) [])
    as [Hret _].
  { intros w Hw. apply elem_of_all_wires_of in Hw as (r & _ & Hw).
    destruct (copied_connection_of_wf _ r w Hwf Hw)
      as (a & b & _ & _ & _ & _ & ->).
    by eexists. }
  destruct (collect_connections _ _ _ _) as [cs s]. simpl in *. by subst s.
Qed.

Lemma in_scene_delete_item_anti (it it' : Item) (st : State) :
  in_scene it (delete_item it' st) = true → in_scene it st = true.
Proof.
  destruct it' as [n|w]; simpl; [|apply in_scene_Wire_remove_anti].
  rewrite in_scene_removeItem. intros [H _]%andb_prop. revert H.
  apply (foldl_inv (λ s, in_scene it s = true → in_scene it st = true));
    [|done].
  intros s r _ IH H. apply IH. revert H. apply in_scene_remove_wires_anti.
Qed.

Lemma in_scene_delete_item_self (it : Item) (st : State) :
  in_scene it (delete_item it st) = false.
Proof.
  destruct it as [n|w]; simpl; [|apply in_scene_Wire_remove_self].
  rewrite in_scene_removeItem, same_item_refl. apply andb_false_r.
Qed.

Lemma in_scene_delete_items (it : Item) (sel : list Item) (st : State) :
  it ∈ sel → in_scene it (foldl (λ s x, delete_item x s) st sel) = false.
Proof.
  revert st. induction sel as [|x sel IH]; intros st Hit;
    [by apply elem_of_nil in Hit|].
  cbn [foldl]. apply elem_of_cons in Hit as [<-|Hit]; [|by apply IH].
  apply not_true_is_false. intros H.
  assert (in_scene it (delete_item it st) = true) as H'.
  { revert H. generalize (delete_item it st). clear.
    induction sel as [|x sel IH]; intros s H; [done|].
    cbn [foldl] in H. apply IH in H. by apply in_scene_delete_item_anti in H. }
  by rewrite in_scene_delete_item_self in H'.
Qed.

Lemma unwire_delete_item (it : Item) (st : State) :
  unwire <$> heap (delete_item it st) = unwire <$> heap st.
Proof.
  destruct it as [n|w]; simpl; [|apply unwire_Wire_remove].
  apply (foldl_inv (λ s, unwire <$> heap s = unwire <$> heap st)); [|done].
  intros s r _ <-. apply remove_wires_keeps.
Qed.

Lemma clipboard_Wire_remove (w : Wire) (st : State) :
  copied_nodes (Wire_remove w st) = copied_nodes st
  ∧ copied_connections (Wire_remove w st) = copied_connections st.
Proof. unfold Wire_remove. by case_match. Qed.

Lemma clipboard_delete_item (it : Item) (st : State) :
  copied_nodes (delete_item it st) = copied_nodes st
  ∧ copied_connections (delete_item it st) = copied_connections st.
Proof.
  destruct it as [n|w]; simpl; [|apply clipboard_Wire_remove].
  apply (foldl_inv (λ s, copied_nodes s = copied_nodes st
                         ∧ copied_connections s = copied_connections st));
    [|done].
  intros s r _ [<- <-].
  apply (remove_wires_frame
           (λ s', copied_nodes s' = copied_nodes s
                  ∧ copied_connections s' = copied_connections s)); [|done].
  intros w s' _ [<- <-]. apply clipboard_Wire_remove.
Qed.

Lemma clipboard_cmd_redo (c : Command) (st : State) :
  copied_nodes (cmd_redo c st) = copied_nodes st
  ∧ copied_connections (cmd_redo c st) = copied_connections st.
Proof.
  destruct c as [n|stored|ns ws]; simpl; [| |done].
  - unfold addItem. by repeat case_match.
  - apply (foldl_inv (λ s, copied_nodes s = copied_nodes st
                           ∧ copied_connections s = copied_connections st));
      [|done].
    intros s [[m|w] l] _ [<- <-]; simpl; [done|]. by case_match.
Qed.

(** A deletion keeps the clipboard, the nodes up to their wires, and the
    paste offset. *)
Lemma delete_selected_items_keeps (sel : list Item) (st : State) :
  copied_nodes (delete_selected_items sel st) = copied_nodes st
  ∧ copied_connections (delete_selected_items sel st) = copied_connections st
  ∧ unwire <$> heap (delete_selected_items sel st) = unwire <$> heap st.
Proof.
  unfold delete_selected_items. destruct sel as [|it sel]; [done|].
  set (st1 := push _ st).
  assert (copied_nodes st1 = copied_nodes st
          ∧ copied_connections st1 = copied_connections st
          ∧ unwire <$> heap st1 = unwire <$> heap st) as H1.
  { unfold st1, push.
    destruct (clipboard_cmd_redo
                (DeleteItemsCommand (stored_items_of (heap st) (it :: sel)))
                (set_undo (take (undo_index st) (undo_cmds st)
                           ++ [DeleteItemsCommand
                                 (stored_items_of (heap st) (it :: sel))])
                          (S (undo_index st)) st)) as [-> ->].
    by rewrite heap_cmd_redo. }
  apply (foldl_inv (λ s, copied_nodes s = copied_nodes st
                         ∧ copied_connections s = copied_connections st
                         ∧ unwire <$> heap s = unwire <$> heap st)); [|done].
  intros s x _ (<- & <- & <-).
  destruct (clipboard_delete_item x s) as [-> ->].
  by rewrite unwire_delete_item.
Qed.

Lemma paste_connection_unwire (m : gmap nat nat) (c : CopiedConnection)
    (acc : State * list Wire) :
  unwire <$> heap (paste_connection m c acc).1 = unwire <$> heap acc.1
  ∧ scene_grows acc.1 (paste_connection m c acc).1.
Proof.
  unfold paste_connection.
  destruct (m !! start_node_id c) as [sn|]; [|by split; [|intros ??]].
  destruct (m !! end_node_id c) as [en|]; [|by split; [|intros ??]].
  destruct (heap acc.1 !! sn) as [a0|]; [|by split; [|intros ??]].
  destruct (heap acc.1 !! en) as [b0|]; [|by split; [|intros ??]].
  destruct (_ && _); [|by split; [|intros ??]].
  match goal with
  | |- context [Wire_init ?x ?y ?s] =>
      change (unwire <$> heap (addItem (IWire (Wire_init x y s).1)
                                       (Wire_init x y s).2)
              = unwire <$> heap s
              ∧ scene_grows s (addItem (IWire (Wire_init x y s).1)
                                       (Wire_init x y s).2))
  end.
  split.
  - rewrite heap_addItem. simpl.
    by rewrite !unwire_alter_socket.
  - intros it Hit. by apply in_scene_addItem_mono.
Qed.

(** X23. Cut, then paste. On a well-formed store a cut with nodes selected
    returns and takes every selected item out of the scene; the paste that
    follows returns [True] and builds one new node per node that was cut, of
    the same class, displaced by the paste offset, and in the scene. *)
Theorem cut_then_paste (sel : list Item) (st : State)
    (Hwf : wf_heap (heap st))
    (Hsel : selected_nodes_of (heap st) sel ≠ []) :
  (cut sel st).2 = Returned
  ∧ (∀ it, it ∈ sel → in_scene it (cut sel st).1 = false)
  ∧ (paste_nodes (cut sel st).1).2 = true
  ∧ ∀ k n nd,
      selected_nodes_of (heap st) sel !! k = Some n →
      heap st !! n = Some nd →
      ∃ nd',
        heap (paste_nodes (cut sel st).1).1 !! (length (heap st) + k)
        = Some nd'
        ∧ cls nd' = cls nd
        ∧ pos nd' = ((pos nd).1 + copy_offset st,
                     (pos nd).2 + copy_offset st)%Z
        ∧ in_scene (INode (length (heap st) + k))
                   (paste_nodes (cut sel st).1).1 = true.
Proof.
  set (ns := selected_nodes_of (heap st) sel) in *.
  set (h := heap st).
  pose proof (copy_returns_true sel st Hwf Hsel) as Hret.
  destruct (copy_state sel st Hsel) as (Hh1 & Hw1 & Ho1 & Hsc1 & Hcn1).
  assert (sel ≠ []) as Hne by (intros ->; done).
  unfold cut.
  destruct (copy_selected_nodes sel st) as [st1 res]. cbn [fst snd] in *.
  subst res. cbn [fst snd].
  set (st2 := delete_selected_items sel st1).
  destruct (delete_selected_items_keeps sel st1) as (Hcn2 & Hcc2 & Hu2).
  fold st2 in Hcn2, Hcc2, Hu2.
  pose proof (copy_offset_delete_selected_items sel st1) as Ho2.
  fold st2 in Ho2.
  split; [done|]. split.
  { intros it Hit. unfold st2, delete_selected_items.
    destruct sel as [|x sel'] eqn:Es; [done|]. rewrite <-Es in *.
    by apply in_scene_delete_items. }
  assert (length (heap st2) = length h) as Hlen.
  { apply (f_equal length) in Hu2. rewrite !length_fmap in Hu2.
    by rewrite Hu2, Hh1. }
  assert (Forall2 (λ cn c, class_of_name (cn_type cn) = Some c)
            (template h <$> ns) ((λ n, cls (node_at h n)) <$> ns)) as HF2.
  { apply Forall2_fmap, Forall_Forall2_diag, Forall_forall.
    intros n _. apply class_of_class_name. }
  destruct (paste_node_loop (copy_offset st2) _ _ HF2 st2 [] ∅)
    as (sa & Hfa & Hha & _ & _ & _ & _ & _ & Hga & Hina).
  rewrite zip_with_fmap_same in Hha.
  fold (duplicate (copy_offset st2) h) in Hha.
  rewrite length_fmap, Hlen in Hfa. rewrite length_fmap, Hlen in Hina.
  assert (0 < length ns) as Hpos by (destruct ns; [done|simpl; lia]).
  assert (paste_nodes st2 = paste_copied st2) as ->.
  { unfold paste_nodes. rewrite Hcn2, Hcn1. fold ns. by destruct ns. }
  unfold paste_copied. rewrite Hcn2, Hcn1. fold ns h. rewrite Hfa.
  cbn [app].
  pose proof (foldl_inv
    (λ acc : State * list Wire,
       unwire <$> heap acc.1 = unwire <$> heap sa ∧ scene_grows sa acc.1)
    (λ acc c, paste_connection
                (insert_pairs ∅ (zip (cn_id <$> (template h <$> ns))
                                     (seq (length h) (length ns)))) c acc)
    (copied_connections st2) (sa, [])) as H2.
  destruct (foldl _ (sa, []) (copied_connections st2)) as [sb ws].
  destruct H2 as [Hub Hgb].
  { intros acc c _ [Hu Hg].
    destruct (paste_connection_unwire
                (insert_pairs ∅ (zip (cn_id <$> (template h <$> ns))
                                     (seq (length h) (length ns)))) c acc)
      as [Hu' Hg'].
    split; [by rewrite Hu'|]. intros it Hit. by apply Hg', Hg. }
  { split; [done|]. by intros it Hit. }
  cbn [fst] in Hub, Hgb.
  set (st3 := set_copy_offset _ sb).
  assert (∀ k n nd, ns !! k = Some n → h !! n = Some nd →
            ∃ nd', heap st3 !! (length h + k) = Some nd'
                   ∧ cls nd' = cls nd
                   ∧ pos nd' = ((pos nd).1 + copy_offset st,
                                (pos nd).2 + copy_offset st)%Z
                   ∧ in_scene (INode (length h + k)) st3 = true) as Hnodes.
  { intros k n nd Hk Hnd.
    apply (f_equal (λ l, l !! (length h + k))) in Hub.
    rewrite !list_lookup_fmap, Hha in Hub.
    rewrite lookup_app_r in Hub by lia.
    replace (length h + k - length (heap st2)) with k in Hub by lia.
    rewrite list_lookup_fmap, Hk in Hub.
    change (heap st3) with (heap sb).
    destruct (heap sb !! (length h + k)) as [nd'|]; [|done].
    exists nd'. split; [done|]. simpl in Hub.
    injection Hub as Hc Hpo _ _ _ _.
    unfold node_at in Hc, Hpo. rewrite Hnd in Hc, Hpo. simpl in Hc, Hpo.
    rewrite Hc, Hpo, Ho2, Ho1. split; [done|]. split; [done|].
    change (in_scene (INode (length h + k)) st3)
      with (in_scene (INode (length h + k)) sb).
    apply Hgb, Hina. by apply lookup_lt_Some in Hk. }
  destruct (seq (length h) (length ns)) as [|p ps] eqn:Es.
  { apply (f_equal length) in Es. rewrite length_seq in Es. simpl in Es. lia. }
  cbn [fst snd]. split; [done|].
  intros k n nd Hk Hnd. rewrite cmd_redo_paste.
  destruct (Hnodes k n nd Hk Hnd) as (nd' & H1 & H2 & H3 & H4).
  by exists nd'.
Qed.

(** The two gates of [Examples.chain], cut and pasted. *)
Lemma cut_then_paste_witness :
  (cut [INode 1; INode 2] Examples.chain).2 = Returned
  ∧ in_scene (INode 1) (cut [INode 1; INode 2] Examples.chain).1 = false
  ∧ (paste_nodes (cut [INode 1; INode 2] Examples.chain).1).2 = true
  ∧ ∃ nd',
      heap (paste_nodes (cut [INode 1; INode 2] Examples.chain).1).1 !! 3
      = Some nd'
      ∧ cls nd' = OrGateNode.
Proof.
  destruct (cut_then_paste [INode 1; INode 2] Examples.chain chain_wf)
    as (H1 & H2 & H3 & H4); [done|].
  split; [exact H1|]. split; [apply H2; by left|]. split; [exact H3|].
  destruct (H4 0 1 _ eq_refl eq_refl) as (nd' & Hnd' & Hc & _).
  by exists nd'.
Defined.

(** * What a settled circuit shows *)

(** The Boolean function of the circuit at node [n]: an input node gives
    its value, a gate applies its operation to the functions of the nodes
    that feed its pins (the first wire of a pin counts, a pin without wire
    gives [False]), and an output node gives the function of the node that
    feeds it. [fuel] bounds the depth of the circuit. *)
Fixpoint circuit_value (fuel : nat) (h : list Node) (n : nat) : bool :=
  match fuel with
  | 0 => false
  | S f =>
      match h !! n with
      | None => false
      | Some nd =>
          let pin k :=
            match input_sockets nd !! k with
            | Some s =>
                match wires s with
                | w :: _ => circuit_value f h (parent_node (source_socket w))
                | [] => false
                end
            | None => false
            end in
          match cls nd with
          | InputNode => node_value nd
          | OutputNode => pin 0
          | AndGateNode => py_and (pin 0) (pin 1)
          | OrGateNode => py_or (pin 0) (pin 1)
          | NotGateNode => negb (pin 0)
          | NandGateNode => negb (py_and (pin 0) (pin 1))
          | NorGateNode => negb (py_or (pin 0) (pin 1))
          | XorGateNode => py_ne (pin 0) (pin 1)
          | XnorGateNode => py_eq (pin 0) (pin 1)
          end
      end
  end.

(** What a node shows: an output node the value [OutputNode.get_value]
    reads, any other node the value of its output socket. *)
Definition shown (h : list Node) (nd : Node) : bool :=
  match cls nd with
  | OutputNode => read_input h nd 0
  | _ =>
      match output_sockets nd with
      | s :: _ => value s
      | [] => false
      end
  end.

(** The node behind the first wire of an input pin. *)
Lemma read_input_wired (rk : nat → nat) (h : list Node) (n k : nat)
    (nd : Node) (s : Socket) (w : Wire) (l : list Wire) :
  wf_heap h → layout_ok h → ranked rk h →
  h !! n = Some nd → input_sockets nd !! k = Some s → wires s = w :: l →
  ∃ pd,
    h !! parent_node (source_socket w) = Some pd
    ∧ cls pd ≠ OutputNode
    ∧ source_value h w = shown h pd
    ∧ rk (parent_node (source_socket w)) < rk n.
Proof.
  intros Hwf Hlayout Hranked Hn Hk Hw.
  assert (w ∈ socket_wires h (mkRef n false k)) as Hin.
  { unfold socket_wires, get_socket. simpl. rewrite Hn. simpl.
    rewrite Hk, Hw. left. }
  destruct (wf_wire_ok h Hwf _ w Hin) as (Hso & _ & Hr & Hs & _).
  simpl in Hr.
  unfold socket_wires in Hs.
  destruct (get_socket h (source_socket w)) as [s'|] eqn:Hg;
    [|by apply elem_of_nil in Hs].
  unfold get_socket in Hg.
  destruct (h !! parent_node (source_socket w)) as [pd|] eqn:Hp; [|done].
  simpl in Hg. rewrite Hso in Hg. simpl in Hg.
  pose proof (Forall_lookup_1 _ _ _ _ Hlayout Hp) as [_ Hlen].
  pose proof (lookup_lt_Some _ _ _ Hg) as Hlt.
  assert (socket_index (source_socket w) = 0 ∧ cls pd ≠ OutputNode)
    as [Hi Hc].
  { rewrite Hlen in Hlt. destruct (cls pd); simpl in Hlt; split; try done;
      lia. }
  rewrite Hi in Hg.
  exists pd. split; [done|]. split; [done|]. split.
  - unfold source_value, get_socket. rewrite Hp. simpl. rewrite Hso. simpl.
    rewrite Hi, Hg. unfold shown.
    destruct (output_sockets pd) as [|s0 outs]; [done|].
    simpl in Hg. injection Hg as ->. by destruct (cls pd).
  - specialize (Hranked _ pd Hp). rewrite Forall_forall in Hranked.
    specialize (Hranked s' (list_elem_of_lookup_2 _ _ _ Hg)).
    rewrite Forall_forall in Hranked. specialize (Hranked w Hs).
    by rewrite Hr in Hranked.
Qed.

Lemma settled_shows (rk : nat → nat) (h : list Node) :
  wf_heap h → layout_ok h → ranked rk h → (∀ m, stable h m) →
  ∀ fuel n nd, rk n < fuel → h !! n = Some nd →
    shown h nd = circuit_value fuel h n.
Proof.
  intros Hwf Hlayout Hranked Hstable fuel.
  induction fuel as [|f IH]; intros n nd Hfuel Hn; [lia|].
  simpl. rewrite Hn.
  set (pin k :=
         match input_sockets nd !! k with
         | Some s =>
             match wires s with
             | w :: _ => circuit_value f h (parent_node (source_socket w))
             | [] => false
             end
         | None => false
         end).
  assert (∀ k, read_input h nd k = pin k) as Hpin.
  { intros k. unfold read_input, pin.
    destruct (input_sockets nd !! k) as [s|] eqn:Hk; [|done].
    destruct (wires s) as [|w l] eqn:Hw; [done|].
    destruct (read_input_wired rk h n k nd s w l Hwf Hlayout Hranked Hn Hk Hw)
      as (pd & Hp & _ & -> & Hlt).
    apply IH; [lia|done]. }
  pose proof (Hstable n) as Hst. unfold stable in Hst. rewrite Hn in Hst.
  pose proof (Forall_lookup_1 _ _ _ _ Hlayout Hn) as [_ Hlen].
  unfold shown. unfold output_value in Hst. rewrite !Hpin in Hst.
  destruct (cls nd) eqn:Hc; try apply Hpin;
    (destruct (output_sockets nd) as [|s0 outs]; [done|exact Hst]).
Qed.

(** X24. A settled acyclic circuit shows its Boolean function. In a
    well-formed store with an acyclic wiring in which every node is stable
    (its output socket holds what its [updateLogic] computes), each node
    shows the value of the Boolean function of the circuit at that node:
    gates and input nodes on their output socket, output nodes in the value
    they read. *)
Theorem settled_circuit_shows_its_function (rk : nat → nat) (h : list Node)
    (fuel n : nat) (nd : Node)
    (Hwf : wf_heap h) (Hlayout : layout_ok h) (Hranked : ranked rk h)
    (Hstable : ∀ m, stable h m)
    (Hfuel : rk n < fuel) (Hnode : h !! n = Some nd) :
  shown h nd = circuit_value fuel h n.
Proof.
  revert Hfuel Hnode. generalize fuel n nd.
  by apply (settled_shows rk).
Qed.

Lemma chain_stable (m : nat) : stable (heap Examples.chain) m.
Proof. by destruct m as [|[|[|m]]]. Qed.

(** The Not gate of [Examples.chain] shows the negation of the Or of the
    input and [False]. *)
Lemma settled_circuit_shows_its_function_witness :
  (value <$> get_socket (heap Examples.chain) (mkRef 2 true 0))
  = Some (circuit_value 3 (heap Examples.chain) 2).
Proof.
  pose proof (settled_circuit_shows_its_function (λ m, m `min` 2)
                (heap Examples.chain) 3 2 _ chain_wf chain_layout
                chain_ranked chain_stable ltac:(simpl; lia) eq_refl) as H.
  rewrite <-H. reflexivity.
Defined.

(** ** Toggling an input of a settled circuit *)

Lemma for_wires_shape (rec : nat → list Node → list Node * outcome)
    (ws : list Wire) (h : list Node) :
  (∀ n h0, shape (rec n h0).1 = shape h0) →
  shape (for_wires rec ws h).1 = shape h.
Proof.
  intros Hrec. apply (for_wires_inv (λ h', shape h' = shape h)); [done|].
  intros w h0 _ <-. apply Hrec.
Qed.

(** The store after a toggle: the new value of the input node, then the
    two propagation passes. *)
Lemma toggle_heap (fuel n : nat) (st : State) (nd : Node) (s0 : Socket)
    (outs : list Socket) :
  heap st !! n = Some nd → cls nd = InputNode →
  output_sockets nd = s0 :: outs →
  let h1 := alter (set_node_value (negb (node_value nd))) n (heap st) in
  let r2 := updateLogic (S fuel) n h1 in
  let r3 := for_wires (updateLogic fuel)
              (socket_wires r2.1 (mkRef n true 0)) r2.1 in
  toggle fuel n st
  = match r2.2 with
    | Done => (set_heap r3.1 st, r3.2)
    | RecursionError => (set_heap r2.1 st, RecursionError)
    end.
Proof.
  intros Hn Hc Ho h1 r2 r3. unfold toggle. rewrite Hn, Hc, Ho.
  fold h1.
  assert (updateValue fuel (mkRef n true 0) (negb (node_value nd)) h1 = r2)
    as ->.
  { unfold r2. simpl. unfold h1 at 2. rewrite list_lookup_alter_eq, Hn. simpl.
    unfold output_value. simpl. by rewrite Hc, Ho. }
  destruct r2 as [h2 []] eqn:E2; [|done]. cbn [fst snd] in *.
  unfold r3. by destruct (for_wires _ _ h2).
Qed.

(** X25. Toggling an input of a settled acyclic circuit. In a reachable
    state with an acyclic wiring in which every node is stable, the pass
    started by the click returns (with a recursion depth above the height of
    the ranking), it leaves every node stable, and afterwards every node
    shows the value of the Boolean function of the circuit for the new
    input values. *)
Theorem toggle_of_settled_circuit (rk : nat → nat) (R fuel n : nat)
    (st : State)
    (Hreach : reachable st)
    (Hbound : ∀ m, rk m ≤ R) (Hranked : ranked rk (heap st))
    (Hfuel : R < fuel)
    (Hstable : ∀ m, stable (heap st) m) :
  (toggle fuel n st).2 = Done
  ∧ (∀ m, stable (heap (toggle fuel n st).1) m)
  ∧ ∀ m nd,
      heap (toggle fuel n st).1 !! m = Some nd →
      shown (heap (toggle fuel n st).1) nd
      = circuit_value (S R) (heap (toggle fuel n st).1) m.
Proof.
  destruct (reachable_wf _ (reach_toggle fuel n st Hreach)) as [Hwf' Hlay'].
  destruct (reachable_wf _ Hreach) as [Hwf Hlay].
  cut ((toggle fuel n st).2 = Done
       ∧ (∀ m, stable (heap (toggle fuel n st).1) m)
       ∧ ranked rk (heap (toggle fuel n st).1)).
  { intros (Hd & Hs & Hr). split; [done|]. split; [done|].
    intros m nd Hm.
    apply (settled_shows rk _ Hwf' Hlay' Hr Hs (S R) m nd); [|done].
    specialize (Hbound m). lia. }
  clear Hwf' Hlay'.
  destruct (heap st !! n) as [nd|] eqn:Hn;
    [|by unfold toggle; rewrite Hn].
  destruct (decide (cls nd = InputNode)) as [Hc|Hc];
    [|by unfold toggle; rewrite Hn; destruct (cls nd)].
  destruct (output_sockets nd) as [|s0 outs] eqn:Ho.
  { pose proof (Forall_lookup_1 _ _ _ _ Hlay Hn) as [_ Hlen].
    rewrite Ho, Hc in Hlen. done. }
  rewrite (toggle_heap fuel n st nd s0 outs Hn Hc Ho). cbv zeta.
  set (h1 := alter (set_node_value (negb (node_value nd))) n (heap st)).
  assert (ranked rk h1) as Hr1 by by apply ranked_alter_node.
  assert (∀ r, get_socket h1 r = get_socket (heap st) r) as Hget
    by (intros r; by apply get_socket_alter_node).
  assert (linked h1) as Hl1.
  { apply (linked_same_wires (heap st)); [|by apply wf_linked].
    intros r. unfold socket_wires. by rewrite Hget. }
  assert (∀ m, m ≠ n → stable h1 m) as Hs1.
  { intros m Hne. specialize (Hstable m). unfold stable in *.
    assert (h1 !! m = heap st !! m) as ->
      by (unfold h1; by rewrite list_lookup_alter_ne).
    destruct (heap st !! m) as [ndm|]; [|done].
    by rewrite (output_value_ext (heap st) _ ndm Hget). }
  destruct (updateLogic_ranked rk R Hbound (S fuel) n h1 Hr1) as [Hd2 _];
    [lia|].
  pose proof (updateLogic_stable (S fuel) n h1 (λ _, False) Hl1) as Hs2.
  pose proof (updateLogic_shape (S fuel) n h1) as Hsh2.
  destruct (updateLogic (S fuel) n h1) as [h2 o2]. cbn [fst snd] in *.
  subst o2.
  assert (ranked rk h2) as Hr2 by by apply (ranked_shape rk h1).
  assert (linked h2) as Hl2 by by apply (linked_shape h1).
  assert (∀ m, stable h2 m) as Hst2.
  { intros m. apply Hs2; [|done|by intros []].
    intros x _ Hne. by apply Hs1. }
  destruct (for_wires_done (ranked rk) (updateLogic fuel)
              (socket_wires h2 (mkRef n true 0)) h2 Hr2) as [Hr3 Hd3].
  { intros w h0 _ Hr0.
    destruct (updateLogic_ranked rk R Hbound fuel
                (parent_node (target_socket w)) h0 Hr0) as [Hd0 _]; [lia|].
    split; [|done].
    apply (ranked_shape rk h0); [|done].
    symmetry. apply updateLogic_shape. }
  pose proof (for_wires_stable (updateLogic fuel) (updateLogic_shape fuel)
                (updateLogic_stable fuel)
                (socket_wires h2 (mkRef n true 0)) h2 (λ _, False) Hl2)
    as Hs3.
  destruct (for_wires (updateLogic fuel) _ h2) as [h3 o3].
  cbn [fst snd] in *. subst o3.
  split; [done|]. split; [|done].
  intros m. apply Hs3; [|done|by intros []].
  intros x _ _. apply Hst2.
Qed.

Lemma toggle_of_settled_circuit_witness :
  (toggle 3 0 Examples.chain).2 = Done
  ∧ (value <$> get_socket (heap (toggle 3 0 Examples.chain).1)
                          (mkRef 2 true 0))
    = Some (circuit_value 3 (heap (toggle 3 0 Examples.chain).1) 2).
Proof.
  destruct (toggle_of_settled_circuit (λ m, m `min` 2) 2 3 0 Examples.chain
              chain_reachable (λ m, Nat.le_min_r m 2) chain_ranked
              ltac:(lia) chain_stable) as (H1 & _ & H3).
  split; [exact H1|].
  pose proof (H3 2 _ eq_refl) as H. rewrite <-H. reflexivity.
Defined.

(** ** Evaluation on an acyclic wiring *)







(** ** Evaluation and the stored values *)

Section SmallWrites.
Context (I : list Small.Node → Prop).
Context (Hset : ∀ n v h, I h →
                  I (Small.alter_socket (set_value v) (mkRef n true 0) h)).

End SmallWrites.












(** ** The value files *)




(** * Connecting, then deleting the new wire *)

(** X29. Connect, then delete the wire just made. In a reachable state,
    after an output pin was connected to an input pin of another node and
    the new wire was deleted again, every socket holds the wires it held
    before the connect except those the connect evicted from the target
    pin: the wiring is as before when the target pin was free, and the wire
    that occupied it does not come back when it was not. *)
Theorem connect_then_delete_wire (fuel : nat) (src tgt : SocketRef)
    (st : State)
    (Hreach : reachable st)
    (Hsrc : is_output src = true) (Htgt : is_output tgt = false)
    (Hnodes : parent_node src ≠ parent_node tgt)
    (Hs : is_Some (get_socket (heap st) src))
    (Ht : is_Some (get_socket (heap st) tgt)) :
  (∀ r,
     socket_wires
       (heap (delete_selected_items [IWire (mkWire (wire_count st) src tgt)]
                (mouseReleaseEvent fuel src [tgt] st).1)) r
     = filter (λ v, v ∉ socket_wires (heap st) tgt)
              (socket_wires (heap st) r))
  ∧ (socket_wires (heap st) tgt = [] →
     ∀ r,
       socket_wires
         (heap (delete_selected_items [IWire (mkWire (wire_count st) src tgt)]
                  (mouseReleaseEvent fuel src [tgt] st).1)) r
       = socket_wires (heap st) r).
Proof.
  set (w := mkWire (wire_count st) src tgt).
  pose proof (reachable_invariant st Hreach) as (Hwf & _ & Hids & _).
  assert (Forall (λ r, is_Some (get_socket (heap st) r)) [tgt]) as Hitems
    by (by constructor).
  pose proof (reachable_wf _ (reach_connect fuel src [tgt] st Hreach Hs Hitems))
    as [Hwf2 _].
  assert (∀ r, socket_wires (heap (mouseReleaseEvent fuel src [tgt] st).1) r
               = filter (λ v, v ∉ socket_wires (heap st) tgt)
                        (socket_wires (heap st) r)
                 ++ (if decide (r = src ∨ r = tgt) then [w] else [])) as Hw2.
  { intros r.
    transitivity (socket_wires (heap (connect src tgt st).2) r);
      [|by apply connect_wires].
    cbn [mouseReleaseEvent].
    rewrite bool_decide_eq_false_2 by (intros ->; congruence).
    unfold endpoints. rewrite Hsrc, Htgt. cbn [andb negb].
    rewrite bool_decide_eq_false_2 by done.
    destruct (connect src tgt st) as [w' st1]. cbn [fst snd].
    pose proof (updateLogic_shape fuel (parent_node tgt) (heap st1)) as Hsh.
    destruct (updateLogic fuel (parent_node tgt) (heap st1)) as [h2 o].
    cbn [fst snd heap set_heap] in *. by apply socket_wires_shape. }
  set (st2 := (mouseReleaseEvent fuel src [tgt] st).1) in *.
  assert (∀ r, socket_wires (heap (delete_selected_items [IWire w] st2)) r
               = filter (λ v, v ∉ socket_wires (heap st) tgt)
                        (socket_wires (heap st) r)) as Hmain.
  { intros r. rewrite delete_selected_wire.
    set (st3 := take_out_item _ _).
    assert (heap st3 = heap st2) as Hh
      by (unfold st3, take_out_item; destruct (in_scene _ _); reflexivity).
    assert (w ∈ socket_wires (heap st2) src) as Hreg.
    { rewrite Hw2. rewrite decide_True by by left.
      apply elem_of_app. right. left. }
    assert (wf_heap (heap st3)) as Hwf3 by by rewrite Hh.
    rewrite Wire_remove_registry;
      [|done|rewrite Hh; by apply (wf_genuine _ src)].
    rewrite Hh, Hw2, filter_app.
    assert (filter (λ v, v ≠ w)
              (if decide (r = src ∨ r = tgt) then [w] else []) = []) as ->.
    { case_decide; [|done]. by rewrite filter_cons_False by (by intros ?). }
    rewrite app_nil_r. apply filter_all.
    intros v Hv ->. apply list_elem_of_filter in Hv as [_ Hv].
    assert (wire_id w < wire_count st) as Hlt by (apply Hids; by exists r).
    simpl in Hlt. lia. }
  split; [exact Hmain|].
  intros Hfree r. rewrite Hmain, Hfree. apply filter_all.
  intros v _. apply not_elem_of_nil.
Qed.

(** In [Examples.chain] the input is also wired to the free second pin of
    the Or gate, and that wire is deleted. *)
Lemma connect_then_delete_wire_witness :
  socket_wires
    (heap (delete_selected_items
             [IWire (mkWire (wire_count Examples.chain)
                            (mkRef 0 true 0) (mkRef 1 false 1))]
             (mouseReleaseEvent 10 (mkRef 0 true 0) [mkRef 1 false 1]
                                Examples.chain).1))
    (mkRef 0 true 0)
  = socket_wires (heap Examples.chain) (mkRef 0 true 0).
Proof.
  destruct (connect_then_delete_wire 10 (mkRef 0 true 0) (mkRef 1 false 1)
              Examples.chain chain_reachable eq_refl eq_refl)
    as [_ H]; [simpl; lia|by eexists|by eexists|].
  by apply H.
Defined.

(** * Undo of a creation after wiring *)

Lemma create_node_effect (node_id : string) (p : Z * Z) (st : State)
    (c : NodeClass) :
  class_of_node_id node_id = Some c →
  stack (create_node node_id p st).2
  = (take (undo_index st) (undo_cmds st)
     ++ [AddNodeCommand (length (heap st))], S (undo_index st))
  ∧ wire_count (create_node node_id p st).2 = wire_count st
  ∧ length (heap (create_node node_id p st).2) = S (length (heap st))
  ∧ ∃ nd, heap (create_node node_id p st).2 !! length (heap st) = Some nd
          ∧ length (input_sockets nd) = n_inputs c.
Proof.
  intros Hid. unfold create_node. rewrite Hid. unfold alloc. cbn [fst snd].
  set (st3 := set_heap _ (addItem _ _)).
  assert (heap st3
          = alter (set_pos (p.1 - 75, p.2 - 60)%Z) (length (heap st))
              (heap st ++ [new_node c false])) as Hh.
  { unfold st3. cbn [heap set_heap]. by rewrite heap_addItem. }
  split; [|split; [|split]].
  - rewrite stack_push. unfold st3.
    change (undo_index (set_heap _ ?s)) with (undo_index s).
    change (undo_cmds (set_heap _ ?s)) with (undo_cmds s).
    pose proof (stack_addItem (INode (length (heap st)))
                  (set_heap (heap st ++ [new_node c false]) st)) as Hs.
    injection Hs as -> ->. done.
  - unfold push. 
    assert (∀ cmd s, wire_count (cmd_redo (AddNodeCommand cmd) s)
                     = wire_count s) as Hr.
    { intros cmd s. simpl. unfold addItem. by repeat case_match. }
    rewrite Hr. unfold st3. cbn [wire_count set_undo set_heap].
    unfold addItem. by case_match.
  - unfold push. rewrite heap_cmd_redo. cbn [heap set_undo]. rewrite Hh.
    rewrite length_alter, length_app. simpl. lia.
  - unfold push. rewrite heap_cmd_redo. cbn [heap set_undo]. rewrite Hh.
    rewrite alter_last. eexists. split; [by apply list_lookup_middle|].
    simpl. by rewrite length_replicate.
Qed.

(** X30. Undo of a node creation after the node was wired leaves the wire
    behind. Connecting pins is not recorded on the undo stack, so after a
    node was created and an output pin of an older node was connected to
    one of its input pins, undo reverts the creation: the new node leaves
    the scene, while the wire to it stays in the scene and stays registered
    at the source pin. *)
Theorem undo_of_creation_leaves_wire (node_id : string) (p : Z * Z)
    (fuel i : nat) (src : SocketRef) (st : State) (c : NodeClass)
    (Hreach : reachable st)
    (Hid : class_of_node_id node_id = Some c)
    (Hsrc : is_output src = true)
    (Hs : is_Some (get_socket (heap st) src))
    (Hpin : i < n_inputs c) :
  let n := length (heap st) in
  let w := mkWire (wire_count st) src (mkRef n false i) in
  let st2 := (mouseReleaseEvent fuel src [mkRef n false i]
                (create_node node_id p st).2).1 in
  in_scene (INode n) (undo st2) = false
  ∧ in_scene (IWire w) (undo st2) = true
  ∧ w ∈ socket_wires (heap (undo st2)) src.
Proof.
  intros n w st2.
  set (st1 := (create_node node_id p st).2) in *.
  set (tgt := mkRef n false i) in *.
  destruct (create_node_effect node_id p st c Hid)
    as (Hstack1 & Hwc1 & Hlen1 & nd & Hnd & Hin).
  fold st1 n in Hstack1, Hwc1, Hlen1, Hnd.
  pose proof (reachable_stack_index st Hreach) as Hidx.
  pose proof (reach_create_node node_id p st Hreach) as Hreach1.
  fold st1 in Hreach1.
  destruct (reachable_wf _ Hreach1) as [Hwf1 _].
  assert (parent_node src < n) as Hlt.
  { destruct Hs as [s Hs]. unfold get_socket in Hs.
    destruct (heap st !! parent_node src) eqn:E; [|done].
    by apply lookup_lt_Some in E. }
  assert (is_Some (get_socket (heap st1) src)) as Hs1.
  { destruct Hs as [s Hs]. unfold get_socket in Hs.
    destruct (heap st !! parent_node src) as [nd0|] eqn:E; [|done].
    unfold st1, create_node. rewrite Hid. unfold alloc. cbn [fst snd].
    unfold push. unfold get_socket. rewrite heap_cmd_redo.
    cbn [heap set_undo set_heap]. rewrite heap_addItem. cbn [heap set_heap].
    rewrite list_lookup_alter_ne by (fold n; lia).
    rewrite lookup_app_l by (fold n; lia). rewrite E. simpl. by eexists. }
  assert (is_Some (get_socket (heap st1) tgt)) as Ht1.
  { unfold get_socket, tgt. simpl. rewrite Hnd. simpl.
    apply lookup_lt_is_Some. lia. }
  assert (stack st2 = stack st1) as Hstack2
    by apply stack_mouseReleaseEvent.
  assert (st2 = (let '(_, s) := connect src tgt st1 in
                 let '(h, o) := updateLogic fuel (parent_node tgt) (heap s) in
                 (set_heap h s, o)).1) as Hst2.
  { unfold st2. cbn [mouseReleaseEvent].
    rewrite bool_decide_eq_false_2 by (intros E; by rewrite <-E in Hsrc).
    unfold endpoints. rewrite Hsrc. cbn [tgt is_output andb negb].
    rewrite bool_decide_eq_false_2 by (simpl; lia). done. }
  assert (in_scene (IWire w) st2 = true
          ∧ ∀ r, socket_wires (heap st2) r
                 = socket_wires (heap (connect src tgt st1).2) r) as [Hsc2 Hw2].
  { rewrite Hst2.
    assert (in_scene (IWire w) (connect src tgt st1).2 = true) as Hc.
    { unfold connect. set (s0 := if _ && _ then _ else st1).
      assert (wire_count s0 = wire_count st) as Hw0.
      { unfold s0. destruct (_ && _); [|done].
        rewrite <-Hwc1. apply remove_wires_keeps. }
      unfold Wire_init. cbn [fst snd]. rewrite Hw0. fold w.
      apply in_scene_addItem. }
    destruct (connect src tgt st1) as [w' s]. cbn [fst snd] in *.
    pose proof (updateLogic_shape fuel (parent_node tgt) (heap s)) as Hsh.
    destruct (updateLogic fuel (parent_node tgt) (heap s)) as [h2 o].
    cbn [fst snd heap set_heap] in *. split; [done|].
    intros r. by apply socket_wires_shape. }
  assert (w ∈ socket_wires (heap st2) src) as Hreg.
  { rewrite Hw2, (connect_wires st1 src tgt Hwf1 Hsrc eq_refl Hs1 Ht1).
    rewrite decide_True by by left. rewrite Hwc1.
    apply elem_of_app. right. left. }
  injection Hstack2 as Hcmds2 Hindex2. injection Hstack1 as Hcmds1 Hindex1.
  assert (undo st2
          = removeItem (INode n)
              (set_undo (undo_cmds st2) (undo_index st) st2)) as Hundo.
  { unfold undo. rewrite Hindex2, Hindex1, Hcmds2, Hcmds1.
    by rewrite lookup_take_snoc. }
  rewrite Hundo. split; [|split].
  - rewrite in_scene_removeItem, same_item_refl. apply andb_false_r.
  - rewrite in_scene_removeItem. simpl. rewrite andb_true_r. exact Hsc2.
  - exact Hreg.
Qed.

(** A Not gate is added to [Examples.chain] and fed from the Or gate; the
    creation is then undone. *)
Lemma undo_of_creation_leaves_wire_witness :
  in_scene (INode 3)
    (undo (mouseReleaseEvent 10 (mkRef 1 true 0) [mkRef 3 false 0]
             (create_node "NOT" (300, 300)%Z Examples.chain).2).1) = false
  ∧ in_scene (IWire (mkWire 2 (mkRef 1 true 0) (mkRef 3 false 0)))
      (undo (mouseReleaseEvent 10 (mkRef 1 true 0) [mkRef 3 false 0]
               (create_node "NOT" (300, 300)%Z Examples.chain).2).1) = true.
Proof.
  destruct (undo_of_creation_leaves_wire "NOT" (300, 300)%Z 10 0
              (mkRef 1 true 0) Examples.chain NotGateNode chain_reachable
              eq_refl eq_refl) as (H1 & H2 & _);
    [by eexists|simpl; lia|].
  split; [exact H1|exact H2].
Defined.
